(* ===== verification/_CoqProject ===== *)
-Q . S2P
Prelude.v
GoRegexp.v
JsonScan.v
Utf8.v
JsonText.v
JsonRoundtrip.v
JsonValues.v
Sha256.v
Model.v
Json.v
Db.v
Store.v
StoreSteps.v
Lifecycle.v
StoreTheorems.v
Crypto.v
CryptoExample.v
CryptoTheorems.v
Transport.v
Secure.v
Tcp.v
Brokers.v
BrokerSubs.v
Server.v
ServerTheorems.v
Shard.v
ShardBackends.v
SqlText.v
ShardTheorems.v
Startup.v
Cluster.v
ClusterTheorems.v
Replication.v
Dpop.v
DpopTheorems.v
Quic.v
Federation.v
Grpc.v
GrpcStream.v
Http.v
HttpTheorems.v
WorkCycle.v
Daemon.v
DaemonTheorems.v
DaemonRun.v
Provenance.v
Adapter.v
