(* ===== verification/Prelude.v ===== *)
(** * The UbiQ Go runtime: a verification library

    UbiQ is a message runtime.  A control server accepts events over HTTP,
    WebSockets and transports, stores them durably, leases them to workers and
    records how they were settled; transports (memory, TCP, QUIC, gRPC, NATS,
    Kafka, RabbitMQ, Redis Streams, MQTT) carry envelopes between processes, each
    wrapped so that every envelope is signed and every signature checked; a shard
    coordinator moves key ranges between stores while clients write; a Raft group
    holds the membership from which replicas are placed.  This library models the
    Go implementation (src/runtime/go and src/generated/go) and proves what those
    parts promise each other and their users.

    ** Files, and the code they model

    - Prelude: Go errors and results, effects as state passing, machine integers,
      time, strings; tactics and lemmas shared by all files.
    - GoRegexp, JsonScan, Utf8, JsonText, JsonRoundtrip, JsonValues, Sha256: what
      the program uses of the Go standard library.  The [encoding/json] scanner
      state machine, string literals with their escapes, numbers, base64, struct
      and map decoding with case folding, stream decoding; [regexp] by
      derivatives; SHA-256.  All of it runs.
    - Model, Json: model.go.  Envelopes, canonical event names, validation,
      digests, leases, control frames, and their JSON text.
    - Db, Store, StoreSteps, Lifecycle, StoreTheorems, Startup: store.go.  [database/sql]
      with failures at every call; every statement of [ControlStore] as a function
      on the four tables; every operation; the sequences of calls as steps; the
      abstract lifecycle of an event; the schema scripts over a database file,
      opening, closing and crashing.
    - Crypto, CryptoExample, CryptoTheorems: crypto.go.  Hybrid signatures,
      sessions with their key buffers, sealing, proofs of possession, the replay
      cache, over abstract primitives.
    - Transport: transport.go and the handler tables the adapters share; the
      memory transport of transports_broker.go.
    - Secure: secure_transport.go.
    - Tcp, Quic, Grpc, GrpcStream, Brokers, BrokerSubs: tcp.go, quic.go, grpc.go,
      transports_broker.go.  Constructors, what is written, what is made of what
      arrives, what is acknowledged; the consumers that subscribing and closing
      leave at a broker.
    - Federation: two daemons composed of the parts above, with the link between
      them as an interface that TCP and the broker adapters implement.
    - Server, ServerTheorems, Http, HttpTheorems, WorkCycle: server.go.  Hub,
      ingestion, handlers, maintenance; routing, event streams, WebSocket
      sessions; one event's way through the interface.
    - Shard, ShardBackends, SqlText, ShardTheorems: shard.go, shard_sql.go,
      shard_mongo.go.  The coordinator over its table, the backend interface with
      its laws, the two backends, the texts of the SQL statements with a reference
      reader.
    - Cluster, ClusterTheorems, Replication: cluster_raft.go.  The replicated state
      machine with its texts, membership, reaping, rendezvous placement; replicated
      operations in the stores of the replicas.
    - Dpop, DpopTheorems: dpop.go.
    - Daemon, DaemonTheorems, DaemonRun: cmd/ubiqd/main.go.  Environment, TLS
      profiles, trust file, registration, the DPoP middleware, [main] from opening
      the store to its deferred calls.
    - Provenance: the daemon [main] starts as one machine over everything that
      comes in (requests, WebSocket messages, deliveries, ticks, failures).
    - Adapter: generated/go/universal_adapter.go.

    Definitions keep the names of the code; where one function of the code is
    several definitions, the doc comments say which part each is.

    ** How the code is represented

    A function with an error result returns [result]; stateful code is a function
    on an explicit state ([io W A]), so that the order of effects and every early
    return are visible.  Integers are in [Z], with wrap-around written out ([int64],
    [uint64], [uint32]) where the code can overflow.  Times are nanoseconds; a call
    that reads the clock takes the reading as an argument.  Code that is not in the
    repository is a parameter: database drivers ([faults] in Db), cryptography
    ([Primitives] and [PrimitiveLaws]), [sort.Slice] ([SortSlice]), Raft ([RaftNode]
    and [RaftLaws]), JOSE ([Jose] and [JoseLaws]), RPC ([UnaryCall]), shard stores
    ([StoreLaws], discharged for both backends), links between daemons ([LinkLaws],
    discharged for TCP and the brokers), brokers and sockets (outcomes as
    arguments).  Each law is documented behaviour of that code, and each class has
    an instance on which the closed examples run.

    Map iteration, which Go leaves open, is an argument that ranges over the
    permutations of the map.  Concurrency is interleaving: the store's statements
    and transactions are atomic steps of one connection ([StoreSteps]), a backfill
    step is split where other writers can come between ([backfill_export],
    [backfill_finish]), streams and sessions take the list of turns of the
    goroutines around them.

    ** What the theorems show

    - Store: every step refines the lifecycle; tables stay well formed under any
      calls and failures; settling is atomic and final; a worker whose event was
      granted anew is fenced off; publishing is idempotent; claims are granted in
      order and reach every event; expired leases and the outbox are handled
      exactly; what was acknowledged survives crashes and half-failed openings.
    - Security: what is signed is what is verified, end to end through the JSON
      text; the application sees nothing unauthenticated; proofs are accepted once;
      both ends of a session derive the same key; key buffers are wiped on every
      path; behind the DPoP middleware nothing changes without a fresh proof for
      that very request (streams and sessions up to their end), and one proof serves
      one request; a daemon started securely is protected throughout, and starting
      never harms what is stored.
    - Composition: every event, lease and settlement in a daemon's store traces
      back to an authenticated request or delivery; between two daemons every event
      of the sender was taken by the transport or waits in the outbox, the receiver
      has only events of the sender, however posts, ticks, failures, workers and
      deliveries interleave, and what has arrived can be taken in.  Whether what a
      transport took arrives is not promised: a TCP write and a publication without
      confirms do not tell.
    - Transports: what is published is received whole or not at all (TCP, QUIC),
      with a result that says which handlers were called (gRPC), in order over a
      stream (gRPC subscribers), or is settled with the broker by what its handler
      did, adapter by adapter; handler tables refine their list of subscriptions;
      malformed input is never dispatched; consumers at a broker stay in step with
      subscriptions, but for the exceptions named.
    - Server: a new event is stored, shown to live subscribers, and forwarded or
      queued; a maintenance tick drains the queue; an event stream delivers in
      order, without forgery; a WebSocket session ingests what it reads, in order; a
      posted event can be claimed, reported and settled by requests as texts.
    - Shards: migrations follow their state machine; a backfill of a quiet range
      ends with a document for every key; while clients write (with the restrictions
      stated there for writes between the export and the import of a batch) a
      migration that reaches verification has equal ranges; the SQL texts mean the
      statements that the backend is proved with, whatever safe names are put into
      them.
    - Cluster: any log keeps the state well typed; a snapshot and the rest of the
      log lead where the whole log leads; placement is the rendezvous choice and
      moves as little as possible; joining is exact; a replicated operation takes
      effect at most once on a replica, however often it is sent, and a call that
      reports success has its operation there.

    Theorems that show the code falling short of its intent are kept beside the
    others, and say so in their comments.

    ** Fuel

    Recursion that is not structural takes fuel, always the length of the text it
    consumes (each round takes at least one byte): [unquote_fuel], [members_fuel],
    [elements_fuel], [trim_left], the frames of [Tcp.handleConn], the lists of the SQL
    reader ([SqlText.more], by tokens).  Lemmas show that
    more fuel changes nothing, or that the round trip succeeds with this much.  The
    termination of the backfill loop is a theorem, not fuel.

    ** Not modelled

    Key columns of shards that are not text compared byte by byte; files and sockets beyond the outcomes of their calls, flag parsing, signal
    delivery and logging; the texts of the control store's and the coordinator's SQL
    statements, which are constants (what they do is modelled); accessors that
    only return a field or pass a call on; the Raft library; goroutine scheduling beyond the interleavings above; data races
    inside a library.  The Zig runtime, the generators, the schemas and the
    interfaces generated for other languages are not Go code and are left out. *)

From Stdlib Require Import ZArith Lia Ascii String Sorted.
From stdpp Require Import base decidable option list gmap strings sorting.

#[global] Set Default Goal Selector "!".

(** ** Go errors *)

(** An [error] value.  Sentinels are compared by identity ([errors.Is]) and are
    therefore constructors; [errors.New] and [fmt.Errorf] keep the format and
    the arguments unrendered; [ErrExternal] is an error handed over by code that
    is not part of the repository (a driver, a network, a broker). *)
Inductive error :=
| ErrNothingAvailable
| ErrStaleLease
| ErrInvalidTransition
| ErrNoRows
| ErrNew (msg : string)
| ErrFmt (fmt : string) (args : list string)
| ErrExternal (code : N).

#[global] Instance error_eq_dec : EqDecision error.
Proof. solve_decision. Defined.

(** Go's [(A, error)] pair, of which one side is meaningful. *)
Inductive result (A : Type) :=
| Ok (a : A)
| Err (e : error).
Arguments Ok {A} a.
Arguments Err {A} e.

#[global] Instance result_eq_dec `{EqDecision A} : EqDecision (result A).
Proof. solve_decision. Defined.

Definition is_ok {A} (r : result A) : bool :=
  match r with Ok _ => true | Err _ => false end.

(** The zero value a Go callee leaves beside a non-nil error. *)
Definition value_or {A} (d : A) (r : result A) : A :=
  match r with Ok a => a | Err _ => d end.

Declare Scope go_scope.
Delimit Scope go_scope with go.
Open Scope go_scope.

(** [x, err := m; if err != nil { return err }; k]. *)
Notation "'try' x := m 'in' k" :=
  (match m with Ok x => k | Err e => Err e end)
  (at level 10, x pattern, m at level 100, k at level 200) : go_scope.

(** ** Effects: explicit state passing over a world [W] *)

Definition io (W A : Type) : Type := W → A * W.

Definition io_ret {W A} (a : A) : io W A := λ w, (a, w).
Definition io_bind {W A B} (m : io W A) (k : A → io W B) : io W B :=
  λ w, let (a, w') := m w in k a w'.

(** [x := m; k]: the callee's value, error included, is inspected by [k]. *)
Notation "'do' x <- m ; k" := (io_bind m (λ x, k))
  (at level 10, x pattern, m at level 100, k at level 200) : go_scope.

(** [x, err := m; if err != nil { return err }; k]. *)
Notation "'try' x <- m ; k" :=
  (io_bind m (λ r, match r with Ok x => k | Err e => io_ret (Err e) end))
  (at level 10, x pattern, m at level 100, k at level 200) : go_scope.

(** ** Machine integers: values kept in [Z], wrap-around written out. *)

Definition two63 : Z := 9223372036854775808.
Definition two64 : Z := 18446744073709551616.
Definition two32 : Z := 4294967296.

Definition int64 (z : Z) : Z := (z + two63) `mod` two64 - two63.
Definition uint64 (z : Z) : Z := z `mod` two64.
Definition uint32 (z : Z) : Z := z `mod` two32.

Definition int64_range (z : Z) : Prop := (- two63 ≤ z < two63)%Z.
Definition uint64_range (z : Z) : Prop := (0 ≤ z < two64)%Z.

(** ** [time]: instants in nanoseconds since the Unix epoch, [Duration] an int64
    count of nanoseconds. *)

Definition Millisecond : Z := 1000000.
Definition Second : Z := 1000000000.
Definition Minute : Z := 60 * Second.

Definition UnixMilli (t : Z) : Z := int64 (t `div` Millisecond).
Definition Unix (t : Z) : Z := int64 (t `div` Second).
(** [time.UnixMilli(ms)] and [time.Unix(s, 0)]. *)
Definition of_UnixMilli (ms : Z) : Z := ms * Millisecond.
Definition of_Unix (s : Z) : Z := s * Second.
(** [Duration.Milliseconds] truncates towards zero. *)
Definition Milliseconds (d : Z) : Z := d `quot` Millisecond.
(** [Time.Sub] saturates at the ends of the [Duration] range. *)
Definition Sub (t u : Z) : Z := Z.max (- two63) (Z.min (two63 - 1) (t - u)).

(** ** Strings: Go's [<=] and SQLite's BINARY collation, both bytewise. *)

Definition str_le (s1 s2 : string) : Prop := String.leb s1 s2 = true.
Definition str_lt (s1 s2 : string) : Prop := String.ltb s1 s2 = true.

#[global] Instance str_le_dec : RelDecision str_le := λ s1 s2, decide (String.leb s1 s2 = true).
#[global] Instance str_lt_dec : RelDecision str_lt := λ s1 s2, decide (String.ltb s1 s2 = true).

(** ** Generic list operations *)

(** The first minimum of a list under a decidable relation
    ([ORDER BY ... LIMIT 1]). *)
Fixpoint list_min {A} (R : relation A) `{!RelDecision R} (l : list A) : option A :=
  match l with
  | [] => None
  | x :: l' =>
      match list_min R l' with
      | None => Some x
      | Some y => Some (if decide (R x y) then x else y)
      end
  end.

Definition pairs_with {A} (P : A → Prop) `{!∀ a, Decision (P a)} (m : gmap string A)
  : list (string * A) :=
  filter (λ kv, P kv.2) (map_to_list m).

(** * Lemmas *)

Create HintDb ubiq.

(** Case analysis on everything a goal or hypothesis still matches on. *)
Ltac split_match :=
  repeat match goal with
  | H : context [match ?x with _ => _ end] |- _ => destruct x eqn:?; simplify_eq/=
  | |- context [match ?x with _ => _ end] => destruct x eqn:?; simplify_eq/=
  end.

(** Turn the boolean guards of the code into propositions. *)
Ltac bool_prop :=
  repeat match goal with
  | H : (_ && _) = true |- _ => apply andb_true_iff in H as [??]
  | H : (_ || _) = false |- _ => apply orb_false_iff in H as [??]
  | H : bool_decide _ = true |- _ => apply bool_decide_eq_true in H
  | H : bool_decide _ = false |- _ => apply bool_decide_eq_false in H
  | H : (_ <=? _)%Z = true |- _ => apply Z.leb_le in H
  | H : (_ <=? _)%Z = false |- _ => apply Z.leb_gt in H
  | H : (_ <? _)%Z = true |- _ => apply Z.ltb_lt in H
  | H : (_ <? _)%Z = false |- _ => apply Z.ltb_ge in H
  | H : negb _ = true |- _ => apply negb_true_iff in H
  | H : negb _ = false |- _ => apply negb_false_iff in H
  end.

(** ** Integers *)

Lemma int64_id z : int64_range z → int64 z = z.
Proof.
  unfold int64_range, int64, two63, two64. intros H.
  rewrite Z.mod_small; lia.
Qed.

Lemma int64_bounds z : int64_range (int64 z).
Proof.
  unfold int64_range, int64, two63, two64.
  pose proof (Z.mod_pos_bound (z + 9223372036854775808) 18446744073709551616). lia.
Qed.

Lemma uint64_id z : uint64_range z → uint64 z = z.
Proof. unfold uint64_range, uint64. intros H. by apply Z.mod_small. Qed.

Lemma uint64_bounds z : uint64_range (uint64 z).
Proof. unfold uint64_range, uint64. apply Z.mod_pos_bound. done. Qed.

Lemma uint32_id z : (0 ≤ z < two32)%Z → uint32 z = z.
Proof. intros H. by apply Z.mod_small. Qed.

(** ** Strings *)

Lemma str_compare_refl s : String.compare s s = Eq.
Proof.
  pose proof (String.compare_antisym s s) as H.
  by destruct (String.compare s s).
Qed.

Lemma ascii_compare_lt_trans a b c :
  Ascii.compare a b = Lt → Ascii.compare b c = Lt → Ascii.compare a c = Lt.
Proof. unfold Ascii.compare. rewrite !N.compare_lt_iff. lia. Qed.

Lemma str_compare_lt_trans s1 s2 s3 :
  String.compare s1 s2 = Lt → String.compare s2 s3 = Lt → String.compare s1 s3 = Lt.
Proof.
  revert s2 s3. induction s1 as [|a1 s1 IH]; intros [|a2 s2] [|a3 s3]; simpl; try done.
  destruct (Ascii.compare a1 a2) eqn:E12; try done.
  - apply Ascii.compare_eq_iff in E12 as ->.
    destruct (Ascii.compare a2 a3) eqn:E23; try done. apply IH.
  - intros _. destruct (Ascii.compare a2 a3) eqn:E23; try done.
    + apply Ascii.compare_eq_iff in E23 as ->. by rewrite E12.
    + by rewrite (ascii_compare_lt_trans _ _ _ E12 E23).
Qed.

Lemma str_lt_irrefl s : ¬ str_lt s s.
Proof. unfold str_lt, String.ltb. by rewrite str_compare_refl. Qed.

Lemma str_le_lt_or_eq s1 s2 : str_le s1 s2 ↔ str_lt s1 s2 ∨ s1 = s2.
Proof.
  unfold str_le, str_lt, String.leb, String.ltb. split.
  - destruct (String.compare s1 s2) eqn:E; intros H; try done; [right|by left].
    by apply String.compare_eq_iff.
  - intros [H| ->]; [by destruct (String.compare s1 s2)|by rewrite str_compare_refl].
Qed.

#[global] Instance str_lt_trans : Transitive str_lt.
Proof.
  intros s1 s2 s3. unfold str_lt, String.ltb.
  destruct (String.compare s1 s2) eqn:E1; try done.
  destruct (String.compare s2 s3) eqn:E2; try done.
  by rewrite (str_compare_lt_trans _ _ _ E1 E2).
Qed.

#[global] Instance str_le_refl : Reflexive str_le.
Proof. intros s. apply str_le_lt_or_eq. by right. Qed.

#[global] Instance str_le_trans : Transitive str_le.
Proof.
  intros s1 s2 s3. rewrite !str_le_lt_or_eq. intros [H1| ->] [H2| ->]; try by eauto.
  left. by trans s2.
Qed.

#[global] Instance str_le_antisymm : AntiSymm (=) str_le.
Proof. intros s1 s2. apply String.leb_antisym. Qed.

#[global] Instance str_le_total : Total str_le.
Proof. intros s1 s2. apply String.leb_total. Qed.

Lemma str_nle_lt s1 s2 : ¬ str_le s1 s2 → str_lt s2 s1.
Proof.
  unfold str_le, str_lt, String.leb, String.ltb. rewrite (String.compare_antisym s2 s1).
  by destruct (String.compare s1 s2).
Qed.

Lemma str_lt_not_le s1 s2 : str_lt s1 s2 → ¬ str_le s2 s1.
Proof.
  unfold str_le, str_lt, String.leb, String.ltb. rewrite (String.compare_antisym s2 s1).
  by destruct (String.compare s1 s2).
Qed.

Lemma str_lt_le s1 s2 : str_lt s1 s2 → str_le s1 s2.
Proof. rewrite str_le_lt_or_eq. by left. Qed.

(** ** Lists *)

Lemma forallb_Forall {A} (f : A → bool) l : forallb f l = true ↔ Forall (λ x, f x = true) l.
Proof.
  induction l as [|x l IH]; simpl; [by split|].
  by rewrite andb_true_iff, Forall_cons, IH.
Qed.

(** ** Minimum of a list *)

Section list_min.
Context {A : Type} (R : relation A) `{!RelDecision R}.

Lemma list_min_None l : list_min R l = None ↔ l = [].
Proof. destruct l as [|x l]; simpl; [done|]. by destruct (list_min R l). Qed.

Lemma list_min_elem l x : list_min R l = Some x → x ∈ l.
Proof.
  revert x. induction l as [|y l IH]; intros x; simpl; [done|].
  destruct (list_min R l) as [z|]; intros [= <-]; [case_decide|]; set_solver.
Qed.

Lemma list_min_le `{!PreOrder R} `{!Total R} l x y :
  list_min R l = Some x → y ∈ l → R x y.
Proof.
  revert x. induction l as [|z l IH]; intros x Hm Hy; [done|]. simpl in Hm.
  apply elem_of_cons in Hy. destruct (list_min R l) as [m|] eqn:E.
  - injection Hm as <-. case_decide as Hd.
    + destruct Hy as [->|Hy]; [done|]. trans m; [done|]. by apply IH.
    + destruct Hy as [->|Hy]; [by destruct (total R z m)|by apply IH].
  - injection Hm as <-. apply list_min_None in E as ->. set_solver.
Qed.

Lemma list_min_is_Some l : l ≠ [] → is_Some (list_min R l).
Proof.
  intros Hl. destruct (list_min R l) eqn:E; [done|]. by apply list_min_None in E.
Qed.
End list_min.

Lemma elem_of_pairs_with {A} (P : A → Prop) `{!∀ a, Decision (P a)} (m : gmap string A) k a :
  (k, a) ∈ pairs_with P m ↔ m !! k = Some a ∧ P a.
Proof.
  unfold pairs_with. rewrite list_elem_of_filter, elem_of_map_to_list. simpl. tauto.
Qed.

#[export] Hint Resolve int64_bounds uint64_bounds str_lt_le : ubiq.
