(* ===== verification/GoRegexp.v ===== *)
(** * Anchored regular expressions and [strings.Split]

    The fragment of Go's [regexp] and [strings] the runtime uses.  Both patterns
    of the program ([canonicalEventPattern] of model.go, [sqlIdentifier] of
    shard_sql.go) are anchored at both ends, so [MatchString] is membership of
    the whole text; it is computed by derivatives and proved equal to the usual
    inductive language and to a reference definition on dot-separated parts. *)

From Stdlib Require Import Ascii String.
From stdpp Require Import base list sets strings.
From S2P Require Import Prelude.

Abbreviation bytes := (list ascii).

(** ** Syntax and matcher *)

Inductive regex :=
| RNone
| REps
| RClass (p : ascii → bool)
| RSeq (r1 r2 : regex)
| RAlt (r1 r2 : regex)
| RStar (r : regex).

Fixpoint nullable (r : regex) : bool :=
  match r with
  | RNone | RClass _ => false
  | REps | RStar _ => true
  | RSeq r1 r2 => nullable r1 && nullable r2
  | RAlt r1 r2 => nullable r1 || nullable r2
  end.

(** Constructors that keep derivatives small. *)
Definition seq (r1 r2 : regex) : regex :=
  match r1 with RNone => RNone | REps => r2 | _ => RSeq r1 r2 end.
Definition alt (r1 r2 : regex) : regex :=
  match r1, r2 with RNone, _ => r2 | _, RNone => r1 | _, _ => RAlt r1 r2 end.

Fixpoint deriv (c : ascii) (r : regex) : regex :=
  match r with
  | RNone | REps => RNone
  | RClass p => if p c then REps else RNone
  | RSeq r1 r2 =>
      if nullable r1 then alt (seq (deriv c r1) r2) (deriv c r2)
      else seq (deriv c r1) r2
  | RAlt r1 r2 => alt (deriv c r1) (deriv c r2)
  | RStar r1 => seq (deriv c r1) (RStar r1)
  end.

Definition match_bytes (r : regex) (s : bytes) : bool :=
  nullable (foldl (λ r c, deriv c r) r s).

(** [Regexp.MatchString] for a pattern of the form [^r$]. *)
Definition MatchString (r : regex) (s : string) : bool :=
  match_bytes r (String.list_ascii_of_string s).

(** [r{2,}] *)
Definition at_least_two (r : regex) : regex := RSeq r (RSeq r (RStar r)).

(** ** Character classes *)

Definition in_range (lo hi c : ascii) : bool :=
  (N_of_ascii lo <=? N_of_ascii c)%N && (N_of_ascii c <=? N_of_ascii hi)%N.
Definition is_alpha (c : ascii) : bool := in_range "A" "Z" c || in_range "a" "z" c.
Definition is_digit (c : ascii) : bool := in_range "0" "9" c.
Definition is_char (d c : ascii) : bool := bool_decide (c = d).

(** ** [strings.Split] with a one-byte separator *)

Fixpoint split_bytes (sep : ascii) (s : bytes) : list bytes :=
  match s with
  | [] => [[]]
  | c :: s' =>
      if decide (c = sep) then [] :: split_bytes sep s'
      else match split_bytes sep s' with
           | p :: ps => (c :: p) :: ps
           | [] => [[c]]
           end
  end.

Definition Split (sep : ascii) (s : string) : list string :=
  String.string_of_list_ascii <$> split_bytes sep (String.list_ascii_of_string s).

(** ** Language semantics *)

Inductive lang : regex → bytes → Prop :=
| lang_eps : lang REps []
| lang_class p c : p c = true → lang (RClass p) [c]
| lang_seq r1 r2 s1 s2 : lang r1 s1 → lang r2 s2 → lang (RSeq r1 r2) (s1 ++ s2)
| lang_alt_l r1 r2 s : lang r1 s → lang (RAlt r1 r2) s
| lang_alt_r r1 r2 s : lang r2 s → lang (RAlt r1 r2) s
| lang_star_nil r : lang (RStar r) []
| lang_star_app r s1 s2 : lang r s1 → lang (RStar r) s2 → lang (RStar r) (s1 ++ s2).

#[export] Hint Constructors lang : ubiq.

(** * Lemmas *)

Lemma nullable_spec r : nullable r = true ↔ lang r [].
Proof.
  split.
  - induction r; simpl; intros H; try done; bool_prop; auto with ubiq.
    + change (@nil ascii) with (@nil ascii ++ []). auto with ubiq.
    + apply orb_true_iff in H as [H|H]; auto with ubiq.
  - remember [] as s eqn:E. induction 1; simpl; try done.
    + apply app_eq_nil in E as [-> ->]. by rewrite IHlang1, IHlang2.
    + by rewrite IHlang.
    + rewrite IHlang by done. apply orb_true_r.
Qed.

Lemma lang_seq_smart r1 r2 s : lang (seq r1 r2) s ↔ lang (RSeq r1 r2) s.
Proof.
  destruct r1; simpl; try done; split; intros H.
  - inversion H.
  - inversion H; subst. by match goal with H : lang RNone _ |- _ => inversion H end.
  - change s with ([] ++ s). auto with ubiq.
  - inversion H; subst. by match goal with H : lang REps _ |- _ => inversion H end.
Qed.

Lemma lang_alt_smart r1 r2 s : lang (alt r1 r2) s ↔ lang r1 s ∨ lang r2 s.
Proof.
  assert (lang (RAlt r1 r2) s ↔ lang r1 s ∨ lang r2 s) as Halt.
  { split; [inversion 1; auto|intros [?|?]; auto with ubiq]. }
  assert (∀ s, lang RNone s ↔ False) as Hn by (split; [inversion 1|done]).
  destruct r1, r2; simpl; rewrite ?Hn; tauto.
Qed.

Lemma lang_seq_inv r1 r2 s :
  lang (RSeq r1 r2) s ↔ ∃ s1 s2, s = s1 ++ s2 ∧ lang r1 s1 ∧ lang r2 s2.
Proof. split; [inversion 1; eauto 10|intros (?&?&->&?&?); auto with ubiq]. Qed.

(** A non-empty word of [r*] starts with a non-empty word of [r]. *)
Lemma lang_star_cons r c s :
  lang (RStar r) (c :: s) → ∃ s1 s2, s = s1 ++ s2 ∧ lang r (c :: s1) ∧ lang (RStar r) s2.
Proof.
  remember (RStar r) as rs eqn:Er. remember (c :: s) as w eqn:Ew. intros H.
  revert r c s Er Ew. induction H; intros r' c' s' Er Ew; simplify_eq.
  destruct s1 as [|c1 s1]; simpl in Ew; [by eapply IHlang2|]. simplify_eq.
  eauto 10.
Qed.

Lemma deriv_spec c r s : lang (deriv c r) s ↔ lang r (c :: s).
Proof.
  revert s. induction r as [| |p|r1 IH1 r2 IH2|r1 IH1 r2 IH2|r IH]; intros s; simpl.
  - split; inversion 1.
  - split; inversion 1.
  - destruct (p c) eqn:E; split; inversion 1; subst; auto with ubiq; congruence.
  - assert (lang (seq (deriv c r1) r2) s ↔
      ∃ s1 s2, s = s1 ++ s2 ∧ lang r1 (c :: s1) ∧ lang r2 s2) as Hseq.
    { rewrite lang_seq_smart, lang_seq_inv. by setoid_rewrite IH1. }
    assert (lang (RSeq r1 r2) (c :: s) ↔
      (lang r1 [] ∧ lang r2 (c :: s)) ∨
      ∃ s1 s2, s = s1 ++ s2 ∧ lang r1 (c :: s1) ∧ lang r2 s2) as Hr.
    { rewrite lang_seq_inv. split.
      - intros ([|c' s1]&s2&E&?&?); simplify_eq/=; eauto 10.
      - intros [[??]|(s1&s2&->&?&?)]; [by exists [], (c :: s)|by exists (c :: s1), s2]. }
    rewrite Hr. destruct (nullable r1) eqn:E.
    + apply nullable_spec in E. rewrite lang_alt_smart, Hseq, IH2. tauto.
    + rewrite Hseq. split; [auto|]. intros [[H _]|?]; [|done].
      apply nullable_spec in H. congruence.
  - rewrite lang_alt_smart, IH1, IH2. split.
    + intros [?|?]; auto with ubiq.
    + inversion 1; auto.
  - rewrite lang_seq_smart, lang_seq_inv. split.
    + intros (s1&s2&->&H1&H2). apply IH in H1.
      change (c :: s1 ++ s2) with ((c :: s1) ++ s2). auto with ubiq.
    + intros (s1&s2&->&H1&H2)%lang_star_cons. exists s1, s2. by rewrite IH.
Qed.

Lemma match_bytes_spec r s : match_bytes r s = true ↔ lang r s.
Proof.
  unfold match_bytes. revert r. induction s as [|c s IH]; intros r; simpl.
  - apply nullable_spec.
  - rewrite IH. apply deriv_spec.
Qed.

Lemma lang_star_class p s : lang (RStar (RClass p)) s ↔ Forall (λ c, p c = true) s.
Proof.
  induction s as [|c s IH]; [split; auto with ubiq|]. rewrite Forall_cons, <- IH. split.
  - intros (s1&s2&->&H1&H2)%lang_star_cons. inversion H1; subst. auto.
  - intros [??]. change (c :: s) with ([c] ++ s). auto with ubiq.
Qed.

(** [r*] is a concatenation of words of [r]. *)
Lemma lang_star_concat r s :
  lang (RStar r) s ↔ ∃ ws, s = concat ws ∧ Forall (lang r) ws.
Proof.
  split.
  - remember (RStar r) as rs eqn:Er. intros H. induction H; simplify_eq.
    + by exists [].
    + destruct IHlang2 as (ws&->&?); [done|]. exists (s1 :: ws). auto.
  - intros (ws&->&H). induction H; simpl; auto with ubiq.
Qed.

Lemma lang_at_least_two r s :
  lang (at_least_two r) s ↔ ∃ ws, s = concat ws ∧ 2 ≤ length ws ∧ Forall (lang r) ws.
Proof.
  unfold at_least_two. setoid_rewrite lang_seq_inv. setoid_rewrite lang_seq_inv.
  setoid_rewrite lang_star_concat. split.
  - intros (s1&s2&->&H1&(s3&s4&->&H3&(ws&->&?))). exists (s1 :: s3 :: ws).
    simpl. split_and!; [done|lia|auto].
  - intros (ws&->&Hlen&Hws). destruct ws as [|w1 [|w2 ws]]; simpl in Hlen; try lia.
    decompose_Forall_hyps. eauto 20.
Qed.

Lemma split_bytes_nonempty sep s : split_bytes sep s ≠ [].
Proof.
  destruct s as [|c s]; simpl; [done|]. case_decide; [done|].
  by destruct (split_bytes sep s).
Qed.

(** Splitting undoes joining parts that do not contain the separator. *)
Lemma split_bytes_join sep p ps :
  Forall (λ q, sep ∉ q) (p :: ps) →
  split_bytes sep (p ++ concat (cons sep <$> ps)) = p :: ps.
Proof.
  revert p. induction ps as [|q ps IH]; intros p [Hp Hps]%Forall_cons; simpl.
  - rewrite app_nil_r. induction p as [|c p IHp]; simpl; [done|].
    rewrite decide_False by set_solver. by rewrite IHp by set_solver.
  - induction p as [|c p IHp]; simpl.
    + rewrite decide_True by done. by rewrite IH.
    + rewrite decide_False by set_solver. by rewrite IHp by set_solver.
Qed.

Lemma join_split_bytes sep s :
  ∃ p ps, split_bytes sep s = p :: ps ∧ s = p ++ concat (cons sep <$> ps).
Proof.
  induction s as [|c s (p&ps&E&->)]; simpl; [by exists [], []|].
  case_decide as Hc.
  - subst. exists [], (p :: ps). by rewrite E.
  - rewrite E. by exists (c :: p), ps.
Qed.
