(* ===== verification/JsonScan.v ===== *)
(** * [encoding/json]: the scanner, [json.Valid] and compaction

    The byte-at-a-time state machine behind [json.Valid], and the [appendCompact]
    routine that [json.Marshal] applies to a [json.RawMessage] (white space
    between tokens dropped, [<], [>], [&], U+2028 and U+2029 escaped).
    [Envelope.Validate] calls the first on every payload, and every envelope the
    runtime stores, signs or sends goes through the second. *)

From Stdlib Require Import ZArith Lia Ascii String.
From stdpp Require Import base list sets strings.
From S2P Require Import Prelude GoRegexp.

(** ** Scanner state *)

Inductive scan_state :=
| stBeginValueOrEmpty | stBeginValue | stBeginStringOrEmpty | stBeginString
| stEndValue | stEndTop
| stInString | stInStringEsc | stEscU | stEscU1 | stEscU12 | stEscU123
| stNeg | st1 | st0 | stDot | stDot0 | stE | stESign | stE0
| stT | stTr | stTru | stF | stFa | stFal | stFals | stN | stNu | stNul.

Inductive parse_state := parseObjectKey | parseObjectValue | parseArrayValue.

Record scanner := Scanner {
  sc_step : scan_state;
  sc_stack : list parse_state;
  sc_endTop : bool;
}.

(** What the callers of [scanner.step] distinguish: an ordinary opcode (the byte
    is kept), [scanSkipSpace]/[scanEnd] (the byte is dropped), [scanError]. *)
Inductive verdict := vKeep | vSkip | vError.

Definition newScanner : scanner := Scanner stBeginValue [] false.
Definition maxNestingDepth : N := 10000.

Definition isSpace (c : ascii) : bool :=
  is_char " " c || is_char "009" c || is_char "013" c || is_char "010" c.
Definition is_digit19 (c : ascii) : bool := in_range "1" "9" c.
Definition is_hex (c : ascii) : bool :=
  is_digit c || in_range "a" "f" c || in_range "A" "F" c.
Definition is_exp (c : ascii) : bool := is_char "e" c || is_char "E" c.
Definition is_escape (c : ascii) : bool :=
  is_char "b" c || is_char "f" c || is_char "n" c || is_char "r" c || is_char "t" c
  || is_char "\" c || is_char "/" c || is_char "034" c.

Definition keep (s : scanner) (st : scan_state) : verdict * scanner :=
  (vKeep, Scanner st s.(sc_stack) s.(sc_endTop)).
Definition skip_in (s : scanner) (st : scan_state) : verdict * scanner :=
  (vSkip, Scanner st s.(sc_stack) s.(sc_endTop)).
Definition fail_at (s : scanner) : verdict * scanner := (vError, s).

(** [pushParseState]: the nesting limit is checked on every push. *)
Definition pushParseState (s : scanner) (p : parse_state) (st : scan_state)
  : verdict * scanner :=
  let s' := Scanner st (p :: s.(sc_stack)) s.(sc_endTop) in
  if (N.of_nat (length s'.(sc_stack)) <=? maxNestingDepth)%N then (vKeep, s') else (vError, s').

Definition popParseState (s : scanner) : verdict * scanner :=
  match tail s.(sc_stack) with
  | [] => (vKeep, Scanner stEndTop [] true)
  | ps => (vKeep, Scanner stEndValue ps s.(sc_endTop))
  end.

Definition stateEndTop (s : scanner) (c : ascii) : verdict * scanner :=
  if isSpace c then (vSkip, Scanner stEndTop s.(sc_stack) s.(sc_endTop)) else fail_at s.

Definition stateEndValue (s : scanner) (c : ascii) : verdict * scanner :=
  match s.(sc_stack) with
  | [] => stateEndTop (Scanner stEndTop [] true) c
  | p :: ps =>
      if isSpace c then skip_in s stEndValue
      else match p with
      | parseObjectKey =>
          if is_char ":" c
          then (vKeep, Scanner stBeginValue (parseObjectValue :: ps) s.(sc_endTop))
          else fail_at s
      | parseObjectValue =>
          if is_char "," c
          then (vKeep, Scanner stBeginString (parseObjectKey :: ps) s.(sc_endTop))
          else if is_char "}" c then popParseState s else fail_at s
      | parseArrayValue =>
          if is_char "," c then keep s stBeginValue
          else if is_char "]" c then popParseState s else fail_at s
      end
  end.

Definition stateBeginValue (s : scanner) (c : ascii) : verdict * scanner :=
  if isSpace c then skip_in s s.(sc_step)
  else if is_char "{" c then pushParseState s parseObjectKey stBeginStringOrEmpty
  else if is_char "[" c then pushParseState s parseArrayValue stBeginValueOrEmpty
  else if is_char "034" c then keep s stInString
  else if is_char "-" c then keep s stNeg
  else if is_char "0" c then keep s st0
  else if is_char "t" c then keep s stT
  else if is_char "f" c then keep s stF
  else if is_char "n" c then keep s stN
  else if is_digit19 c then keep s st1
  else fail_at s.

Definition stateBeginString (s : scanner) (c : ascii) : verdict * scanner :=
  if isSpace c then skip_in s s.(sc_step)
  else if is_char "034" c then keep s stInString else fail_at s.

(** [state0]: after the integer part of a number. *)
Definition state0 (s : scanner) (c : ascii) : verdict * scanner :=
  if is_char "." c then keep s stDot
  else if is_exp c then keep s stE
  else stateEndValue s c.

Definition stateESign (s : scanner) (c : ascii) : verdict * scanner :=
  if is_digit c then keep s stE0 else fail_at s.

(** [scanner.step]. *)
Definition step (s : scanner) (c : ascii) : verdict * scanner :=
  match s.(sc_step) with
  | stBeginValueOrEmpty =>
      if isSpace c then skip_in s stBeginValueOrEmpty
      else if is_char "]" c then stateEndValue s c else stateBeginValue s c
  | stBeginValue => stateBeginValue s c
  | stBeginStringOrEmpty =>
      if isSpace c then skip_in s stBeginStringOrEmpty
      else if is_char "}" c then
        stateEndValue (Scanner stBeginStringOrEmpty (parseObjectValue :: tail s.(sc_stack)) s.(sc_endTop)) c
      else stateBeginString s c
  | stBeginString => stateBeginString s c
  | stEndValue => stateEndValue s c
  | stEndTop => stateEndTop s c
  | stInString =>
      if is_char "034" c then keep s stEndValue
      else if is_char "\" c then keep s stInStringEsc
      else if (N_of_ascii c <? 32)%N then fail_at s
      else keep s stInString
  | stInStringEsc =>
      if is_escape c then keep s stInString
      else if is_char "u" c then keep s stEscU else fail_at s
  | stEscU => if is_hex c then keep s stEscU1 else fail_at s
  | stEscU1 => if is_hex c then keep s stEscU12 else fail_at s
  | stEscU12 => if is_hex c then keep s stEscU123 else fail_at s
  | stEscU123 => if is_hex c then keep s stInString else fail_at s
  | stNeg =>
      if is_char "0" c then keep s st0
      else if is_digit19 c then keep s st1 else fail_at s
  | st1 => if is_digit c then keep s st1 else state0 s c
  | st0 => state0 s c
  | stDot => if is_digit c then keep s stDot0 else fail_at s
  | stDot0 =>
      if is_digit c then keep s stDot0
      else if is_exp c then keep s stE
      else stateEndValue s c
  | stE => if is_char "+" c || is_char "-" c then keep s stESign else stateESign s c
  | stESign => stateESign s c
  | stE0 => if is_digit c then keep s stE0 else stateEndValue s c
  | stT => if is_char "r" c then keep s stTr else fail_at s
  | stTr => if is_char "u" c then keep s stTru else fail_at s
  | stTru => if is_char "e" c then keep s stEndValue else fail_at s
  | stF => if is_char "a" c then keep s stFa else fail_at s
  | stFa => if is_char "l" c then keep s stFal else fail_at s
  | stFal => if is_char "s" c then keep s stFals else fail_at s
  | stFals => if is_char "e" c then keep s stEndValue else fail_at s
  | stN => if is_char "u" c then keep s stNu else fail_at s
  | stNu => if is_char "l" c then keep s stNul else fail_at s
  | stNul => if is_char "l" c then keep s stEndValue else fail_at s
  end.

(** [scanner.eof() <> scanError]. *)
Definition eof_ok (s : scanner) : bool :=
  s.(sc_endTop) ||
  match step s " " with
  | (vError, _) => false
  | (_, s') => s'.(sc_endTop)
  end.

(** ** [json.Valid] *)

Fixpoint checkValid (s : scanner) (data : bytes) : bool :=
  match data with
  | [] => eof_ok s
  | c :: data' =>
      match step s c with
      | (vError, _) => false
      | (_, s') => checkValid s' data'
      end
  end.

Definition Valid (data : bytes) : bool := checkValid newScanner data.

(** ** [appendCompact] with HTML escaping *)

Definition hexdigit (n : N) : ascii :=
  default "0"%char (String.list_ascii_of_string "0123456789abcdef" !! N.to_nat n).

Definition is_html (c : ascii) : bool := is_char "<" c || is_char ">" c || is_char "&" c.

(** [\u00xx] for an HTML-sensitive byte. *)
Definition html_escape (c : ascii) : bytes :=
  ["\"; "u"; "0"; "0"; hexdigit (N_of_ascii c / 16); hexdigit (N_of_ascii c mod 16)]%char.

(** U+2028 or U+2029 in UTF-8 at the head of [l]: its last byte. *)
Definition line_sep (l : bytes) : option ascii :=
  match l with
  | c0 :: c1 :: c2 :: _ =>
      if decide (c0 = "226"%char ∧ c1 = "128"%char ∧ (c2 = "168"%char ∨ c2 = "169"%char))
      then Some c2 else None
  | _ => None
  end.

Definition line_escape (c2 : ascii) : bytes :=
  ["\"; "u"; "2"; "0"; "2"; hexdigit (N_of_ascii c2 mod 16)]%char.

(** One pass over the source; [gap] counts the bytes of a line separator that
    are scanned but have already been emitted in escaped form. *)
Fixpoint compact_from (s : scanner) (gap : nat) (src : bytes) : option bytes :=
  match src with
  | [] => if eof_ok s then Some [] else None
  | c :: src' =>
      match step s c with
      | (vError, _) => None
      | (vSkip, s') => compact_from s' 0 src'
      | (vKeep, s') =>
          match gap with
          | S gap' => compact_from s' gap' src'
          | O =>
              if is_html c then (html_escape c ++.) <$> compact_from s' 0 src'
              else match line_sep src with
              | Some c2 => (line_escape c2 ++.) <$> compact_from s' 2 src'
              | None => (c ::.) <$> compact_from s' 0 src'
              end
          end
      end
  end.

Definition compact (src : bytes) : option bytes := compact_from newScanner 0 src.

(** The scanner over a block of bytes that are all kept. *)
Fixpoint run (s : scanner) (l : bytes) : option scanner :=
  match l with
  | [] => Some s
  | c :: l' => match step s c with (vKeep, s') => run s' l' | _ => None end
  end.

(** A text without white space stays within the nesting limit one level deeper,
    as the value of a member of an object. *)
Definition member_ok (v : bytes) : bool :=
  match run (Scanner stBeginValue [parseObjectValue] false) v with
  | Some _ => true
  | None => false
  end.

(** * Lemmas *)

Abbreviation sp := (" "%char).

Ltac unfold_step :=
  unfold step, stateBeginValue, stateBeginString, state0, stateESign, stateEndValue,
    stateEndTop, pushParseState, popParseState, keep, skip_in, fail_at in *; simpl in *.

Lemma isSpace_inv c :
  isSpace c = true → c = sp ∨ c = "009"%char ∨ c = "013"%char ∨ c = "010"%char.
Proof.
  unfold isSpace, is_char. rewrite !orb_true_iff, !bool_decide_eq_true. tauto.
Qed.

(** A skipped byte is white space, and which one does not matter. *)
Lemma step_skip_space s c t :
  step s c = (vSkip, t) → isSpace c = true ∧ step s sp = (vSkip, t).
Proof.
  destruct s as [st ps e]. intros H. assert (isSpace c = true) as Hc.
  { destruct st; unfold_step; split_match; try done. }
  split; [done|]. apply isSpace_inv in Hc.
  destruct st; try (destruct_or! Hc; subst c; exact H); unfold_step; split_match; done.
Qed.

(** The states that skip white space, and what skipping leads to. *)
Lemma step_space_inv s t :
  step s sp = (vSkip, t) →
  (s.(sc_step) ∈ [stBeginValueOrEmpty; stBeginValue; stBeginStringOrEmpty; stBeginString; stEndTop]
    ∧ t = s) ∨
  (s.(sc_step) ∈ [stEndValue; st1; st0; stDot0; stE0] ∧
    t = match s.(sc_stack) with
        | [] => Scanner stEndTop [] true
        | ps => Scanner stEndValue ps s.(sc_endTop)
        end).
Proof.
  destruct s as [st ps e]. intros H.
  destruct st; unfold_step; try done.
  1-4,6: left; simplify_eq/=; split; [repeat constructor|done].
  all: right; simpl; split; [repeat constructor|by destruct ps; simplify_eq/=].
Qed.

(** Skipping is idempotent. *)
Lemma step_skip_stable s t c' :
  step s sp = (vSkip, t) → isSpace c' = true → step t c' = (vSkip, t).
Proof.
  intros H Hc'. apply step_space_inv in H. destruct s as [st ps e]; simpl in *.
  destruct H as [[Hst ->]|[_ ->]].
  - set_unfold in Hst. destruct_or! Hst; subst st; unfold_step; by rewrite Hc'.
  - destruct ps; unfold_step; by rewrite Hc'.
Qed.

(** The four bytes that can follow a complete value. *)
Lemma stateEndValue_keep s c t :
  stateEndValue s c = (vKeep, t) →
  s.(sc_stack) ≠ [] ∧
  (c = ":"%char ∨ c = ","%char ∨ c = "}"%char ∨ c = "]"%char).
Proof.
  destruct s as [st [|p ps] e]; unfold_step; [by destruct (isSpace c)|].
  intros H. split; [done|]. unfold is_char in *. split_match; bool_prop; auto.
Qed.

(** White space before a kept byte leaves no trace in the state. *)
Lemma step_skip_keep s t c u :
  step s sp = (vSkip, t) → step t c = (vKeep, u) → step s c = (vKeep, u).
Proof.
  intros H Hk. apply step_space_inv in H. destruct s as [st ps e]; simpl in *.
  destruct H as [[_ ->]|[Hst ->]]; [done|].
  destruct ps as [|p ps]; [unfold_step; by destruct (isSpace c)|].
  change (stateEndValue (Scanner stEndValue (p :: ps) e) c = (vKeep, u)) in Hk.
  destruct (stateEndValue_keep _ _ _ Hk) as [_ Hc].
  set_unfold in Hst. destruct_or! Hst; subst st; destruct_or! Hc; subst c; destruct p; first [done | exact Hk].
Qed.

Lemma eof_ok_skip s t : step s sp = (vSkip, t) → eof_ok t = true → eof_ok s = true.
Proof.
  intros H. unfold eof_ok at 2. rewrite H. unfold eof_ok.
  rewrite (step_skip_stable _ _ sp H eq_refl). destruct (sc_endTop t), (sc_endTop s); done.
Qed.

(** Bytes that are kept only inside a string literal, where they change nothing. *)
Lemma step_keep_in_string s c t :
  is_html c = true ∨ (128 ≤ N_of_ascii c)%N →
  step s c = (vKeep, t) → s.(sc_step) = stInString ∧ t = s.
Proof.
  intros Hc H.
  assert (∀ d, (N_of_ascii d < 128)%N → is_html d = false → is_char d c = false) as Hd.
  { intros d Hd1 Hd2. apply bool_decide_eq_false. intros ->. destruct Hc; [congruence|lia]. }
  assert (∀ lo hi, (N_of_ascii hi < 128)%N →
    (62 < N_of_ascii lo ∨ N_of_ascii hi < 60 ∧ 38 < N_of_ascii lo)%N → in_range lo hi c = false) as Hr.
  { intros lo hi H1 H2. unfold in_range. apply andb_false_iff. rewrite !N.leb_gt.
    destruct Hc as [Hc|Hc]; [|right; lia]. unfold is_html, is_char in Hc.
    rewrite !orb_true_iff, !bool_decide_eq_true in Hc. destruct_or! Hc; subst c; cbn; lia. }
  destruct s as [st ps e]; destruct st;
    unfold step, stateBeginValue, stateBeginString, state0, stateESign, stateEndValue,
      stateEndTop, popParseState, isSpace, is_exp, is_escape, is_hex, is_digit, is_digit19,
      sc_step, sc_stack in H;
    repeat match type of H with
    | context [is_char ?d c] => rewrite (Hd d) in H by done
    | context [in_range ?lo ?hi c] => rewrite (Hr lo hi) in H by (cbn; lia)
    end; simpl in H; unfold keep, fail_at in H; split_match; done.
Qed.

(** The state of the scanner on the source, when the scanner on the compacted
    text is in state [s']: the same, or one white space further. *)
Definition ahead (s s' : scanner) : Prop := s = s' ∨ step s' sp = (vSkip, s).

Lemma ahead_skip s s' c t : ahead s s' → step s c = (vSkip, t) → ahead t s'.
Proof.
  intros [->|H] Hs; apply step_skip_space in Hs as [_ Hs]; [by right|].
  rewrite (step_skip_stable _ _ sp H eq_refl) in Hs. simplify_eq. by right.
Qed.

Lemma ahead_keep s s' c t : ahead s s' → step s c = (vKeep, t) → step s' c = (vKeep, t).
Proof. intros [->|H] Hs; [done|]. by eapply step_skip_keep. Qed.

Lemma ahead_eof s s' : ahead s s' → eof_ok s = true → eof_ok s' = true.
Proof. intros [->|H]; [done|]. by apply eof_ok_skip. Qed.

(** Bytes that compaction copies as they are. *)
Definition plain (c : ascii) : Prop := is_html c = false ∧ c ≠ "226"%char.

Lemma line_sep_plain c l : c ≠ "226"%char → line_sep (c :: l) = None.
Proof. intros Hc. destruct l as [|c1 [|c2 l]]; simpl; try done. rewrite decide_False; naive_solver. Qed.

Lemma compact_run s t l d :
  run s l = Some t → Forall plain l →
  compact_from s 0 (l ++ d) = (l ++.) <$> compact_from t 0 d.
Proof.
  revert s. induction l as [|c l IH]; intros s Hr Hl.
  - simpl in *. simplify_eq. by destruct (compact_from t 0 d).
  - apply Forall_cons in Hl as [[Hh Hc] Hl]. simpl in Hr.
    change ((c :: l) ++ d) with (c :: (l ++ d)). cbn [compact_from].
    destruct (step s c) as [[] s1]; try done.
    rewrite Hh, (line_sep_plain _ _ Hc), (IH s1 Hr Hl).
    by destruct (compact_from t 0 d).
Qed.

Lemma run_escape s x y :
  s.(sc_step) = stInString → is_hex x = true → is_hex y = true →
  run s ["\"; "u"; "0"; "0"; x; y]%char = Some s ∧ run s ["\"; "u"; "2"; "0"; "2"; y]%char = Some s.
Proof.
  destruct s as [st ps e]. simpl. intros -> Hx Hy. unfold step, keep. simpl. by rewrite Hx, Hy.
Qed.

Lemma is_hex_plain c : is_hex c = true → plain c.
Proof.
  intros H. split; [|by intros ->]. apply not_true_iff_false. unfold is_html, is_char.
  rewrite !orb_true_iff, !bool_decide_eq_true. intros Hc. destruct_or! Hc; by subst c.
Qed.

Lemma html_escape_spec s c :
  s.(sc_step) = stInString → is_html c = true →
  run s (html_escape c) = Some s ∧ Forall plain (html_escape c).
Proof.
  intros Hs Hc. unfold is_html, is_char in Hc.
  rewrite !orb_true_iff, !bool_decide_eq_true in Hc. destruct_or! Hc; subst c;
    (split; [by apply run_escape|by repeat constructor]).
Qed.

Lemma line_sep_inv l c2 :
  line_sep l = Some c2 →
  (∃ l', l = ["226"; "128"; c2]%char ++ l') ∧ (c2 = "168"%char ∨ c2 = "169"%char).
Proof.
  destruct l as [|c0 [|c1 [|c2' l]]]; simpl; try done.
  case_decide as H; [|done]. intros [= ->]. destruct H as (->&->&?). eauto.
Qed.

Lemma line_escape_spec s c2 :
  s.(sc_step) = stInString → c2 = "168"%char ∨ c2 = "169"%char →
  run s (line_escape c2) = Some s ∧ Forall plain (line_escape c2).
Proof.
  intros Hs [->| ->]; (split; [by apply (run_escape s "0")|by repeat constructor]).
Qed.

(** A non-ASCII byte of the output, inside a string, comes from the source. *)
Lemma compact_high s src b d :
  s.(sc_step) = stInString → (128 ≤ N_of_ascii b)%N →
  compact_from s 0 src = Some (b :: d) →
  ∃ src', src = b :: src' ∧ compact_from s 0 src' = Some d.
Proof.
  intros Hs Hb H. destruct src as [|c src]; cbn [compact_from] in H; [by destruct (eof_ok s)|].
  destruct (step s c) as [[] t] eqn:Hst; try done.
  - destruct (is_html c) eqn:Hh.
    { destruct (compact_from t 0 src); simplify_eq/=. by cbn in Hb. }
    destruct (line_sep (c :: src)).
    { destruct (compact_from t 2 src); simplify_eq/=. by cbn in Hb. }
    destruct (compact_from t 0 src) eqn:E; simplify_eq/=.
    apply step_keep_in_string in Hst as [_ ->]; [|by right]. eauto.
  - apply step_skip_space in Hst as [_ Hsp]. destruct s as [st ps e]; simpl in Hs; subst. done.
Qed.

Lemma line_sep_in_string s c src t c2 :
  line_sep (c :: src) = Some c2 → step s c = (vKeep, t) →
  ∃ src', src = "128"%char :: c2 :: src' ∧ s.(sc_step) = stInString ∧ t = s ∧
    compact_from t 2 src = compact_from s 0 src' ∧ (c2 = "168"%char ∨ c2 = "169"%char).
Proof.
  intros [[l' El] Hc2]%line_sep_inv Hst. simpl in El. simplify_eq.
  apply step_keep_in_string in Hst as [Hs ->]; [|by right].
  exists l'. split_and!; try done. destruct s as [st ps e]; simpl in Hs; subst st.
  by destruct Hc2 as [->| ->].
Qed.

(** A byte copied by compaction does not start a line separator of the output. *)
Lemma copied_line_sep s c src t d :
  line_sep (c :: src) = None → step s c = (vKeep, t) →
  compact_from t 0 src = Some d → line_sep (c :: d) = None.
Proof.
  intros Hn Hst Hd. destruct (line_sep (c :: d)) as [c2|] eqn:E; [exfalso|done].
  apply line_sep_inv in E as [[l' El] Hc2]. simpl in El. simplify_eq.
  apply step_keep_in_string in Hst as [Hs ->]; [|by right].
  apply compact_high in Hd as (src1&->&Hd); [|done..].
  apply compact_high in Hd as (src2&->&Hd); [|done|by destruct Hc2 as [->| ->]].
  simpl in Hn. by rewrite decide_True in Hn.
Qed.

Lemma compact_from_idemp src s s' d :
  ahead s s' → compact_from s 0 src = Some d → compact_from s' 0 d = Some d.
Proof.
  revert s s' d. induction src as [src IH] using (well_founded_induction (well_founded_ltof _ length)).
  unfold ltof in IH. intros s s' d Ha H. destruct src as [|c src]; cbn [compact_from] in H.
  { destruct (eof_ok s) eqn:E; simplify_eq. cbn. by rewrite (ahead_eof _ _ Ha E). }
  destruct (step s c) as [[] t] eqn:Hst; try done.
  2:{ eapply (IH src); [simpl; lia| |done]. by eapply ahead_skip. }
  pose proof (ahead_keep _ _ _ _ Ha Hst) as Hst'.
  destruct (is_html c) eqn:Hh.
  { apply fmap_Some in H as (d'&Hd&->).
    apply step_keep_in_string in Hst' as [Hs' ->]; [|by left].
    destruct (html_escape_spec _ _ Hs' Hh) as [Hr Hp].
    rewrite (compact_run _ _ _ _ Hr Hp). erewrite IH; [done| |by left|exact Hd]. simpl; lia. }
  destruct (line_sep (c :: src)) as [c2|] eqn:Hl.
  { apply fmap_Some in H as (d'&Hd&->).
    destruct (line_sep_in_string _ _ _ _ _ Hl Hst') as (src'&->&Hs'&->&E&Hc2).
    destruct (line_escape_spec _ _ Hs' Hc2) as [Hr Hp].
    rewrite (compact_run _ _ _ _ Hr Hp). rewrite E in Hd.
    erewrite IH; [done| |by left|exact Hd]. simpl; lia. }
  apply fmap_Some in H as (d'&Hd&->). cbn [compact_from].
  rewrite Hst', Hh, (copied_line_sep _ _ _ _ _ Hl Hst Hd).
  erewrite IH; [done| |by left|exact Hd]. simpl; lia.
Qed.

Lemma compact_from_valid src s gap :
  is_Some (compact_from s gap src) ↔ checkValid s src = true.
Proof.
  revert s gap. induction src as [|c src IH]; intros s gap; cbn [compact_from checkValid].
  - destruct (eof_ok s); split; try done; by intros [? ?].
  - destruct (step s c) as [[] t]; [|by rewrite IH|split; [by intros [? ?]|done]].
    destruct gap; [|by rewrite IH]. destruct (is_html c); [by rewrite fmap_is_Some|].
    by destruct (line_sep (c :: src)); rewrite fmap_is_Some.
Qed.

Lemma compact_valid src : is_Some (compact src) ↔ Valid src = true.
Proof. apply compact_from_valid. Qed.

Lemma compact_idemp src d : compact src = Some d → compact d = Some d.
Proof. apply compact_from_idemp. by left. Qed.

Lemma compact_nonempty src d : compact src = Some d → d ≠ [].
Proof. intros H ->. by apply compact_idemp in H. Qed.

Lemma compact_output_valid src d : compact src = Some d → Valid d = true.
Proof. intros H%compact_idemp. apply compact_valid. eauto. Qed.
