(* ===== verification/Utf8.v ===== *)
(** * [unicode/utf8]: decoding and validity

    The length of the rune at the head of a byte string, following the table of
    [utf8.DecodeRune]; overlong forms, surrogates and values above U+10FFFF are
    invalid. *)

From Stdlib Require Import NArith Lia Ascii String.
From stdpp Require Import base list strings.
From S2P Require Import Prelude GoRegexp.

Definition between (lo hi : N) (c : ascii) : bool :=
  (lo <=? N_of_ascii c)%N && (N_of_ascii c <=? hi)%N.
Definition is_cont (c : ascii) : bool := between 128 191 c.

(** Size in bytes of the valid rune at the head, [0] when there is none. *)
Definition rune_len (l : bytes) : nat :=
  match l with
  | [] => 0
  | c0 :: l1 =>
      if (N_of_ascii c0 <? 128)%N then 1
      else match l1 with
      | [] => 0
      | c1 :: l2 =>
          if between 194 223 c0 then (if is_cont c1 then 2 else 0)
          else match l2 with
          | [] => 0
          | c2 :: l3 =>
              if between 224 239 c0 then
                if (if between 224 224 c0 then between 160 191 c1
                    else if between 237 237 c0 then between 128 159 c1
                    else is_cont c1) && is_cont c2 then 3 else 0
              else match l3 with
              | [] => 0
              | c3 :: _ =>
                  if between 240 244 c0 then
                    if (if between 240 240 c0 then between 144 191 c1
                        else if between 244 244 c0 then between 128 143 c1
                        else is_cont c1) && is_cont c2 && is_cont c3 then 4 else 0
                  else 0
              end
          end
      end
  end.

(** [utf8.Valid]. *)
Fixpoint utf8_valid (l : bytes) : bool :=
  match l with
  | [] => true
  | _ :: l1 =>
      match rune_len l with
      | 1 => utf8_valid l1
      | 2 => match l1 with _ :: l2 => utf8_valid l2 | _ => false end
      | 3 => match l1 with _ :: _ :: l3 => utf8_valid l3 | _ => false end
      | 4 => match l1 with _ :: _ :: _ :: l4 => utf8_valid l4 | _ => false end
      | _ => false
      end
  end.

Definition utf8_string (s : string) : bool := utf8_valid (String.list_ascii_of_string s).
