(* ===== verification/JsonText.v ===== *)
(** * [encoding/json]: strings, integers, byte slices, objects as text

    The text [json.Marshal] writes for the field types of an envelope and the
    reader [json.Unmarshal] applies to it: string literals ([appendString],
    [unquote]), int64 literals, [[]byte] in base64, and the splitting of an
    object into its members, each value delimited by the scanner. *)

From Stdlib Require Import ZArith NArith Lia Ascii String DecimalString DecimalZ.
From stdpp Require Import base list sets strings.
From S2P Require Import Prelude GoRegexp JsonScan Utf8.

Abbreviation to_bytes := String.list_ascii_of_string.
Abbreviation of_bytes := String.string_of_list_ascii.

(** ** String literals *)

(** The literal text of an ASCII byte: [htmlSafeSet] bytes as they are. *)
Definition ascii_text (c : ascii) : bytes :=
  if is_char "034" c || is_char "\" c then ["\"%char; c]
  else if is_char "008" c then ["\"; "b"]%char
  else if is_char "012" c then ["\"; "f"]%char
  else if is_char "010" c then ["\"; "n"]%char
  else if is_char "013" c then ["\"; "r"]%char
  else if is_char "009" c then ["\"; "t"]%char
  else if (N_of_ascii c <? 32)%N || is_html c then html_escape c
  else [c].

Definition replacement_text : bytes := ["\"; "u"; "f"; "f"; "f"; "d"]%char.

(** [appendString] with HTML escaping, without the quotes. *)
Fixpoint append_string (l : bytes) : bytes :=
  match l with
  | [] => []
  | c :: l1 =>
      if (N_of_ascii c <? 128)%N then ascii_text c ++ append_string l1
      else match rune_len l, l1 with
      | 2, c1 :: l2 => [c; c1] ++ append_string l2
      | 3, c1 :: c2 :: l3 =>
          match line_sep l with
          | Some x => line_escape x
          | None => [c; c1; c2]
          end ++ append_string l3
      | 4, c1 :: c2 :: c3 :: l4 => [c; c1; c2; c3] ++ append_string l4
      | _, _ => replacement_text ++ append_string l1
      end
  end.

Definition quote (s : string) : bytes :=
  ["034"%char] ++ append_string (to_bytes s) ++ ["034"%char].

Definition hex_value (c : ascii) : N :=
  if is_digit c then N_of_ascii c - 48
  else if in_range "a" "f" c then N_of_ascii c - 87
  else N_of_ascii c - 55.

(** [utf8.AppendRune]. *)
Definition encode_rune (r : N) : bytes :=
  let b n := ascii_of_N n in
  (if r <? 128 then [b r]
   else if r <? 2048 then [b (192 + r / 64); b (128 + r mod 64)]
   else if r <? 65536 then [b (224 + r / 4096); b (128 + (r / 64) mod 64); b (128 + r mod 64)]
   else [b (240 + r / 262144); b (128 + (r / 4096) mod 64); b (128 + (r / 64) mod 64); b (128 + r mod 64)])%N.

Definition runeError : N := 65533.
Definition is_surrogate (r : N) : bool := (55296 <=? r)%N && (r <? 57344)%N.

(** [utf16.DecodeRune]. *)
Definition surrogate_pair (r1 r2 : N) : option N :=
  if (55296 <=? r1)%N && (r1 <? 56320)%N && (56320 <=? r2)%N && (r2 <? 57344)%N
  then Some ((r1 - 55296) * 1024 + (r2 - 56320) + 65536)%N else None.

(** [getu4]: four hexadecimal digits after [\u]. *)
Definition getu4 (a b c d : ascii) : N :=
  (hex_value a * 4096 + hex_value b * 256 + hex_value c * 16 + hex_value d)%N.

Definition short_escape (c : ascii) : bytes :=
  if is_char "b" c then ["008"%char] else if is_char "f" c then ["012"%char]
  else if is_char "n" c then ["010"%char] else if is_char "r" c then ["013"%char]
  else if is_char "t" c then ["009"%char] else [c].

(** The bytes that may follow a backslash, [u] apart. *)
Definition is_escape (c : ascii) : bool :=
  bool_decide (c ∈ ["b"; "f"; "n"; "r"; "t"; "034"; "\"; "/"; "'"]%char).

(** [unquoteBytes] on the inside of a literal the scanner has accepted; [fuel]
    is the length of the literal. *)
Fixpoint unquote_fuel (fuel : nat) (l : bytes) : bytes :=
  match fuel with
  | O => []
  | S fuel =>
  match l with
  | [] => []
  | c :: l1 =>
      if is_char "\" c then
        match l1 with
        | [] => []
        | x :: l2 =>
            if is_char "u" x then
              match l2 with
              | a :: b :: d :: e :: l6 =>
                  let r := getu4 a b d e in
                  if is_surrogate r then
                    match l6 with
                    | x1 :: x2 :: a' :: b' :: d' :: e' :: l12 =>
                        if is_char "\" x1 && is_char "u" x2 then
                          match surrogate_pair r (getu4 a' b' d' e') with
                          | Some r' => encode_rune r' ++ unquote_fuel fuel l12
                          | None => encode_rune runeError ++ unquote_fuel fuel l6
                          end
                        else encode_rune runeError ++ unquote_fuel fuel l6
                    | _ => encode_rune runeError ++ unquote_fuel fuel l6
                    end
                  else encode_rune r ++ unquote_fuel fuel l6
              | _ => []
              end
            else if is_escape x then short_escape x ++ unquote_fuel fuel l2 else []
        end
      else if (N_of_ascii c <? 128)%N then c :: unquote_fuel fuel l1
      else match rune_len l, l1 with
      | 2, c1 :: l2 => [c; c1] ++ unquote_fuel fuel l2
      | 3, c1 :: c2 :: l3 => [c; c1; c2] ++ unquote_fuel fuel l3
      | 4, c1 :: c2 :: c3 :: l4 => [c; c1; c2; c3] ++ unquote_fuel fuel l4
      | _, _ => encode_rune runeError ++ unquote_fuel fuel l1
      end
  end
  end.

Definition unquote (l : bytes) : string := of_bytes (unquote_fuel (length l) l).

(** ** int64 literals *)

Definition format_int (z : Z) : bytes := to_bytes (NilZero.string_of_int (Z.to_int z)).

Definition parse_int (l : bytes) : option Z :=
  z ← Z.of_int <$> NilZero.int_of_string (of_bytes l);
  if decide (- two63 ≤ z < two63)%Z then Some z else None.

(** ** [[]byte] in base64 ([base64.StdEncoding]) *)

Definition alphabet : bytes :=
  to_bytes "ABCDEFGHIJKLMNOPQRSTUVWXYZabcdefghijklmnopqrstuvwxyz0123456789+/".
Definition b64_char (n : N) : ascii := default "A"%char (alphabet !! N.to_nat n).
Definition b64_value (c : ascii) : option N :=
  if in_range "A" "Z" c then Some (N_of_ascii c - 65)%N
  else if in_range "a" "z" c then Some (N_of_ascii c - 71)%N
  else if is_digit c then Some (N_of_ascii c + 4)%N
  else if is_char "+" c then Some 62%N
  else if is_char "/" c then Some 63%N
  else None.

Fixpoint b64_encode (l : bytes) : bytes :=
  match l with
  | [] => []
  | [x] =>
      let n := (N_of_ascii x * 65536)%N in
      [b64_char (n / 262144); b64_char ((n / 4096) mod 64); "="%char; "="%char]
  | [x; y] =>
      let n := (N_of_ascii x * 65536 + N_of_ascii y * 256)%N in
      [b64_char (n / 262144); b64_char ((n / 4096) mod 64); b64_char ((n / 64) mod 64); "="%char]
  | x :: y :: z :: l' =>
      let n := (N_of_ascii x * 65536 + N_of_ascii y * 256 + N_of_ascii z)%N in
      [b64_char (n / 262144); b64_char ((n / 4096) mod 64); b64_char ((n / 64) mod 64);
       b64_char (n mod 64)] ++ b64_encode l'
  end.

Fixpoint b64_groups (l : bytes) : option bytes :=
  match l with
  | [] => Some []
  | a :: b :: c :: d :: l' =>
      va ← b64_value a; vb ← b64_value b;
      if is_char "=" c then
        if is_char "=" d then
          match l' with [] => Some [ascii_of_N (va * 4 + vb / 16)] | _ => None end
        else None
      else
        vc ← b64_value c;
        let x := ascii_of_N (va * 4 + vb / 16) in
        let y := ascii_of_N ((vb mod 16) * 16 + vc / 4) in
        if is_char "=" d then match l' with [] => Some [x; y] | _ => None end
        else
          vd ← b64_value d; rest ← b64_groups l';
          Some (x :: y :: ascii_of_N ((vc mod 4) * 64 + vd) :: rest)
  | _ => None
  end.

(** [Encoding.Decode] skips line ends. *)
Definition b64_decode (l : bytes) : option bytes :=
  b64_groups (filter (λ c, c ≠ "013"%char ∧ c ≠ "010"%char) l).

(** A byte slice; [nil] is [null]. *)
Definition quote_bytes (l : bytes) : bytes :=
  match l with
  | [] => to_bytes "null"
  | _ => ["034"%char] ++ b64_encode l ++ ["034"%char]
  end.

(** ** Objects *)

Fixpoint join_members (fs : list (string * bytes)) : bytes :=
  match fs with
  | [] => []
  | [(k, v)] => quote k ++ [":"%char] ++ v
  | (k, v) :: fs' => quote k ++ [":"%char] ++ v ++ [","%char] ++ join_members fs'
  end.

Definition object (fs : list (string * bytes)) : bytes :=
  ["{"%char] ++ join_members fs ++ ["}"%char].

(** The scanner has seen a complete top-level value. *)
Definition complete (s : scanner) : bool :=
  match s.(sc_step), s.(sc_stack) with
  | stEndTop, _ => true
  | stEndValue, [] => true
  | _, _ => false
  end.

(** The value at the head of the text and what follows it: the bytes, white space
    inside the value included, are fed to a fresh scanner until it has a complete
    value or, for numbers, the next byte ends it. *)
Fixpoint extent_from (s : scanner) (l : bytes) : bytes * bytes :=
  match l with
  | [] => ([], [])
  | c :: l' =>
      match step s c with
      | (vKeep, s') =>
          if complete s' then ([c], l')
          else let (v, rest) := extent_from s' l' in (c :: v, rest)
      | (vSkip, s') =>
          if complete s' then ([], l)
          else let (v, rest) := extent_from s' l' in (c :: v, rest)
      | (vError, _) => ([], l)
      end
  end.
Definition extent (l : bytes) : bytes * bytes := extent_from newScanner l.

Fixpoint skip_space (l : bytes) : bytes :=
  match l with c :: l' => if isSpace c then skip_space l' else l | [] => [] end.

(** The members of an object after its opening brace: raw key literals and raw
    values, in order. *)
Fixpoint members_fuel (fuel : nat) (l : bytes) : list (bytes * bytes) :=
  match fuel with
  | O => []
  | S fuel =>
      match skip_space l with
      | c :: _ =>
          if is_char "}" c then []
          else
            let (k, l1) := extent (skip_space l) in
            let (v, l2) := extent (skip_space (tail (skip_space l1))) in
            match skip_space l2 with
            | d :: l3 => (k, v) :: (if is_char "," d then members_fuel fuel l3 else [])
            | [] => [(k, v)]
            end
      | [] => []
      end
  end.
Definition members (l : bytes) : list (bytes * bytes) := members_fuel (length l) (tail l).

(** The inside of a string literal. *)
Definition literal_body (l : bytes) : bytes := take (length l - 2) (tail l).

(** The elements of an array, raw. *)
Fixpoint elements_fuel (fuel : nat) (l : bytes) : list bytes :=
  match fuel with
  | O => []
  | S fuel =>
      match skip_space l with
      | c :: _ =>
          if is_char "]" c then []
          else
            let (v, l1) := extent (skip_space l) in
            v :: match skip_space l1 with
                 | d :: l2 => if is_char "," d then elements_fuel fuel l2 else []
                 | [] => []
                 end
      | [] => []
      end
  end.
Definition elements (l : bytes) : list bytes := elements_fuel (length l) (tail l).

(** ** Values into Go variables *)

Definition type_error : error := ErrNew "json: cannot unmarshal value into Go value".
Definition syntax_error : error := ErrNew "json: syntax error".

Definition is_null (raw : bytes) : bool := bool_decide (raw = to_bytes "null").
Definition starts_with (d : ascii) (raw : bytes) : bool :=
  match raw with c :: _ => is_char d c | [] => false end.

(** Into a [string]: [null] leaves it as it is. *)
Definition string_into (raw : bytes) (old : string) : result string :=
  if is_null raw then Ok old
  else if starts_with "034" raw then Ok (unquote (literal_body raw))
  else Err type_error.

(** Into an [int64]. *)
Definition int64_into (raw : bytes) (old : Z) : result Z :=
  if is_null raw then Ok old
  else match parse_int raw with Some z => Ok z | None => Err type_error end.

Fixpoint uint8s (vs : list bytes) : result bytes :=
  match vs with
  | [] => Ok []
  | v :: vs' =>
      try z := int64_into v 0 in
      if (0 <=? z)%Z && (z <=? 255)%Z
      then try l := uint8s vs' in Ok (ascii_of_N (Z.to_N z) :: l)
      else Err type_error
  end.

(** Into a [[]byte]: base64 text, or an array of numbers. *)
Definition bytes_into (raw : bytes) : result bytes :=
  if is_null raw then Ok []
  else if starts_with "034" raw then
    match b64_decode (to_bytes (unquote (literal_body raw))) with
    | Some l => Ok l
    | None => Err (ErrNew "illegal base64 data")
    end
  else if starts_with "[" raw then uint8s (elements raw)
  else Err type_error.

(** [foldName]: the least rune of each simple-folding orbit; among the runes
    beyond ASCII only U+017F and U+212A fold to an ASCII letter. *)
Fixpoint fold_name (l : bytes) : bytes :=
  match l with
  | [] => []
  | c :: l1 =>
      match l with
      | "197"%char :: "191"%char :: l2 => "S"%char :: fold_name l2
      | "226"%char :: "132"%char :: "170"%char :: l3 => "K"%char :: fold_name l3
      | _ => (if in_range "a" "z" c then ascii_of_N (N_of_ascii c - 32) else c) :: fold_name l1
      end
  end.

(** A struct type: its fields by JSON name, each with the reader of its value. *)
Abbreviation fields S := (list (string * (bytes → S → result S))).

(** The field a key selects: the exact name first, then the folded name. *)
Definition field_for {A} (fs : list (string * A)) (key : string) : option A :=
  match list_find (λ f, f.1 = key) fs with
  | Some (_, f) => Some f.2
  | None =>
      match list_find (λ f, fold_name (to_bytes f.1) = fold_name (to_bytes key)) fs with
      | Some (_, f) => Some f.2
      | None => None
      end
  end.

Section structs.
Context {S : Type} (strict : bool).

(** Keys no field answers to are ignored, or refused under
    [DisallowUnknownFields]. *)
Fixpoint set_members (fs : fields S) (ms : list (bytes * bytes)) (acc : S) : result S :=
  match ms with
  | [] => Ok acc
  | (k, v) :: ms' =>
      let key := unquote (literal_body k) in
      match field_for fs key with
      | Some set => try acc' := set v acc in set_members fs ms' acc'
      | None =>
          if strict then Err (ErrFmt "json: unknown field %q" [key]) else set_members fs ms' acc
      end
  end.

Definition struct_into (fs : fields S) (raw : bytes) (acc : S) : result S :=
  if is_null raw then Ok acc
  else if starts_with "{" raw then set_members fs (members raw) acc
  else Err type_error.
End structs.

(** [json.Unmarshal] of a struct: the whole text is checked first; white space
    around the value is allowed. *)
Definition unmarshal_struct {S} (strict : bool) (fs : fields S) (zero : S) (data : bytes) : result S :=
  if Valid data then struct_into strict fs (extent (skip_space data)).1 zero
  else Err syntax_error.
