(* ===== verification/JsonRoundtrip.v ===== *)
(** * What [json.Marshal] writes, [json.Unmarshal] reads back

    Field by field: string literals, integers, base64 byte slices, and objects
    of such values, at any nesting the limit of the scanner allows. *)

From Stdlib Require Import ZArith NArith Lia Ascii String DecimalString DecimalZ.
From stdpp Require Import base list sets strings.
From S2P Require Import Prelude GoRegexp JsonScan Utf8 JsonText.

Abbreviation in_string ps e := (Scanner stInString ps e).

Lemma run_app s l1 l2 : run s (l1 ++ l2) = run s l1 ≫= λ t, run t l2.
Proof.
  revert s. induction l1 as [|c l1 IH]; intros s; simpl; [done|].
  destruct (step s c) as [[] t]; [apply IH|done|done].
Qed.

Lemma run_checkValid s l t : run s l = Some t → checkValid s l = eof_ok t.
Proof.
  revert s. induction l as [|c l IH]; intros s; simpl; [by intros [= ->]|].
  destruct (step s c) as [[] s']; [apply IH|done|done].
Qed.

Lemma to_bytes_app s t : to_bytes (s ++ t)%string = to_bytes s ++ to_bytes t.
Proof. induction s as [|c s IH]; simpl; [done|]. by f_equal. Qed.

(** ** String literals *)

Definition high (c : ascii) : Prop := (128 ≤ N_of_ascii c)%N.

Lemma between_inv lo hi c : between lo hi c = true → (lo ≤ N_of_ascii c ≤ hi)%N.
Proof. unfold between. intros H. apply andb_true_iff in H. rewrite !N.leb_le in H. lia. Qed.

(** The shapes of a rune beyond ASCII. *)
Lemma rune_len_shape c l :
  (N_of_ascii c <? 128)%N = false → rune_len (c :: l) ≠ 0 →
  (∃ c1 l', l = c1 :: l' ∧ rune_len (c :: l) = 2 ∧ Forall high [c; c1]) ∨
  (∃ c1 c2 l', l = c1 :: c2 :: l' ∧ rune_len (c :: l) = 3 ∧ Forall high [c; c1; c2]) ∨
  (∃ c1 c2 c3 l', l = c1 :: c2 :: c3 :: l' ∧ rune_len (c :: l) = 4 ∧ Forall high [c; c1; c2; c3]).
Proof.
  intros Hc. unfold rune_len. rewrite Hc. apply N.ltb_ge in Hc. intros H.
  assert (∀ lo hi x, (128 ≤ lo)%N → between lo hi x = true → high x) as Hb.
  { intros lo hi x Hlo Hx%between_inv. unfold high. lia. }
  destruct l as [|c1 [|c2 [|c3 l]]]; split_match; try done; bool_prop;
    (first [left; eexists _, _; split_and!; [reflexivity|reflexivity|]
           |right; left; eexists _, _, _; split_and!; [reflexivity|reflexivity|]
           |right; right; eexists _, _, _, _; split_and!; [reflexivity|reflexivity|]]);
    rewrite ?Forall_cons, Forall_nil; split_and!; try exact Hc; try exact I; split_match;
    unfold is_cont in *; (eapply Hb; [|eassumption]; done).
Qed.

Lemma step_high ps e c : high c → step (in_string ps e) c = (vKeep, in_string ps e).
Proof.
  intros Hc. unfold high in Hc. unfold step. simpl.
  assert (is_char "034" c = false) as -> by (apply bool_decide_eq_false; intros ->; by cbn in Hc).
  assert (is_char "\" c = false) as -> by (apply bool_decide_eq_false; intros ->; by cbn in Hc).
  assert ((N_of_ascii c <? 32)%N = false) as -> by (apply N.ltb_ge; lia). done.
Qed.

Lemma run_high ps e l : Forall high l → run (in_string ps e) l = Some (in_string ps e).
Proof. induction 1 as [|c l Hc _ IH]; simpl; [done|]. by rewrite step_high. Qed.

Lemma run_ascii_text ps e c :
  (N_of_ascii c < 128)%N → run (in_string ps e) (ascii_text c) = Some (in_string ps e).
Proof. destruct c as [[] [] [] [] [] [] [] []]; intros Hc; first [reflexivity | by cbn in Hc]. Qed.

Lemma line_text_run ps e c0 c1 c2 l :
  Forall high [c0; c1; c2] →
  run (in_string ps e) (match line_sep (c0 :: c1 :: c2 :: l) with
                        | Some x => line_escape x
                        | None => [c0; c1; c2] end) = Some (in_string ps e).
Proof.
  intros H. destruct (line_sep _) as [x|] eqn:E; [|by apply run_high].
  apply line_sep_inv in E as [_ Hx]. by apply line_escape_spec.
Qed.

Lemma append_string_eq c l :
  append_string (c :: l) =
  if (N_of_ascii c <? 128)%N then ascii_text c ++ append_string l
  else match rune_len (c :: l), l with
  | 2, c1 :: l2 => [c; c1] ++ append_string l2
  | 3, c1 :: c2 :: l3 =>
      match line_sep (c :: l) with
      | Some x => line_escape x
      | None => [c; c1; c2]
      end ++ append_string l3
  | 4, c1 :: c2 :: c3 :: l4 => [c; c1; c2; c3] ++ append_string l4
  | _, _ => replacement_text ++ append_string l
  end.
Proof. done. Qed.

Lemma append_string_run ps e l : run (in_string ps e) (append_string l) = Some (in_string ps e).
Proof.
  induction l as [l IH] using (well_founded_induction (well_founded_ltof _ length)).
  unfold ltof in IH. destruct l as [|c l]; [done|]. rewrite append_string_eq.
  destruct (N_of_ascii c <? 128)%N eqn:Hc.
  { rewrite run_app, run_ascii_text by (by apply N.ltb_lt). apply IH. simpl; lia. }
  destruct (decide (rune_len (c :: l) = 0)) as [E|E].
  { rewrite E. destruct l; rewrite run_app; apply IH; simpl; lia. }
  destruct (rune_len_shape _ _ Hc E) as [(?&?&->&En&?)|[(?&?&?&->&En&?)|(?&?&?&?&->&En&?)]];
    rewrite En, run_app, ?line_text_run, ?run_high by done; apply IH; simpl; lia.
Qed.

Lemma unquote_fuel_ascii c n l :
  (N_of_ascii c < 128)%N → unquote_fuel (S n) (ascii_text c ++ l) = c :: unquote_fuel n l.
Proof. destruct c as [[] [] [] [] [] [] [] []]; intros Hc; first [reflexivity | by cbn in Hc]. Qed.

Lemma unquote_fuel_line n l c2 :
  c2 = "168"%char ∨ c2 = "169"%char →
  unquote_fuel (S n) (line_escape c2 ++ l) = ["226"; "128"; c2]%char ++ unquote_fuel n l.
Proof. by intros [-> | ->]. Qed.

(** [rune_len] looks at the bytes of the rune only. *)
Lemma rune_len_prefix c0 c1 c2 c3 l l' :
  (rune_len (c0 :: c1 :: l) = 2 → rune_len (c0 :: c1 :: l') = 2) ∧
  (rune_len (c0 :: c1 :: c2 :: l) = 3 → rune_len (c0 :: c1 :: c2 :: l') = 3) ∧
  (rune_len (c0 :: c1 :: c2 :: c3 :: l) = 4 → rune_len (c0 :: c1 :: c2 :: c3 :: l') = 4).
Proof.
  unfold rune_len. split_and!; repeat (case_match; try done).
Qed.

Lemma unquote_fuel_rune n c l :
  high c →
  unquote_fuel (S n) (c :: l) =
  match rune_len (c :: l), l with
  | 2, c1 :: l2 => [c; c1] ++ unquote_fuel n l2
  | 3, c1 :: c2 :: l3 => [c; c1; c2] ++ unquote_fuel n l3
  | 4, c1 :: c2 :: c3 :: l4 => [c; c1; c2; c3] ++ unquote_fuel n l4
  | _, _ => encode_rune runeError ++ unquote_fuel n l
  end.
Proof.
  unfold high. intros Hc. cbn [unquote_fuel].
  assert (is_char "\" c = false) as -> by (apply bool_decide_eq_false; intros ->; by cbn in Hc).
  by assert ((N_of_ascii c <? 128)%N = false) as -> by (apply N.ltb_ge; lia).
Qed.

Lemma utf8_valid_eq c l :
  utf8_valid (c :: l) =
  match rune_len (c :: l) with
  | 1 => utf8_valid l
  | 2 => match l with _ :: l2 => utf8_valid l2 | _ => false end
  | 3 => match l with _ :: _ :: l3 => utf8_valid l3 | _ => false end
  | 4 => match l with _ :: _ :: _ :: l4 => utf8_valid l4 | _ => false end
  | _ => false
  end.
Proof. done. Qed.

Lemma ascii_text_pos c : 0 < length (ascii_text c).
Proof. unfold ascii_text. repeat case_match; simpl; lia. Qed.

Lemma append_string_nonempty c l : ∃ x l', append_string (c :: l) = x :: l'.
Proof.
  rewrite append_string_eq. destruct (_ <? _)%N; [|by repeat case_match; eauto].
  pose proof (ascii_text_pos c). destruct (ascii_text c) as [|x t]; simpl in *; [lia|by eauto].
Qed.

(** Escaping a valid UTF-8 string and reading the literal gives it back. *)
Lemma unquote_append_string l n :
  utf8_valid l = true → length (append_string l) ≤ n → unquote_fuel n (append_string l) = l.
Proof.
  revert n. induction l as [l IH] using (well_founded_induction (well_founded_ltof _ length)).
  unfold ltof in IH. intros n Hv Hn. destruct l as [|c l]; [by destruct n|].
  destruct (append_string_nonempty c l) as (x&t&Hx).
  destruct n as [|n]; [rewrite Hx in Hn; simpl in Hn; lia|]. clear x t Hx.
  rewrite append_string_eq in *. rewrite utf8_valid_eq in Hv.
  destruct (N_of_ascii c <? 128)%N eqn:Hc.
  - rewrite unquote_fuel_ascii by (by apply N.ltb_lt). f_equal. apply IH; [simpl; lia| |].
    + unfold rune_len in Hv. by rewrite Hc in Hv.
    + rewrite length_app in Hn. pose proof (ascii_text_pos c). lia.
  - assert (rune_len (c :: l) ≠ 0) as E by (intros E; by rewrite E in Hv).
    destruct (rune_len_shape _ _ Hc E) as [(c1&l'&->&En&Hh)|[(c1&c2&l'&->&En&Hh)|(c1&c2&c3&l'&->&En&Hh)]];
      rewrite En in *.
    + simpl in Hn. simpl app. rewrite unquote_fuel_rune by (by inversion Hh).
      rewrite (proj1 (rune_len_prefix c c1 c1 c1 l' _) En). simpl. do 2 f_equal. apply IH; simpl; auto; lia.
    + destruct (line_sep (c :: c1 :: c2 :: l')) as [y|] eqn:El.
      * apply line_sep_inv in El as [[l'' El] Hy]. simpl in El. simplify_eq.
        rewrite unquote_fuel_line by done. simpl in *. do 3 f_equal. apply IH; simpl; auto; lia.
      * simpl in Hn. simpl app. rewrite unquote_fuel_rune by (by inversion Hh).
        rewrite (proj1 (proj2 (rune_len_prefix c c1 c2 c1 l' _)) En). simpl. do 3 f_equal.
        apply IH; simpl; auto; lia.
    + simpl in Hn. simpl app. rewrite unquote_fuel_rune by (by inversion Hh).
      rewrite (proj2 (proj2 (rune_len_prefix c c1 c2 c3 l' _)) En). simpl. do 4 f_equal.
      apply IH; simpl; auto; lia.
Qed.

(** ** Values *)

(** The scanner has just read a complete value inside the open containers [ps];
    a number ends in one of its own states. *)
Definition ended (ps : list parse_state) (t : scanner) : Prop :=
  t.(sc_stack) = ps ∧ t.(sc_endTop) = false ∧
  t.(sc_step) ∈ [stEndValue; st1; st0; stDot0; stE0].

(** [v] is a value of a member of an object inside the containers [ps]. *)
Definition value_in (ps : list parse_state) (v : bytes) : Prop :=
  ∃ t, run (Scanner stBeginValue (parseObjectValue :: ps) false) v = Some t ∧
    ended (parseObjectValue :: ps) t.

(** [v] is a whole text without white space around it. *)
Definition value_alone (v : bytes) : Prop :=
  ∃ t, v ≠ [] ∧ run newScanner v = Some t ∧ (t = Scanner stEndTop [] true ∨ ended [] t).

Lemma complete_stuck s c : complete s = true → (step s c).1 ≠ vKeep.
Proof.
  destruct s as [[] [] ?]; try done; intros _; unfold_step; by destruct (isSpace c).
Qed.

(** The byte [c] does not belong to the value the scanner has read. *)
Definition stops (t : scanner) (c : ascii) : Prop :=
  match step t c with
  | (vKeep, _) => False
  | (vSkip, t') => complete t' = true
  | (vError, _) => True
  end.

Lemma extent_run s v t rest :
  run s v = Some t → v ≠ [] →
  complete t = true ∨ match rest with [] => True | c :: _ => stops t c end →
  extent_from s (v ++ rest) = (v, rest).
Proof.
  intros Hr Hv Hend. revert s Hr. induction v as [|c v IH]; [done|]. clear Hv.
  intros s Hr. simpl in *. destruct (step s c) as [[] s'] eqn:Hs; try done.
  destruct v as [|c' v].
  - simpl in *. injection Hr as ->. destruct (complete t) eqn:Ht; [done|].
    destruct Hend as [?|Hend]; [done|]. destruct rest as [|d rest]; [done|].
    simpl. unfold stops in Hend. destruct (step t d) as [[] t']; [done|by rewrite Hend|done].
  - destruct (complete s') eqn:Hc.
    { apply (complete_stuck _ c') in Hc. simpl in Hr. by destruct (step s' c') as [[] ?]. }
    by rewrite (IH ltac:(done) s' Hr).
Qed.

Lemma ended_stop t c :
  t = Scanner stEndTop [] true ∨ ended [] t → c = ","%char ∨ c = "}"%char ∨ c = "010"%char → stops t c.
Proof.
  intros [->|(Hs&He&Ht)]; [by intros [->|[->| ->]]|]. destruct t as [st ps e]; simpl in *; subst.
  set_unfold in Ht. intros Hc. destruct_or! Ht; subst st; destruct Hc as [->|[->| ->]]; done.
Qed.

Lemma extent_alone v rest :
  value_alone v → rest = [] ∨ (∃ c l, rest = c :: l ∧ (c = ","%char ∨ c = "}"%char ∨ c = "010"%char)) →
  extent (v ++ rest) = (v, rest).
Proof.
  intros (t&Hv&Hr&Ht) Hrest. eapply extent_run; [done|done|]. right.
  destruct Hrest as [->|(c&l&->&Hc)]; [done|by apply ended_stop].
Qed.

Lemma value_alone_no_space v rest : value_alone v → skip_space (v ++ rest) = v ++ rest.
Proof.
  intros (t&Hv&Hr&_). destruct v as [|c v]; [done|]. simpl in *.
  destruct (isSpace c) eqn:E; [|done]. unfold step, newScanner, stateBeginValue in Hr.
  simpl in Hr. by rewrite E in Hr.
Qed.

(** ** String values *)

Lemma quote_run ps e s :
  run (Scanner stBeginValue ps e) (quote s) = Some (Scanner stEndValue ps e) ∧
  run (Scanner stBeginString ps e) (quote s) = Some (Scanner stEndValue ps e) ∧
  run (Scanner stBeginStringOrEmpty ps e) (quote s) = Some (Scanner stEndValue ps e).
Proof.
  unfold quote. simpl. unfold step; simpl. unfold keep; simpl.
  by rewrite !run_app, append_string_run.
Qed.

Lemma quote_value_in ps s : value_in ps (quote s).
Proof.
  eexists. split; [apply quote_run|]. split_and!; [done|done|simpl; constructor].
Qed.

Lemma quote_value_alone s : value_alone (quote s).
Proof.
  eexists. split_and!; [done|apply quote_run|]. right. split_and!; [done|done|simpl; constructor].
Qed.

Lemma extent_quote s rest : extent (quote s ++ rest) = (quote s, rest).
Proof. eapply extent_run; [apply quote_run|done|]. by left. Qed.

Lemma literal_body_quote l : literal_body (["034"%char] ++ l ++ ["034"%char]) = l.
Proof.
  unfold literal_body. rewrite !length_app. simpl tail. change (length ["034"%char]) with 1.
  rewrite take_app_length'; [done|lia].
Qed.

Lemma unquote_quote s : utf8_string s = true → unquote (literal_body (quote s)) = s.
Proof.
  intros Hs. unfold quote. rewrite literal_body_quote. unfold unquote.
  rewrite unquote_append_string by done. apply String.string_of_list_ascii_of_string.
Qed.

Lemma string_into_quote s old : utf8_string s = true → string_into (quote s) old = Ok s.
Proof.
  intros Hs. unfold string_into, is_null. rewrite bool_decide_eq_false_2 by done.
  by rewrite unquote_quote.
Qed.

(** ** Integers *)

Lemma norm_head d : Decimal.unorm d = d → d = Decimal.D0 Decimal.Nil ∨ (d ≠ Decimal.Nil ∧ ∀ d', d ≠ Decimal.D0 d').
Proof.
  unfold Decimal.unorm. intros H.
  assert (∀ u u', Decimal.nzhead u ≠ Decimal.D0 u') as Hn.
  { intros u. induction u; intros u'; simpl; try done. }
  destruct (Decimal.nzhead d) eqn:E; try (right; subst d; split; [done|]; by intros d' ?); [by left|].
  by apply Hn in E.
Qed.

Lemma digits_run ps e d :
  run (Scanner st1 ps e) (to_bytes (NilEmpty.string_of_uint d)) = Some (Scanner st1 ps e).
Proof. induction d; simpl; done. Qed.

Lemma uint_run st ps e d :
  st = stBeginValue ∨ st = stNeg → Decimal.unorm d = d →
  ∃ st', run (Scanner st ps e) (to_bytes (NilZero.string_of_uint d)) = Some (Scanner st' ps e) ∧
    (st' = st0 ∨ st' = st1).
Proof.
  intros Hst [->|[H1 H2]]%norm_head.
  - exists st0. destruct Hst as [->| ->]; auto.
  - exists st1. split; [|by right].
    destruct d; try done; try (by edestruct H2); destruct Hst as [->| ->]; simpl; apply digits_run.
Qed.

Lemma to_uint_norm p : Decimal.unorm (Pos.to_uint p) = Pos.to_uint p.
Proof.
  pose proof (DecimalZ.to_of (Z.to_int (Z.pos p))) as H. rewrite DecimalZ.of_to in H.
  simpl in H. by injection H as H.
Qed.

Lemma format_int_run ps e z :
  ∃ st, run (Scanner stBeginValue ps e) (format_int z) = Some (Scanner st ps e) ∧
    (st = st0 ∨ st = st1).
Proof.
  unfold format_int. destruct z as [|p|p].
  - exists st0. auto.
  - apply (uint_run stBeginValue); [by left|apply to_uint_norm].
  - apply (uint_run stNeg); [by right|apply to_uint_norm].
Qed.

Lemma format_int_value z : value_alone (format_int z) ∧ ∀ ps, value_in ps (format_int z).
Proof.
  split; [|intros ps].
  - destruct (format_int_run [] false z) as (st&Hr&Hst). eexists. split_and!; [|exact Hr|].
    { by intros Hn; rewrite Hn in Hr; destruct Hst as [-> | ->]. }
    right. split_and!; [done|done|]. simpl. destruct Hst as [->| ->]; set_solver.
  - destruct (format_int_run (parseObjectValue :: ps) false z) as (st&Hr&Hst). eexists.
    split; [exact Hr|]. split_and!; [done|done|]. simpl. destruct Hst as [->| ->]; set_solver.
Qed.

Lemma int_of_format z : Z.of_int <$> NilZero.int_of_string (of_bytes (format_int z)) = Some z.
Proof.
  unfold format_int. rewrite String.string_of_list_ascii_of_string. rewrite NilZero.isi.
  - simpl. by rewrite DecimalZ.of_to.
  - destruct z; simpl; try done. intros [= H].
    pose proof (to_uint_norm p) as Hn. by rewrite H in Hn.
  - destruct z; simpl; try done. intros [= H].
    pose proof (to_uint_norm p) as Hn. by rewrite H in Hn.
Qed.

Lemma parse_format_int z : (- two63 ≤ z < two63)%Z → parse_int (format_int z) = Some z.
Proof. intros Hz. unfold parse_int. rewrite int_of_format. simpl. by rewrite decide_True. Qed.

Lemma int64_into_format z old : (- two63 ≤ z < two63)%Z → int64_into (format_int z) old = Ok z.
Proof.
  intros Hz. unfold int64_into, is_null. rewrite bool_decide_eq_false_2.
  - by rewrite parse_format_int.
  - intros Hn. pose proof (parse_format_int z Hz) as Hp. by rewrite Hn in Hp.
Qed.

(** ** Byte slices *)

Definition b64_safe (c : ascii) : Prop := is_Some (b64_value c) ∨ c = "="%char.

Lemma b64_safe_plain c :
  b64_safe c → (N_of_ascii c < 128)%N ∧ ascii_text c = [c] ∧ c ≠ "013"%char ∧ c ≠ "010"%char.
Proof.
  intros [H| ->]; [|done].
  destruct c as [[] [] [] [] [] [] [] []]; first [by destruct H | done].
Qed.

Lemma append_string_safe l : Forall b64_safe l → append_string l = l ∧ utf8_valid l = true.
Proof.
  induction 1 as [|c l Hc _ [IH1 IH2]]; [done|]. apply b64_safe_plain in Hc as (Hc&Ht&_).
  apply N.ltb_lt in Hc. rewrite append_string_eq, utf8_valid_eq. unfold rune_len.
  by rewrite Hc, Ht, IH1.
Qed.

Lemma b64_char_spec n :
  (n < 64)%N → b64_value (b64_char n) = Some n ∧ is_char "=" (b64_char n) = false.
Proof.
  intros Hn. rewrite <- (N2Nat.id n). assert (N.to_nat n ∈ List.seq 0 64) as Hi by (apply elem_of_seq; lia).
  revert Hi. generalize (N.to_nat n). apply Forall_forall. by repeat constructor.
Qed.

Lemma b64_value_char n : (n < 64)%N → b64_value (b64_char n) = Some n.
Proof. apply b64_char_spec. Qed.
Lemma b64_char_not_pad n : (n < 64)%N → is_char "=" (b64_char n) = false.
Proof. apply b64_char_spec. Qed.

Ltac Zify.zify_post_hook ::= Z.to_euclidean_division_equations.

Lemma byte_bound c : (N_of_ascii c < 256)%N.
Proof. apply N_ascii_bounded. Qed.

Lemma b64_char_safe n : (n < 64)%N → b64_safe (b64_char n).
Proof. intros Hn. left. by rewrite b64_value_char. Qed.

(** Induction on a byte slice by groups of three. *)
Lemma by_threes (P : bytes → Prop) :
  P [] → (∀ x, P [x]) → (∀ x y, P [x; y]) → (∀ x y z l, P l → P (x :: y :: z :: l)) → ∀ l, P l.
Proof.
  intros H0 H1 H2 H3 l. induction l as [l IH] using (well_founded_induction (well_founded_ltof _ length)).
  unfold ltof in IH. destruct l as [|x [|y [|z l]]]; auto. apply H3, IH. simpl. lia.
Qed.

Lemma b64_encode_safe l : Forall b64_safe (b64_encode l).
Proof.
  induction l as [|x|x y|x y z l IH] using by_threes; simpl;
    repeat first [apply Forall_nil_2 | apply Forall_cons_2 | exact IH];
    first [by right | apply b64_char_safe]; 
    pose proof (byte_bound x); try pose proof (byte_bound y); try pose proof (byte_bound z); lia.
Qed.

Lemma b64_groups_encode l : b64_groups (b64_encode l) = Some l.
Proof.
  assert (∀ c n, n = N_of_ascii c → ascii_of_N n = c) as Ha.
  { intros c n ->. apply ascii_N_embedding. }
  induction l as [|x|x y|x y z l IH] using by_threes; [done|..];
    pose proof (byte_bound x); try pose proof (byte_bound y); try pose proof (byte_bound z);
    cbn [b64_encode b64_groups app].
  - rewrite !b64_value_char by lia. simpl. do 2 f_equal. apply Ha. lia.
  - rewrite !b64_value_char, b64_char_not_pad by lia. simpl.
    f_equal. f_equal; [|f_equal]; apply Ha; lia.
  - rewrite !b64_value_char, !b64_char_not_pad by lia. simpl.
    rewrite IH. simpl. f_equal. f_equal; [|f_equal; [|f_equal]]; apply Ha; lia.
Qed.

Ltac Zify.zify_post_hook ::= idtac.

Lemma filter_all {A} (P : A → Prop) `{!∀ x, Decision (P x)} l : Forall P l → filter P l = l.
Proof. induction 1 as [|x l Hx _ IH]; [done|]. by rewrite filter_cons_True, IH. Qed.

Lemma b64_decode_encode l : b64_decode (b64_encode l) = Some l.
Proof.
  unfold b64_decode. rewrite filter_all; [apply b64_groups_encode|].
  eapply Forall_impl; [apply b64_encode_safe|]. intros c Hc. by apply b64_safe_plain.
Qed.

Lemma quote_bytes_quote l :
  l ≠ [] → quote_bytes l = quote (of_bytes (b64_encode l)).
Proof.
  intros Hl. unfold quote. rewrite String.list_ascii_of_string_of_list_ascii.
  rewrite (proj1 (append_string_safe _ (b64_encode_safe l))). by destruct l.
Qed.

Lemma quote_bytes_value l : value_alone (quote_bytes l) ∧ ∀ ps, value_in ps (quote_bytes l).
Proof.
  destruct (decide (l = [])) as [->|Hl].
  - split; [|intros ps]; eexists; (split_and!; try reflexivity); try done; [right|];
      (split_and!; [done|done|simpl; constructor]).
  - rewrite (quote_bytes_quote l Hl). split; [apply quote_value_alone|intros; apply quote_value_in].
Qed.

Lemma bytes_into_quote l : bytes_into (quote_bytes l) = Ok l.
Proof.
  destruct (decide (l = [])) as [->|Hl]; [done|]. rewrite (quote_bytes_quote l Hl).
  unfold bytes_into, is_null. rewrite bool_decide_eq_false_2 by done. simpl starts_with. cbv iota.
  rewrite unquote_quote.
  - by rewrite String.list_ascii_of_string_of_list_ascii, b64_decode_encode.
  - unfold utf8_string. rewrite String.list_ascii_of_string_of_list_ascii.
    by apply append_string_safe, b64_encode_safe.
Qed.

(** ** Objects *)

(** Where the scanner is after the closing brace of an object inside [ps]. *)
Definition closed (ps : list parse_state) : scanner :=
  match ps with [] => Scanner stEndTop [] true | _ => Scanner stEndValue ps false end.

Lemma ended_step ps t c :
  ended (parseObjectValue :: ps) t → c = ","%char ∨ c = "}"%char →
  step t c = (vKeep, if is_char "," c then Scanner stBeginString (parseObjectKey :: ps) false else closed ps).
Proof.
  intros (Hs&He&Ht). destruct t as [st ps' e]; simpl in *; subst.
  set_unfold in Ht. intros Hc. destruct_or! Ht; subst st; destruct Hc as [->| ->]; by destruct ps.
Qed.

Lemma join_members_run st ps fs :
  st = stBeginString ∨ st = stBeginStringOrEmpty → fs ≠ [] → Forall (value_in ps) fs.*2 →
  run (Scanner st (parseObjectKey :: ps) false) (join_members fs ++ ["}"%char]) = Some (closed ps).
Proof.
  intros Hst Hne Hfs. revert st Hst. induction fs as [|[k v] fs IH]; [done|]. clear Hne. intros st Hst.
  apply Forall_cons in Hfs as [(t&Hv&Ht) Hfs].
  assert (run (Scanner st (parseObjectKey :: ps) false) (quote k ++ [":"%char] ++ v) = Some t) as Hkv.
  { rewrite run_app. destruct Hst as [->| ->];
      rewrite (proj1 (proj2 (quote_run _ _ _))) || rewrite (proj2 (proj2 (quote_run _ _ _))); exact Hv. }
  destruct fs as [|kv fs].
  - cbn [join_members]. rewrite run_app, Hkv. cbn [run mbind option_bind].
    by rewrite (ended_step _ _ _ Ht (or_intror eq_refl)).
  - replace (join_members ((k, v) :: kv :: fs) ++ ["}"%char])
      with ((quote k ++ [":"%char] ++ v) ++ ([","%char] ++ (join_members (kv :: fs) ++ ["}"%char])))
      by (cbn [join_members]; by rewrite <- !app_assoc).
    rewrite run_app, Hkv. cbn [app run mbind option_bind].
    rewrite (ended_step _ _ _ Ht (or_introl eq_refl)). cbn [is_char bool_decide].
    apply IH; auto.
Qed.

Lemma object_run ps fs :
  (N.of_nat (length ps) < maxNestingDepth)%N → Forall (value_in ps) fs.*2 →
  run (Scanner stBeginValue ps false) (object fs) = Some (closed ps).
Proof.
  intros Hps Hfs. unfold object. cbn [app run].
  replace (step (Scanner stBeginValue ps false) "{")
    with (vKeep, Scanner stBeginStringOrEmpty (parseObjectKey :: ps) false).
  { destruct (decide (fs = [])) as [->|Hne]; [by destruct ps|]. apply join_members_run; auto. }
  unfold_step. replace (_ <=? _)%N with true; [done|]. symmetry. apply N.leb_le.
  lia.
Qed.

Lemma object_value_in ps fs :
  (N.of_nat (length ps) + 1 < maxNestingDepth)%N → Forall (value_in (parseObjectValue :: ps)) fs.*2 →
  value_in ps (object fs).
Proof.
  intros Hps Hfs. eexists. split; [apply object_run; [simpl; lia|done]|].
  split_and!; [done|done|simpl; constructor].
Qed.

Lemma object_value_alone fs : Forall (value_in []) fs.*2 → value_alone (object fs).
Proof.
  intros Hfs. eexists. split_and!; [done|apply object_run; done|by left].
Qed.

Lemma value_alone_Valid v : value_alone v → Valid v = true.
Proof.
  intros (t&_&Hr&Ht). unfold Valid. rewrite (run_checkValid _ _ _ Hr).
  destruct Ht as [->|(Hs&He&Ht)]; [done|]. destruct t as [st ps e]; simpl in *; subst.
  set_unfold in Ht. by destruct_or! Ht; subst st.
Qed.

Lemma quote_no_space s rest : skip_space (quote s ++ rest) = quote s ++ rest.
Proof. apply value_alone_no_space, quote_value_alone. Qed.

Lemma members_join fs fuel rest :
  fs ≠ [] → Forall value_alone fs.*2 → length fs ≤ fuel →
  members_fuel fuel (join_members fs ++ "}"%char :: rest) = (λ '(k, v), (quote k, v)) <$> fs.
Proof.
  intros Hne Hfs. revert fuel. induction fs as [|[k v] fs IH]; [done|]. clear Hne. intros fuel Hf.
  apply Forall_cons in Hfs as [Hv Hfs]. destruct fuel as [|fuel]; simpl in Hf; [lia|].
  set (tl := match fs with [] => "}"%char :: rest | _ => ","%char :: join_members fs ++ "}"%char :: rest end).
  assert (join_members ((k, v) :: fs) ++ "}"%char :: rest = quote k ++ ":"%char :: v ++ tl) as ->.
  { unfold tl. destruct fs; cbn [join_members]; by rewrite <- !app_assoc. }
  cbn [members_fuel]. rewrite quote_no_space. unfold quote at 1. cbn [app]. cbn [is_char bool_decide].
  rewrite (extent_quote k).
  change (tail (skip_space (":"%char :: v ++ tl))) with (v ++ tl).
  rewrite (value_alone_no_space v) by done.
  assert (extent (v ++ tl) = (v, tl)) as ->.
  { apply extent_alone; [done|]. right. unfold tl. destruct fs; eauto 10. }
  unfold tl. destruct fs as [|kv fs]; [done|].
  change (skip_space (","%char :: join_members (kv :: fs) ++ "}"%char :: rest))
    with (","%char :: join_members (kv :: fs) ++ "}"%char :: rest).
  change (is_char "," ",") with true. cbv iota.
  rewrite IH; [done|done|done|simpl in *; lia].
Qed.

Lemma length_join_members fs : length fs ≤ length (join_members fs).
Proof.
  induction fs as [|[k v] [|kv fs] IH]; [simpl; lia|simpl; lia|].
  cbn [join_members]. rewrite !length_app. simpl in *. lia.
Qed.

Lemma members_object fs :
  Forall value_alone fs.*2 → members (object fs) = (λ '(k, v), (quote k, v)) <$> fs.
Proof.
  intros Hfs. destruct (decide (fs = [])) as [->|Hne]; [done|]. unfold members, object. cbn [app tail]. apply members_join; [done|done|].
  pose proof (length_join_members fs). simpl. rewrite length_app. lia.
Qed.

(** ** Raw messages *)

Lemma compact_from_run src s s' d :
  ahead s s' → compact_from s 0 src = Some d → ∃ t, run s' d = Some t ∧ eof_ok t = true.
Proof.
  revert s s' d. induction src as [src IH] using (well_founded_induction (well_founded_ltof _ length)).
  unfold ltof in IH. intros s s' d Ha H. destruct src as [|c src]; cbn [compact_from] in H.
  { destruct (eof_ok s) eqn:E; simplify_eq. exists s'. split; [done|by eapply ahead_eof]. }
  destruct (step s c) as [[] t] eqn:Hst; try done.
  2:{ eapply (IH src); [simpl; lia| |done]. by eapply ahead_skip. }
  pose proof (ahead_keep _ _ _ _ Ha Hst) as Hst'.
  destruct (is_html c) eqn:Hh.
  { apply fmap_Some in H as (d'&Hd&->).
    apply step_keep_in_string in Hst' as [Hs' ->]; [|by left].
    rewrite run_app, (proj1 (html_escape_spec _ _ Hs' Hh)).
    eapply IH; [|by left|exact Hd]. simpl; lia. }
  destruct (line_sep (c :: src)) as [c2|] eqn:Hl.
  { apply fmap_Some in H as (d'&Hd&->).
    destruct (line_sep_in_string _ _ _ _ _ Hl Hst') as (src'&->&Hs'&->&E&Hc2). rewrite E in Hd.
    rewrite run_app, (proj1 (line_escape_spec _ _ Hs' Hc2)).
    eapply IH; [|by left|exact Hd]. simpl; lia. }
  apply fmap_Some in H as (d'&Hd&->). simpl. rewrite Hst'.
  eapply IH; [|by left|exact Hd]. simpl; lia.
Qed.

Lemma step_endTop s c t :
  s.(sc_endTop) = false → step s c = (vKeep, t) →
  t.(sc_endTop) = false ∨ t = Scanner stEndTop [] true.
Proof.
  destruct s as [st ps e]. simpl. intros -> H.
  destruct st; unfold_step; split_match; auto.
Qed.

Lemma run_endTop s l t :
  s.(sc_endTop) = false → run s l = Some t → t.(sc_endTop) = false ∨ t = Scanner stEndTop [] true.
Proof.
  revert s. induction l as [|c l IH]; intros s Hs; simpl; [intros [= <-]; auto|].
  destruct (step s c) as [[] s'] eqn:E; try done.
  destruct (step_endTop _ _ _ Hs E) as [?| ->]; [by apply IH|].
  destruct l as [|c' l]; simpl; [intros [= <-]; auto|].
  pose proof (complete_stuck (Scanner stEndTop [] true) c' eq_refl).
  by destruct (step (Scanner stEndTop [] true) c') as [[] ?].
Qed.

Lemma eof_ended t :
  t.(sc_endTop) = false → eof_ok t = true → ended [] t.
Proof.
  unfold eof_ok. intros Ht. rewrite Ht. simpl. destruct (step t sp) as [[] s'] eqn:E; intros H; try done.
  - destruct t as [st ps e]. simpl in *. subst e. exfalso.
    destruct st; first [discriminate E | injection E as <-; discriminate H | destruct ps; discriminate E].
  - apply step_space_inv in E as [[_ ->]|[Hst ->]]; [congruence|].
    destruct t as [st [|p ps] e]; simpl in *; [|congruence]. by split; [|split].
Qed.

Lemma compact_alone src d : compact src = Some d → value_alone d.
Proof.
  intros H. pose proof (compact_nonempty _ _ H) as Hne.
  destruct (compact_from_run _ _ newScanner _ (or_introl eq_refl) H) as (t&Hr&He).
  exists t. split_and!; [done|done|].
  destruct (run_endTop newScanner _ _ eq_refl Hr) as [Ht|Ht]; [|by left]. right. by apply eof_ended.
Qed.

(** The scanner on a text alone and on the same text as the value of a member. *)
Definition below (p : parse_state) (s s' : scanner) : Prop :=
  (s.(sc_endTop) = false ∧ (s.(sc_step) = stBeginStringOrEmpty → s.(sc_stack) ≠ []) ∧
   s' = Scanner s.(sc_step) (s.(sc_stack) ++ [p]) false) ∨
  (s = Scanner stEndTop [] true ∧ s' = Scanner stEndValue [p] false).

Lemma below_step p s s' c t t' :
  below p s s' → step s c = (vKeep, t) → step s' c = (vKeep, t') → below p t t'.
Proof.
  intros [(He&Hk&->)|[-> ->]]; [|unfold_step; by destruct (isSpace c)].
  destruct s as [st ps e]; simpl in *; subst e. intros H H'.
  destruct st; unfold_step; destruct ps as [|q [|q' ps]]; simpl in *; split_match;
    first [by left | by right | by destruct Hk | done].
Qed.

Lemma below_run p s s' l t t' :
  below p s s' → run s l = Some t → run s' l = Some t' → below p t t'.
Proof.
  revert s s'. induction l as [|c l IH]; intros s s' Hb; simpl.
  - by intros [= <-] [= <-].
  - destruct (step s c) as [[] u] eqn:E, (step s' c) as [[] u'] eqn:E'; try done.
    apply IH. by eapply below_step.
Qed.

Lemma compact_member src d :
  compact src = Some d → member_ok d = true → value_in [] d.
Proof.
  intros Hc Hm. destruct (compact_alone _ _ Hc) as (t&_&Hr&Ht). unfold member_ok in Hm.
  destruct (run _ d) as [t'|] eqn:Hr'; [|done]. exists t'. split; [done|].
  assert (below parseObjectValue t t') as Hb by (eapply below_run; [|exact Hr|exact Hr']; by left).
  destruct Hb as [(He&_&->)|[-> ->]]; [|by repeat constructor].
  destruct Ht as [->|(Hs&_&Hst)]; [done|]. rewrite Hs. by split_and!.
Qed.

(** ** Structs *)

(** Setting the fields of a struct from what [object] wrote. *)
Fixpoint set_fields {S} (fs : fields S) (kvs : list (string * bytes)) (acc : S) : result S :=
  match kvs with
  | [] => Ok acc
  | (k, v) :: kvs' =>
      match field_for fs k with
      | Some set => try acc' := set v acc in set_fields fs kvs' acc'
      | None => Err syntax_error
      end
  end.

Lemma set_members_fields {S} b (fs : fields S) kvs acc x :
  Forall (λ kv, utf8_string kv.1 = true) kvs → set_fields fs kvs acc = Ok x →
  set_members b fs ((λ '(k, v), (quote k, v)) <$> kvs) acc = Ok x.
Proof.
  intros Hk. revert acc. induction Hk as [|[k v] kvs Hk _ IH]; intros acc; [done|].
  cbn [set_fields set_members fmap list_fmap]. rewrite (unquote_quote k) by exact Hk.
  destruct (field_for fs k) as [set|]; [|done]. destruct (set v acc); [apply IH|done].
Qed.

Lemma struct_into_object {S} b (fs : fields S) kvs acc x :
  Forall value_alone kvs.*2 → Forall (λ kv, utf8_string kv.1 = true) kvs →
  set_fields fs kvs acc = Ok x → struct_into b fs (object kvs) acc = Ok x.
Proof.
  intros Hv Hk H. unfold struct_into, is_null. rewrite bool_decide_eq_false_2 by done.
  change (starts_with "{" (object kvs)) with true. cbv iota. rewrite members_object by done.
  by apply set_members_fields.
Qed.

Lemma unmarshal_object {S} b (fs : fields S) kvs zero x :
  Forall value_alone kvs.*2 → Forall (value_in []) kvs.*2 →
  Forall (λ kv, utf8_string kv.1 = true) kvs →
  set_fields fs kvs zero = Ok x → unmarshal_struct b fs zero (object kvs) = Ok x.
Proof.
  intros Hv Hin Hk H. pose proof (object_value_alone _ Hin) as Ho.
  unfold unmarshal_struct. rewrite (value_alone_Valid _ Ho).
  pose proof (value_alone_no_space _ [] Ho) as Hs. pose proof (extent_alone _ [] Ho (or_introl eq_refl)) as He.
  rewrite app_nil_r in Hs, He. rewrite Hs, He. by apply struct_into_object.
Qed.
