(* ===== verification/JsonValues.v ===== *)
(** * [encoding/json]: booleans, uint64, maps, streams, and the text of decoded strings

    The remaining value types of the program's messages, with their read-back
    lemmas, and the fact that every string [json.Unmarshal] produces is valid
    UTF-8, so that what was read can always be written and read again. *)

From Stdlib Require Import ZArith NArith Lia ZifyBool ZifyN Ascii String DecimalString DecimalZ Sorted.
From stdpp Require Import base list gmap sets strings sorting.
From S2P Require Import Prelude GoRegexp JsonScan Utf8 JsonText JsonRoundtrip.

(** [json.Decoder.Decode]: the first value of the stream; what follows is not
    looked at. *)
Definition Decode {S} (strict : bool) (fs : fields S) (zero : S) (stream : bytes) : result S :=
  unmarshal_struct strict fs zero (extent (skip_space stream)).1.

Definition uint64_into (raw : bytes) (old : Z) : result Z :=
  if is_null raw then Ok old
  else match Z.of_int <$> DecimalString.NilZero.int_of_string (of_bytes raw) with
  | Some z => if starts_with "-" raw || negb (bool_decide (0 ≤ z < two64)%Z) then Err type_error else Ok z
  | None => Err type_error
  end.

(** Booleans. *)
Definition format_bool (b : bool) : bytes := to_bytes (if b then "true" else "false").
Definition bool_into (raw : bytes) (old : bool) : result bool :=
  if is_null raw then Ok old
  else if bool_decide (raw = to_bytes "true") then Ok true
  else if bool_decide (raw = to_bytes "false") then Ok false
  else Err type_error.

(** A map with string keys: written in the order of its keys; read entry by entry
    into the map that is there, each value into a fresh variable; [null] makes it
    nil, which is an empty map to every reader. *)
Definition entry_le {A} (x y : string * A) : Prop := str_le x.1 y.1.
#[global] Instance entry_le_dec {A} : RelDecision (@entry_le A) := λ x y, str_le_dec x.1 y.1.

Definition entries {A} (text : A → bytes) (m : gmap string A) : list (string * bytes) :=
  prod_map id text <$> merge_sort entry_le (map_to_list m).
Definition format_map {A} (text : A → bytes) (m : gmap string A) : bytes := object (entries text m).

Fixpoint set_entries {A} (read : bytes → result A) (ms : list (bytes * bytes)) (acc : gmap string A)
  : result (gmap string A) :=
  match ms with
  | [] => Ok acc
  | (k, v) :: ms' => try x := read v in set_entries read ms' (<[unquote (literal_body k) := x]> acc)
  end.
Definition map_into {A} (read : bytes → result A) (raw : bytes) (old : gmap string A) : result (gmap string A) :=
  if is_null raw then Ok ∅
  else if starts_with "{" raw then set_entries read (members raw) old
  else Err type_error.

(** * Lemmas *)

(** ** Booleans and uint64 *)

Lemma format_bool_value b : value_alone (format_bool b) ∧ ∀ ps, value_in ps (format_bool b).
Proof.
  destruct b; (split; [|intros ps]; eexists; (split_and!; try reflexivity); try done; [right|];
    (split_and!; [done|done|simpl; constructor])).
Qed.

Lemma bool_into_format b old : bool_into (format_bool b) old = Ok b.
Proof. by destruct b. Qed.

Lemma format_int_not_null z : is_null (format_int z) = false.
Proof.
  apply bool_decide_eq_false. intros Hn. pose proof (int_of_format z) as H. by rewrite Hn in H.
Qed.

Lemma uint64_into_format z old : uint64_range z → uint64_into (format_int z) old = Ok z.
Proof.
  intros Hz. unfold uint64_into. rewrite format_int_not_null, int_of_format.
  assert (starts_with "-" (format_int z) = false) as ->.
  { unfold uint64_range in Hz. destruct z as [|p|p]; [done| |lia]. unfold format_int. simpl. by destruct (Pos.to_uint p). }
  by rewrite bool_decide_eq_true_2.
Qed.

Lemma uint64_into_range raw old z : uint64_range old → uint64_into raw old = Ok z → uint64_range z.
Proof.
  unfold uint64_into. intros Ho. destruct (is_null raw); [congruence|]. destruct (_ <$> _) as [x|]; [|done].
  destruct (_ || _) eqn:Hb; [done|]. intros [= <-]. bool_prop. done.
Qed.

Lemma int64_into_range raw old z : int64_range old → int64_into raw old = Ok z → int64_range z.
Proof.
  unfold int64_into, parse_int. intros Ho. destruct (is_null raw); [congruence|].
  destruct (_ <$> _) as [x|]; simpl; [|done]. case_decide; [by intros [= <-]|done].
Qed.

(** ** Maps *)

Lemma entries_perm {A} (text : A → bytes) m : entries text m ≡ₚ prod_map id text <$> map_to_list m.
Proof. unfold entries. by rewrite merge_sort_Permutation. Qed.

(** What holds of every text of the map holds of every entry. *)
Lemma entries_Forall {A} (P : bytes → Prop) (text : A → bytes) m :
  map_Forall (λ _ x, P (text x)) m → Forall P (entries text m).*2.
Proof.
  intros Hm. rewrite entries_perm, <- list_fmap_compose. apply Forall_fmap, Forall_forall. intros [k x] Hin.
  simpl. apply elem_of_map_to_list in Hin. by apply (Hm k).
Qed.

Lemma format_map_value {A} (text : A → bytes) m ps :
  (N.of_nat (length ps) + 1 < maxNestingDepth)%N →
  map_Forall (λ _ x, value_in (parseObjectValue :: ps) (text x) ∧ value_in [] (text x)) m →
  value_alone (format_map text m) ∧ value_in ps (format_map text m).
Proof.
  intros Hps Hm. split; [apply object_value_alone|apply object_value_in; [done|]]; apply entries_Forall;
    eapply map_Forall_impl; try done; naive_solver.
Qed.

Lemma set_entries_list {A} (read : bytes → result A) (text : A → bytes) kvs acc :
  Forall (λ kx, utf8_string kx.1 = true ∧ read (text kx.2) = Ok kx.2) kvs → NoDup kvs.*1 →
  set_entries read ((λ '(k, v), (quote k, v)) <$> (prod_map id text <$> kvs)) acc =
  Ok (list_to_map kvs ∪ acc).
Proof.
  intros Hk. revert acc. induction Hk as [|[k x] kvs [Hu Hr] _ IH]; intros acc Hnd.
  { simpl. by rewrite (left_id_L ∅ (∪)). }
  apply NoDup_cons in Hnd as [Hn Hnd]. cbn [fmap list_fmap prod_map set_entries fst snd] in *. simpl.
  rewrite unquote_quote by done. rewrite Hr. rewrite (IH _ Hnd). f_equal. simpl.
  rewrite <- insert_union_l, <- insert_union_r; [done|]. by apply not_elem_of_list_to_map_1.
Qed.

(** A map written and read into a nil map. *)
Lemma map_into_format {A} (read : bytes → result A) (text : A → bytes) m :
  map_Forall (λ k x, utf8_string k = true ∧ value_alone (text x) ∧ read (text x) = Ok x) m →
  map_into read (format_map text m) ∅ = Ok m.
Proof.
  intros Hm. unfold map_into, is_null. rewrite bool_decide_eq_false_2 by done.
  change (starts_with "{" (format_map text m)) with true. cbv iota. unfold format_map. rewrite members_object.
  - unfold entries. assert (merge_sort entry_le (map_to_list m) ≡ₚ map_to_list m) as Hp by apply merge_sort_Permutation.
    rewrite set_entries_list.
    + rewrite (right_id_L ∅ (∪)). f_equal. symmetry. by apply list_to_map_flip.
    + rewrite Hp. apply Forall_forall. intros [k x] Hin%elem_of_map_to_list. simpl. by destruct (Hm k x Hin) as (?&?&?).
    + rewrite Hp. apply NoDup_fst_map_to_list.
  - apply entries_Forall. eapply map_Forall_impl; [done|]. naive_solver.
Qed.

(** ** Decoded strings are UTF-8 *)

Ltac Zify.zify_post_hook ::= Z.to_euclidean_division_equations.

Lemma N_ascii_id n : (n < 256)%N → N_of_ascii (ascii_of_N n) = n.
Proof. apply N_ascii_embedding. Qed.

Lemma between_ascii lo hi n : (n < 256)%N → between lo hi (ascii_of_N n) = ((lo <=? n) && (n <=? hi))%N.
Proof. intros Hn. unfold between. by rewrite N_ascii_id. Qed.

(** Decide the innermost conditionals by arithmetic. *)
Ltac decide_ifs :=
  repeat match goal with |- context [if ?b then _ else _] =>
    lazymatch b with
    | context [if _ then _ else _] => fail
    | _ => let H := fresh in destruct b eqn:H; try (exfalso; lia)
    end
  end.

(** [utf8.AppendRune] of a rune that is not a surrogate. *)
Lemma utf8_encode_rune r l :
  (r < 1114112)%N → is_surrogate r = false → utf8_valid (encode_rune r ++ l) = utf8_valid l.
Proof.
  intros Hr Hs. unfold encode_rune. unfold is_surrogate in Hs.
  destruct (r <? 128)%N eqn:H1; [|destruct (r <? 2048)%N eqn:H2; [|destruct (r <? 65536)%N eqn:H3]];
    cbn [app]; rewrite utf8_valid_eq; unfold rune_len, is_cont.
  - rewrite N_ascii_id by lia. by rewrite H1.
  - rewrite N_ascii_id by lia. rewrite !between_ascii by lia. by decide_ifs.
  - rewrite N_ascii_id by lia. rewrite !between_ascii by lia. by decide_ifs.
  - rewrite N_ascii_id by lia. rewrite !between_ascii by lia. by decide_ifs.
Qed.

Lemma hex_value_bound c : (hex_value c ≤ 207)%N.
Proof. unfold hex_value. pose proof (N_ascii_bounded c). repeat case_match; lia. Qed.

Lemma getu4_bound a b c d : (getu4 a b c d < 1114112)%N.
Proof.
  unfold getu4. pose proof (hex_value_bound a). pose proof (hex_value_bound b). pose proof (hex_value_bound c).
  pose proof (hex_value_bound d). lia.
Qed.

Lemma surrogate_pair_rune r1 r2 r : surrogate_pair r1 r2 = Some r → (r < 1114112)%N ∧ is_surrogate r = false.
Proof.
  unfold surrogate_pair, is_surrogate. destruct (_ && _) eqn:H; [|done]. intros [= <-]. lia.
Qed.

Lemma utf8_short_escape c l : is_escape c = true → utf8_valid (short_escape c ++ l) = utf8_valid l.
Proof.
  intros Hc%bool_decide_eq_true. repeat (apply elem_of_cons in Hc as [->|Hc]; [done|]). by apply not_elem_of_nil in Hc.
Qed.

(** A rune that was recognised is one wherever it stands. *)
Lemma utf8_rune_app c l n :
  (N_of_ascii c <? 128)%N = false → rune_len (c :: l) = S n → n ≤ length l ∧
  ∀ l', utf8_valid (c :: take n l ++ l') = utf8_valid l'.
Proof.
  intros Hc Hr. assert (rune_len (c :: l) ≠ 0) as Hne by (by rewrite Hr).
  destruct (rune_len_shape _ _ Hc Hne) as [(c1&l1&->&En&_)|[(c1&c2&l1&->&En&_)|(c1&c2&c3&l1&->&En&_)]];
    rewrite En in Hr; injection Hr as <-; (split; [simpl; lia|]); intros l'; simpl app;
    rewrite utf8_valid_eq.
  - by rewrite (proj1 (rune_len_prefix c c1 c1 c1 l1 l') En).
  - by rewrite (proj1 (proj2 (rune_len_prefix c c1 c2 c1 l1 l')) En).
  - by rewrite (proj2 (proj2 (rune_len_prefix c c1 c2 c3 l1 l')) En).
Qed.

Lemma unquote_fuel_utf8 n l : utf8_valid (unquote_fuel n l) = true.
Proof.
  revert l. induction n as [|n IH]; intros l; [done|]. destruct l as [|c l]; [done|]. cbn [unquote_fuel].
  assert (∀ l', utf8_valid (encode_rune runeError ++ unquote_fuel n l') = true) as He
    by (intros l'; rewrite utf8_encode_rune by done; apply IH).
  destruct (is_char "\" c).
  - destruct l as [|x l]; [done|]. destruct (is_char "u" x).
    + destruct l as [|a [|b [|d [|e l]]]]; try done. pose proof (getu4_bound a b d e).
      destruct (is_surrogate (getu4 a b d e)) eqn:Hs; [|rewrite utf8_encode_rune by done; apply IH].
      destruct l as [|x1 [|x2 [|a' [|b' [|d' [|e' l]]]]]]; try apply He. destruct (_ && _); [|apply He].
      destruct (surrogate_pair _ _) as [r|] eqn:Hp; [|apply He]. apply surrogate_pair_rune in Hp as [??].
      rewrite utf8_encode_rune by done. apply IH.
    + destruct (is_escape x) eqn:Hx; [|done]. rewrite utf8_short_escape by done. apply IH.
  - destruct (N_of_ascii c <? 128)%N eqn:Hc.
    { rewrite utf8_valid_eq. unfold rune_len. rewrite Hc. apply IH. }
    destruct (decide (rune_len (c :: l) = 0)) as [E|E]; [rewrite E; by destruct l|].
    destruct (rune_len_shape _ _ Hc E) as [(c1&l1&->&En&_)|[(c1&c2&l1&->&En&_)|(c1&c2&c3&l1&->&En&_)]]; rewrite En.
    + etrans; [apply (proj2 (utf8_rune_app _ _ _ Hc En) (unquote_fuel n l1))|apply IH].
    + etrans; [apply (proj2 (utf8_rune_app _ _ _ Hc En) (unquote_fuel n l1))|apply IH].
    + etrans; [apply (proj2 (utf8_rune_app _ _ _ Hc En) (unquote_fuel n l1))|apply IH].
Qed.

Lemma unquote_utf8 l : utf8_string (unquote l) = true.
Proof.
  unfold utf8_string, unquote. rewrite String.list_ascii_of_string_of_list_ascii. apply unquote_fuel_utf8.
Qed.

Lemma string_into_utf8 raw old s : utf8_string old = true → string_into raw old = Ok s → utf8_string s = true.
Proof.
  unfold string_into. intros Ho. repeat case_match; intros [= <-]; [done|apply unquote_utf8].
Qed.

(** What holds of every struct its fields can leave holds of every struct read. *)
Lemma struct_into_inv {S} b (fs : fields S) (P : S → Prop) raw acc x :
  P acc → (∀ name set, (name, set) ∈ fs → ∀ v y z, P y → set v y = Ok z → P z) →
  struct_into b fs raw acc = Ok x → P x.
Proof.
  intros Ha Hf. unfold struct_into. destruct (is_null raw); [by intros [= <-]|]. destruct (starts_with _ _); [|done].
  revert acc Ha. induction (members raw) as [|[k v] ms IH]; intros acc Ha; [by intros [= <-]|]. cbn [set_members].
  destruct (field_for fs _) as [set|] eqn:Hset; [|by destruct b; [|apply IH]].
  assert (∃ name, (name, set) ∈ fs) as [name Hin].
  { unfold field_for in Hset. repeat case_match; simplify_eq;
      match goal with H : list_find _ _ = Some (_, ?p) |- _ =>
        apply list_find_Some in H as (H&_); apply list_elem_of_lookup_2 in H; exists p.1; by destruct p end. }
  destruct (set v acc) as [acc'|] eqn:Hacc; [|done]. apply IH. by eapply Hf.
Qed.

Lemma unmarshal_struct_inv {S} b (fs : fields S) (P : S → Prop) raw zero x :
  P zero → (∀ name set, (name, set) ∈ fs → ∀ v y z, P y → set v y = Ok z → P z) →
  unmarshal_struct b fs zero raw = Ok x → P x.
Proof.
  intros Hz Hf. unfold unmarshal_struct. destruct (Valid raw); [|done]. by apply struct_into_inv.
Qed.

Lemma map_into_inv {A} (read : bytes → result A) (Q : A → Prop) raw old m :
  (∀ v x, read v = Ok x → Q x) → map_Forall (λ k x, utf8_string k = true ∧ Q x) old →
  map_into read raw old = Ok m → map_Forall (λ k x, utf8_string k = true ∧ Q x) m.
Proof.
  intros Hr. unfold map_into. destruct (is_null raw); [intros _ [= <-]; apply map_Forall_empty|].
  destruct (starts_with _ _); [|done]. revert old. induction (members raw) as [|[k v] ms IH]; intros old Ho; [by intros [= <-]|].
  cbn [set_entries]. destruct (read v) as [x|] eqn:Hx; [|done]. apply IH. apply map_Forall_insert_2; [|done].
  split; [apply unquote_utf8|by eapply Hr].
Qed.

(** ** Texts on a stream *)

(** The text of an object has no complete proper prefix. *)

(** Inside an object, or just past its end. *)
Definition open_object (s : scanner) : Prop :=
  (s.(sc_stack) ≠ [] ∧ s.(sc_endTop) = false) ∨ s = Scanner stEndTop [] true.

Lemma open_object_step s c t : open_object s → step s c = (vKeep, t) → open_object t.
Proof.
  intros [[Hs He]| ->] Hst; [|pose proof (complete_stuck (Scanner stEndTop [] true) c eq_refl) as Hk; by rewrite Hst in Hk].
  destruct s as [st ps e]; simpl in *; subst e. destruct ps as [|p ps]; [done|].
  destruct st; unfold_step; split_match; unfold open_object; simpl; auto.
Qed.

Lemma open_object_run s l t : open_object s → run s l = Some t → open_object t.
Proof.
  revert s. induction l as [|c l IH]; intros s Hs; simpl; [by intros [= <-]|].
  destruct (step s c) as [[] s'] eqn:E; try done. intros Hr. eapply IH; [by eapply open_object_step|done].
Qed.

Lemma open_not_eof s : s.(sc_stack) ≠ [] → s.(sc_endTop) = false → eof_ok s = false.
Proof.
  destruct s as [st ps e]; simpl. intros Hs ->. unfold eof_ok. simpl.
  destruct ps as [|p ps]; [done|]. destruct st; unfold_step; split_match; try done.
Qed.

(** A text written by the encoder holds no line end. *)

Lemma step_keep_no_newline s t : step s "010"%char ≠ (vKeep, t).
Proof. destruct s as [st [|[] ps] e]; destruct st; by unfold_step. Qed.

Lemma run_no_newline s l t : run s l = Some t → "010"%char ∉ l.
Proof.
  revert s. induction l as [|c l IH]; intros s; simpl; [intros _; apply not_elem_of_nil|].
  destruct (step s c) as [[] s'] eqn:E; try done. intros Hr.
  apply not_elem_of_cons. split; [|by eapply IH]. intros <-. by eapply step_keep_no_newline.
Qed.

Lemma value_alone_no_newline v : value_alone v → "010"%char ∉ v.
Proof. intros (t&_&Hr&_). by eapply run_no_newline. Qed.

Lemma checkValid_prefix_run s l1 l2 t : run s (l1 ++ l2) = Some t → ∃ u, run s l1 = Some u ∧ run u l2 = Some t.
Proof. rewrite run_app. destruct (run s l1) as [u|]; [|done]. intros Hr. by exists u. Qed.

(** A cut text is refused. *)
Lemma object_prefix_invalid v rest l1 l2 :
  value_alone v → v = "{"%char :: rest → v = l1 ++ l2 → l2 ≠ [] → Valid l1 = false.
Proof.
  intros (t&_&Hr&_) Hv Hl Hne. rewrite Hl in Hr. apply checkValid_prefix_run in Hr as (u&Hu&Hr).
  unfold Valid. rewrite (run_checkValid _ _ _ Hu). destruct l1 as [|c l1]; [by injection Hu as <-|].
  rewrite Hl in Hv. injection Hv as -> Hv. simpl in Hu.
  apply open_object_run in Hu as [[Hs He]| ->]; [by apply open_not_eof| |left; by split].
  destruct l2 as [|c l2]; [done|]. simpl in Hr.
  pose proof (complete_stuck (Scanner stEndTop [] true) c eq_refl) as Hk.
  by destruct (step (Scanner stEndTop [] true) c) as [[] ?].
Qed.

Lemma extent_prefix s l t : run s l = Some t → (extent_from s l).1 `prefix_of` l.
Proof.
  revert s. induction l as [|c l IH]; intros s; simpl; [done|].
  destruct (step s c) as [[] s'] eqn:E; try done. intros Hr. destruct (complete s').
  - simpl. by eexists.
  - specialize (IH _ Hr). destruct (extent_from s' l) as [v r]. simpl in *. by apply prefix_cons.
Qed.

Lemma Decode_cut {S} (fs : fields S) zero v rest l1 l2 :
  value_alone v → v = "{"%char :: rest → v = l1 ++ l2 → l2 ≠ [] → Decode false fs zero l1 = Err syntax_error.
Proof.
  intros Ha Hv Hl Hne. destruct l1 as [|c l1]; [done|]. rewrite Hl in Hv. injection Hv as -> Hv.
  unfold Decode. assert (skip_space ("{"%char :: l1) = "{"%char :: l1) as -> by done.
  destruct Ha as (t&Ht). pose proof Ht as (_&Hr&_). rewrite Hl in Hr.
  apply checkValid_prefix_run in Hr as (u&Hu&_).
  destruct (extent_prefix _ _ _ Hu) as [k Hk]. unfold extent. set (x := extent_from newScanner _) in *.
  unfold unmarshal_struct. rewrite (object_prefix_invalid v rest x.1 (k ++ l2)); [done|by exists t| | |].
  - by rewrite Hl, <- Hv.
  - by rewrite Hl, app_assoc, <- Hk.
  - intros [_ ?]%app_eq_nil. done.
Qed.

Lemma Decode_line {S} (fs : fields S) zero v rest :
  value_alone v → rest = [] ∨ (∃ l, rest = "010"%char :: l) → Decode false fs zero (v ++ rest) = unmarshal_struct false fs zero v.
Proof.
  intros Ha Hrest. unfold Decode. rewrite (value_alone_no_space _ _ Ha), (extent_alone v rest Ha); [done|].
  destruct Hrest as [->|(l&->)]; [by left|right; eauto 10].
Qed.
