(* ===== verification/Sha256.v ===== *)
(** * [crypto/sha256] and [encoding/hex]

    [sha256.Sum256] on byte strings (32-bit words in [N], additions modulo
    2^32) and [hex.EncodeToString]; checked on the FIPS 180-4 vectors. *)

From Stdlib Require Import NArith Lia Ascii String.
From stdpp Require Import base list numbers strings.
From S2P Require Import Prelude GoRegexp JsonScan.

Local Open Scope N_scope.

Definition w32 (x : N) : N := N.land x 4294967295.
Definition add32 (x y : N) : N := w32 (x + y).
Definition rotr (n x : N) : N := N.lor (N.shiftr x n) (w32 (N.shiftl x (32 - n))).
Definition not32 (x : N) : N := N.lxor x 4294967295.

Definition big_sigma0 (x : N) : N := N.lxor (N.lxor (rotr 2 x) (rotr 13 x)) (rotr 22 x).
Definition big_sigma1 (x : N) : N := N.lxor (N.lxor (rotr 6 x) (rotr 11 x)) (rotr 25 x).
Definition small_sigma0 (x : N) : N := N.lxor (N.lxor (rotr 7 x) (rotr 18 x)) (N.shiftr x 3).
Definition small_sigma1 (x : N) : N := N.lxor (N.lxor (rotr 17 x) (rotr 19 x)) (N.shiftr x 10).
Definition choose (x y z : N) : N := N.lxor (N.land x y) (N.land (not32 x) z).
Definition majority (x y z : N) : N :=
  N.lxor (N.lxor (N.land x y) (N.land x z)) (N.land y z).

Definition round_constants : list N :=
  [1116352408; 1899447441; 3049323471; 3921009573; 961987163; 1508970993; 2453635748;
   2870763221; 3624381080; 310598401; 607225278; 1426881987; 1925078388; 2162078206;
   2614888103; 3248222580; 3835390401; 4022224774; 264347078; 604807628; 770255983;
   1249150122; 1555081692; 1996064986; 2554220882; 2821834349; 2952996808; 3210313671;
   3336571891; 3584528711; 113926993; 338241895; 666307205; 773529912; 1294757372;
   1396182291; 1695183700; 1986661051; 2177026350; 2456956037; 2730485921; 2820302411;
   3259730800; 3345764771; 3516065817; 3600352804; 4094571909; 275423344; 430227734;
   506948616; 659060556; 883997877; 958139571; 1322822218; 1537002063; 1747873779;
   1955562222; 2024104815; 2227730452; 2361852424; 2428436474; 2756734187; 3204031479;
   3329325298].

Definition initial_state : list N :=
  [1779033703; 3144134277; 1013904242; 2773480762; 1359893119; 2600822924; 528734635;
   1541459225].

(** Big-endian bytes of a [n]-byte word. *)
Fixpoint be_bytes (n : nat) (x : N) : bytes :=
  match n with
  | O => []
  | S n' => ascii_of_N (N.land (N.shiftr x (8 * N.of_nat n')) 255) :: be_bytes n' x
  end.

Definition be_word (l : bytes) : N :=
  foldl (λ acc c, N.lor (N.shiftl acc 8) (N_of_ascii c)) 0 l.

(** Padding: 0x80, zeros up to 56 mod 64, the bit length in 64 bits. *)
Definition pad (msg : bytes) : bytes :=
  let n := length msg in
  let z := ((119 - n mod 64) mod 64)%nat in
  msg ++ ["128"%char] ++ replicate z "000"%char ++ be_bytes 8 (8 * N.of_nat n).

(** The message schedule, most recent word first. *)
Fixpoint extend (k : nat) (ws : list N) : list N :=
  match k with
  | O => ws
  | S k' =>
      let w i := nth i ws 0 in
      extend k' (add32 (add32 (small_sigma1 (w 1%nat)) (w 6%nat))
                       (add32 (small_sigma0 (w 14%nat)) (w 15%nat)) :: ws)
  end.

Fixpoint words (k : nat) (l : bytes) : list N :=
  match k with O => [] | S k' => be_word (take 4 l) :: words k' (drop 4 l) end.

Definition sha_round (st : list N) (kw : N * N) : list N :=
  match st with
  | [a; b; c; d; e; f; g; h] =>
      let t1 := add32 (add32 (add32 h (big_sigma1 e)) (choose e f g)) (add32 kw.1 kw.2) in
      let t2 := add32 (big_sigma0 a) (majority a b c) in
      [add32 t1 t2; a; b; c; add32 d t1; e; f; g]
  | _ => st
  end.

Definition sha_block (st : list N) (block : bytes) : list N :=
  let ws := reverse (extend 48 (reverse (words 16 block))) in
  zip_with add32 st (foldl sha_round st (zip round_constants ws)).

Fixpoint sha_blocks (k : nat) (st : list N) (l : bytes) : list N :=
  match k with
  | O => st
  | S k' => sha_blocks k' (sha_block st (take 64 l)) (drop 64 l)
  end.

(** [sha256.Sum256]. *)
Definition Sum256 (msg : bytes) : bytes :=
  let p := pad msg in
  mjoin (be_bytes 4 <$> sha_blocks (length p / 64)%nat initial_state p).

(** [hex.EncodeToString]. *)
Definition EncodeToString (l : bytes) : string :=
  String.string_of_list_ascii
    (mjoin ((λ c, [hexdigit (N_of_ascii c / 16); hexdigit (N_of_ascii c mod 16)]) <$> l)).

(** * Lemmas *)

Example sha256_abc :
  EncodeToString (Sum256 (String.list_ascii_of_string "abc"))
  = "ba7816bf8f01cfea414140de5dae2223b00361a396177a9cb410ff61f20015ad".
Proof. vm_compute. reflexivity. Qed.

Example sha256_two_blocks :
  EncodeToString (Sum256 (String.list_ascii_of_string
    "abcdbcdecdefdefgefghfghighijhijkijkljklmklmnlmnomnopnopq"))
  = "248d6a61d20638b8e5c026930c3e6039a33ce45964ff2167f6ecedd419db06c1".
Proof. vm_compute. reflexivity. Qed.

Lemma length_be_bytes n x : length (be_bytes n x) = n.
Proof. revert x. induction n; intros x; simpl; auto. Qed.

(** The inverse of [hexdigit] on its range. *)
Definition hexval (c : ascii) : N :=
  if is_digit c then N_of_ascii c - 48 else N_of_ascii c - 87.

Lemma hexval_hexdigit a : a < 16 → hexval (hexdigit a) = a.
Proof.
  intros Ha. assert (N.to_nat a < 16)%nat as H by lia.
  rewrite <- (N2Nat.id a). destruct (N.to_nat a) as [|n]; [reflexivity|].
  do 15 (destruct n as [|n]; [reflexivity|]). lia.
Qed.

Lemma EncodeToString_inj l1 l2 : EncodeToString l1 = EncodeToString l2 → l1 = l2.
Proof.
  unfold EncodeToString. intros H. apply (f_equal String.list_ascii_of_string) in H.
  rewrite !String.list_ascii_of_string_of_list_ascii in H.
  revert l2 H. induction l1 as [|c1 l1 IH]; intros [|c2 l2] H; try done.
  cbn in H. injection H as H1 H2 H. f_equal; [|by apply IH].
  assert (∀ c : ascii, N_of_ascii c / 16 < 16 ∧ N_of_ascii c mod 16 < 16) as Hb.
  { intros c. pose proof (N_ascii_bounded c). split; [apply N.Div0.div_lt_upper_bound; lia|].
    apply N.mod_lt. lia. }
  apply (f_equal hexval) in H1, H2. rewrite !hexval_hexdigit in H1, H2 by apply Hb.
  rewrite <- (ascii_N_embedding c1), <- (ascii_N_embedding c2). f_equal.
  rewrite (N.div_mod' (N_of_ascii c1) 16), (N.div_mod' (N_of_ascii c2) 16). congruence.
Qed.
