(* ===== verification/Model.v ===== *)
(** * The semantic model: model.go

    Envelopes, canonical event names, leases and control frames, with their
    validation; the data types of the message security block (crypto.go,
    secure_transport.go) an envelope carries; and [EnvelopeCodec], the interface
    through which the rest of the runtime uses [encoding/json] on envelopes. *)

From Stdlib Require Import ZArith Lia Ascii String.
From stdpp Require Import base list sets strings.
From S2P Require Import Prelude GoRegexp JsonScan Utf8 Sha256.

(** ** Constants *)

Inductive EventState := StateRequest | StateOK | StateError.

Definition GuaranteeBestEffort : string := "best_effort".
Definition GuaranteeReceived : string := "received".
Definition GuaranteeProcessed : string := "processed".

Inductive DeliveryState :=
| DeliveryPublished | DeliveryLeased | DeliveryReceived
| DeliverySettledOK | DeliverySettledError | DeliveryExpired.

#[global] Instance EventState_eq_dec : EqDecision EventState.
Proof. solve_decision. Defined.
#[global] Instance DeliveryState_eq_dec : EqDecision DeliveryState.
Proof. solve_decision. Defined.

Definition ControlReceived : string := "RECEIVED".
Definition ControlSettledOK : string := "SETTLED_OK".
Definition ControlSettledError : string := "SETTLED_ERROR".
Definition ControlLeaseExpired : string := "LEASE_EXPIRED".

(** ** Message security block *)

Record HybridSignature := {
  sig_Ed25519 : bytes;
  sig_MLDSA44 : bytes;
}.

Record ProofOfPossession := {
  pop_Holder : string;
  pop_CreatedAtMS : Z;
  pop_Nonce : string;
  pop_Method : string;
  pop_Target : string;
  pop_EnvelopeHash : string;
  pop_Signature : HybridSignature;
}.

Record MessageSecurity := {
  ms_KeyID : string;
  ms_Proof : ProofOfPossession;
}.

(** ** Envelopes *)

Record Envelope := mkEnvelope {
  env_ID : string;
  env_Event : string;
  env_CorrelationID : string;
  env_CausationID : string;
  env_IdempotencyKey : string;
  env_SchemaID : string;
  env_Payload : bytes;
  env_Guarantee : string;
  env_CreatedAtMS : Z;
  env_Security : option MessageSecurity;
}.

#[global] Instance HybridSignature_eq_dec : EqDecision HybridSignature.
Proof. solve_decision. Defined.
#[global] Instance ProofOfPossession_eq_dec : EqDecision ProofOfPossession.
Proof. solve_decision. Defined.
#[global] Instance MessageSecurity_eq_dec : EqDecision MessageSecurity.
Proof. solve_decision. Defined.
#[global] Instance Envelope_eq_dec : EqDecision Envelope.
Proof. solve_decision. Defined.

Definition set_Payload (p : bytes) (e : Envelope) : Envelope :=
  mkEnvelope e.(env_ID) e.(env_Event) e.(env_CorrelationID) e.(env_CausationID)
    e.(env_IdempotencyKey) e.(env_SchemaID) p e.(env_Guarantee) e.(env_CreatedAtMS)
    e.(env_Security).
Definition set_Security (m : option MessageSecurity) (e : Envelope) : Envelope :=
  mkEnvelope e.(env_ID) e.(env_Event) e.(env_CorrelationID) e.(env_CausationID)
    e.(env_IdempotencyKey) e.(env_SchemaID) e.(env_Payload) e.(env_Guarantee)
    e.(env_CreatedAtMS) m.

(** The anchored pattern of model.go: a name followed by two or more groups of a
    dot and a name, a name being a letter and then letters, digits, [_] or [-]. *)
Definition name_char (c : ascii) : bool :=
  is_alpha c || is_digit c || is_char "_" c || is_char "-" c.
Definition name_pattern : regex := RSeq (RClass is_alpha) (RStar (RClass name_char)).
Definition canonicalEventPattern : regex :=
  RSeq name_pattern (at_least_two (RSeq (RClass (is_char ".")) name_pattern)).

Definition parse_EventState (s : string) : option EventState :=
  if decide (s = "request") then Some StateRequest
  else if decide (s = "ok") then Some StateOK
  else if decide (s = "error") then Some StateError
  else None.

(** [Envelope.State]. *)
Definition State (e : Envelope) : result EventState :=
  if MatchString canonicalEventPattern e.(env_Event) then
    let parts := Split "." e.(env_Event) in
    let state := default EmptyString (last parts) in
    match parse_EventState state with
    | Some st => Ok st
    | None => Err (ErrFmt "invalid event state %q" [state])
    end
  else Err (ErrFmt "invalid canonical event %q" [e.(env_Event)]).

Definition valid_guarantee (g : string) : bool :=
  bool_decide (g ∈ [GuaranteeBestEffort; GuaranteeReceived; GuaranteeProcessed]).

(** [Envelope.Validate]. *)
Definition Validate (e : Envelope) : result () :=
  if bool_decide (e.(env_ID) = "") || bool_decide (e.(env_IdempotencyKey) = "")
     || bool_decide (e.(env_SchemaID) = "") || bool_decide (e.(env_CorrelationID) = "")
  then Err (ErrNew "id, idempotency_key, schema_id and correlation_id are required")
  else try _ := State e in
  if negb (valid_guarantee e.(env_Guarantee))
  then Err (ErrFmt "invalid guarantee %q" [e.(env_Guarantee)])
  else if bool_decide (e.(env_Payload) = []) || negb (Valid e.(env_Payload))
  then Err (ErrNew "payload must be valid JSON")
  else Ok tt.

(** ** [encoding/json] on envelopes

    [json.Marshal] compacts the payload (a [json.RawMessage]), so what a reader
    gets back is the envelope with the compacted payload; the other fields come
    back as they are when the strings are valid UTF-8 and the integers are in
    range. *)

Definition normalize (e : Envelope) : Envelope :=
  set_Payload (default e.(env_Payload) (compact e.(env_Payload))) e.

Definition wf_proof (p : ProofOfPossession) : bool :=
  utf8_string p.(pop_Holder) && utf8_string p.(pop_Nonce) && utf8_string p.(pop_Method)
  && utf8_string p.(pop_Target) && utf8_string p.(pop_EnvelopeHash)
  && bool_decide (- two63 ≤ p.(pop_CreatedAtMS) < two63)%Z.
Definition wf_security (m : MessageSecurity) : bool :=
  utf8_string m.(ms_KeyID) && wf_proof m.(ms_Proof).

(** The envelopes whose text can be read back: strings in UTF-8, integers in
    range, and a payload that stays within the nesting limit of the scanner when
    it is nested in the envelope. *)
Definition wf_text (e : Envelope) : bool :=
  utf8_string e.(env_ID) && utf8_string e.(env_Event) && utf8_string e.(env_CorrelationID)
  && utf8_string e.(env_CausationID) && utf8_string e.(env_IdempotencyKey)
  && utf8_string e.(env_SchemaID) && utf8_string e.(env_Guarantee)
  && bool_decide (- two63 ≤ e.(env_CreatedAtMS) < two63)%Z
  && match e.(env_Security) with None => true | Some m => wf_security m end
  && match compact e.(env_Payload) with Some d => member_ok d | None => false end.

Class EnvelopeCodec := {
  json_Marshal : Envelope → result bytes;
  json_Unmarshal : bytes → result Envelope;
}.

Class EnvelopeCodecLaws `(EnvelopeCodec) : Prop := {
  codec_total e : Valid e.(env_Payload) = true → is_ok (json_Marshal e) = true;
  codec_roundtrip e raw :
    wf_text e = true → json_Marshal e = Ok raw → json_Unmarshal raw = Ok (normalize e);
  codec_normalize e : json_Marshal (normalize e) = json_Marshal e;
}.

Section digests.
Context {codec : EnvelopeCodec}.

(** [Envelope.CanonicalBytes]. *)
Definition CanonicalBytes (e : Envelope) : result bytes :=
  try _ := Validate e in json_Marshal (set_Security None e).

(** [Envelope.Digest]. *)
Definition Digest (e : Envelope) : result bytes :=
  try b := CanonicalBytes e in Ok (Sum256 b).

(** [Envelope.DigestHex]. *)
Definition DigestHex (e : Envelope) : result string :=
  try d := Digest e in Ok (EncodeToString d).

(** [encodeEnvelope] and [decodeEnvelope] of transports_broker.go; the Go
    function returns the decoded envelope beside a validation error, which no
    caller uses. *)
Definition encodeEnvelope (e : Envelope) : result bytes :=
  try _ := Validate e in json_Marshal e.
Definition decodeEnvelope (b : bytes) : result Envelope :=
  try e := json_Unmarshal b in try _ := Validate e in Ok e.
End digests.

(** ** Leases and control frames *)

Record Lease := {
  lease_EventID : string;
  lease_WorkerID : string;
  lease_UntilMS : Z;
  lease_Attempt : Z;
  lease_FencingToken : Z;
}.

(** [Lease.Active]. *)
Definition Active (l : Lease) (now : Z) : bool := (UnixMilli now <? l.(lease_UntilMS))%Z.

Record ControlFrame := mkFrame {
  fr_Kind : string;
  fr_EventID : string;
  fr_WorkerID : string;
  fr_FencingToken : Z;
  fr_AtMS : Z;
  fr_Evidence : bytes;
}.

Definition valid_kind (k : string) : bool :=
  bool_decide (k ∈ [ControlReceived; ControlSettledOK; ControlSettledError; ControlLeaseExpired]).

(** [ControlFrame.Validate]. *)
Definition Frame_Validate (f : ControlFrame) : result () :=
  if negb (valid_kind f.(fr_Kind)) then Err (ErrFmt "invalid control kind %q" [f.(fr_Kind)])
  else if bool_decide (f.(fr_EventID) = "") || bool_decide (f.(fr_WorkerID) = "")
          || bool_decide (f.(fr_FencingToken) = 0%Z)
  then Err (ErrNew "event_id, worker_id and fencing_token are required")
  else Ok tt.

Record ClaimedEvent := {
  cl_Envelope : Envelope;
  cl_Lease : Lease;
  cl_State : DeliveryState;
}.

(** ** Reference definitions *)

(** A name, on its bytes. *)
Definition name_bytes (p : bytes) : bool :=
  match p with c :: p' => is_alpha c && forallb name_char p' | [] => false end.

(** A canonical event name, on its dot-separated parts. *)
Definition canonical_name (s : string) : bool :=
  let parts := split_bytes "." (String.list_ascii_of_string s) in
  bool_decide (3 ≤ length parts) && forallb name_bytes parts.

(** * Lemmas *)

Lemma name_pattern_spec p : lang name_pattern p ↔ name_bytes p = true.
Proof.
  unfold name_pattern. rewrite lang_seq_inv. setoid_rewrite lang_star_class. split.
  - intros (s1&s2&->&H1&H2). inversion H1; subst.
    simpl. by rewrite andb_true_iff, forallb_Forall.
  - destruct p as [|c p]; simpl; [done|]. rewrite andb_true_iff, forallb_Forall.
    intros [Hc Hp]. exists [c], p. split_and!; [done|by constructor|done].
Qed.

Lemma name_bytes_no_dot p : name_bytes p = true → "."%char ∉ p.
Proof.
  destruct p as [|c p]; simpl; [by intros|]. rewrite andb_true_iff, forallb_Forall.
  intros [Hc Hp] [<-|Hin]%elem_of_cons; [done|].
  rewrite Forall_forall in Hp. by apply Hp in Hin.
Qed.

Lemma canonical_lang l :
  lang canonicalEventPattern l ↔
  ∃ p ps, l = p ++ concat (cons "."%char <$> ps) ∧ 2 ≤ length ps ∧
    Forall (λ q, name_bytes q = true) (p :: ps).
Proof.
  unfold canonicalEventPattern. rewrite lang_seq_inv. setoid_rewrite lang_at_least_two.
  setoid_rewrite name_pattern_spec. split.
  - intros (s1&s2&->&H1&(ws&->&Hlen&Hws)).
    assert (∃ ps, ws = cons "."%char <$> ps ∧ Forall (λ q, name_bytes q = true) ps) as (ps&->&Hps).
    { clear Hlen. induction Hws as [|w ws Hw _ (ps&->&Hps)]; [by exists []|].
      apply lang_seq_inv in Hw as (d&q&->&Hd&Hq%name_pattern_spec).
      inversion Hd; subst. unfold is_char in *. bool_prop. subst. exists (q :: ps). auto. }
    rewrite length_fmap in Hlen. exists s1, ps. auto.
  - intros (p&ps&->&Hlen&[Hp Hps]%Forall_cons). eexists p, _. split_and!; [done|done|].
    eexists. split_and!; [done|by rewrite length_fmap|]. apply Forall_fmap.
    eapply Forall_impl; [exact Hps|]. intros q Hq. simpl.
    change ("."%char :: q) with (["."%char] ++ q). constructor; [by constructor|].
    by apply name_pattern_spec.
Qed.

Lemma canonical_pattern_parts s :
  MatchString canonicalEventPattern s = true ↔ canonical_name s = true.
Proof.
  unfold MatchString, canonical_name. rewrite match_bytes_spec, canonical_lang.
  set (l := String.list_ascii_of_string s).
  rewrite andb_true_iff, bool_decide_eq_true, forallb_Forall. split.
  - intros (p&ps&->&Hlen&Hps). rewrite split_bytes_join; [split; [simpl; lia|done]|].
    eapply Forall_impl; [exact Hps|]. intros q. apply name_bytes_no_dot.
  - destruct (join_split_bytes "." l) as (p&ps&->&->). intros [Hlen Hps].
    exists p, ps. split_and!; [done|simpl in Hlen; lia|done].
Qed.

(** C40: [canonicalEventPattern] accepts exactly the names made of at least three
    dot-separated parts, each a letter followed by letters, digits, [_] or [-]:
    the anchored regular expression equals the direct check on the parts that
    [strings.Split] produces. *)
Theorem canonical_pattern_split s :
  MatchString canonicalEventPattern s = canonical_name s.
Proof.
  pose proof (canonical_pattern_parts s) as H.
  destruct (MatchString canonicalEventPattern s), (canonical_name s); naive_solver.
Qed.

Lemma Validate_ok e :
  Validate e = Ok tt ↔
  e.(env_ID) ≠ "" ∧ e.(env_IdempotencyKey) ≠ "" ∧ e.(env_SchemaID) ≠ "" ∧
  e.(env_CorrelationID) ≠ "" ∧ is_ok (State e) = true ∧
  valid_guarantee e.(env_Guarantee) = true ∧ Valid e.(env_Payload) = true.
Proof.
  unfold Validate. split.
  - destruct (_ || _ || _ || _) eqn:E; [done|]. bool_prop.
    destruct (State e); [|done]. destruct (valid_guarantee _); [|done]. simpl.
    destruct (bool_decide _); [done|]. by destruct (Valid _).
  - intros (?&?&?&?&Hs&Hg&Hp). rewrite !bool_decide_eq_false_2; try done; simpl.
    + destruct (State e); [|done]. by rewrite Hg, Hp.
    + intros Hn. by rewrite Hn in Hp.
Qed.

Lemma normalize_fields e :
  let e' := normalize e in
  e'.(env_ID) = e.(env_ID) ∧ e'.(env_Event) = e.(env_Event) ∧
  e'.(env_IdempotencyKey) = e.(env_IdempotencyKey) ∧ e'.(env_CreatedAtMS) = e.(env_CreatedAtMS).
Proof. by destruct e. Qed.

(** Compaction neither creates nor removes a validation error. *)
Lemma Validate_normalize e : Validate (normalize e) = Validate e.
Proof.
  unfold normalize. destruct (compact (env_Payload e)) as [d|] eqn:E; [|by destruct e].
  pose proof (compact_output_valid _ _ E) as Hd. pose proof (compact_nonempty _ _ E) as Hne.
  assert (Valid (env_Payload e) = true) as Hp by (apply compact_valid; eauto).
  assert (env_Payload e ≠ []) as Hpne by (intros Hn; by rewrite Hn in Hp).
  unfold Validate, State. simpl. rewrite Hd, Hp.
  by rewrite !(bool_decide_eq_false_2 _ Hne), !(bool_decide_eq_false_2 _ Hpne).
Qed.

Lemma normalize_idemp e : normalize (normalize e) = normalize e.
Proof.
  unfold normalize, set_Payload; simpl.
  destruct (compact (env_Payload e)) as [d|] eqn:E; simpl; [|by rewrite E].
  by rewrite (compact_idemp _ _ E).
Qed.

Lemma wf_text_normalize e : wf_text e = true → wf_text (normalize e) = true.
Proof.
  unfold wf_text, normalize. destruct (compact (env_Payload e)) as [d|] eqn:E; [|by rewrite andb_false_r].
  simpl. by rewrite (compact_idemp _ _ E).
Qed.

Lemma set_Security_normalize m e :
  set_Security m (normalize e) = normalize (set_Security m e).
Proof. done. Qed.

Section wire.
Context {codec : EnvelopeCodec} {laws : EnvelopeCodecLaws codec}.

Lemma CanonicalBytes_normalize e : CanonicalBytes (normalize e) = CanonicalBytes e.
Proof.
  unfold CanonicalBytes. rewrite Validate_normalize, set_Security_normalize.
  by rewrite codec_normalize.
Qed.

Lemma DigestHex_normalize e : DigestHex (normalize e) = DigestHex e.
Proof. unfold DigestHex, Digest. by rewrite CanonicalBytes_normalize. Qed.

Lemma decodeEnvelope_encode e raw :
  wf_text e = true → encodeEnvelope e = Ok raw → decodeEnvelope raw = Ok (normalize e).
Proof.
  unfold encodeEnvelope, decodeEnvelope. intros Hwf H.
  destruct (Validate e) as [[]|] eqn:Hv; [|done].
  by rewrite (codec_roundtrip e raw Hwf H), Validate_normalize, Hv.
Qed.

Lemma encode_ok e : Validate e = Ok tt → ∃ raw, encodeEnvelope e = Ok raw.
Proof.
  intros Hv. unfold encodeEnvelope. rewrite Hv. apply Validate_ok in Hv.
  pose proof (codec_total e). destruct (json_Marshal e); naive_solver.
Qed.

End wire.
