(* ===== verification/Json.v ===== *)
(** * [encoding/json] on envelopes: the codec of model.go's struct tags

    [json.Marshal] and [json.Unmarshal] of [Envelope], with the nested structs of
    the security block, field by field in declaration order.  The instance
    [json_codec] is what the runtime uses wherever the library is parametric in
    [EnvelopeCodec]; [json_codec_laws] proves the laws the other components rely
    on. *)

From Stdlib Require Import ZArith NArith Lia Ascii String.
From stdpp Require Import base list sets strings.
From S2P Require Import Prelude GoRegexp JsonScan Utf8 JsonText JsonRoundtrip Model.

(** ** Writing *)

Definition marshal_signature (s : HybridSignature) : bytes :=
  object [("ed25519", quote_bytes s.(sig_Ed25519)); ("mldsa44", quote_bytes s.(sig_MLDSA44))].

Definition marshal_proof (p : ProofOfPossession) : bytes :=
  object [("holder", quote p.(pop_Holder)); ("created_at_ms", format_int p.(pop_CreatedAtMS));
          ("nonce", quote p.(pop_Nonce)); ("method", quote p.(pop_Method));
          ("target", quote p.(pop_Target)); ("envelope_hash", quote p.(pop_EnvelopeHash));
          ("signature", marshal_signature p.(pop_Signature))].

Definition marshal_security (m : MessageSecurity) : bytes :=
  object [("key_id", quote m.(ms_KeyID)); ("proof", marshal_proof m.(ms_Proof))].

(** The members of an envelope, the payload already compacted; [Security] is
    [omitempty]. *)
Definition envelope_members (e : Envelope) (payload : bytes) : list (string * bytes) :=
  [("id", quote e.(env_ID)); ("event", quote e.(env_Event));
   ("correlation_id", quote e.(env_CorrelationID)); ("causation_id", quote e.(env_CausationID));
   ("idempotency_key", quote e.(env_IdempotencyKey)); ("schema_id", quote e.(env_SchemaID));
   ("payload", payload); ("guarantee", quote e.(env_Guarantee));
   ("created_at_ms", format_int e.(env_CreatedAtMS))]
  ++ match e.(env_Security) with
     | Some m => [("security", marshal_security m)]
     | None => []
     end.

(** A [json.RawMessage]: [null] when nil, compacted otherwise. *)
Definition marshal_raw (payload : bytes) : result bytes :=
  match payload with
  | [] => Ok (to_bytes "null")
  | _ => match compact payload with Some p => Ok p | None => Err syntax_error end
  end.

Definition marshal_envelope (e : Envelope) : result bytes :=
  try p := marshal_raw e.(env_Payload) in Ok (object (envelope_members e p)).

(** ** Reading *)

Definition zero_signature : HybridSignature := {| sig_Ed25519 := []; sig_MLDSA44 := [] |}.
Definition zero_proof : ProofOfPossession :=
  {| pop_Holder := ""; pop_CreatedAtMS := 0; pop_Nonce := ""; pop_Method := "";
     pop_Target := ""; pop_EnvelopeHash := ""; pop_Signature := zero_signature |}.
Definition zero_security : MessageSecurity := {| ms_KeyID := ""; ms_Proof := zero_proof |}.
Definition zero_envelope : Envelope := mkEnvelope "" "" "" "" "" "" [] "" 0 None.

Section readers.
Context (strict : bool).

Definition signature_fields : fields HybridSignature :=
  [("ed25519", λ v s, try x := bytes_into v in
      Ok {| sig_Ed25519 := x; sig_MLDSA44 := s.(sig_MLDSA44) |});
   ("mldsa44", λ v s, try x := bytes_into v in
      Ok {| sig_Ed25519 := s.(sig_Ed25519); sig_MLDSA44 := x |})].

Definition proof_fields : fields ProofOfPossession :=
  [("holder", λ v '(Build_ProofOfPossession a b c d e f g),
      try x := string_into v a in Ok (Build_ProofOfPossession x b c d e f g));
   ("created_at_ms", λ v '(Build_ProofOfPossession a b c d e f g),
      try x := int64_into v b in Ok (Build_ProofOfPossession a x c d e f g));
   ("nonce", λ v '(Build_ProofOfPossession a b c d e f g),
      try x := string_into v c in Ok (Build_ProofOfPossession a b x d e f g));
   ("method", λ v '(Build_ProofOfPossession a b c d e f g),
      try x := string_into v d in Ok (Build_ProofOfPossession a b c x e f g));
   ("target", λ v '(Build_ProofOfPossession a b c d e f g),
      try x := string_into v e in Ok (Build_ProofOfPossession a b c d x f g));
   ("envelope_hash", λ v '(Build_ProofOfPossession a b c d e f g),
      try x := string_into v f in Ok (Build_ProofOfPossession a b c d e x g));
   ("signature", λ v '(Build_ProofOfPossession a b c d e f g),
      try x := struct_into strict signature_fields v g in Ok (Build_ProofOfPossession a b c d e f x))].

Definition security_fields : fields MessageSecurity :=
  [("key_id", λ v '(Build_MessageSecurity a b),
      try x := string_into v a in Ok (Build_MessageSecurity x b));
   ("proof", λ v '(Build_MessageSecurity a b),
      try x := struct_into strict proof_fields v b in Ok (Build_MessageSecurity a x))].

(** A [*MessageSecurity]: [null] makes it nil; an object is read into the
    struct already there, or into a new one. *)
Definition security_into (raw : bytes) (old : option MessageSecurity)
  : result (option MessageSecurity) :=
  if is_null raw then Ok None
  else try m := struct_into strict security_fields raw (default zero_security old) in Ok (Some m).

Definition envelope_fields : fields Envelope :=
  [("id", λ v '(mkEnvelope a b c d e f g h i j),
      try x := string_into v a in Ok (mkEnvelope x b c d e f g h i j));
   ("event", λ v '(mkEnvelope a b c d e f g h i j),
      try x := string_into v b in Ok (mkEnvelope a x c d e f g h i j));
   ("correlation_id", λ v '(mkEnvelope a b c d e f g h i j),
      try x := string_into v c in Ok (mkEnvelope a b x d e f g h i j));
   ("causation_id", λ v '(mkEnvelope a b c d e f g h i j),
      try x := string_into v d in Ok (mkEnvelope a b c x e f g h i j));
   ("idempotency_key", λ v '(mkEnvelope a b c d e f g h i j),
      try x := string_into v e in Ok (mkEnvelope a b c d x f g h i j));
   ("schema_id", λ v '(mkEnvelope a b c d e f g h i j),
      try x := string_into v f in Ok (mkEnvelope a b c d e x g h i j));
   ("payload", λ v '(mkEnvelope a b c d e f g h i j),
      Ok (mkEnvelope a b c d e f v h i j));
   ("guarantee", λ v '(mkEnvelope a b c d e f g h i j),
      try x := string_into v h in Ok (mkEnvelope a b c d e f g x i j));
   ("created_at_ms", λ v '(mkEnvelope a b c d e f g h i j),
      try x := int64_into v i in Ok (mkEnvelope a b c d e f g h x j));
   ("security", λ v '(mkEnvelope a b c d e f g h i j),
      try x := security_into v j in Ok (mkEnvelope a b c d e f g h i x))].

Definition unmarshal_envelope (data : bytes) : result Envelope :=
  unmarshal_struct strict envelope_fields zero_envelope data.
End readers.

#[global] Instance json_codec : EnvelopeCodec := {|
  json_Marshal := marshal_envelope;
  json_Unmarshal := unmarshal_envelope false;
|}.

(** * Lemmas *)

Ltac solve_values :=
  repeat first
    [ apply Forall_nil_2 | apply Forall_cons_2
    | apply quote_value_alone | apply quote_value_in
    | apply format_int_value | apply quote_bytes_value ].

#[local] Arguments bytes_into : simpl never.
#[local] Arguments string_into : simpl never.
#[local] Arguments int64_into : simpl never.
#[local] Arguments struct_into : simpl never.
#[local] Arguments security_into : simpl never.
#[local] Arguments object : simpl never.
#[local] Arguments quote : simpl never.
#[local] Arguments quote_bytes : simpl never.
#[local] Arguments format_int : simpl never.

Ltac read_fields :=
  simpl; repeat (first
    [ rewrite string_into_quote by done
    | rewrite unquote_quote by done
    | rewrite int64_into_format by done
    | rewrite bytes_into_quote ]; simpl).

Lemma signature_roundtrip b s acc :
  struct_into b signature_fields (marshal_signature s) acc = Ok s.
Proof.
  apply struct_into_object; [solve_values|by repeat constructor|].
  destruct s. by read_fields.
Qed.

Lemma signature_value ps s :
  (N.of_nat (length ps) + 1 < maxNestingDepth)%N →
  value_alone (marshal_signature s) ∧ value_in ps (marshal_signature s).
Proof.
  intros Hps. split; [apply object_value_alone|apply object_value_in]; try done; solve_values.
Qed.

Lemma proof_value ps p :
  (N.of_nat (length ps) + 2 < maxNestingDepth)%N →
  value_alone (marshal_proof p) ∧ value_in ps (marshal_proof p).
Proof.
  intros Hps. split; [apply object_value_alone|apply object_value_in]; try done; try lia;
    solve_values; apply signature_value; simpl; lia.
Qed.

Lemma proof_roundtrip b p acc :
  wf_proof p = true → struct_into b (proof_fields b) (marshal_proof p) acc = Ok p.
Proof.
  intros Hwf. unfold wf_proof in Hwf. bool_prop.
  apply struct_into_object; [solve_values; apply (signature_value []); reflexivity|by repeat constructor|].
  destruct p, acc; simpl in *. read_fields. by rewrite signature_roundtrip.
Qed.

Lemma security_value ps m :
  (N.of_nat (length ps) + 3 < maxNestingDepth)%N →
  value_alone (marshal_security m) ∧ value_in ps (marshal_security m).
Proof.
  intros Hps. split; [apply object_value_alone|apply object_value_in]; try done; try lia;
    solve_values; apply proof_value; simpl; lia.
Qed.

Lemma security_roundtrip b m :
  wf_security m = true → security_into b (marshal_security m) None = Ok (Some m).
Proof.
  intros Hwf. unfold security_into. assert (is_null (marshal_security m) = false) as -> by done.
  unfold marshal_security. rewrite (struct_into_object _ _ _ _ m); [done| |by repeat constructor|].
  - solve_values. apply (proof_value []). reflexivity.
  - unfold wf_security in Hwf. bool_prop. destruct m as [k p]. simpl in *.
    read_fields. by rewrite proof_roundtrip.
Qed.

Lemma envelope_members_values e d :
  compact e.(env_Payload) = Some d → member_ok d = true →
  Forall value_alone (envelope_members e d).*2 ∧ Forall (value_in []) (envelope_members e d).*2.
Proof.
  intros Hc Hm. unfold envelope_members. rewrite fmap_app, !Forall_app.
  destruct (env_Security e); split; split; simpl; solve_values;
    first [by eapply compact_alone | by eapply compact_member | apply (security_value []); reflexivity].
Qed.

Lemma marshal_raw_compact p d : compact p = Some d → marshal_raw p = Ok d.
Proof. destruct p; [done|]. unfold marshal_raw. by intros ->. Qed.

(** What was written reads back, with unknown fields refused or not. *)
Lemma envelope_read b e raw :
  wf_text e = true → marshal_envelope e = Ok raw →
  unmarshal_struct b (envelope_fields b) zero_envelope raw = Ok (normalize e).
Proof.
  intros Hwf H. unfold marshal_envelope in H. unfold wf_text in Hwf. bool_prop.
  destruct (compact (env_Payload e)) as [d|] eqn:Hd; [|done].
  rewrite (marshal_raw_compact _ _ Hd) in H. injection H as <-.
  destruct (envelope_members_values e d) as [Hv Hin]; [done|done|].
  apply unmarshal_object; [done|done| |].
  - unfold envelope_members. destruct (env_Security e); by repeat constructor.
  - unfold envelope_members, normalize. rewrite Hd. destruct e as [? ? ? ? ? ? ? ? ? [m|]];
      simpl in *; read_fields; by rewrite ?security_roundtrip.
Qed.

#[global] Instance json_codec_laws : EnvelopeCodecLaws json_codec.
Proof.
  split; unfold json_codec, json_Marshal, json_Unmarshal.
  - intros e Hv. unfold marshal_envelope. apply compact_valid in Hv as [d Hd]. by rewrite (marshal_raw_compact _ _ Hd).
  - apply envelope_read.
  - intros e. unfold marshal_envelope, normalize. destruct (compact (env_Payload e)) as [d|] eqn:Hd; [|by destruct e].
    simpl. by rewrite (marshal_raw_compact _ _ Hd), (marshal_raw_compact _ _ (compact_idemp _ _ Hd)).
Qed.

(** What the encoder writes for an envelope is the text of an object. *)
Lemma marshal_object env raw :
  wf_text env = true → json_Marshal env = Ok raw → value_alone raw ∧ ∃ rest, raw = "{"%char :: rest.
Proof.
  intros Hwf. unfold json_Marshal, json_codec, marshal_envelope. unfold wf_text in Hwf. bool_prop.
  destruct (compact (env_Payload env)) as [d|] eqn:Hd; [|done].
  rewrite (marshal_raw_compact _ _ Hd). intros [= <-]. split; [|by eexists].
  apply object_value_alone. by apply envelope_members_values.
Qed.

(** C22: An envelope that passes [encodeEnvelope] on one side of a transport passes
    [decodeEnvelope] on the other: the reader gets the same envelope with a
    compacted payload, and [DigestHex], which proofs of possession sign, has
    the same value on both sides. *)
Theorem wire_digest_stable e raw :
  wf_text e = true → encodeEnvelope e = Ok raw →
  decodeEnvelope raw = Ok (normalize e) ∧ DigestHex (normalize e) = DigestHex e ∧
  is_ok (DigestHex e) = true.
Proof.
  intros Hwf H. split_and!; [by apply decodeEnvelope_encode|by apply DigestHex_normalize|].
  unfold DigestHex, Digest, CanonicalBytes, encodeEnvelope in *.
  destruct (Validate e) as [[]|] eqn:Hv; [|done]. apply Validate_ok in Hv.
  pose proof (codec_total (set_Security None e)) as Ht.
  destruct (json_Marshal (set_Security None e)); [done|]. destruct Hv as (?&?&?&?&?&?&Hp). by apply Ht in Hp.
Qed.

(** ** Examples *)

Definition ex_security : MessageSecurity :=
  {| ms_KeyID := "key-1";
     ms_Proof := {| pop_Holder := "svc"; pop_CreatedAtMS := 1000; pop_Nonce := "n1"; pop_Method := "PUBLISH";
       pop_Target := "Financial.createInvoice.request"; pop_EnvelopeHash := "00";
       pop_Signature := {| sig_Ed25519 := ["a"; "b"]%char; sig_MLDSA44 := ["c"]%char |} |} |}.
Definition ex_envelope : Envelope :=
  mkEnvelope "evt-1" "Financial.createInvoice.request" "corr-1" "cause-1" "idem-1"
    "Financial.createInvoice.request@1" (to_bytes "[ 1 , 2 ]") "processed" 1000 None.

Lemma wire_digest_stable_witness :
  let e := set_Security (Some ex_security) ex_envelope in
  decodeEnvelope (value_or [] (encodeEnvelope e)) = Ok (set_Payload (to_bytes "[1,2]") e).
Proof.
  intros e. destruct (wire_digest_stable e (value_or [] (encodeEnvelope e))) as [H _];
    [vm_compute; reflexivity|vm_compute; reflexivity|]. exact H.
Defined.
