(* ===== verification/Db.v ===== *)
(** * [database/sql]: statements, transactions and driver failures

    A statement is a function on the database value; the driver behind
    [database/sql] is not part of the repository, so every call can fail in the
    two ways the interface allows: the error is reported and the statement had
    no effect ([FaultLost]), or the statement took effect and the error is
    reported all the same ([FaultLate], a connection or context lost after the
    work was done).  The world carries the faults the next calls will meet; an
    exhausted list means that calls succeed.  The pool holds one connection
    ([SetMaxOpenConns(1)]), so a transaction excludes every other statement. *)

From Stdlib Require Import ZArith Lia String.
From stdpp Require Import base list strings.
From S2P Require Import Prelude.

Inductive fault :=
| FaultNone
| FaultLost (e : error)
| FaultLate (e : error).

Record world (D : Type) := World { db : D; faults : list fault }.
Arguments World {D} db faults.
Arguments db {D} w.
Arguments faults {D} w.

Section db.
Context {D : Type}.
Implicit Types (d : D) (w : world D).

Definition next_fault w : fault := default FaultNone (head w.(faults)).

(** [ExecContext] and [QueryRowContext(...).Scan]. *)
Definition exec {A} (stmt : D → result (A * D)) : io (world D) (result A) := λ w,
  let fs := tail w.(faults) in
  match stmt w.(db) with
  | Err e => (Err e, World w.(db) fs)
  | Ok (a, d') =>
      match next_fault w with
      | FaultNone => (Ok a, World d' fs)
      | FaultLost e => (Err e, World w.(db) fs)
      | FaultLate e => (Err e, World d' fs)
      end
  end.

(** A statement that only reads. *)
Definition query {A} (q : D → result A) : io (world D) (result A) :=
  exec (λ d, try a := q d in Ok (a, d)).

(** [Result.RowsAffected]. *)
Definition rows_affected (n : Z) : io (world D) (result Z) := query (λ _, Ok n).

(** [BeginTx; defer Rollback; body; Commit]: the statements of [body] take
    effect only when [body] succeeds and the commit does. *)
Definition transaction {A} (body : io (world D) (result A)) : io (world D) (result A) := λ w,
  match query (λ _, Ok tt) w with
  | (Err e, w1) => (Err e, w1)
  | (Ok _, w1) =>
      match body w1 with
      | (Err e, w2) => (Err e, World w1.(db) w2.(faults))
      | (Ok a, w2) =>
          match next_fault w2 with
          | FaultNone => (Ok a, World w2.(db) (tail w2.(faults)))
          | FaultLost e => (Err e, World w1.(db) (tail w2.(faults)))
          | FaultLate e => (Err e, World w2.(db) (tail w2.(faults)))
          end
      end
  end.

(** * Lemmas *)

(** What one call can do to the database. *)
Lemma exec_db {A} (stmt : D → result (A * D)) w r w' :
  exec stmt w = (r, w') →
  w'.(db) = w.(db) ∨ ∃ a, stmt w.(db) = Ok (a, w'.(db)).
Proof. unfold exec. intros H. split_match; eauto. Qed.

Lemma exec_ok {A} (stmt : D → result (A * D)) w a w' :
  exec stmt w = (Ok a, w') → stmt w.(db) = Ok (a, w'.(db)).
Proof. unfold exec. intros H. split_match; done. Qed.

Lemma query_db {A} (q : D → result A) w r w' : query q w = (r, w') → w'.(db) = w.(db).
Proof.
  unfold query. intros [H|[a H]]%exec_db; [done|]. destruct (q (db w)); by simplify_eq.
Qed.

Lemma query_ok {A} (q : D → result A) w a w' : query q w = (Ok a, w') → q w.(db) = Ok a.
Proof. unfold query. intros H%exec_ok. destruct (q (db w)); by simplify_eq. Qed.

Lemma rows_affected_db n w r w' : rows_affected n w = (r, w') → w'.(db) = w.(db).
Proof. apply query_db. Qed.

Lemma rows_affected_ok n w m w' : rows_affected n w = (Ok m, w') → m = n.
Proof. unfold rows_affected. intros H%query_ok. congruence. Qed.

(** Without faults a call does what its statement says. *)
Lemma exec_clean {A} (stmt : D → result (A * D)) d :
  exec stmt (World d []) =
  match stmt d with Ok (a, d') => (Ok a, World d' []) | Err e => (Err e, World d []) end.
Proof. unfold exec. simpl. by destruct (stmt d) as [[]|]. Qed.

Lemma query_clean {A} (q : D → result A) d : query q (World d []) = (q d, World d []).
Proof. unfold query. rewrite exec_clean. by destruct (q d). Qed.

Lemma rows_affected_clean n d : rows_affected n (World d []) = (Ok n, World d []).
Proof. unfold rows_affected. by rewrite query_clean. Qed.

(** A transaction is atomic whatever fails. *)
Lemma transaction_atomic {A} (body : io (world D) (result A)) w r w' :
  transaction body w = (r, w') →
  w'.(db) = w.(db) ∨
  ∃ fs a w2, body (World w.(db) fs) = (Ok a, w2) ∧ w'.(db) = w2.(db).
Proof.
  unfold transaction. destruct (query _ w) as [[[]|e] w1] eqn:E; intros H.
  - pose proof (query_db _ _ _ _ E) as Hd. destruct w1 as [d1 f1]; simpl in *. subst d1.
    destruct (body _) as [[a|e] w2] eqn:Eb; [|simplify_eq/=; by left].
    destruct (next_fault w2); simplify_eq/=; eauto 10.
  - apply query_db in E. simplify_eq. by left.
Qed.

Lemma transaction_ok {A} (body : io (world D) (result A)) w a w' :
  transaction body w = (Ok a, w') →
  ∃ fs w2, body (World w.(db) fs) = (Ok a, w2) ∧ w'.(db) = w2.(db).
Proof.
  unfold transaction. destruct (query _ w) as [[[]|e] w1] eqn:E; intros H; [|done].
  pose proof (query_db _ _ _ _ E) as Hd. destruct w1 as [d1 f1]; simpl in *. subst d1.
  destruct (body _) as [[a'|e] w2] eqn:Eb; [|done].
  destruct (next_fault w2); simplify_eq/=; eauto 10.
Qed.

Lemma transaction_clean {A} (body : io (world D) (result A)) d r d' :
  body (World d []) = (r, World d' []) →
  transaction body (World d []) = (r, World (if is_ok r then d' else d) []).
Proof. unfold transaction. rewrite query_clean. intros ->. by destruct r. Qed.
End db.

(** ** Effects of composed operations

    [moves R m]: whatever the world, the operation [m] takes the database along
    the preorder [R]. *)

Section moves.
Context {D : Type} (R : relation D) `{!PreOrder R}.

Definition moves {A} (m : io (world D) A) : Prop := ∀ w, R w.(db) (m w).2.(db).

Lemma moves_ret {A} (a : A) : moves (io_ret a).
Proof. by intros w. Qed.

Lemma moves_bind {A B} (m : io (world D) A) (k : A → io (world D) B) :
  moves m → (∀ a, moves (k a)) → moves (io_bind m k).
Proof.
  intros Hm Hk w. unfold io_bind. specialize (Hm w). destruct (m w) as [a w1]; simpl in *.
  etrans; [exact Hm|apply Hk].
Qed.

Lemma moves_exec {A} (stmt : D → result (A * D)) :
  (∀ d a d', stmt d = Ok (a, d') → R d d') → moves (exec stmt).
Proof.
  intros Hs w. destruct (exec stmt w) as [r w'] eqn:E; simpl.
  apply exec_db in E as [->|[a Ha]]; [done|eauto].
Qed.

Lemma moves_query {A} (q : D → result A) : moves (query q).
Proof. intros w. destruct (query q w) as [r w'] eqn:E; simpl. by apply query_db in E as ->. Qed.

Lemma moves_rows n : moves (rows_affected n).
Proof. apply moves_query. Qed.

(** A transaction needs only its committed outcome to be a move. *)
Lemma moves_transaction {A} (body : io (world D) (result A)) :
  (∀ w a w', body w = (Ok a, w') → R w.(db) w'.(db)) → moves (transaction body).
Proof.
  intros Hb w. destruct (transaction body w) as [r w'] eqn:E; simpl.
  apply transaction_atomic in E as [->|(fs&a&w2&Hw2&->)]; [done|].
  by apply Hb in Hw2.
Qed.
End moves.

Ltac io_moves :=
  repeat match goal with
  | |- moves _ (io_ret _) => apply moves_ret; apply _
  | |- moves _ (io_bind _ _) => apply moves_bind; [try apply _| |intros ?]
  | |- moves _ (query _) => apply moves_query; apply _
  | |- moves _ (rows_affected _) => apply moves_rows; apply _
  | |- moves _ (match ?x with _ => _ end) => destruct x eqn:?
  end.
