(* ===== verification/Store.v ===== *)
(** * The durable control store: store.go

    The four SQLite tables as Rocq data, each SQL statement as a function on
    them, and the operations of [ControlStore] composed from the statements as
    the Go methods compose them, error paths and driver failures included. *)

From Stdlib Require Import ZArith Lia Ascii String.
From stdpp Require Import base list gmap sets strings.
From S2P Require Import Prelude GoRegexp JsonScan Model Db.

(** ** Tables (the schema of [migrate]) *)

(** A row of [events]; the primary key [id] is the key of the map. *)
Record event_row := EventRow {
  ev_idempotency_key : string;
  ev_event_name : string;
  ev_envelope : bytes;
  ev_state : DeliveryState;
  ev_owner : option string;
  ev_lease_until_ms : option Z;
  ev_attempt : Z;
  ev_fencing_token : Z;
  ev_created_at_ms : Z;
  ev_updated_at_ms : Z;
}.

(** A row of [settlements], keyed by [event_id]. *)
Record settlement_row := SettlementRow {
  st_kind : string;
  st_worker_id : string;
  st_fencing_token : Z;
  st_at_ms : Z;
  st_evidence : bytes;
}.

(** A row of [delivery_history]; [seq] is the position in the list. *)
Record history_row := HistoryRow {
  h_event_id : string;
  h_state : DeliveryState;
  h_worker_id : option string;
  h_fencing_token : option Z;
  h_at_ms : Z;
  h_details : option bytes;
}.

(** A row of [outbox]. *)
Record outbox_row := OutboxRow {
  ob_seq : Z;
  ob_event_id : string;
  ob_transport : string;
  ob_payload : bytes;
  ob_attempts : Z;
  ob_available_at_ms : Z;
  ob_delivered_at_ms : option Z;
}.

Record control_db := ControlDB {
  events : gmap string event_row;
  settlements : gmap string settlement_row;
  delivery_history : list history_row;
  outbox : list outbox_row;
  outbox_seq : Z;
}.

Definition empty_db : control_db := ControlDB ∅ ∅ [] [] 0.

Record OutboxRecord := mkOutboxRecord {
  or_Seq : Z;
  or_EventID : string;
  or_Transport : string;
  or_Payload : bytes;
  or_Attempts : Z;
}.

#[global] Instance event_row_eq_dec : EqDecision event_row.
Proof. solve_decision. Defined.
#[global] Instance settlement_row_eq_dec : EqDecision settlement_row.
Proof. solve_decision. Defined.

Definition with_events (m : gmap string event_row) (d : control_db) : control_db :=
  ControlDB m d.(settlements) d.(delivery_history) d.(outbox) d.(outbox_seq).
Definition with_settlements (m : gmap string settlement_row) (d : control_db) : control_db :=
  ControlDB d.(events) m d.(delivery_history) d.(outbox) d.(outbox_seq).
Definition with_history (h : list history_row) (d : control_db) : control_db :=
  ControlDB d.(events) d.(settlements) h d.(outbox) d.(outbox_seq).
Definition with_outbox (o : list outbox_row) (n : Z) (d : control_db) : control_db :=
  ControlDB d.(events) d.(settlements) d.(delivery_history) o n.

(** ** Statements *)

Module Sql.

(** Constraint violations reported by SQLite (its extended result codes). *)
Definition constraint_primarykey : error := ErrExternal 1555.
Definition constraint_foreignkey : error := ErrExternal 787.

(** The default parameter converter of [database/sql]. *)
Definition bind_uint64 (z : Z) : result Z :=
  if (z <? two63)%Z then Ok z
  else Err (ErrNew "uint64 values with high bit set are not supported").

Definition by_key (k : string) (d : control_db) : option (string * event_row) :=
  head (pairs_with (λ r, r.(ev_idempotency_key) = k) d.(events)).

(** [INSERT INTO events ... ON CONFLICT(idempotency_key) DO NOTHING]: the conflict
    target is checked first, then the primary key. *)
Definition insert_event (env : Envelope) (raw : bytes) (now : Z) (d : control_db)
  : result (Z * control_db) :=
  match by_key env.(env_IdempotencyKey) d with
  | Some _ => Ok (0%Z, d)
  | None =>
      match d.(events) !! env.(env_ID) with
      | Some _ => Err constraint_primarykey
      | None =>
          let row := EventRow env.(env_IdempotencyKey) env.(env_Event) raw DeliveryPublished
                       None None 0 0 env.(env_CreatedAtMS) now in
          Ok (1%Z, with_events (<[env.(env_ID) := row]> d.(events)) d)
      end
  end.

(** [SELECT envelope FROM events WHERE idempotency_key=?]. *)
Definition select_envelope (k : string) (d : control_db) : result bytes :=
  match by_key k d with
  | Some (_, r) => Ok r.(ev_envelope)
  | None => Err ErrNoRows
  end.

Definition insert_history (h : history_row) (d : control_db) : result (Z * control_db) :=
  Ok (1%Z, with_history (d.(delivery_history) ++ [h]) d).

(** [state IN (published, expired)]. *)
Definition claimable (r : event_row) : Prop :=
  r.(ev_state) = DeliveryPublished ∨ r.(ev_state) = DeliveryExpired.

#[global] Instance claimable_dec r : Decision (claimable r).
Proof. unfold claimable. apply _. Defined.

(** [ORDER BY created_at_ms, id]. *)
Definition claim_le (x y : string * event_row) : Prop :=
  (x.2.(ev_created_at_ms) < y.2.(ev_created_at_ms))%Z ∨
  (x.2.(ev_created_at_ms) = y.2.(ev_created_at_ms) ∧ str_le x.1 y.1).

#[global] Instance claim_le_dec : RelDecision claim_le.
Proof. intros x y. unfold claim_le. apply _. Defined.

Definition candidate (d : control_db) : option (string * event_row) :=
  list_min claim_le (pairs_with claimable d.(events)).

Definition lease_row (worker : string) (until now : Z) (r : event_row) : event_row :=
  EventRow r.(ev_idempotency_key) r.(ev_event_name) r.(ev_envelope) DeliveryLeased
    (Some worker) (Some until) (r.(ev_attempt) + 1) (r.(ev_fencing_token) + 1)
    r.(ev_created_at_ms) now.

(** [WITH candidate AS ... UPDATE events ... RETURNING envelope, state, attempt,
    fencing_token]. *)
Definition claim_update (worker : string) (until now : Z) (d : control_db)
  : result (event_row * control_db) :=
  match candidate d with
  | None => Err ErrNoRows
  | Some (id, r) =>
      let r' := lease_row worker until now r in
      Ok (r', with_events (<[id := r']> d.(events)) d)
  end.

(** [id=? AND owner=? AND fencing_token=? AND state IN (...) AND lease_until_ms>?];
    a comparison with NULL is not true. *)
Definition holds_lease (states : list DeliveryState) (worker : string) (token now : Z)
  (r : event_row) : bool :=
  bool_decide (r.(ev_owner) = Some worker)
  && bool_decide (r.(ev_fencing_token) = token)
  && bool_decide (r.(ev_state) ∈ states)
  && match r.(ev_lease_until_ms) with Some u => (now <? u)%Z | None => false end.

Definition received_row (now : Z) (r : event_row) : event_row :=
  EventRow r.(ev_idempotency_key) r.(ev_event_name) r.(ev_envelope) DeliveryReceived
    r.(ev_owner) r.(ev_lease_until_ms) r.(ev_attempt) r.(ev_fencing_token)
    r.(ev_created_at_ms) now.

(** Leaving the lease: [state=?, owner=NULL, lease_until_ms=NULL]. *)
Definition release_row (s : DeliveryState) (now : Z) (r : event_row) : event_row :=
  EventRow r.(ev_idempotency_key) r.(ev_event_name) r.(ev_envelope) s
    None None r.(ev_attempt) r.(ev_fencing_token) r.(ev_created_at_ms) now.

(** [UPDATE events SET ... WHERE id=? AND <lease held>]: rows changed. *)
Definition update_held (states : list DeliveryState) (upd : event_row → event_row)
  (f : ControlFrame) (now : Z) (d : control_db) : result (Z * control_db) :=
  try token := bind_uint64 f.(fr_FencingToken) in
  match d.(events) !! f.(fr_EventID) with
  | Some r =>
      if holds_lease states f.(fr_WorkerID) token now r
      then Ok (1%Z, with_events (<[f.(fr_EventID) := upd r]> d.(events)) d)
      else Ok (0%Z, d)
  | None => Ok (0%Z, d)
  end.

(** [INSERT INTO settlements ... ON CONFLICT(event_id) DO NOTHING], with the
    foreign key on [events(id)]. *)
Definition insert_settlement (f : ControlFrame) (d : control_db) : result (Z * control_db) :=
  try token := bind_uint64 f.(fr_FencingToken) in
  match d.(settlements) !! f.(fr_EventID) with
  | Some _ => Ok (0%Z, d)
  | None =>
      match d.(events) !! f.(fr_EventID) with
      | None => Err constraint_foreignkey
      | Some _ =>
          let s := SettlementRow f.(fr_Kind) f.(fr_WorkerID) token f.(fr_AtMS) f.(fr_Evidence) in
          Ok (1%Z, with_settlements (<[f.(fr_EventID) := s]> d.(settlements)) d)
      end
  end.

(** [state IN (leased, received) AND lease_until_ms<=?]. *)
Definition lease_over (now : Z) (r : event_row) : bool :=
  bool_decide (r.(ev_state) = DeliveryLeased ∨ r.(ev_state) = DeliveryReceived)
  && match r.(ev_lease_until_ms) with Some u => (u <=? now)%Z | None => false end.

Definition expire_row (now : Z) (r : event_row) : event_row :=
  if lease_over now r then release_row DeliveryExpired now r else r.

Definition requeue_update (now : Z) (d : control_db) : result (Z * control_db) :=
  Ok (Z.of_nat (size (filter (λ kv, lease_over now kv.2 = true) d.(events))),
      with_events (expire_row now <$> d.(events)) d).

Definition select_state (id : string) (d : control_db) : result DeliveryState :=
  match d.(events) !! id with Some r => Ok r.(ev_state) | None => Err ErrNoRows end.

(** [INSERT INTO outbox]: [seq] is AUTOINCREMENT. *)
Definition insert_outbox (id transport : string) (payload : bytes) (at_ms : Z) (d : control_db)
  : result (Z * control_db) :=
  let n := (d.(outbox_seq) + 1)%Z in
  Ok (1%Z, with_outbox (d.(outbox) ++ [OutboxRow n id transport payload 0 at_ms None]) n d).

Definition pending (now : Z) (r : outbox_row) : Prop :=
  r.(ob_delivered_at_ms) = None ∧ (r.(ob_available_at_ms) ≤ now)%Z.

#[global] Instance pending_dec now r : Decision (pending now r).
Proof. unfold pending. apply _. Defined.

Definition seq_le (x y : outbox_row) : Prop := (x.(ob_seq) ≤ y.(ob_seq))%Z.
#[global] Instance seq_le_dec : RelDecision seq_le.
Proof. intros x y. unfold seq_le. apply _. Defined.

(** [... WHERE delivered_at_ms IS NULL AND available_at_ms<=? ORDER BY seq LIMIT 1]. *)
Definition select_outbox (now : Z) (d : control_db) : result OutboxRecord :=
  match list_min seq_le (filter (pending now) d.(outbox)) with
  | Some r => Ok (mkOutboxRecord r.(ob_seq) r.(ob_event_id) r.(ob_transport)
                    r.(ob_payload) r.(ob_attempts))
  | None => Err ErrNoRows
  end.

Definition undelivered (seq : Z) (r : outbox_row) : Prop :=
  r.(ob_seq) = seq ∧ r.(ob_delivered_at_ms) = None.
#[global] Instance undelivered_dec seq r : Decision (undelivered seq r).
Proof. unfold undelivered. apply _. Defined.

Definition deliver_row (at_ms : Z) (r : outbox_row) : outbox_row :=
  OutboxRow r.(ob_seq) r.(ob_event_id) r.(ob_transport) r.(ob_payload) r.(ob_attempts)
    r.(ob_available_at_ms) (Some at_ms).

(** [UPDATE outbox SET delivered_at_ms=? WHERE seq=? AND delivered_at_ms IS NULL]. *)
Definition deliver_update (seq at_ms : Z) (d : control_db) : result (Z * control_db) :=
  Ok (Z.of_nat (length (filter (undelivered seq) d.(outbox))),
      with_outbox ((λ r, if decide (undelivered seq r) then deliver_row at_ms r else r)
                     <$> d.(outbox)) d.(outbox_seq) d).

End Sql.

(** ** Operations *)

Module ControlStore.
Import Sql.

Section operations.
Context {codec : EnvelopeCodec}.
Abbreviation W := (world control_db).

(** [Publish]; [now] is the reading of [time.Now()]. *)
Definition Publish (env : Envelope) (now : Z) : io W (result (Envelope * bool)) :=
  match Validate env with
  | Err e => io_ret (Err e)
  | Ok _ =>
  match json_Marshal env with
  | Err e => io_ret (Err e)
  | Ok raw =>
    let now := UnixMilli now in
    try res <- exec (insert_event env raw now);
    try n <- rows_affected res;
    if decide (n = 1%Z) then
      do _ <- exec (insert_history (HistoryRow env.(env_ID) DeliveryPublished None None now None));
      io_ret (Ok (env, true))
    else
      try existingRaw <- query (select_envelope env.(env_IdempotencyKey));
      io_ret (try existing := json_Unmarshal existingRaw in Ok (existing, false))
  end end.

(** [Claim]; [lease] is a [time.Duration]. *)
Definition Claim (workerID : string) (lease now : Z) : io W (result ClaimedEvent) :=
  if bool_decide (workerID = "") || (lease <=? 0)%Z
  then io_ret (Err (ErrNew "worker and positive lease are required"))
  else
    let now := UnixMilli now in
    let until := int64 (now + Milliseconds lease) in
    do row <- exec (claim_update workerID until now);
    match row with
    | Err e => io_ret (Err (if decide (e = ErrNoRows) then ErrNothingAvailable else e))
    | Ok r =>
      match json_Unmarshal r.(ev_envelope) with
      | Err e => io_ret (Err e)
      | Ok env =>
        let leaseRecord := {| lease_EventID := env.(env_ID); lease_WorkerID := workerID;
          lease_UntilMS := until; lease_Attempt := r.(ev_attempt);
          lease_FencingToken := r.(ev_fencing_token) |} in
        do _ <- exec (insert_history (HistoryRow env.(env_ID) DeliveryLeased (Some workerID)
                        (Some r.(ev_fencing_token)) now None));
        io_ret (Ok {| cl_Envelope := env; cl_Lease := leaseRecord; cl_State := r.(ev_state) |})
      end
    end.

Definition frame_history (s : DeliveryState) (f : ControlFrame) : history_row :=
  HistoryRow f.(fr_EventID) s (Some f.(fr_WorkerID)) (Some f.(fr_FencingToken)) f.(fr_AtMS)
    (Some f.(fr_Evidence)).

(** [MarkReceived]. *)
Definition MarkReceived (frame : ControlFrame) (now : Z) : io W (result ()) :=
  if decide (frame.(fr_Kind) ≠ ControlReceived) then io_ret (Err ErrInvalidTransition)
  else match Frame_Validate frame with
  | Err e => io_ret (Err e)
  | Ok _ =>
    let now := UnixMilli now in
    try res <- exec (update_held [DeliveryLeased] (received_row now) frame now);
    do n <- rows_affected res;
    if decide (value_or 0%Z n ≠ 1%Z) then io_ret (Err ErrStaleLease)
    else
      do _ <- exec (insert_history (frame_history DeliveryReceived frame));
      io_ret (Ok tt)
  end.

Definition settle_target (frame : ControlFrame) : DeliveryState :=
  if decide (frame.(fr_Kind) = ControlSettledError) then DeliverySettledError
  else DeliverySettledOK.

(** The statements of the transaction of [Settle]. *)
Definition settle_body (frame : ControlFrame) (now : Z) : io W (result ()) :=
  let target := settle_target frame in
  try res <- exec (update_held [DeliveryLeased; DeliveryReceived] (release_row target now) frame now);
  do n <- rows_affected res;
  if decide (value_or 0%Z n ≠ 1%Z) then io_ret (Err ErrStaleLease)
  else
    try _ <- exec (insert_settlement frame);
    try _ <- exec (insert_history (frame_history target frame));
    io_ret (Ok tt).

(** [Settle]. *)
Definition Settle (frame : ControlFrame) (now : Z) : io W (result ()) :=
  if decide (frame.(fr_Kind) ≠ ControlSettledOK ∧ frame.(fr_Kind) ≠ ControlSettledError)
  then io_ret (Err ErrInvalidTransition)
  else match Frame_Validate frame with
  | Err e => io_ret (Err e)
  | Ok _ => transaction (settle_body frame (UnixMilli now))
  end.

(** [RequeueExpired]. *)
Definition RequeueExpired (now : Z) : io W (result Z) :=
  try res <- exec (requeue_update (UnixMilli now));
  rows_affected res.

(** [State]. *)
Definition State (eventID : string) : io W (result DeliveryState) := query (select_state eventID).

(** [EnqueueOutbox]. *)
Definition EnqueueOutbox (eventID transport : string) (payload : bytes) (availableAt : Z)
  : io W (result ()) :=
  if bool_decide (eventID = "") || bool_decide (transport = "") || bool_decide (payload = [])
  then io_ret (Err (ErrNew "invalid outbox record"))
  else
    try _ <- exec (insert_outbox eventID transport payload (UnixMilli availableAt));
    io_ret (Ok tt).

(** [NextOutbox]. *)
Definition NextOutbox (now : Z) : io W (result OutboxRecord) :=
  do r <- query (select_outbox (UnixMilli now));
  io_ret (match r with
          | Ok rec => Ok rec
          | Err e => Err (if decide (e = ErrNoRows) then ErrNothingAvailable else e)
          end).

(** [MarkOutboxDelivered]. *)
Definition MarkOutboxDelivered (seq at_ : Z) : io W (result ()) :=
  try res <- exec (deliver_update seq (UnixMilli at_));
  do n <- rows_affected res;
  io_ret (if decide (value_or 0%Z n ≠ 1%Z)
          then Err (ErrFmt "outbox record %d not pending" [])
          else Ok tt).
End operations.

End ControlStore.
