(* ===== verification/StoreSteps.v ===== *)
(** * Atomic steps of the control store

    With one connection, the database changes by whole statements and whole
    transactions.  [step] lists them, with the guards under which the code issues
    them; any interleaving of concurrent calls is a sequence of steps
    ([steps]).  The file proves that every operation, under every fault
    schedule, is such a sequence, and that the store invariant [Inv] holds
    along all of them. *)

From Stdlib Require Import ZArith Lia Ascii String Sorted.
From stdpp Require Import base list gmap sets strings relations sorting.
From S2P Require Import Prelude GoRegexp JsonScan Model Db Store.
Import Sql.

Definition settled (s : DeliveryState) : bool :=
  bool_decide (s = DeliverySettledOK ∨ s = DeliverySettledError).
Definition held (s : DeliveryState) : bool :=
  bool_decide (s = DeliveryLeased ∨ s = DeliveryReceived).

(** The committed effect of the transaction of [Settle]. *)
Definition settle_effect (f : ControlFrame) (now : Z) (d : control_db) : result control_db :=
  let target := ControlStore.settle_target f in
  try (n, d1) := update_held [DeliveryLeased; DeliveryReceived] (release_row target now) f now d in
  if decide (n ≠ 1%Z) then Err ErrStaleLease else
  try (_, d2) := insert_settlement f d1 in
  try (_, d3) := insert_history (ControlStore.frame_history target f) d2 in
  Ok d3.

Definition settle_kind (k : string) : Prop := k = ControlSettledOK ∨ k = ControlSettledError.

Section steps.
Context {codec : EnvelopeCodec}.

Inductive step : control_db → control_db → Prop :=
| step_publish d env raw now d' :
    Validate env = Ok tt → json_Marshal env = Ok raw →
    insert_event env raw now d = Ok (1%Z, d') → step d d'
| step_claim d worker until now r d' :
    worker ≠ "" → claim_update worker until now d = Ok (r, d') → step d d'
| step_received d f now d' :
    Frame_Validate f = Ok tt → f.(fr_Kind) = ControlReceived →
    update_held [DeliveryLeased] (received_row now) f now d = Ok (1%Z, d') → step d d'
| step_settle d f now d' :
    Frame_Validate f = Ok tt → settle_kind f.(fr_Kind) →
    settle_effect f now d = Ok d' → step d d'
| step_requeue d now n d' : requeue_update now d = Ok (n, d') → step d d'
| step_history d h n d' :
    settled h.(h_state) = false → insert_history h d = Ok (n, d') → step d d'
| step_outbox d id transport payload at_ms n d' :
    insert_outbox id transport payload at_ms d = Ok (n, d') → step d d'
| step_deliver d seq at_ms n d' : deliver_update seq at_ms d = Ok (n, d') → step d d'.

Definition steps : relation control_db := rtc step.

(** The calls a program can make, and their execution. *)
Inductive call :=
| CallPublish (env : Envelope) (now : Z)
| CallClaim (worker : string) (lease now : Z)
| CallReceived (f : ControlFrame) (now : Z)
| CallSettle (f : ControlFrame) (now : Z)
| CallRequeue (now : Z)
| CallState (id : string)
| CallEnqueue (id transport : string) (payload : bytes) (at_ : Z)
| CallNextOutbox (now : Z)
| CallDelivered (seq at_ : Z).

Definition run_call (c : call) (w : world control_db) : world control_db :=
  match c with
  | CallPublish env now => (ControlStore.Publish env now w).2
  | CallClaim worker lease now => (ControlStore.Claim worker lease now w).2
  | CallReceived f now => (ControlStore.MarkReceived f now w).2
  | CallSettle f now => (ControlStore.Settle f now w).2
  | CallRequeue now => (ControlStore.RequeueExpired now w).2
  | CallState id => (ControlStore.State id w).2
  | CallEnqueue id tr p at_ => (ControlStore.EnqueueOutbox id tr p at_ w).2
  | CallNextOutbox now => (ControlStore.NextOutbox now w).2
  | CallDelivered seq at_ => (ControlStore.MarkOutboxDelivered seq at_ w).2
  end.

(** Sequences of calls, each met by its own faults. *)
Definition run_calls (cs : list call) (w : world control_db) : world control_db :=
  foldl (λ w c, run_call c w) w cs.

(** ** The store invariant *)

(** A row of [events]: the lease columns are set exactly while the event is
    held; the token counts the claims; the envelope is the stored one. *)
Record row_ok (id : string) (r : event_row) : Prop := {
  ro_held : held r.(ev_state) = true →
    ∃ w u, r.(ev_owner) = Some w ∧ w ≠ "" ∧ r.(ev_lease_until_ms) = Some u;
  ro_free : held r.(ev_state) = false → r.(ev_owner) = None ∧ r.(ev_lease_until_ms) = None;
  ro_token : if decide (r.(ev_state) = DeliveryPublished) then r.(ev_fencing_token) = 0%Z
             else (1 ≤ r.(ev_fencing_token))%Z;
  ro_attempt : r.(ev_attempt) = r.(ev_fencing_token);
  ro_envelope : ∃ env, Validate env = Ok tt ∧ json_Marshal env = Ok r.(ev_envelope) ∧
    env.(env_ID) = id ∧ env.(env_IdempotencyKey) = r.(ev_idempotency_key) ∧
    env.(env_Event) = r.(ev_event_name) ∧ env.(env_CreatedAtMS) = r.(ev_created_at_ms);
}.

(** The settlement row that goes with a settled event. *)
Definition settlement_ok (r : event_row) (s : settlement_row) : Prop :=
  s.(st_fencing_token) = r.(ev_fencing_token) ∧
  r.(ev_state) = (if decide (s.(st_kind) = ControlSettledError)
                  then DeliverySettledError else DeliverySettledOK) ∧
  settle_kind s.(st_kind).

Definition settled_entries (id : string) (h : list history_row) : list history_row :=
  filter (λ x, x.(h_event_id) = id ∧ settled x.(h_state) = true) h.

Record Inv (d : control_db) : Prop := {
  inv_rows : ∀ id r, d.(events) !! id = Some r → row_ok id r;
  inv_unique : ∀ id1 id2 r1 r2, d.(events) !! id1 = Some r1 → d.(events) !! id2 = Some r2 →
    r1.(ev_idempotency_key) = r2.(ev_idempotency_key) → id1 = id2;
  inv_settled : ∀ id r, d.(events) !! id = Some r → settled r.(ev_state) = true →
    ∃ s, d.(settlements) !! id = Some s ∧ settlement_ok r s;
  inv_settlements : ∀ id s, d.(settlements) !! id = Some s →
    ∃ r, d.(events) !! id = Some r ∧ settled r.(ev_state) = true;
  inv_history : ∀ id, length (settled_entries id d.(delivery_history)) =
    match d.(settlements) !! id with Some _ => 1 | None => 0 end;
  inv_outbox : StronglySorted (λ x y, x.(ob_seq) < y.(ob_seq))%Z d.(outbox) ∧
    Forall (λ x, 1 ≤ x.(ob_seq) ≤ d.(outbox_seq))%Z d.(outbox) ∧ (0 ≤ d.(outbox_seq))%Z;
}.

(** ** What a step does to one row *)

Inductive row_step (id : string) : option event_row → option event_row → Prop :=
| rs_same o : row_step id o o
| rs_new env raw now :
    Validate env = Ok tt → json_Marshal env = Ok raw → env.(env_ID) = id →
    row_step id None (Some (EventRow env.(env_IdempotencyKey) env.(env_Event) raw
      DeliveryPublished None None 0 0 env.(env_CreatedAtMS) now))
| rs_lease r worker until now :
    worker ≠ "" → claimable r → row_step id (Some r) (Some (lease_row worker until now r))
| rs_receive r f now :
    f.(fr_EventID) = id →
    holds_lease [DeliveryLeased] f.(fr_WorkerID) f.(fr_FencingToken) now r = true →
    row_step id (Some r) (Some (received_row now r))
| rs_settle r f now :
    f.(fr_EventID) = id → settle_kind f.(fr_Kind) →
    holds_lease [DeliveryLeased; DeliveryReceived] f.(fr_WorkerID) f.(fr_FencingToken) now r = true →
    row_step id (Some r) (Some (release_row (ControlStore.settle_target f) now r))
| rs_expire r now :
    lease_over now r = true → row_step id (Some r) (Some (release_row DeliveryExpired now r)).
End steps.

#[export] Hint Constructors row_step : ubiq.

(** * Lemmas *)

(** ** Statements *)

Lemma by_key_Some k d id r :
  by_key k d = Some (id, r) → d.(events) !! id = Some r ∧ r.(ev_idempotency_key) = k.
Proof.
  unfold by_key. intros H%head_Some_elem_of. by apply elem_of_pairs_with in H.
Qed.

Lemma by_key_None k d :
  by_key k d = None ↔ ∀ id r, d.(events) !! id = Some r → r.(ev_idempotency_key) ≠ k.
Proof.
  unfold by_key. split.
  - intros H id r Hr Hk. assert ((id, r) ∈ pairs_with (λ r, ev_idempotency_key r = k) (events d)) as Hin
      by by apply elem_of_pairs_with.
    destruct (pairs_with _ _); [by apply not_elem_of_nil in Hin|done].
  - intros H. destruct (pairs_with _ _) as [|[id r] l] eqn:E; [done|exfalso].
    assert ((id, r) ∈ pairs_with (λ r, ev_idempotency_key r = k) (events d)) as Hin
      by (rewrite E; constructor).
    apply elem_of_pairs_with in Hin as [? ?]. by eapply H.
Qed.

Lemma insert_event_inv env raw now d n d' :
  insert_event env raw now d = Ok (n, d') →
  (n = 0%Z ∧ d' = d ∧ is_Some (by_key env.(env_IdempotencyKey) d)) ∨
  (n = 1%Z ∧ by_key env.(env_IdempotencyKey) d = None ∧ d.(events) !! env.(env_ID) = None ∧
   d' = with_events (<[env.(env_ID) := EventRow env.(env_IdempotencyKey) env.(env_Event) raw
          DeliveryPublished None None 0 0 env.(env_CreatedAtMS) now]> d.(events)) d).
Proof. unfold insert_event. intros H. split_match; eauto 10. Qed.

Lemma claim_update_inv worker until now d r' d' :
  claim_update worker until now d = Ok (r', d') →
  ∃ id r, candidate d = Some (id, r) ∧ d.(events) !! id = Some r ∧ claimable r ∧
    r' = lease_row worker until now r ∧ d' = with_events (<[id := r']> d.(events)) d.
Proof.
  unfold claim_update. destruct (candidate d) as [[id r]|] eqn:E; [|done].
  intros [= <- <-]. exists id, r. unfold candidate in E.
  apply list_min_elem, elem_of_pairs_with in E as [??]. auto 10.
Qed.

Lemma bind_uint64_ok z z' : bind_uint64 z = Ok z' → z' = z ∧ (z < two63)%Z.
Proof. unfold bind_uint64. destruct (z <? two63)%Z eqn:E; [|done]. intros [= ->]. bool_prop. auto. Qed.

Lemma update_held_inv states upd f now d n d' :
  update_held states upd f now d = Ok (n, d') →
  (n = 0%Z ∧ d' = d ∧ ∀ r, d.(events) !! f.(fr_EventID) = Some r →
     holds_lease states f.(fr_WorkerID) f.(fr_FencingToken) now r = false) ∨
  (n = 1%Z ∧ ∃ r, d.(events) !! f.(fr_EventID) = Some r ∧
     holds_lease states f.(fr_WorkerID) f.(fr_FencingToken) now r = true ∧
     d' = with_events (<[f.(fr_EventID) := upd r]> d.(events)) d).
Proof.
  unfold update_held. destruct (bind_uint64 _) eqn:E; [|done].
  apply bind_uint64_ok in E as [-> _]. intros H. split_match; naive_solver.
Qed.

Lemma holds_lease_inv states worker token now r :
  holds_lease states worker token now r = true →
  r.(ev_owner) = Some worker ∧ r.(ev_fencing_token) = token ∧ r.(ev_state) ∈ states ∧
  ∃ u, r.(ev_lease_until_ms) = Some u ∧ (now < u)%Z.
Proof.
  unfold holds_lease. intros H. bool_prop. split_and!; try done.
  destruct (ev_lease_until_ms r) as [u|]; [|done]. bool_prop. eauto.
Qed.

Lemma settle_effect_inv f now d d' :
  settle_effect f now d = Ok d' →
  ∃ r, d.(events) !! f.(fr_EventID) = Some r ∧
    holds_lease [DeliveryLeased; DeliveryReceived] f.(fr_WorkerID) f.(fr_FencingToken) now r = true ∧
    d'.(events) = <[f.(fr_EventID) := release_row (ControlStore.settle_target f) now r]> d.(events) ∧
    d'.(settlements) = match d.(settlements) !! f.(fr_EventID) with
      | Some _ => d.(settlements)
      | None => <[f.(fr_EventID) := SettlementRow f.(fr_Kind) f.(fr_WorkerID) f.(fr_FencingToken)
                    f.(fr_AtMS) f.(fr_Evidence)]> d.(settlements)
      end ∧
    d'.(delivery_history) = d.(delivery_history) ++
      [ControlStore.frame_history (ControlStore.settle_target f) f] ∧
    d'.(outbox) = d.(outbox) ∧ d'.(outbox_seq) = d.(outbox_seq).
Proof.
  unfold settle_effect. destruct (update_held _ _ _ _ _) as [[n d1]|] eqn:E; [|done].
  destruct (decide (n ≠ 1%Z)) as [|Hn]; [done|].
  apply update_held_inv in E as [[-> _]|(->&r&Hr&Hh&->)]; [by destruct Hn|].
  unfold insert_settlement, insert_history. simpl.
  destruct (bind_uint64 _) eqn:Eb; [|done]. apply bind_uint64_ok in Eb as [-> _].
  intros H. exists r. rewrite lookup_insert_eq in H.
  destruct (settlements d !! fr_EventID f); simplify_eq/=; auto 10.
Qed.

(** ** Steps act on rows by [row_step] *)

Section row_steps.
Context {codec : EnvelopeCodec}.

Lemma insert_row_step id k o v (m : gmap string event_row) :
  m !! k = o → row_step k o (Some v) → row_step id (m !! id) (<[k := v]> m !! id).
Proof.
  intros Hk Hs. destruct (decide (id = k)) as [->|Hne].
  - by rewrite lookup_insert_eq, Hk.
  - rewrite lookup_insert_ne by done. constructor.
Qed.

Lemma step_row d d' id : step d d' → row_step id (d.(events) !! id) (d'.(events) !! id).
Proof.
  destruct 1 as [d env raw now d' Hv Hm H|d worker until now r d' Hw H|d f now d' Hf Hk H|
    d f now d' Hf Hk H|d now n d' H|d h n d' _ H|d i tr p at_ n d' H|d seq at_ n d' H].
  - apply insert_event_inv in H as [[? _]|(_&_&Hn&->)]; [done|].
    eapply insert_row_step; [done|]. eauto with ubiq.
  - apply claim_update_inv in H as (k&r0&_&Hr&Hc&->&->).
    eapply insert_row_step; [done|]. eauto with ubiq.
  - apply update_held_inv in H as [[? _]|(_&r&Hr&Hh&->)]; [done|].
    eapply insert_row_step; [done|]. eauto with ubiq.
  - apply settle_effect_inv in H as (r&Hr&Hh&->&_).
    eapply insert_row_step; [done|]. eauto with ubiq.
  - unfold requeue_update in H. simplify_eq/=. rewrite lookup_fmap.
    destruct (events d !! id) as [r|]; simpl; [|constructor].
    unfold expire_row. destruct (lease_over now r) eqn:E; auto with ubiq.
  - unfold insert_history in H. simplify_eq/=. constructor.
  - unfold insert_outbox in H. simplify_eq/=. constructor.
  - unfold deliver_update in H. simplify_eq/=. constructor.
Qed.

(** Inserting a row that is not settled adds no settled row. *)
Lemma insert_unsettled k v (m : gmap string event_row) :
  settled v.(ev_state) = false →
  ∀ id r, <[k := v]> m !! id = Some r → settled r.(ev_state) = true → m !! id = Some r.
Proof.
  intros Hv id r [[-> ->]|[_ H]]%lookup_insert_Some Hs; [congruence|done].
Qed.

(** A step other than a settlement leaves the settled rows, their entries in
    [settlements] and the settled entries of the history alone. *)
Lemma step_settlements d d' :
  step d d' →
  (d'.(settlements) = d.(settlements) ∧
   (∀ id r, d'.(events) !! id = Some r → settled r.(ev_state) = true → d.(events) !! id = Some r) ∧
   ∀ id, settled_entries id d'.(delivery_history) = settled_entries id d.(delivery_history)) ∨
  ∃ f now, settle_kind f.(fr_Kind) ∧ settle_effect f now d = Ok d'.
Proof.
  destruct 1 as [d env raw now d' Hv Hm H|d worker until now r d' Hw H|d f now d' Hf Hk H|
    d f now d' Hf Hk H|d now n d' H|d h n d' Hh H|d i tr p at_ n d' H|d seq at_ n d' H].
  - apply insert_event_inv in H as [[? _]|(_&_&Hn&->)]; [done|left].
    split_and!; [done|by apply insert_unsettled|done].
  - apply claim_update_inv in H as (k&r0&_&Hr&Hc&->&->). left.
    split_and!; [done|by apply insert_unsettled|done].
  - apply update_held_inv in H as [[? _]|(_&r&Hr&Hh&->)]; [done|left].
    split_and!; [done|by apply insert_unsettled|done].
  - right. eauto.
  - unfold requeue_update in H. simplify_eq/=. left. split_and!; [done| |done].
    intros id r. rewrite lookup_fmap. destruct (events d !! id) as [r0|]; [|done].
    simpl. unfold expire_row. by destruct (lease_over now r0); intros [= <-].
  - unfold insert_history in H. simplify_eq/=. left. split_and!; [done|done|]. intros id.
    unfold settled_entries. rewrite filter_app. simpl.
    rewrite filter_cons_False by (rewrite Hh; naive_solver). by rewrite filter_nil, app_nil_r.
  - unfold insert_outbox in H. simplify_eq/=. by left.
  - unfold deliver_update in H. simplify_eq/=. by left.
Qed.

Lemma held_settled s : held s = true → settled s = false.
Proof. by destruct s. Qed.

Lemma holds_lease_held states worker token now r :
  (∀ s, s ∈ states → held s = true) →
  holds_lease states worker token now r = true → held r.(ev_state) = true.
Proof. intros Hs H. apply holds_lease_inv in H as (_&_&H&_). auto. Qed.

Lemma lease_over_inv now r :
  lease_over now r = true →
  held r.(ev_state) = true ∧ ∃ u, r.(ev_lease_until_ms) = Some u ∧ (u ≤ now)%Z.
Proof.
  unfold lease_over. intros [Hs Hu]%andb_true_iff. split; [done|].
  destruct (ev_lease_until_ms r) as [u|]; [|done]. bool_prop. eauto.
Qed.

Lemma held_leased s : s ∈ [DeliveryLeased] → held s = true.
Proof. by intros ->%list_elem_of_singleton. Qed.
Lemma held_either s : s ∈ [DeliveryLeased; DeliveryReceived] → held s = true.
Proof. intros [->|[->|[]%not_elem_of_nil]%elem_of_cons]%elem_of_cons; done. Qed.

(** Settled rows are never touched again. *)
Lemma row_step_settled id r o :
  row_step id (Some r) o → settled r.(ev_state) = true → o = Some r.
Proof.
  intros H Hs. inversion H; subst; try done; exfalso.
  - unfold claimable in *. destruct (ev_state r); naive_solver.
  - assert (held (ev_state r) = true) as Hh by eauto using holds_lease_held, held_leased.
    apply held_settled in Hh. congruence.
  - assert (held (ev_state r) = true) as Hh by eauto using holds_lease_held, held_either.
    apply held_settled in Hh. congruence.
  - match goal with H : lease_over _ _ = true |- _ => apply lease_over_inv in H as [Hh _] end.
    apply held_settled in Hh. congruence.
Qed.

(** Rows are never deleted, their identity never changes, tokens never go down. *)
Lemma row_step_mono id r o :
  row_step id (Some r) o →
  ∃ r', o = Some r' ∧ (r.(ev_fencing_token) ≤ r'.(ev_fencing_token))%Z ∧
    r'.(ev_idempotency_key) = r.(ev_idempotency_key) ∧ r'.(ev_envelope) = r.(ev_envelope) ∧
    r'.(ev_event_name) = r.(ev_event_name) ∧ r'.(ev_created_at_ms) = r.(ev_created_at_ms).
Proof.
  intros H. inversion H; subst; eexists; (split; [done|]); simpl; split_and!; try done; lia.
Qed.
End row_steps.

(** ** Preservation of the invariant *)

Section invariant.
Context {codec : EnvelopeCodec}.

Lemma settle_target_settled f :
  settled (ControlStore.settle_target f) = true ∧ held (ControlStore.settle_target f) = false.
Proof. unfold ControlStore.settle_target. by case_decide. Qed.

Lemma row_step_ok id o r' :
  row_step id o (Some r') → (∀ r, o = Some r → row_ok id r) → row_ok id r'.
Proof.
  intros H Ho. inversion H; subst; [by apply Ho|..].
  - split; simpl; try done. eauto 10.
  - destruct (Ho r eq_refl) as [Ha Hb Hc Hd He]. split; simpl; try done; eauto.
    + destruct (decide (ev_state r = DeliveryPublished)); lia.
    + lia.
  - destruct (Ho r eq_refl) as [Ha Hb Hc Hd He].
    match goal with H : holds_lease _ _ _ _ _ = true |- _ =>
      apply holds_lease_inv in H as (_&_&Hs%list_elem_of_singleton&_) end.
    split; simpl; try done; rewrite Hs in *; auto.
  - destruct (Ho r eq_refl) as [Ha Hb Hc Hd He].
    match goal with H : holds_lease _ _ _ _ _ = true |- _ =>
      apply holds_lease_inv in H as (_&_&Hs%held_either&_) end.
    destruct (settle_target_settled f) as [Ht1 Ht2]. split; simpl; try done.
    + by rewrite Ht2.
    + destruct (decide (ev_state r = DeliveryPublished)) as [E|]; [by rewrite E in Hs|].
      destruct (decide (_ = DeliveryPublished)) as [E'|]; [by rewrite E' in Ht1|done].
  - destruct (Ho r eq_refl) as [Ha Hb Hc Hd He]. split; simpl; try done.
    match goal with H : lease_over _ _ = true |- _ => apply lease_over_inv in H as [Hs _] end.
    destruct (decide (ev_state r = DeliveryPublished)) as [E|]; [by rewrite E in Hs|done].
Qed.

(** Only [Publish] adds a row, under a fresh idempotency key. *)
Lemma step_domain d d' :
  step d d' →
  (∀ id, is_Some (d'.(events) !! id) → is_Some (d.(events) !! id)) ∨
  ∃ id r, d'.(events) = <[id := r]> d.(events) ∧
    ∀ id2 r2, d.(events) !! id2 = Some r2 → r2.(ev_idempotency_key) ≠ r.(ev_idempotency_key).
Proof.
  intros Hstep. assert (Hstep' := Hstep).
  destruct Hstep' as [d env raw now d' Hv Hm H|d worker until now r d' Hw H|d f now d' Hf Hk H|
    d f now d' Hf Hk H|d now n d' H|d h n d' Hh H|d i tr p at_ n d' H|d seq at_ n d' H].
  1:{ apply insert_event_inv in H as [[? _]|(_&Hb&Hn&->)]; [done|].
      right. do 2 eexists. split; [done|]. by apply by_key_None. }
  all: left; intros id; pose proof (step_row _ _ id Hstep) as Hr;
    destruct (events d !! id) eqn:E; [done|]; intros [r' Hr']; exfalso.
  - apply claim_update_inv in H as (k&r0&_&Hr0&_&->&->). simpl in Hr'.
    apply lookup_insert_Some in Hr' as [[-> ?]|[? ?]]; congruence.
  - apply update_held_inv in H as [[? _]|(_&r0&Hr0&_&->)]; [done|]. simpl in Hr'.
    apply lookup_insert_Some in Hr' as [[<- ?]|[? ?]]; congruence.
  - apply settle_effect_inv in H as (r0&Hr0&_&Hev&_). rewrite Hev in Hr'.
    apply lookup_insert_Some in Hr' as [[<- ?]|[? ?]]; congruence.
  - unfold requeue_update in H. simplify_eq/=. rewrite lookup_fmap, E in Hr'. done.
  - unfold insert_history in H. simplify_eq/=.
  - unfold insert_outbox in H. simplify_eq/=.
  - unfold deliver_update in H. simplify_eq/=.
Qed.

Lemma inv_unique_step d d' :
  Inv d → step d d' → ∀ id1 id2 r1 r2,
  d'.(events) !! id1 = Some r1 → d'.(events) !! id2 = Some r2 →
  r1.(ev_idempotency_key) = r2.(ev_idempotency_key) → id1 = id2.
Proof.
  intros HI Hstep id1 id2 r1 r2 H1 H2 Hk.
  destruct (step_domain _ _ Hstep) as [Hd|(id&r&Hev&Hfresh)].
  - destruct (Hd id1) as [o1 Ho1]; [eauto|]. destruct (Hd id2) as [o2 Ho2]; [eauto|].
    pose proof (step_row _ _ id1 Hstep) as Hs1. rewrite Ho1, H1 in Hs1.
    pose proof (step_row _ _ id2 Hstep) as Hs2. rewrite Ho2, H2 in Hs2.
    apply row_step_mono in Hs1 as (?&[= <-]&_&Hk1&_). apply row_step_mono in Hs2 as (?&[= <-]&_&Hk2&_).
    eapply (inv_unique _ HI); [exact Ho1|exact Ho2|congruence].
  - rewrite Hev in H1, H2. apply lookup_insert_Some in H1 as [[-> ->]|[? H1]];
      apply lookup_insert_Some in H2 as [[-> ->]|[? H2]]; [done| | |by eapply (inv_unique _ HI)].
    + exfalso. eapply Hfresh; [exact H2|done].
    + exfalso. eapply Hfresh; [exact H1|done].
Qed.

Lemma inv_outbox_step d d' :
  Inv d → step d d' →
  StronglySorted (λ x y, x.(ob_seq) < y.(ob_seq))%Z d'.(outbox) ∧
  Forall (λ x, 1 ≤ x.(ob_seq) ≤ d'.(outbox_seq))%Z d'.(outbox) ∧ (0 ≤ d'.(outbox_seq))%Z.
Proof.
  intros HI. pose proof (inv_outbox _ HI) as (Hs&Hf&H0).
  destruct 1 as [d env raw now d' Hv Hm H|d worker until now r d' Hw H|d f now d' Hfv Hk H|
    d f now d' Hfv Hk H|d now n d' H|d h n d' Hh H|d i tr p at_ n d' H|d seq at_ n d' H].
  - apply insert_event_inv in H as [[? _]|(_&_&Hn&->)]; done.
  - apply claim_update_inv in H as (k&r0&_&Hr&Hc&->&->). done.
  - apply update_held_inv in H as [[? _]|(_&r&Hr&Hh&->)]; done.
  - apply settle_effect_inv in H as (r&_&_&_&_&_&->&->). done.
  - unfold requeue_update in H. by simplify_eq/=.
  - unfold insert_history in H. by simplify_eq/=.
  - unfold insert_outbox in H. simplify_eq/=. split_and!; [|apply Forall_app; split|lia].
    + apply StronglySorted_app_2; [|done|repeat constructor].
      intros x y Hx ->%list_elem_of_singleton. simpl.
      rewrite Forall_forall in Hf. specialize (Hf x Hx). lia.
    + eapply Forall_impl; [exact Hf|]. simpl. lia.
    + repeat constructor; simpl; lia.
  - unfold deliver_update in H. simplify_eq/=.
    assert (∀ r, ob_seq (if decide (undelivered seq r) then deliver_row at_ r else r) = ob_seq r) as Heq
      by (intros r; by case_decide).
    split_and!; [| |done].
    + clear - Hs Heq. induction Hs as [|x l _ IH Hx]; simpl; constructor; [done|].
      apply Forall_fmap. eapply Forall_impl; [exact Hx|]. intros y. simpl. by rewrite !Heq.
    + apply Forall_fmap. eapply Forall_impl; [exact Hf|]. intros y. simpl. by rewrite Heq.
Qed.

Lemma settle_target_kind f r now :
  settle_kind f.(fr_Kind) → r.(ev_fencing_token) = f.(fr_FencingToken) →
  settlement_ok (release_row (ControlStore.settle_target f) now r)
    (SettlementRow f.(fr_Kind) f.(fr_WorkerID) f.(fr_FencingToken) f.(fr_AtMS) f.(fr_Evidence)).
Proof. intros Hk Ht. by split_and!. Qed.

Lemma settled_entries_snoc id h x :
  settled_entries id (h ++ [x]) =
  settled_entries id h ++ (if decide (x.(h_event_id) = id ∧ settled x.(h_state) = true) then [x] else []).
Proof. unfold settled_entries. by rewrite filter_app. Qed.

(** The settlement tables and the settled history entries move together. *)
Lemma inv_settle_step d d' f now :
  Inv d → settle_kind f.(fr_Kind) → settle_effect f now d = Ok d' →
  d.(settlements) !! f.(fr_EventID) = None ∧
  (∀ id, length (settled_entries id d'.(delivery_history)) =
    match d'.(settlements) !! id with Some _ => 1 | None => 0 end).
Proof.
  intros HI Hk (r&Hr&Hh&Hev&Hse&Hhi&_)%settle_effect_inv.
  assert (settlements d !! fr_EventID f = None) as Hn.
  { apply eq_None_not_Some. intros [s Hs]. apply (inv_settlements _ HI) in Hs as (r'&Hr'&Hs').
    assert (held (ev_state r) = true) as Hh' by eauto using holds_lease_held, held_either.
    apply held_settled in Hh'. congruence. }
  split; [done|]. intros id. rewrite Hhi, settled_entries_snoc, length_app, (inv_history _ HI), Hse, Hn.
  destruct (settle_target_settled f) as [Ht _].
  unfold ControlStore.frame_history; simpl. destruct (decide (id = fr_EventID f)) as [->|Hne].
  - rewrite decide_True by done. by rewrite Hn, lookup_insert_eq.
  - rewrite decide_False by naive_solver. rewrite lookup_insert_ne by done. simpl. lia.
Qed.

Lemma inv_step d d' : Inv d → step d d' → Inv d'.
Proof.
  intros HI Hstep. assert (Hrow := λ id, step_row _ _ id Hstep).
  split; [| by eapply inv_unique_step | | | | by eapply inv_outbox_step].
  - intros id r' Hr'. eapply row_step_ok; [rewrite <- Hr'; apply Hrow|].
    intros r Hr. by apply (inv_rows _ HI).
  - intros id r' Hr' Hs'. destruct (step_settlements _ _ Hstep) as [(Hse&Hev&_)|(f&now&Hk&Hf)].
    { rewrite Hse. by apply (inv_settled _ HI); [apply Hev|]. }
    destruct (inv_settle_step _ _ _ _ HI Hk Hf) as [Hn _].
    apply settle_effect_inv in Hf as (r&Hr&Hh&Hev&Hse&_). rewrite Hn in Hse. rewrite Hse.
    rewrite Hev in Hr'. apply lookup_insert_Some in Hr' as [[<- <-]|[Hne Hr']].
    + rewrite lookup_insert_eq. eexists. split; [done|]. apply settle_target_kind; [done|].
      by apply holds_lease_inv in Hh as (_&?&_).
    + rewrite lookup_insert_ne by done. by apply (inv_settled _ HI).
  - intros id s Hs. destruct (step_settlements _ _ Hstep) as [(Hse&_&_)|(f&now&Hk&Hf)].
    { rewrite Hse in Hs. apply (inv_settlements _ HI) in Hs as (r&Hr&Hst).
      specialize (Hrow id). rewrite Hr in Hrow. apply row_step_settled in Hrow; eauto. }
    destruct (inv_settle_step _ _ _ _ HI Hk Hf) as [Hn _].
    apply settle_effect_inv in Hf as (r&Hr&Hh&Hev&Hse&_). rewrite Hn in Hse.
    rewrite Hse in Hs. rewrite Hev. apply lookup_insert_Some in Hs as [[<- <-]|[Hne Hs]].
    + rewrite lookup_insert_eq. eexists. split; [done|]. apply settle_target_settled.
    + rewrite lookup_insert_ne by done. by apply (inv_settlements _ HI) in Hs.
  - intros id. destruct (step_settlements _ _ Hstep) as [(Hse&_&Hhi)|(f&now&Hk&Hf)].
    + rewrite Hse, Hhi. apply (inv_history _ HI).
    + by apply (inv_settle_step _ _ _ _ HI Hk Hf).
Qed.

Lemma inv_empty : Inv empty_db.
Proof. split; try done. split_and!; [constructor|constructor|done]. Qed.

Lemma inv_steps d d' : Inv d → steps d d' → Inv d'.
Proof. intros HI Hs. induction Hs; eauto using inv_step. Qed.
End invariant.

(** ** Operations are sequences of steps *)

Section operations.
Context {codec : EnvelopeCodec}.

#[local] Instance steps_preorder : PreOrder steps.
Proof. unfold steps. apply _. Qed.

Lemma history_moves h : settled h.(h_state) = false → moves steps (exec (insert_history h)).
Proof. intros Hh. apply moves_exec; [apply _|]. intros d a d' H. apply rtc_once. by eapply step_history. Qed.

Lemma insert_event_moves env raw now :
  Validate env = Ok tt → json_Marshal env = Ok raw →
  moves steps (exec (insert_event env raw now)).
Proof.
  intros Hv Hm. apply moves_exec; [apply _|]. intros d n d' H.
  pose proof (insert_event_inv _ _ _ _ _ _ H) as [(->&->&_)|(->&_)]; [done|].
  apply rtc_once. by eapply step_publish.
Qed.

Lemma Publish_moves env now : moves steps (ControlStore.Publish env now).
Proof.
  unfold ControlStore.Publish. destruct (Validate env) as [[]|] eqn:Hv; [|io_moves].
  destruct (json_Marshal env) as [raw|] eqn:Hm; [|io_moves].
  io_moves; auto using insert_event_moves, history_moves.
Qed.

Lemma Claim_moves worker lease now : moves steps (ControlStore.Claim worker lease now).
Proof.
  unfold ControlStore.Claim. destruct (_ || _) eqn:E; [io_moves|].
  bool_prop. apply moves_bind; [apply _| |intros ?; io_moves; by apply history_moves].
  apply moves_exec; [apply _|]. intros d a d' Hc. apply rtc_once. by eapply step_claim.
Qed.

Lemma MarkReceived_moves f now : moves steps (ControlStore.MarkReceived f now).
Proof.
  unfold ControlStore.MarkReceived. case_decide as Hk; [io_moves|].
  destruct (Frame_Validate f) as [[]|] eqn:Hf; [|io_moves].
  io_moves; [|by apply history_moves].
  apply moves_exec; [apply _|]. intros d n d' H.
  pose proof (update_held_inv _ _ _ _ _ _ _ H) as [(->&->&_)|(->&_)]; [done|].
  apply rtc_once. by eapply step_received.
Qed.

(** The body of [Settle], when it succeeds, has the effect [settle_effect]. *)
Lemma settle_body_ok f now w w' :
  ControlStore.settle_body f now w = (Ok tt, w') → settle_effect f now w.(db) = Ok w'.(db).
Proof.
  unfold ControlStore.settle_body, settle_effect, io_bind, io_ret.
  destruct (exec _ w) as [[n|] w1] eqn:E1; [|done]. apply exec_ok in E1. rewrite E1.
  destruct (rows_affected n w1) as [rn w2] eqn:E2. pose proof (rows_affected_db _ _ _ _ E2) as Hd2.
  case_decide as Hn; [done|]. destruct rn as [m|]; [|done].
  apply rows_affected_ok in E2 as ->. simpl in Hn. subst n.
  rewrite decide_False by naive_solver.
  destruct (exec _ w2) as [[k|] w3] eqn:E3; [|done]. apply exec_ok in E3. rewrite Hd2 in E3. rewrite E3.
  destruct (exec _ w3) as [[j|] w4] eqn:E4; [|done]. apply exec_ok in E4. rewrite E4.
  by intros [= ->].
Qed.

Lemma Settle_moves f now : moves steps (ControlStore.Settle f now).
Proof.
  unfold ControlStore.Settle. case_decide as Hk; [io_moves|].
  destruct (Frame_Validate f) as [[]|] eqn:Hf; [|io_moves].
  apply moves_transaction; [apply _|]. intros w [] w' H%settle_body_ok. apply rtc_once.
  eapply step_settle; [done| |done]. unfold settle_kind.
  destruct (decide (fr_Kind f = ControlSettledOK)), (decide (fr_Kind f = ControlSettledError)); tauto.
Qed.

Lemma RequeueExpired_moves now : moves steps (ControlStore.RequeueExpired now).
Proof.
  unfold ControlStore.RequeueExpired. io_moves. apply moves_exec; [apply _|].
  intros d a d' H. apply rtc_once. by eapply step_requeue.
Qed.

Lemma State_moves id : moves steps (ControlStore.State id).
Proof. apply moves_query. apply _. Qed.

Lemma EnqueueOutbox_moves id tr p at_ : moves steps (ControlStore.EnqueueOutbox id tr p at_).
Proof.
  unfold ControlStore.EnqueueOutbox. io_moves. apply moves_exec; [apply _|].
  intros d a d' H. apply rtc_once. by eapply step_outbox.
Qed.

Lemma NextOutbox_moves now : moves steps (ControlStore.NextOutbox now).
Proof. unfold ControlStore.NextOutbox. io_moves. Qed.

Lemma MarkOutboxDelivered_moves seq at_ : moves steps (ControlStore.MarkOutboxDelivered seq at_).
Proof.
  unfold ControlStore.MarkOutboxDelivered. io_moves. apply moves_exec; [apply _|].
  intros d a d' H. apply rtc_once. by eapply step_deliver.
Qed.

Lemma run_call_steps c w : steps w.(db) (run_call c w).(db).
Proof.
  destruct c; simpl.
  - apply Publish_moves.
  - apply Claim_moves.
  - apply MarkReceived_moves.
  - apply Settle_moves.
  - apply RequeueExpired_moves.
  - apply State_moves.
  - apply EnqueueOutbox_moves.
  - apply NextOutbox_moves.
  - apply MarkOutboxDelivered_moves.
Qed.

Lemma run_calls_steps cs w : steps w.(db) (run_calls cs w).(db).
Proof.
  unfold run_calls. revert w. induction cs as [|c cs IH]; intros w; simpl; [done|].
  etrans; [apply run_call_steps|apply IH].
Qed.
End operations.
