(* ===== verification/Lifecycle.v ===== *)
(** * The delivery lifecycle: abstract contract of the control store

    docs/ARCHITECTURE.md describes an event as a small state machine
    ([published -> leased -> received -> settled], with [expired] leading back to
    [leased]).  [phase] and [lc_step] state that machine for one event, with the
    worker and the fencing token; two edges are the code's and not the document's:
    a leased event may be settled without having been reported received, and a
    leased event may expire.  When an edge may be taken (the deadlines) is not part
    of the machine.  [phase_of] reads the phase from the tables; every atomic step
    of the store is a lifecycle step or nothing for each event. *)

From Stdlib Require Import ZArith Lia Ascii String.
From stdpp Require Import base list gmap sets strings relations.
From S2P Require Import Prelude GoRegexp JsonScan Model Db Store StoreSteps.
Import Sql.

Inductive phase :=
| Published
| Leased (worker : string) (token until : Z)
| Received (worker : string) (token until : Z)
| SettledOK (worker : string) (token : Z)
| SettledError (worker : string) (token : Z)
| Expired (token : Z).

(** One event; [None] is an event that was never published. *)
Inductive lc_step : option phase → option phase → Prop :=
| lc_publish : lc_step None (Some Published)
| lc_lease worker until : lc_step (Some Published) (Some (Leased worker 1 until))
| lc_release worker until t : lc_step (Some (Expired t)) (Some (Leased worker (t + 1) until))
| lc_receive worker t until : lc_step (Some (Leased worker t until)) (Some (Received worker t until))
| lc_ok_leased worker t until : lc_step (Some (Leased worker t until)) (Some (SettledOK worker t))
| lc_ok_received worker t until : lc_step (Some (Received worker t until)) (Some (SettledOK worker t))
| lc_error_leased worker t until : lc_step (Some (Leased worker t until)) (Some (SettledError worker t))
| lc_error_received worker t until : lc_step (Some (Received worker t until)) (Some (SettledError worker t))
| lc_expire_leased worker t until : lc_step (Some (Leased worker t until)) (Some (Expired t))
| lc_expire_received worker t until : lc_step (Some (Received worker t until)) (Some (Expired t)).

#[export] Hint Constructors lc_step : ubiq.

(** The phase of event [id]; a settled event takes its worker from the
    settlement row. *)
Definition phase_of (d : control_db) (id : string) : option phase :=
  r ← d.(events) !! id;
  match r.(ev_state) with
  | DeliveryPublished => Some Published
  | DeliveryLeased =>
      w ← r.(ev_owner); u ← r.(ev_lease_until_ms); Some (Leased w r.(ev_fencing_token) u)
  | DeliveryReceived =>
      w ← r.(ev_owner); u ← r.(ev_lease_until_ms); Some (Received w r.(ev_fencing_token) u)
  | DeliverySettledOK =>
      s ← d.(settlements) !! id; Some (SettledOK s.(st_worker_id) s.(st_fencing_token))
  | DeliverySettledError =>
      s ← d.(settlements) !! id; Some (SettledError s.(st_worker_id) s.(st_fencing_token))
  | DeliveryExpired => Some (Expired r.(ev_fencing_token))
  end.

(** * Lemmas *)

Section refinement.
Context {codec : EnvelopeCodec}.

(** A row a statement leaves alone keeps its phase, provided a settled event
    keeps its settlement row. *)
Lemma phase_of_same d d' id :
  d'.(events) !! id = d.(events) !! id → d'.(settlements) !! id = d.(settlements) !! id →
  phase_of d' id = phase_of d id.
Proof. unfold phase_of. intros -> ->. done. Qed.

(** The phases of a held row. *)
Lemma phase_of_held d id r f now states :
  d.(events) !! id = Some r →
  (∀ s, s ∈ states → held s = true) →
  holds_lease states f.(fr_WorkerID) f.(fr_FencingToken) now r = true →
  ∃ u, (now < u)%Z ∧ r.(ev_state) ∈ states ∧
  (phase_of d id = Some (Leased f.(fr_WorkerID) f.(fr_FencingToken) u) ∧ r.(ev_state) = DeliveryLeased ∨
   phase_of d id = Some (Received f.(fr_WorkerID) f.(fr_FencingToken) u) ∧ r.(ev_state) = DeliveryReceived).
Proof.
  intros Hr Hs (Ho&Ht&Hin&u&Hu&Hlt)%holds_lease_inv. exists u. split_and!; [done|done|].
  unfold phase_of. rewrite Hr. simpl. rewrite Ho, Hu, Ht. simpl.
  apply Hs in Hin. destruct (ev_state r); try done; auto.
Qed.

Lemma phase_of_insert d id r :
  phase_of (with_events (<[id := r]> d.(events)) d) id =
  phase_of (with_events {[ id := r ]} d) id.
Proof. unfold phase_of. simpl. by rewrite lookup_insert_eq, lookup_singleton_eq. Qed.

Lemma with_events_other d id k v :
  id ≠ k → phase_of (with_events (<[k := v]> d.(events)) d) id = phase_of d id.
Proof. intros Hne. apply phase_of_same; simpl; [by rewrite lookup_insert_ne|done]. Qed.

Lemma lifecycle_settle d d' f now id :
  Inv d → settle_kind f.(fr_Kind) → settle_effect f now d = Ok d' →
  phase_of d' id = phase_of d id ∨ lc_step (phase_of d id) (phase_of d' id).
Proof.
  intros HI Hk Hf. destruct (inv_settle_step _ _ _ _ HI Hk Hf) as [Hn _].
  apply settle_effect_inv in Hf as (r&Hr&Hh&Hev&Hse&_). rewrite Hn in Hse.
  destruct (decide (id = fr_EventID f)) as [->|Hne].
  - right. destruct (phase_of_held d _ _ _ _ _ Hr held_either Hh) as (u&Hu&_&Hp).
    assert (phase_of d' (fr_EventID f) =
      Some (if decide (fr_Kind f = ControlSettledError)
            then SettledError (fr_WorkerID f) (fr_FencingToken f)
            else SettledOK (fr_WorkerID f) (fr_FencingToken f))) as ->.
    { unfold phase_of. rewrite Hev, Hse, !lookup_insert_eq. simpl.
      unfold ControlStore.settle_target. by case_decide. }
    destruct Hp as [[-> _]|[-> _]]; case_decide; eauto with ubiq.
  - left. apply phase_of_same; rewrite ?Hev, ?Hse; by rewrite lookup_insert_ne.
Qed.

Lemma lifecycle_requeue d now n d' id :
  Inv d → requeue_update now d = Ok (n, d') →
  phase_of d' id = phase_of d id ∨ lc_step (phase_of d id) (phase_of d' id).
Proof.
  intros HI H. unfold requeue_update in H. simplify_eq/=.
  unfold phase_of. simpl. rewrite lookup_fmap.
  destruct (events d !! id) as [r|] eqn:Hr; simpl; [|by left].
  unfold expire_row. destruct (lease_over now r) eqn:El; [|by left]. right. simpl.
  apply lease_over_inv in El as (Hh&u&Hu&Hle).
  destruct (ro_held _ _ (inv_rows _ HI _ _ Hr) Hh) as (w&u'&->&_&Hu'). rewrite Hu' in *. simplify_eq/=.
  destruct (ev_state r); try done; simpl; eauto with ubiq.
Qed.

Lemma lifecycle_claim d worker until now r' d' id :
  Inv d → claim_update worker until now d = Ok (r', d') →
  phase_of d' id = phase_of d id ∨ lc_step (phase_of d id) (phase_of d' id).
Proof.
  intros HI (k&r&_&Hr&Hc&->&->)%claim_update_inv.
  destruct (decide (id = k)) as [->|Hne]; [right|left; by apply with_events_other].
  unfold phase_of. simpl. rewrite lookup_insert_eq, Hr. simpl.
  pose proof (ro_token _ _ (inv_rows _ HI _ _ Hr)) as Ht.
  destruct Hc as [Hs|Hs]; rewrite Hs in *; simpl in *; [rewrite Ht|]; eauto with ubiq.
Qed.

Lemma lifecycle_step d d' id :
  Inv d → step d d' →
  phase_of d' id = phase_of d id ∨ lc_step (phase_of d id) (phase_of d' id).
Proof.
  intros HI. destruct 1 as [d env raw now d' Hv Hm H|d worker until now r d' Hw H|d f now d' Hf Hk H|
    d f now d' Hf Hk H|d now n d' H|d h n d' Hh H|d i tr p at_ n d' H|d seq at_ n d' H].
  - apply insert_event_inv in H as [[? _]|(_&_&Hn&->)]; [done|].
    destruct (decide (id = env_ID env)) as [->|Hne]; [right|left; by apply with_events_other].
    unfold phase_of. simpl. rewrite lookup_insert_eq, Hn. simpl. constructor.
  - by eapply lifecycle_claim.
  - apply update_held_inv in H as [[? _]|(_&r&Hr&Hh&->)]; [done|].
    destruct (decide (id = fr_EventID f)) as [->|Hne]; [right|left; by apply with_events_other].
    apply holds_lease_inv in Hh as (Ho&Ht&Hs%list_elem_of_singleton&u&Hu&Hlt).
    unfold phase_of. simpl. rewrite lookup_insert_eq, Hr. simpl. rewrite Hs, Ho, Hu. simpl.
    eauto with ubiq.
  - by eapply lifecycle_settle.
  - by eapply lifecycle_requeue.
  - unfold insert_history in H. simplify_eq/=. by left.
  - unfold insert_outbox in H. simplify_eq/=. by left.
  - unfold deliver_update in H. simplify_eq/=. by left.
Qed.

Lemma lifecycle_steps d id : steps empty_db d → rtc lc_step None (phase_of d id).
Proof.
  intros Hs. change None with (phase_of empty_db id).
  assert (Inv empty_db) as HI by apply inv_empty. revert HI.
  induction Hs as [d|d d' d'' Hst Hs IH]; intros HI; [done|].
  destruct (lifecycle_step _ _ id HI Hst) as [E|E].
  - rewrite <- E. apply IH. by eapply inv_step.
  - eapply rtc_l; [exact E|]. apply IH. by eapply inv_step.
Qed.
End refinement.
