(* ===== verification/StoreTheorems.v ===== *)
(** * What the control store guarantees

    The theorems about [ControlStore]: invariant, refinement of the lifecycle,
    fencing, finality of settlements, idempotent publication, claim order and
    progress, transaction atomicity, outbox. *)

From Stdlib Require Import ZArith Lia Ascii String Sorted.
From stdpp Require Import base list gmap sets strings relations sorting.
From S2P Require Import Prelude GoRegexp JsonScan Model Db Store StoreSteps Lifecycle Json.
Import Sql.

(** * Lemmas *)

Section store.
Context {codec : EnvelopeCodec}.
Implicit Types (w : world control_db) (d : control_db).

(** ** Along any number of steps *)

Lemma steps_row_mono d d' id r :
  steps d d' → d.(events) !! id = Some r →
  ∃ r', d'.(events) !! id = Some r' ∧ (r.(ev_fencing_token) ≤ r'.(ev_fencing_token))%Z ∧
    r'.(ev_idempotency_key) = r.(ev_idempotency_key) ∧ r'.(ev_envelope) = r.(ev_envelope).
Proof.
  intros Hs. revert r. induction Hs as [d|d d1 d2 Hst _ IH]; intros r Hr.
  { exists r. split_and!; [done|lia|done|done]. }
  pose proof (step_row _ _ id Hst) as H1. rewrite Hr in H1.
  apply row_step_mono in H1 as (r1&Hr1&Ht&Hk&He&_).
  destruct (IH r1 Hr1) as (r2&Hr2&Ht2&Hk2&He2). exists r2.
  split_and!; [done|lia|congruence|congruence].
Qed.

Lemma step_settlement_kept d d' id s :
  step d d' → d.(settlements) !! id = Some s → d'.(settlements) !! id = Some s.
Proof.
  intros [(->&_)|(f&now&_&Hf)]%step_settlements Hs; [done|].
  apply settle_effect_inv in Hf as (r&_&_&_&->&_).
  destruct (settlements d !! fr_EventID f) eqn:E; [done|].
  rewrite lookup_insert_ne; [done|]. congruence.
Qed.

Lemma steps_settled d d' id r s :
  steps d d' → d.(events) !! id = Some r → settled r.(ev_state) = true →
  d.(settlements) !! id = Some s →
  d'.(events) !! id = Some r ∧ d'.(settlements) !! id = Some s.
Proof.
  intros Hs. induction Hs as [d|d d1 d2 Hst _ IH]; intros Hr Hset Hse; [done|].
  apply IH; [|done|by eapply step_settlement_kept].
  pose proof (step_row _ _ id Hst) as H1. rewrite Hr in H1. by apply row_step_settled in H1.
Qed.

(** ** Frames without a live lease *)

Lemma update_held_none states upd f now d n d' :
  (∀ r, d.(events) !! f.(fr_EventID) = Some r →
    holds_lease states f.(fr_WorkerID) f.(fr_FencingToken) now r = false) →
  update_held states upd f now d = Ok (n, d') → n = 0%Z ∧ d' = d.
Proof.
  intros Hno [(->&->&_)|(_&r&Hr&Hh&_)]%update_held_inv; [done|]. apply Hno in Hr. congruence.
Qed.

Lemma settle_body_none f now w r w' :
  (∀ r, w.(db).(events) !! f.(fr_EventID) = Some r →
    holds_lease [DeliveryLeased; DeliveryReceived] f.(fr_WorkerID) f.(fr_FencingToken) now r = false) →
  ControlStore.settle_body f now w = (r, w') → is_ok r = false.
Proof.
  intros Hno. unfold ControlStore.settle_body, io_bind, io_ret.
  destruct (exec _ w) as [[n|] w1] eqn:E1; [|by intros [= <- _]].
  apply exec_ok, update_held_none in E1 as [-> _]; [|done].
  destruct (rows_affected 0 w1) as [[m|] w2] eqn:E2; [|by intros [= <- _]].
  apply rows_affected_ok in E2 as ->. by intros [= <- _].
Qed.

Lemma transaction_failed {A} (body : io (world control_db) (result A)) w r w' :
  (∀ fs r w', body (World w.(db) fs) = (r, w') → is_ok r = false) →
  transaction body w = (r, w') → is_ok r = false ∧ w'.(db) = w.(db).
Proof.
  intros Hb H. split.
  - destruct r as [a|]; [|done]. apply transaction_ok in H as (fs&w2&H&_). by apply Hb in H.
  - apply transaction_atomic in H as [H|(fs&a&w2&H&_)]; [done|]. by apply Hb in H.
Qed.

Lemma Settle_none f now w r w' :
  (∀ r, w.(db).(events) !! f.(fr_EventID) = Some r →
    holds_lease [DeliveryLeased; DeliveryReceived] f.(fr_WorkerID) f.(fr_FencingToken)
      (UnixMilli now) r = false) →
  ControlStore.Settle f now w = (r, w') → is_ok r = false ∧ w'.(db) = w.(db).
Proof.
  intros Hno. unfold ControlStore.Settle. case_decide; [by intros [= <- <-]|].
  destruct (Frame_Validate f); [|by intros [= <- <-]].
  apply transaction_failed. intros fs r0 w0. by apply settle_body_none.
Qed.

Lemma MarkReceived_none f now w r w' :
  (∀ r, w.(db).(events) !! f.(fr_EventID) = Some r →
    holds_lease [DeliveryLeased] f.(fr_WorkerID) f.(fr_FencingToken) (UnixMilli now) r = false) →
  ControlStore.MarkReceived f now w = (r, w') → is_ok r = false ∧ w'.(db) = w.(db).
Proof.
  intros Hno. unfold ControlStore.MarkReceived, io_bind, io_ret.
  case_decide; [by intros [= <- <-]|]. destruct (Frame_Validate f); [|by intros [= <- <-]].
  destruct (exec _ w) as [r1 w1] eqn:E1. assert (w1.(db) = w.(db)) as Hd.
  { apply exec_db in E1 as [?|[n Hn]]; [done|]. by apply update_held_none in Hn as [_ ->]. }
  destruct r1 as [n|]; [|by intros [= <- <-]].
  apply exec_ok, update_held_none in E1 as [-> _]; [|done].
  destruct (rows_affected 0 w1) as [rn w2] eqn:E2. pose proof (rows_affected_db _ _ _ _ E2) as Hd2.
  destruct rn as [m|]; [apply rows_affected_ok in E2 as ->|]; intros [= <- <-]; by rewrite Hd2.
Qed.

Lemma holds_lease_token states worker token now r :
  r.(ev_fencing_token) ≠ token → holds_lease states worker token now r = false.
Proof.
  intros Hne. apply not_true_iff_false. intros (_&?&_)%holds_lease_inv. done.
Qed.

Lemma holds_lease_settled states worker token now r :
  (∀ s, s ∈ states → held s = true) → settled r.(ev_state) = true →
  holds_lease states worker token now r = false.
Proof.
  intros Hs Hset. apply not_true_iff_false. intros Hh%holds_lease_held%held_settled; [|done].
  congruence.
Qed.

(** ** Claims *)

Lemma Claim_ok worker lease now w c w' :
  ControlStore.Claim worker lease now w = (Ok c, w') →
  ∃ id r, candidate w.(db) = Some (id, r) ∧ w.(db).(events) !! id = Some r ∧ claimable r ∧
    w'.(db).(events) = <[id := lease_row worker c.(cl_Lease).(lease_UntilMS) (UnixMilli now) r]>
                         w.(db).(events) ∧
    c.(cl_Lease).(lease_WorkerID) = worker ∧
    c.(cl_Lease).(lease_UntilMS) = int64 (UnixMilli now + Milliseconds lease) ∧
    c.(cl_Lease).(lease_FencingToken) = (r.(ev_fencing_token) + 1)%Z ∧
    c.(cl_Lease).(lease_Attempt) = (r.(ev_attempt) + 1)%Z ∧
    c.(cl_State) = DeliveryLeased ∧
    json_Unmarshal r.(ev_envelope) = Ok c.(cl_Envelope) ∧
    c.(cl_Lease).(lease_EventID) = c.(cl_Envelope).(env_ID).
Proof.
  unfold ControlStore.Claim, io_bind, io_ret. destruct (_ || _); [done|].
  destruct (exec _ w) as [[r'|e] w1] eqn:E1; [|done]. apply exec_ok in E1.
  apply claim_update_inv in E1 as (id&r&Hc&Hr&Hcl&->&Hd). simpl.
  destruct (json_Unmarshal (ev_envelope r)) as [env|] eqn:Hu; [|done].
  destruct (exec _ w1) as [rh w2] eqn:E2. intros [= <- <-]. exists id, r. simpl.
  assert (events (db w2) = events (db w1)) as ->.
  { apply exec_db in E2 as [->|[a Ha]]; [done|]. unfold insert_history in Ha. by injection Ha as _ <-. }
  rewrite Hd. split_and!; done.
Qed.

Lemma claim_le_preorder : PreOrder claim_le.
Proof.
  split.
  - intros x. right. by split.
  - intros x y z. unfold claim_le. intros [?|[??]] [?|[??]]; try (left; lia).
    right. split; [lia|]. by etrans.
Qed.

Lemma claim_le_total : Total claim_le.
Proof.
  intros x y. unfold claim_le.
  destruct (Z.lt_trichotomy (ev_created_at_ms x.2) (ev_created_at_ms y.2)) as [?|[E|?]]; auto.
  destruct (total str_le x.1 y.1); [left|right]; right; split; done.
Qed.

Lemma candidate_min d id r :
  candidate d = Some (id, r) →
  d.(events) !! id = Some r ∧ claimable r ∧
  ∀ id' r', d.(events) !! id' = Some r' → claimable r' → claim_le (id, r) (id', r').
Proof.
  unfold candidate. intros H. pose proof (list_min_elem _ _ _ H) as [??]%elem_of_pairs_with.
  split_and!; [done|done|]. intros id' r' Hr' Hc'.
  eapply (@list_min_le _ _ _ claim_le_preorder claim_le_total); [done|].
  by apply elem_of_pairs_with.
Qed.

Lemma candidate_None d :
  candidate d = None ↔ ∀ id r, d.(events) !! id = Some r → ¬ claimable r.
Proof.
  unfold candidate. rewrite list_min_None. split.
  - intros Hn id r Hr Hc. assert ((id, r) ∈ pairs_with claimable (events d)) as Hin
      by by apply elem_of_pairs_with.
    rewrite Hn in Hin. by apply not_elem_of_nil in Hin.
  - intros H. destruct (pairs_with _ _) as [|[id r] l] eqn:E; [done|exfalso].
    assert ((id, r) ∈ pairs_with claimable (events d)) as [??]%elem_of_pairs_with
      by (rewrite E; constructor). by eapply H.
Qed.

(** ** Settlement *)

Lemma Settle_effect f now w :
  let '(r, w') := ControlStore.Settle f now w in
  (w'.(db) = w.(db) ∧ is_ok r = false) ∨
  settle_kind f.(fr_Kind) ∧ settle_effect f (UnixMilli now) w.(db) = Ok w'.(db).
Proof.
  unfold ControlStore.Settle. case_decide as Hk; [by left|].
  assert (settle_kind (fr_Kind f)) as Hk'.
  { unfold settle_kind. destruct (decide (fr_Kind f = ControlSettledOK)),
      (decide (fr_Kind f = ControlSettledError)); tauto. }
  destruct (Frame_Validate f); [|by left].
  destruct (transaction _ w) as [r w'] eqn:E.
  destruct r as [[]|e].
  - apply transaction_ok in E as (fs&w2&H%settle_body_ok&->). by right.
  - apply transaction_atomic in E as [H|(fs&[]&w2&H%settle_body_ok&->)]; [by left|by right].
Qed.

Lemma settle_effect_ok d f now r :
  Inv d → (f.(fr_FencingToken) < two63)%Z → d.(events) !! f.(fr_EventID) = Some r →
  holds_lease [DeliveryLeased; DeliveryReceived] f.(fr_WorkerID) f.(fr_FencingToken) now r = true →
  ∃ d', settle_effect f now d = Ok d'.
Proof.
  intros HI Hb Hr Hh. unfold settle_effect, update_held, bind_uint64.
  apply Z.ltb_lt in Hb. rewrite Hb, Hr, Hh. rewrite decide_False by naive_solver.
  unfold insert_settlement, bind_uint64. rewrite Hb. simpl. rewrite lookup_insert_eq.
  destruct (settlements d !! fr_EventID f); unfold insert_history; eauto.
Qed.

Lemma settle_body_clean f now d :
  ControlStore.settle_body f now (World d []) =
  match settle_effect f now d with
  | Ok d' => (Ok tt, World d' [])
  | Err e => (Err e, (ControlStore.settle_body f now (World d [])).2)
  end ∧ faults (ControlStore.settle_body f now (World d [])).2 = [].
Proof.
  unfold ControlStore.settle_body, settle_effect, io_bind, io_ret. rewrite exec_clean.
  destruct (update_held _ _ f now d) as [[n d1]|]; [|done].
  rewrite rows_affected_clean. simpl. case_decide; [done|]. rewrite exec_clean.
  destruct (insert_settlement f d1) as [[m d2]|]; [|done]. rewrite exec_clean.
  done.
Qed.

(** Without driver failures [Settle] is [settle_effect], all or nothing. *)
Lemma Settle_clean f now d :
  settle_kind f.(fr_Kind) → Frame_Validate f = Ok tt →
  ControlStore.Settle f now (World d []) =
  match settle_effect f (UnixMilli now) d with
  | Ok d' => (Ok tt, World d' [])
  | Err e => (Err e, World d [])
  end.
Proof.
  intros Hk Hv. unfold ControlStore.Settle. rewrite decide_False by (destruct Hk; naive_solver).
  rewrite Hv. destruct (settle_body_clean f (UnixMilli now) d) as [H Hf].
  destruct (ControlStore.settle_body f (UnixMilli now) (World d [])) as [r [d' fs]] eqn:E.
  simpl in Hf. subst fs. rewrite (transaction_clean _ _ _ _ E).
  destruct (settle_effect _ _ d); by simplify_eq/=.
Qed.

Lemma phase_of_settled d f r now d' :
  Inv d → settle_kind f.(fr_Kind) → settle_effect f now d = Ok d' →
  d.(events) !! f.(fr_EventID) = Some r →
  phase_of d' f.(fr_EventID) =
    Some (if decide (f.(fr_Kind) = ControlSettledError)
          then SettledError f.(fr_WorkerID) f.(fr_FencingToken)
          else SettledOK f.(fr_WorkerID) f.(fr_FencingToken)) ∧
  d'.(settlements) !! f.(fr_EventID) = Some (SettlementRow f.(fr_Kind) f.(fr_WorkerID)
    f.(fr_FencingToken) f.(fr_AtMS) f.(fr_Evidence)).
Proof.
  intros HI Hk Hf Hr. destruct (inv_settle_step _ _ _ _ HI Hk Hf) as [Hn _].
  apply settle_effect_inv in Hf as (r'&_&_&Hev&Hse&_). rewrite Hn in Hse.
  rewrite Hse, lookup_insert_eq. split; [|done].
  unfold phase_of. rewrite Hev, Hse, !lookup_insert_eq. simpl.
  unfold ControlStore.settle_target. by case_decide.
Qed.

(** ** Publication *)

Lemma Publish_created env now w env' w' :
  ControlStore.Publish env now w = (Ok (env', true), w') →
  env' = env ∧ ∃ raw, Validate env = Ok tt ∧ json_Marshal env = Ok raw ∧
    w'.(db).(events) = <[env.(env_ID) := EventRow env.(env_IdempotencyKey) env.(env_Event) raw
      DeliveryPublished None None 0 0 env.(env_CreatedAtMS) (UnixMilli now)]> w.(db).(events).
Proof.
  unfold ControlStore.Publish, io_bind, io_ret. destruct (Validate env) as [[]|]; [|done].
  destruct (json_Marshal env) as [raw|]; [|done].
  destruct (exec _ w) as [[n|] w1] eqn:E1; [|done]. apply exec_ok in E1.
  destruct (rows_affected n w1) as [[m|] w2] eqn:E2; [|done].
  pose proof (rows_affected_db _ _ _ _ E2) as Hd2. apply rows_affected_ok in E2 as ->.
  case_decide as Hn.
  - destruct (exec _ w2) as [rh w3] eqn:E3. intros [= <- <-]. split; [done|]. exists raw.
    split_and!; [done..|]. apply insert_event_inv in E1 as [[? _]|(_&_&_&Hd1)]; [congruence|].
    apply exec_db in E3 as [->|[a Ha]]; [by rewrite Hd2, Hd1|].
    unfold insert_history in Ha. injection Ha as _ <-. simpl. by rewrite Hd2, Hd1.
  - destruct (query _ w2) as [[raw'|] w3]; [|done].
    destruct (json_Unmarshal raw'); intros [= ? ?]; by simplify_eq.
Qed.

Lemma by_key_unique d id r :
  Inv d → d.(events) !! id = Some r → by_key r.(ev_idempotency_key) d = Some (id, r).
Proof.
  intros HI Hr. destruct (by_key _ d) as [[id' r']|] eqn:E.
  - apply by_key_Some in E as [Hr' Hk].
    pose proof (inv_unique _ HI _ _ _ _ Hr' Hr Hk) as ->. congruence.
  - rewrite by_key_None in E. exfalso. by eapply E.
Qed.

(** ** Progress of claims *)

(** Claimable events that come no later than [(id, r)]. *)
Definition ahead_of (id : string) (r : event_row) (m : gmap string event_row) : gmap string event_row :=
  filter (λ kv, claimable kv.2 ∧ claim_le kv (id, r)) m.

Lemma Claim_clean worker lease now d :
  worker ≠ "" → (0 < lease)%Z →
  (ControlStore.Claim worker lease now (World d [])).2.(db).(events) =
  match candidate d with
  | Some (id, r) =>
      <[id := lease_row worker (int64 (UnixMilli now + Milliseconds lease)) (UnixMilli now) r]> d.(events)
  | None => d.(events)
  end ∧
  (ControlStore.Claim worker lease now (World d [])).2.(faults) = [].
Proof.
  intros Hw Hl. unfold ControlStore.Claim, io_bind, io_ret.
  rewrite bool_decide_eq_false_2 by done. apply Z.leb_gt in Hl. rewrite Hl. simpl.
  rewrite exec_clean. unfold claim_update. destruct (candidate d) as [[id r]|]; [|done].
  simpl. destruct (json_Unmarshal _); [|done]. by rewrite exec_clean.
Qed.

Lemma claim_le_eq x y : claim_le x y → claim_le y x → x.1 = y.1.
Proof.
  unfold claim_le. intros [?|[??]] [?|[??]]; try lia. by apply (anti_symm str_le).
Qed.

(** One claim brings a claimable event one place closer, or leases it. *)
Lemma claim_progress worker lease now d id r :
  worker ≠ "" → (0 < lease)%Z → d.(events) !! id = Some r → claimable r →
  let m' := (ControlStore.Claim worker lease now (World d [])).2.(db).(events) in
  (m' !! id = Some (lease_row worker (int64 (UnixMilli now + Milliseconds lease)) (UnixMilli now) r)) ∨
  (m' !! id = Some r ∧ S (size (ahead_of id r m')) = size (ahead_of id r d.(events))).
Proof.
  intros Hw Hl Hr Hc. destruct (Claim_clean worker lease now d Hw Hl) as [-> _]. simpl.
  destruct (candidate d) as [[k v]|] eqn:E.
  2:{ rewrite candidate_None in E. exfalso. by eapply E. }
  apply candidate_min in E as (Hk&Hv&Hmin). destruct (decide (k = id)) as [->|Hne].
  - left. rewrite lookup_insert_eq. congruence.
  - right. rewrite lookup_insert_ne by done. split; [done|]. unfold ahead_of.
    rewrite map_filter_insert_False by (intros [[Hx|Hx] _]; done).
    rewrite map_filter_delete. rewrite map_size_delete_Some.
    + apply Nat.succ_pred_pos. apply Nat.neq_0_lt_0. intros Hz%map_size_empty_inv.
      assert (ahead_of id r (events d) !! k = Some v) as Hin
        by (apply map_lookup_filter_Some; split; [done|split; [done|by apply Hmin]]).
      unfold ahead_of in Hin. rewrite Hz in Hin. done.
    + exists v. apply map_lookup_filter_Some. split; [done|]. split; [done|]. by apply Hmin.
Qed.

Lemma claims_keep_leased d id r (cs : list (string * Z * Z)) :
  d.(events) !! id = Some r → ¬ claimable r →
  Forall (λ c, c.1.1 ≠ "" ∧ (0 < c.1.2)%Z) cs →
  (run_calls ((λ c, CallClaim c.1.1 c.1.2 c.2) <$> cs) (World d [])).(db).(events) !! id = Some r.
Proof.
  intros Hr Hn Hcs. revert d Hr. induction Hcs as [|[[wk l] now] cs [Hw Hl] _ IH]; intros d Hr; [done|].
  simpl in *. destruct (Claim_clean wk l now d Hw Hl) as [Hev Hf].
  destruct (ControlStore.Claim wk l now (World d [])) as [rc [d1 fs]]. simpl in *. subst fs.
  apply IH. rewrite Hev. destruct (candidate d) as [[k v]|] eqn:Hc; [|done].
  apply candidate_min in Hc as (Hk&Hv&_). rewrite lookup_insert_ne; [done|]. congruence.
Qed.

Lemma claims_drain d id r (cs : list (string * Z * Z)) :
  d.(events) !! id = Some r → claimable r →
  Forall (λ c, c.1.1 ≠ "" ∧ (0 < c.1.2)%Z) cs →
  size (ahead_of id r d.(events)) ≤ length cs →
  ∃ r', (run_calls ((λ c, CallClaim c.1.1 c.1.2 c.2) <$> cs) (World d [])).(db).(events) !! id = Some r' ∧
    r'.(ev_state) = DeliveryLeased ∧ r'.(ev_fencing_token) = (r.(ev_fencing_token) + 1)%Z.
Proof.
  intros Hr Hc Hcs. revert d Hr. induction Hcs as [|[[wk l] now] cs [Hw Hl] Hcs IH]; intros d Hr Hsz.
  { simpl in Hsz. assert (ahead_of id r (events d) !! id = Some r) as Hin.
    { apply map_lookup_filter_Some. split; [done|]. split; [done|]. apply claim_le_preorder. }
    rewrite (map_size_empty_inv (ahead_of id r (events d))) in Hin; [done|]. lia. }
  simpl in *. pose proof (claim_progress wk l now d id r Hw Hl Hr Hc) as Hp. simpl in Hp.
  destruct (Claim_clean wk l now d Hw Hl) as [_ Hf].
  destruct (ControlStore.Claim wk l now (World d [])) as [rc [d1 fs]]. simpl in *. subst fs.
  destruct Hp as [Hp|[Hp Hs]].
  - eexists. split; [apply claims_keep_leased; [exact Hp|by intros [?|?]|done]|]. done.
  - apply IH; [done|]. lia.
Qed.

(** ** Frames without faults *)

Lemma update_held_no states upd f now d :
  (f.(fr_FencingToken) < two63)%Z →
  (∀ r, d.(events) !! f.(fr_EventID) = Some r →
    holds_lease states f.(fr_WorkerID) f.(fr_FencingToken) now r = false) →
  update_held states upd f now d = Ok (0%Z, d).
Proof.
  intros Hb Hno. unfold update_held, bind_uint64. apply Z.ltb_lt in Hb. rewrite Hb.
  destruct (events d !! fr_EventID f) as [r|] eqn:E; [|done]. by rewrite (Hno r eq_refl).
Qed.

(** ** Outbox *)

(** Sequence number [seq] was handed out and is not waiting for delivery. *)
Definition done_seq (seq : Z) (d : control_db) : Prop :=
  (seq ≤ d.(outbox_seq))%Z ∧ ∀ x, x ∈ d.(outbox) → ¬ undelivered seq x.

Lemma step_done_seq seq d d' : step d d' → done_seq seq d → done_seq seq d'.
Proof.
  intros Hst [Hle Hno].
  destruct Hst as [d env raw now d' Hv Hm H|d worker until now r d' Hw H|d f now d' Hf Hk H|
    d f now d' Hf Hk H|d now n d' H|d h n d' Hh H|d i tr p at_ n d' H|d s at_ n d' H].
  - apply insert_event_inv in H as [[? _]|(_&_&_&->)]; done.
  - apply claim_update_inv in H as (k&r0&_&Hr&Hc&->&->). done.
  - apply update_held_inv in H as [[? _]|(_&r&Hr&Hh&->)]; done.
  - apply settle_effect_inv in H as (r&_&_&_&_&_&Ho&Hq). split; [by rewrite Hq|by rewrite Ho].
  - unfold requeue_update in H. by simplify_eq/=.
  - unfold insert_history in H. by simplify_eq/=.
  - unfold insert_outbox in H. simplify_eq/=. split; simpl; [lia|].
    intros x [Hx| ->%list_elem_of_singleton]%elem_of_app; [by apply Hno|].
    intros [Hs _]. simpl in Hs. lia.
  - unfold deliver_update in H. simplify_eq/=. split; [done|].
    intros x (y&->&Hy)%list_elem_of_fmap. case_decide; [by intros [_ ?]|by apply Hno].
Qed.

Lemma steps_done_seq seq d d' : steps d d' → done_seq seq d → done_seq seq d'.
Proof. intros Hs. induction Hs; eauto using step_done_seq. Qed.

Lemma deliver_done d seq at_ms n d' :
  Inv d → deliver_update seq at_ms d = Ok (n, d') → n = 1%Z → done_seq seq d'.
Proof.
  intros HI H ->. unfold deliver_update in H. injection H as Hn <-. split; simpl.
  - destruct (filter (undelivered seq) (outbox d)) as [|x l] eqn:E; [done|].
    assert (x ∈ filter (undelivered seq) (outbox d)) as [[<- _] Hx]%list_elem_of_filter
      by (rewrite E; constructor).
    destruct (inv_outbox _ HI) as (_&Hf&_). rewrite Forall_forall in Hf. by apply Hf.
  - intros x (y&->&Hy)%list_elem_of_fmap. case_decide; [by intros [_ ?]|done].
Qed.

Lemma select_outbox_pending now d rec :
  select_outbox now d = Ok rec →
  ∃ x, x ∈ d.(outbox) ∧ pending now x ∧ rec.(or_Seq) = x.(ob_seq) ∧
    rec.(or_EventID) = x.(ob_event_id) ∧ rec.(or_Transport) = x.(ob_transport) ∧
    rec.(or_Payload) = x.(ob_payload) ∧
    ∀ y, y ∈ d.(outbox) → pending now y → (x.(ob_seq) ≤ y.(ob_seq))%Z.
Proof.
  unfold select_outbox. destruct (list_min _ _) as [x|] eqn:E; [|done]. intros [= <-]. exists x.
  pose proof (list_min_elem _ _ _ E) as [Hp Hx]%list_elem_of_filter. split_and!; try done.
  intros y Hy Hpy. assert (PreOrder seq_le) by (split; intros ?; unfold seq_le; lia).
  assert (Total seq_le) by (intros ??; unfold seq_le; lia).
  eapply (list_min_le seq_le); [exact E|]. by apply list_elem_of_filter.
Qed.
End store.

(** * Theorems *)

Section theorems.
Context {codec : EnvelopeCodec}.
Implicit Types (w : world control_db) (d : control_db).

(** C11: Whatever calls are made, in whatever order and with whatever driver
    failures, the tables stay well formed: lease columns set exactly while an
    event is held, tokens counting the claims, unique idempotency keys, exactly
    one settlement row and one settled history entry per settled event and none
    otherwise, outbox sequence numbers strictly increasing. *)
Theorem store_invariant (cs : list call) (fs : list fault) :
  Inv (run_calls cs (World empty_db fs)).(db).
Proof.
  eapply inv_steps; [apply inv_empty|].
  exact (run_calls_steps cs (World empty_db fs)).
Qed.

(** Each operation, from any database and under any driver failures, is a
    sequence of the atomic steps of [step]; concurrent callers therefore
    interleave at step granularity only, and no failure leaves the database
    between two steps (for [Settle]: between its update, its settlement row and
    its history entry). *)
Theorem calls_are_steps (c : call) w : steps w.(db) (run_call c w).(db).
Proof. apply run_call_steps. Qed.

(** C2: Every atomic step of a well-formed store is, for every event, a step of the
    abstract delivery lifecycle or leaves its phase unchanged. *)
Theorem lifecycle_refinement d d' id :
  Inv d → step d d' →
  phase_of d' id = phase_of d id ∨ lc_step (phase_of d id) (phase_of d' id).
Proof. apply lifecycle_step. Qed.

(** Fencing tokens of an event strictly increase: if two [Claim] calls grant
    the same event, with anything happening in between, the later grant carries
    the larger token. *)
Theorem fencing_tokens_increase w1 worker1 lease1 now1 c1 w1' w2 worker2 lease2 now2 c2 w2' id r1 r2 :
  candidate w1.(db) = Some (id, r1) →
  ControlStore.Claim worker1 lease1 now1 w1 = (Ok c1, w1') →
  steps w1'.(db) w2.(db) →
  candidate w2.(db) = Some (id, r2) →
  ControlStore.Claim worker2 lease2 now2 w2 = (Ok c2, w2') →
  (c1.(cl_Lease).(lease_FencingToken) < c2.(cl_Lease).(lease_FencingToken))%Z.
Proof.
  intros Hc1 (id1&r1'&Hc1'&_&_&Hev&_&_&Ht1&_)%Claim_ok Hs Hc2 (id2&r2'&Hc2'&Hr2&_&_&_&_&Ht2&_)%Claim_ok.
  simplify_eq. destruct (steps_row_mono _ _ id _ Hs ltac:(rewrite Hev; apply lookup_insert_eq))
    as (r&Hr&Hle&_). simplify_eq/=. simpl in Hle. lia.
Qed.

(** C3: A worker whose lease was given to somebody else is fenced out: once the
    event has been granted again, no frame carrying the old token, whatever
    worker name, time or driver failures, can mark the event received or settle
    it, and such a frame changes nothing. *)
Theorem stale_worker_fenced w1 worker1 lease1 now1 c1 w1' w2 worker2 lease2 now2 c2 w2' id r1 r2 w3 f now :
  candidate w1.(db) = Some (id, r1) →
  ControlStore.Claim worker1 lease1 now1 w1 = (Ok c1, w1') →
  steps w1'.(db) w2.(db) →
  candidate w2.(db) = Some (id, r2) →
  ControlStore.Claim worker2 lease2 now2 w2 = (Ok c2, w2') →
  steps w2'.(db) w3.(db) →
  f.(fr_EventID) = id → f.(fr_FencingToken) = c1.(cl_Lease).(lease_FencingToken) →
  (∀ r w', ControlStore.Settle f now w3 = (r, w') → is_ok r = false ∧ w'.(db) = w3.(db)) ∧
  (∀ r w', ControlStore.MarkReceived f now w3 = (r, w') → is_ok r = false ∧ w'.(db) = w3.(db)).
Proof.
  intros Hc1 (id1&r1'&Hc1'&_&_&Hev1&_&_&Ht1&_)%Claim_ok Hs1 Hc2
    (id2&r2'&Hc2'&Hr2&_&Hev2&_&_&Ht2&_)%Claim_ok Hs2 Hid Hf.
  simplify_eq.
  destruct (steps_row_mono _ _ (fr_EventID f) _ Hs1 ltac:(rewrite Hev1; apply lookup_insert_eq))
    as (r&Hr&Hle&_).
  destruct (steps_row_mono _ _ (fr_EventID f) _ Hs2 ltac:(rewrite Hev2; apply lookup_insert_eq))
    as (r3&Hr3&Hle3&_).
  simplify_eq/=. simpl in *.
  assert (∀ states now' r, events (db w3) !! fr_EventID f = Some r →
    holds_lease states (fr_WorkerID f) (fr_FencingToken f) now' r = false) as Hno.
  { intros states now' r Hr'. apply holds_lease_token. simplify_eq. lia. }
  split; intros r w'; [apply Settle_none|apply MarkReceived_none]; auto.
Qed.

(** C39: A settlement is final: in a well-formed store, the row, the settlement and
    the number of settled history entries of a settled event are the same after
    any further steps. *)
Theorem settlement_final d d' id r :
  Inv d → steps d d' → d.(events) !! id = Some r → settled r.(ev_state) = true →
  d'.(events) !! id = Some r ∧ d'.(settlements) !! id = d.(settlements) !! id ∧
  length (settled_entries id d'.(delivery_history)) = 1.
Proof.
  intros HI Hs Hr Hset. destruct (inv_settled _ HI _ _ Hr Hset) as (s&Hse&_).
  destruct (steps_settled _ _ _ _ _ Hs Hr Hset Hse) as [Hr' Hse'].
  split_and!; [done|congruence|].
  pose proof (inv_history _ (inv_steps _ _ HI Hs) id) as Hh. by rewrite Hse' in Hh.
Qed.

(** C9: [Settle] is atomic under every driver failure: either nothing changed and
    no success is reported, or the state update, the settlement row and the
    history entry are all there. *)
Theorem settle_atomic f now w :
  let '(r, w') := ControlStore.Settle f now w in
  (w'.(db) = w.(db) ∧ is_ok r = false) ∨
  settle_kind f.(fr_Kind) ∧ settle_effect f (UnixMilli now) w.(db) = Ok w'.(db).
Proof. exact (Settle_effect f now w). Qed.

(** The worker that holds a live lease can settle, and what it reports is what
    is recorded: the phase becomes settled with its outcome, name and token, the
    settlement row carries the frame, and no other event changes phase. *)
Theorem settle_live_lease d f now r :
  Inv d → settle_kind f.(fr_Kind) → Frame_Validate f = Ok tt → (f.(fr_FencingToken) < two63)%Z →
  d.(events) !! f.(fr_EventID) = Some r →
  holds_lease [DeliveryLeased; DeliveryReceived] f.(fr_WorkerID) f.(fr_FencingToken)
    (UnixMilli now) r = true →
  ∃ d', ControlStore.Settle f now (World d []) = (Ok tt, World d' []) ∧
    phase_of d' f.(fr_EventID) =
      Some (if decide (f.(fr_Kind) = ControlSettledError)
            then SettledError f.(fr_WorkerID) f.(fr_FencingToken)
            else SettledOK f.(fr_WorkerID) f.(fr_FencingToken)) ∧
    d'.(settlements) !! f.(fr_EventID) = Some (SettlementRow f.(fr_Kind) f.(fr_WorkerID)
      f.(fr_FencingToken) f.(fr_AtMS) f.(fr_Evidence)) ∧
    ∀ id, id ≠ f.(fr_EventID) → phase_of d' id = phase_of d id.
Proof.
  intros HI Hk Hv Hb Hr Hh. destruct (settle_effect_ok _ _ _ _ HI Hb Hr Hh) as [d' Hd'].
  exists d'. rewrite (Settle_clean _ _ _ Hk Hv), Hd'. split; [done|].
  destruct (phase_of_settled _ _ _ _ _ HI Hk Hd' Hr) as [Hp Hs]. split_and!; [done..|].
  intros id Hne. destruct (inv_settle_step _ _ _ _ HI Hk Hd') as [Hn _].
  apply settle_effect_inv in Hd' as (r'&_&_&Hev&Hse&_). rewrite Hn in Hse.
  apply phase_of_same; rewrite ?Hev, ?Hse; by rewrite lookup_insert_ne.
Qed.

(** At most one settlement per event ever succeeds: after a successful
    [Settle], no later one for the same event, by any worker and under any
    driver failures, succeeds or changes anything. *)
Theorem settle_once f1 now1 w1 w1' f2 now2 w2 r w2' :
  Inv w1.(db) → ControlStore.Settle f1 now1 w1 = (Ok tt, w1') → steps w1'.(db) w2.(db) →
  f2.(fr_EventID) = f1.(fr_EventID) → ControlStore.Settle f2 now2 w2 = (r, w2') →
  is_ok r = false ∧ w2'.(db) = w2.(db).
Proof.
  intros HI H1 Hs Hid. pose proof (Settle_effect f1 now1 w1) as He. rewrite H1 in He.
  destruct He as [[_ ?]|[Hk He]]; [done|]. apply Settle_none. intros r2 Hr2.
  pose proof (settle_effect_inv _ _ _ _ He) as (r1&Hr1&_&Hev&_).
  destruct (phase_of_settled _ _ _ _ _ HI Hk He Hr1) as [_ Hse].
  rewrite Hid in Hr2. apply holds_lease_settled; [apply held_either|].
  assert (events (db w1') !! fr_EventID f1 =
    Some (release_row (ControlStore.settle_target f1) (UnixMilli now1) r1)) as Hr1'
    by (rewrite Hev; apply lookup_insert_eq).
  destruct (steps_settled _ _ _ _ _ Hs Hr1' (proj1 (settle_target_settled f1)) Hse) as [Hr' _].
  simplify_eq. apply settle_target_settled.
Qed.

(** A fresh publication is stored: the call reports [created], the event is in
    the published phase and claimable, and nothing else changes phase. *)
Theorem publish_fresh d env raw now :
  Validate env = Ok tt → json_Marshal env = Ok raw →
  by_key env.(env_IdempotencyKey) d = None → d.(events) !! env.(env_ID) = None →
  ∃ d', ControlStore.Publish env now (World d []) = (Ok (env, true), World d' []) ∧
    phase_of d' env.(env_ID) = Some Published ∧
    (∀ id, id ≠ env.(env_ID) → phase_of d' id = phase_of d id) ∧
    d'.(delivery_history) = d.(delivery_history) ++
      [HistoryRow env.(env_ID) DeliveryPublished None None (UnixMilli now) None].
Proof.
  intros Hv Hm Hk Hn. unfold ControlStore.Publish, io_bind, io_ret. rewrite Hv, Hm, exec_clean.
  unfold insert_event. rewrite Hk, Hn, rows_affected_clean. rewrite decide_True by done.
  rewrite exec_clean. simpl. eexists. split; [done|]. split_and!; [|intros id Hne|done].
  - unfold phase_of. simpl. by rewrite lookup_insert_eq.
  - apply phase_of_same; simpl; [by rewrite lookup_insert_ne|done].
Qed.

(** An envelope that reuses the id of another event under a different
    idempotency key is refused, and the store does not change. *)
Theorem publish_id_conflict d env raw now r :
  Validate env = Ok tt → json_Marshal env = Ok raw →
  by_key env.(env_IdempotencyKey) d = None → d.(events) !! env.(env_ID) = Some r →
  ControlStore.Publish env now (World d []) = (Err constraint_primarykey, World d []).
Proof.
  intros Hv Hm Hk Hn. unfold ControlStore.Publish, io_bind, io_ret. rewrite Hv, Hm, exec_clean.
  unfold insert_event. by rewrite Hk, Hn.
Qed.

(** C4: Publication is idempotent: after a publication was stored, and whatever
    happened since, publishing any envelope with the same idempotency key
    changes nothing and returns the envelope stored first (with its payload
    compacted), not a new event. *)
Theorem publish_idempotent {laws : EnvelopeCodecLaws codec} env1 now1 w1 w1' d2 env2 raw2 now2 :
  Inv w1.(db) → wf_text env1 = true →
  ControlStore.Publish env1 now1 w1 = (Ok (env1, true), w1') → steps w1'.(db) d2 →
  Validate env2 = Ok tt → json_Marshal env2 = Ok raw2 →
  env2.(env_IdempotencyKey) = env1.(env_IdempotencyKey) →
  ControlStore.Publish env2 now2 (World d2 []) = (Ok (normalize env1, false), World d2 []).
Proof.
  intros HI Hwf H1 Hs Hv2 Hm2 Hk.
  pose proof (Publish_moves env1 now1 w1) as Hs1. rewrite H1 in Hs1. simpl in Hs1.
  apply Publish_created in H1 as (_&raw1&_&Hm1&Hev).
  destruct (steps_row_mono _ _ (env_ID env1) _ Hs ltac:(rewrite Hev; apply lookup_insert_eq))
    as (r&Hr&_&Hkr&Her). simpl in Hkr, Her.
  assert (Inv d2) as HI2 by (eapply inv_steps; [|exact Hs]; by eapply inv_steps).
  pose proof (by_key_unique _ _ _ HI2 Hr) as Hb. rewrite Hkr in Hb.
  unfold ControlStore.Publish, io_bind, io_ret. rewrite Hv2, Hm2, exec_clean.
  unfold insert_event. rewrite Hk, Hb, rows_affected_clean. rewrite decide_False by done.
  rewrite query_clean. unfold select_envelope. rewrite Hb, Her.
  by rewrite (codec_roundtrip _ _ Hwf Hm1).
Qed.

(** C29: What a successful [Claim] grants, under any driver failures: the oldest
    claimable event (creation time, then id), leased to the caller until
    [now + lease] milliseconds, with the next fencing token; no other row
    changes. *)
Theorem claim_grants_oldest worker lease now w c w' :
  ControlStore.Claim worker lease now w = (Ok c, w') →
  ∃ id r, w.(db).(events) !! id = Some r ∧ claimable r ∧
    (∀ id' r', w.(db).(events) !! id' = Some r' → claimable r' → claim_le (id, r) (id', r')) ∧
    w'.(db).(events) !! id = Some (lease_row worker c.(cl_Lease).(lease_UntilMS) (UnixMilli now) r) ∧
    (∀ id', id' ≠ id → w'.(db).(events) !! id' = w.(db).(events) !! id') ∧
    c.(cl_Lease).(lease_UntilMS) = int64 (UnixMilli now + Milliseconds lease) ∧
    c.(cl_Lease).(lease_FencingToken) = (r.(ev_fencing_token) + 1)%Z.
Proof.
  intros (id&r&Hc&Hr&Hcl&Hev&_&Hu&Ht&_)%Claim_ok. exists id, r. rewrite Hev.
  apply candidate_min in Hc as (_&_&Hmin). split_and!; try done.
  - by rewrite lookup_insert_eq.
  - intros id' Hne. by rewrite lookup_insert_ne.
Qed.

(** [Claim] answers [ErrNothingAvailable] exactly when no event is published or
    expired, and then changes nothing. *)
Theorem claim_empty worker lease now d :
  worker ≠ "" → (0 < lease)%Z →
  ((∀ id r, d.(events) !! id = Some r → ¬ claimable r) ↔
   ControlStore.Claim worker lease now (World d []) = (Err ErrNothingAvailable, World d [])) .
Proof.
  intros Hw Hl. rewrite <- candidate_None. unfold ControlStore.Claim, io_bind, io_ret.
  rewrite bool_decide_eq_false_2 by done. apply Z.leb_gt in Hl. rewrite Hl. simpl.
  rewrite exec_clean. unfold claim_update. destruct (candidate d) as [[id r]|] eqn:Hc; [|done].
  split; [done|]. simpl. destruct (json_Unmarshal _); [by rewrite exec_clean|].
  intros [= _ H]. apply candidate_min in Hc as (Hr&Hcl&_).
  apply (f_equal (λ d, events d !! id)) in H. simpl in H. rewrite lookup_insert_eq, Hr in H.
  injection H as H. apply (f_equal ev_state) in H. destruct Hcl as [E|E]; simpl in H; congruence.
Qed.

(** [RequeueExpired] moves exactly the held events whose lease has run out to
    the expired state, counts them, touches nothing else, and afterwards every
    lease still held is live. *)
Theorem requeue_exact d now :
  Inv d →
  ∃ d', ControlStore.RequeueExpired now (World d []) =
      (Ok (Z.of_nat (size (filter (λ kv, lease_over (UnixMilli now) kv.2 = true) d.(events)))), World d' []) ∧
    (∀ id, d'.(events) !! id = expire_row (UnixMilli now) <$> d.(events) !! id) ∧
    (∀ id r, d'.(events) !! id = Some r → held r.(ev_state) = true →
       ∃ u, r.(ev_lease_until_ms) = Some u ∧ (UnixMilli now < u)%Z) ∧
    d'.(settlements) = d.(settlements) ∧ d'.(delivery_history) = d.(delivery_history).
Proof.
  intros HI. unfold ControlStore.RequeueExpired, io_bind. rewrite exec_clean. simpl.
  rewrite rows_affected_clean. eexists. split; [done|].
  simpl. split_and!; [intros id; apply lookup_fmap| |done|done].
  intros id r. rewrite lookup_fmap. destruct (events d !! id) as [r0|] eqn:Hr0; [|done].
  simpl. intros [= <-] Hh. unfold expire_row in *.
  destruct (lease_over (UnixMilli now) r0) eqn:E; [done|].
  destruct (ro_held _ _ (inv_rows _ HI _ _ Hr0) Hh) as (wk&u&_&_&Hu). exists u. split; [done|].
  unfold lease_over in E. unfold held in Hh. rewrite Hh, Hu in E. simpl in E. bool_prop. done.
Qed.

(** C30: No event starves: if [n] claimable events come no later than a claimable
    event, then [n] claims, by any workers at any times, lease it. *)
Theorem claims_reach_every_event d id r (cs : list (string * Z * Z)) :
  d.(events) !! id = Some r → claimable r →
  Forall (λ c, c.1.1 ≠ "" ∧ (0 < c.1.2)%Z) cs →
  size (ahead_of id r d.(events)) ≤ length cs →
  ∃ r', (run_calls ((λ c, CallClaim c.1.1 c.1.2 c.2) <$> cs) (World d [])).(db).(events) !! id = Some r' ∧
    r'.(ev_state) = DeliveryLeased ∧ r'.(ev_fencing_token) = (r.(ev_fencing_token) + 1)%Z.
Proof. apply claims_drain. Qed.

(** C31: A frame without a live lease is answered with [ErrStaleLease] by both
    [Settle] and [MarkReceived], and changes nothing. *)
Theorem stale_lease_error d f now :
  Frame_Validate f = Ok tt → (f.(fr_FencingToken) < two63)%Z →
  (∀ r, d.(events) !! f.(fr_EventID) = Some r →
    holds_lease [DeliveryLeased; DeliveryReceived] f.(fr_WorkerID) f.(fr_FencingToken)
      (UnixMilli now) r = false) →
  (settle_kind f.(fr_Kind) →
   ControlStore.Settle f now (World d []) = (Err ErrStaleLease, World d [])) ∧
  (f.(fr_Kind) = ControlReceived →
   ControlStore.MarkReceived f now (World d []) = (Err ErrStaleLease, World d [])).
Proof.
  intros Hv Hb Hno. split; intros Hk.
  - rewrite (Settle_clean _ _ _ Hk Hv). unfold settle_effect.
    by rewrite (update_held_no _ _ _ _ _ Hb Hno).
  - unfold ControlStore.MarkReceived, io_bind, io_ret. rewrite decide_False by naive_solver.
    rewrite Hv, exec_clean, update_held_no; [|done|].
    + by rewrite rows_affected_clean.
    + intros r Hr. specialize (Hno r Hr). apply not_true_iff_false.
      intros (Ho&Ht&Hs%list_elem_of_singleton&u&Hu&Hlt)%holds_lease_inv.
      unfold holds_lease in Hno. rewrite Hs, Hu in Hno. apply Z.ltb_lt in Hlt.
      rewrite Hlt, !bool_decide_eq_true_2 in Hno; [done|..]; try done.
Qed.

(** The holder of a live lease can acknowledge receipt: the event moves to the
    received phase under the same worker, token and deadline. *)
Theorem receive_live_lease d f now r :
  f.(fr_Kind) = ControlReceived → Frame_Validate f = Ok tt → (f.(fr_FencingToken) < two63)%Z →
  d.(events) !! f.(fr_EventID) = Some r →
  holds_lease [DeliveryLeased] f.(fr_WorkerID) f.(fr_FencingToken) (UnixMilli now) r = true →
  ∃ d' u, ControlStore.MarkReceived f now (World d []) = (Ok tt, World d' []) ∧
    phase_of d f.(fr_EventID) = Some (Leased f.(fr_WorkerID) f.(fr_FencingToken) u) ∧
    phase_of d' f.(fr_EventID) = Some (Received f.(fr_WorkerID) f.(fr_FencingToken) u) ∧
    d'.(delivery_history) = d.(delivery_history) ++ [ControlStore.frame_history DeliveryReceived f].
Proof.
  intros Hk Hv Hb Hr Hh. unfold ControlStore.MarkReceived, io_bind, io_ret.
  rewrite decide_False by naive_solver. rewrite Hv, exec_clean. unfold update_held, bind_uint64.
  apply Z.ltb_lt in Hb. rewrite Hb, Hr, Hh, rows_affected_clean. simpl.
  simpl.
  apply holds_lease_inv in Hh as (Ho&Ht&Hs%list_elem_of_singleton&u&Hu&_).
  eexists _, u. split; [done|]. unfold phase_of. simpl. rewrite lookup_insert_eq, Hr. simpl.
  by rewrite Hs, Ho, Hu, Ht.
Qed.

(** [NextOutbox] returns the pending record with the smallest sequence number;
    and once [MarkOutboxDelivered] succeeded for a record, whatever happens
    afterwards, no call marks it again and no [NextOutbox] returns it. *)
Theorem outbox_delivered_once seq at1 w w' w2 :
  Inv w.(db) → ControlStore.MarkOutboxDelivered seq at1 w = (Ok tt, w') →
  steps w'.(db) w2.(db) →
  (∀ at2 r w3, ControlStore.MarkOutboxDelivered seq at2 w2 = (r, w3) → is_ok r = false) ∧
  (∀ now rec w3, ControlStore.NextOutbox now w2 = (Ok rec, w3) → rec.(or_Seq) ≠ seq ∧
     ∀ y, y ∈ w2.(db).(outbox) → pending (UnixMilli now) y → (rec.(or_Seq) ≤ y.(ob_seq))%Z).
Proof.
  intros HI H1 Hs. assert (done_seq seq (db w2)) as [_ Hd].
  { eapply steps_done_seq; [exact Hs|]. unfold ControlStore.MarkOutboxDelivered, io_bind, io_ret in H1.
    destruct (exec _ w) as [[n|] w1] eqn:E1; [|done]. apply exec_ok in E1.
    destruct (rows_affected n w1) as [rn w1'] eqn:E2. pose proof (rows_affected_db _ _ _ _ E2) as Hd2.
    case_decide as Hn; [done|]. destruct rn as [m|]; [|done]. apply rows_affected_ok in E2 as ->.
    injection H1 as <-. rewrite Hd2. eapply deliver_done; [exact HI|exact E1|exact Hn]. }
  split.
  - intros at2 r w3. unfold ControlStore.MarkOutboxDelivered, io_bind, io_ret.
    destruct (exec _ w2) as [[n|] w4] eqn:E1; [|by intros [= <- _]]. apply exec_ok in E1.
    unfold deliver_update in E1. injection E1 as Hn _.
    destruct (filter (undelivered seq) (outbox (db w2))) as [|x l] eqn:Ef.
    + subst n. change (Z.of_nat (length (@nil outbox_row))) with 0%Z. destruct (rows_affected 0 w4) as [[m|] w5] eqn:E2;
        [apply rows_affected_ok in E2 as ->|]; by intros [= <- _].
    + assert (x ∈ filter (undelivered seq) (outbox (db w2))) as [? Hx]%list_elem_of_filter
        by (rewrite Ef; constructor). by apply Hd in Hx.
  - intros now rec w3. unfold ControlStore.NextOutbox, io_bind, io_ret.
    destruct (query _ w2) as [[rec'|] w4] eqn:E; [|done]. intros [= -> ->]. apply query_ok in E.
    apply select_outbox_pending in E as (x&Hx&[Hp _]&Hseq&_&_&_&Hmin). rewrite Hseq.
    split; [|done]. intros <-. by apply (Hd x).
Qed.
End theorems.

(** * Closed instances

    The theorems at concrete inputs: one published event, claimed by worker [a],
    expired, claimed again by worker [b], settled. *)

Section instances.

Definition ex_env : Envelope :=
  mkEnvelope "evt-1" "Financial.createInvoice.request" "corr-1" "cause-1" "idem-1"
    "Financial.createInvoice.request@1" (String.list_ascii_of_string "[ 1 ]") "processed" 1000 None.
Definition ex_env_dup : Envelope :=
  mkEnvelope "evt-2" "Financial.createInvoice.request" "corr-2" "cause-1" "idem-1"
    "Financial.createInvoice.request@1" (String.list_ascii_of_string "[2]") "processed" 2000 None.
Definition ex_env_clash : Envelope :=
  mkEnvelope "evt-1" "Financial.createInvoice.request" "corr-2" "cause-1" "idem-2"
    "Financial.createInvoice.request@1" (String.list_ascii_of_string "[2]") "processed" 2000 None.
Definition ex_raw (e : Envelope) : bytes := value_or [] (json_Marshal e).

Definition ex_world (cs : list call) : world control_db := run_calls cs (World empty_db []).
Definition ex_published : list call := [CallPublish ex_env (5 * Second)].
Definition ex_leased : list call := ex_published ++ [CallClaim "a" Second (5 * Second)].
Definition ex_expired : list call := ex_leased ++ [CallRequeue (7 * Second)].
Definition ex_retaken : list call := ex_expired ++ [CallClaim "b" Second (7 * Second)].
Definition ex_frame (kind worker : string) (token : Z) : ControlFrame :=
  mkFrame kind "evt-1" worker token 5500 [].
Definition ex_settled : list call :=
  ex_retaken ++ [CallSettle (ex_frame ControlSettledOK "b" 2) (7 * Second)].

Definition ex_row (cs : list call) : event_row :=
  default (EventRow "" "" [] DeliveryPublished None None 0 0 0 0) ((ex_world cs).(db).(events) !! "evt-1").
Definition ex_claim (worker : string) (now : Z) (cs : list call) : ClaimedEvent :=
  match (ControlStore.Claim worker Second now (ex_world cs)).1 with
  | Ok c => c
  | Err _ => {| cl_Envelope := ex_env; cl_Lease := {| lease_EventID := ""; lease_WorkerID := "";
      lease_UntilMS := 0; lease_Attempt := 0; lease_FencingToken := 0 |}; cl_State := DeliveryExpired |}
  end.

Lemma ex_inv cs : Inv (ex_world cs).(db).
Proof.
  eapply inv_steps; [apply inv_empty|]. exact (run_calls_steps cs (World empty_db [])).
Qed.

Lemma ex_steps cs cs' : steps (ex_world cs).(db) (ex_world (cs ++ cs')).(db).
Proof.
  unfold ex_world, run_calls. rewrite foldl_app. apply run_calls_steps.
Qed.

Ltac compute_eq := vm_compute; reflexivity.

Lemma lifecycle_refinement_witness :
  phase_of (ex_world ex_expired).(db) "evt-1" = phase_of (ex_world ex_leased).(db) "evt-1" ∨
  lc_step (phase_of (ex_world ex_leased).(db) "evt-1") (phase_of (ex_world ex_expired).(db) "evt-1").
Proof.
  apply (lifecycle_refinement _ _ "evt-1"); [apply ex_inv|].
  eapply (step_requeue _ (UnixMilli (7 * Second)) 1). compute_eq.
Defined.

Lemma fencing_tokens_increase_witness :
  ((ex_claim "a" (5 * Second) ex_published).(cl_Lease).(lease_FencingToken) <
   (ex_claim "b" (7 * Second) ex_expired).(cl_Lease).(lease_FencingToken))%Z.
Proof.
  apply (fencing_tokens_increase (ex_world ex_published) "a" Second (5 * Second) _ (ex_world ex_leased)
    (ex_world ex_expired) "b" Second (7 * Second) _ (ex_world ex_retaken) "evt-1"
    (ex_row ex_published) (ex_row ex_expired));
    [compute_eq|compute_eq|apply ex_steps|compute_eq|compute_eq].
Defined.

Lemma stale_worker_fenced_witness :
  is_ok (ControlStore.Settle (ex_frame ControlSettledOK "a" 1) (7 * Second) (ex_world ex_retaken)).1 = false.
Proof.
  edestruct (stale_worker_fenced (ex_world ex_published) "a" Second (5 * Second)
    (ex_claim "a" (5 * Second) ex_published) (ex_world ex_leased)
    (ex_world ex_expired) "b" Second (7 * Second) (ex_claim "b" (7 * Second) ex_expired)
    (ex_world ex_retaken) "evt-1" (ex_row ex_published) (ex_row ex_expired) (ex_world ex_retaken)
    (ex_frame ControlSettledOK "a" 1) (7 * Second)) as [H _];
    [compute_eq|compute_eq|apply ex_steps|compute_eq|compute_eq|apply rtc_refl|reflexivity|compute_eq|].
  eapply H. apply surjective_pairing.
Defined.

Lemma settlement_final_witness :
  length (settled_entries "evt-1" (ex_world (ex_settled ++ [CallClaim "c" Second (9 * Second)])).(db).(delivery_history)) = 1.
Proof.
  apply (settlement_final (ex_world ex_settled).(db) _ "evt-1" (ex_row ex_settled));
    [apply ex_inv|apply ex_steps|compute_eq|compute_eq].
Defined.

Lemma settle_live_lease_witness :
  ∃ d', ControlStore.Settle (ex_frame ControlSettledOK "b" 2) (7 * Second) (World (ex_world ex_retaken).(db) []) =
    (Ok tt, World d' []) ∧ phase_of d' "evt-1" = Some (SettledOK "b" 2).
Proof.
  destruct (settle_live_lease (ex_world ex_retaken).(db) (ex_frame ControlSettledOK "b" 2) (7 * Second)
    (ex_row ex_retaken)) as (d'&H1&H2&_);
    [apply ex_inv|by left|reflexivity|reflexivity|compute_eq|compute_eq|].
  exists d'. split; [exact H1|exact H2].
Defined.

Lemma settle_once_witness :
  is_ok (ControlStore.Settle (ex_frame ControlSettledError "b" 2) (7 * Second) (ex_world ex_settled)).1 = false.
Proof.
  apply (settle_once (ex_frame ControlSettledOK "b" 2) (7 * Second) (ex_world ex_retaken) (ex_world ex_settled)
    (ex_frame ControlSettledError "b" 2) (7 * Second) (ex_world ex_settled) _
    (ControlStore.Settle (ex_frame ControlSettledError "b" 2) (7 * Second) (ex_world ex_settled)).2);
    [apply ex_inv|compute_eq|apply rtc_refl|reflexivity|apply surjective_pairing].
Defined.

Lemma publish_fresh_witness :
  ∃ d', ControlStore.Publish ex_env (5 * Second) (World empty_db []) = (Ok (ex_env, true), World d' []) ∧
    phase_of d' "evt-1" = Some Published.
Proof.
  destruct (publish_fresh empty_db ex_env (ex_raw ex_env) (5 * Second)) as (d'&H1&H2&_);
    [compute_eq|compute_eq|compute_eq|reflexivity|]. exists d'. split; [exact H1|exact H2].
Defined.

Lemma publish_id_conflict_witness :
  ControlStore.Publish ex_env_clash (6 * Second) (World (ex_world ex_published).(db) []) =
  (Err constraint_primarykey, World (ex_world ex_published).(db) []).
Proof.
  apply (publish_id_conflict _ _ (ex_raw ex_env_clash) _ (ex_row ex_published)); compute_eq.
Defined.

Lemma publish_idempotent_witness :
  ControlStore.Publish ex_env_dup (9 * Second) (World (ex_world ex_settled).(db) []) =
  (Ok (normalize ex_env, false), World (ex_world ex_settled).(db) []).
Proof.
  apply (publish_idempotent ex_env (5 * Second) (World empty_db []) (ex_world ex_published) _ _ (ex_raw ex_env_dup));
    [apply inv_empty|compute_eq|compute_eq| |compute_eq|compute_eq|reflexivity].
  apply (ex_steps ex_published (drop 1 ex_settled)).
Defined.

Lemma claim_grants_oldest_witness :
  (ex_claim "a" (5 * Second) ex_published).(cl_Lease).(lease_UntilMS) = 6000%Z.
Proof.
  destruct (claim_grants_oldest "a" Second (5 * Second) (ex_world ex_published)
    (ex_claim "a" (5 * Second) ex_published) (ex_world ex_leased)) as (id&r&_&_&_&_&_&H&_); [compute_eq|exact H].
Defined.

Lemma claim_empty_witness :
  ControlStore.Claim "c" Second (9 * Second) (World (ex_world ex_settled).(db) []) =
  (Err ErrNothingAvailable, World (ex_world ex_settled).(db) []).
Proof.
  apply (claim_empty "c" Second (9 * Second)); [done|done|]. intros id r Hr.
  apply elem_of_map_to_list in Hr.
  assert (map_to_list (ex_world ex_settled).(db).(events) = [("evt-1", ex_row ex_settled)]) as E by compute_eq.
  rewrite E in Hr. apply list_elem_of_singleton, pair_equal_spec in Hr as [-> ->].
  intros [H|H]; vm_compute in H; discriminate H.
Defined.

Lemma requeue_exact_witness :
  ∃ n d', ControlStore.RequeueExpired (7 * Second) (World (ex_world ex_leased).(db) []) = (Ok n, World d' []).
Proof.
  destruct (requeue_exact (ex_world ex_leased).(db) (7 * Second)) as (d'&H&_); [apply ex_inv|].
  eexists _, d'. exact H.
Defined.

Lemma claims_reach_every_event_witness :
  ∃ r, (run_calls [CallClaim "a" Second (5 * Second)] (World (ex_world ex_published).(db) [])).(db).(events)
    !! "evt-1" = Some r ∧ r.(ev_state) = DeliveryLeased.
Proof.
  destruct (claims_reach_every_event (ex_world ex_published).(db) "evt-1" (ex_row ex_published)
    [("a", Second, 5 * Second)%Z]) as (r&H1&H2&_); [compute_eq|by left|by repeat constructor| |].
  - assert (size (ahead_of "evt-1" (ex_row ex_published) (events (db (ex_world ex_published)))) = 1) as ->
      by compute_eq. done.
  - exists r. split; [exact H1|exact H2].
Defined.

Lemma stale_lease_error_witness :
  ControlStore.Settle (ex_frame ControlSettledOK "a" 1) (7 * Second) (World (ex_world ex_retaken).(db) []) =
  (Err ErrStaleLease, World (ex_world ex_retaken).(db) []).
Proof.
  apply (stale_lease_error (ex_world ex_retaken).(db) (ex_frame ControlSettledOK "a" 1) (7 * Second));
    [reflexivity|reflexivity| |by left].
  intros r Hr. assert (ex_row ex_retaken = r) as <- by (apply (inj Some); rewrite <- Hr; compute_eq).
  compute_eq.
Defined.

Lemma receive_live_lease_witness :
  ∃ d', ControlStore.MarkReceived (ex_frame ControlReceived "a" 1) (5 * Second) (World (ex_world ex_leased).(db) []) =
    (Ok tt, World d' []).
Proof.
  destruct (receive_live_lease (ex_world ex_leased).(db) (ex_frame ControlReceived "a" 1) (5 * Second)
    (ex_row ex_leased)) as (d'&u&H&_); [reflexivity|reflexivity|reflexivity|compute_eq|compute_eq|].
  exists d'. exact H.
Defined.

Lemma outbox_delivered_once_witness :
  let cs := [CallEnqueue "evt-1" "nats" (ex_raw ex_env) Second] in
  is_ok (ControlStore.MarkOutboxDelivered 1 (3 * Second) (ex_world (cs ++ [CallDelivered 1 (2 * Second)]))).1 = false.
Proof.
  intros cs. destruct (outbox_delivered_once 1 (2 * Second) (ex_world cs) (ex_world (cs ++ [CallDelivered 1 (2 * Second)]))
    (ex_world (cs ++ [CallDelivered 1 (2 * Second)]))) as [H _]; [apply ex_inv|compute_eq|apply rtc_refl|].
  eapply H. apply surjective_pairing.
Defined.
End instances.
