(* ===== verification/Crypto.v ===== *)
(** * Keys, sessions and proofs of possession: crypto.go

    The cryptographic primitives are parameters ([Primitives], with their
    documented behaviour in [PrimitiveLaws]); everything the runtime does with
    them is here: hybrid signatures, hybrid session establishment with its key
    buffers in an explicit memory, authenticated encryption, proofs of possession
    and the replay cache. *)

From Stdlib Require Import ZArith Lia Ascii String.
From stdpp Require Import base list gmap sets strings.
From S2P Require Import Prelude GoRegexp JsonScan Utf8 JsonText JsonRoundtrip Sha256 Model Json.

(** ** Primitives: crypto/ed25519, mldsa, ecdh, mlkem, hkdf, chacha20poly1305 *)

Definition PublicKeySize : nat := 32.
Definition KeySize : nat := 32.
Definition NonceSizeX : nat := 24.

Class Primitives := {
  EdPrivate : Type; MlPrivate : Type; MlPublic : Type;
  XPrivate : Type; XPublic : Type; KemPrivate : Type; KemPublic : Type;
  ed_public : EdPrivate → bytes;
  ed_Sign : EdPrivate → bytes → bytes;
  ed_Verify : bytes → bytes → bytes → bool;
  ml_public : MlPrivate → bytes;
  ml_Sign : MlPrivate → bytes → string → result bytes;
  ml_NewPublicKey : bytes → result MlPublic;
  ml_Verify : MlPublic → bytes → bytes → string → result ();
  x_public : XPrivate → bytes;
  x_NewPublicKey : bytes → result XPublic;
  x_ECDH : XPrivate → XPublic → result bytes;
  kem_public : KemPrivate → bytes;
  kem_NewKey : bytes → result KemPublic;
  kem_Encapsulate : KemPublic → bytes → bytes * bytes;
  kem_Decapsulate : KemPrivate → bytes → result bytes;
  hkdf_Key : bytes → string → nat → result bytes;
  aead_NewX : bytes → result ();
  aead_Seal : bytes → bytes → bytes → bytes → bytes;
  aead_Open : bytes → bytes → bytes → bytes → result bytes;
}.

Class PrimitiveLaws `(Primitives) : Prop := {
  ed_public_size k : length (ed_public k) = PublicKeySize;
  ed_correct k m : ed_Verify (ed_public k) m (ed_Sign k m) = true;
  ml_correct k m s ctx :
    ml_Sign k m ctx = Ok s →
    ∃ pk, ml_NewPublicKey (ml_public k) = Ok pk ∧ ml_Verify pk m s ctx = Ok tt;
  x_parse k : ∃ pk, x_NewPublicKey (x_public k) = Ok pk;
  x_agree a b pa pb :
    x_NewPublicKey (x_public a) = Ok pa → x_NewPublicKey (x_public b) = Ok pb →
    x_ECDH a pb = x_ECDH b pa;
  kem_correct k rnd :
    ∃ ek, kem_NewKey (kem_public k) = Ok ek ∧
      let '(shared, ct) := kem_Encapsulate ek rnd in kem_Decapsulate k ct = Ok shared;
  hkdf_size b info n k : hkdf_Key b info n = Ok k → length k = n;
  aead_key_size k : length k = KeySize → aead_NewX k = Ok tt;
  aead_correct k nonce pt aad :
    length k = KeySize → length nonce = NonceSizeX →
    aead_Open k nonce (aead_Seal k nonce pt aad) aad = Ok pt;
}.

(** Allocated byte buffers; a slice is the index of its buffer. *)
Abbreviation mem := (list bytes).

Section crypto.
Context {prims : Primitives}.

Definition mldsaContext : string := "ubiq-envelope-v1".
Definition sessionInfo : string := "ubiq-hybrid-x25519-mlkem768-v1".

Record PublicBundle := {
  pb_KeyID : string;
  pb_Ed25519 : bytes;
  pb_MLDSA44 : bytes;
  pb_X25519 : bytes;
  pb_MLKEM768 : bytes;
}.

Record SessionOffer := {
  so_EphemeralX25519 : bytes;
  so_MLKEMCiphertext : bytes;
}.

(** ** Secrets: the byte slices that hold key material, in a memory *)

Definition alloc (b : bytes) : io mem nat := λ m, (length m, m ++ [b]).
Definition load (l : nat) : io mem bytes := λ m, (default [] (m !! l), m).

(** [zero]: overwrite every byte in place. *)
Definition zero_bytes (b : bytes) : bytes := replicate (length b) "000"%char.
Definition zero (l : nat) : io mem () := λ m, (tt, alter zero_bytes l m).

Record Secret := { material : option nat; destroyed : bool }.

(** [newSecret]: a private copy; the caller's buffer is wiped. *)
Definition newSecret (l : nat) : io mem Secret :=
  do b <- load l;
  do copyOf <- alloc b;
  do _ <- zero l;
  io_ret {| material := Some copyOf; destroyed := false |}.

(** [Secret.Use], for callbacks that read the key. *)
Definition Use {A} (s : Secret) (fn : bytes → result A) : io mem (result A) :=
  if s.(destroyed) then io_ret (Err (ErrNew "secret already destroyed"))
  else match s.(material) with
  | Some l => do key <- load l; io_ret (fn key)
  | None => io_ret (fn [])
  end.

(** [Secret.Destroy]: the secret after the call. *)
Definition Destroy (s : Secret) : io mem Secret :=
  if s.(destroyed) then io_ret s
  else match s.(material) with
  | Some l => do _ <- zero l; io_ret {| material := None; destroyed := true |}
  | None => io_ret {| material := None; destroyed := true |}
  end.

(** ** Providers *)

Record CryptoProvider := mkProvider {
  keyID : string;
  edPrivate : EdPrivate;
  mlPrivate : MlPrivate;
  xPrivate : XPrivate;
  kemPrivate : KemPrivate;
  replay : gmap string Z;
}.

Definition with_replay (r : gmap string Z) (p : CryptoProvider) : CryptoProvider :=
  mkProvider p.(keyID) p.(edPrivate) p.(mlPrivate) p.(xPrivate) p.(kemPrivate) r.

(** [NewCryptoProvider]; the arguments are the outcomes of the four
    [GenerateKey] calls. *)
Definition NewCryptoProvider (id : string) (ed : result EdPrivate) (ml : result MlPrivate)
  (x : result XPrivate) (kem : result KemPrivate) : result CryptoProvider :=
  if bool_decide (id = "") then Err (ErrNew "key id is required")
  else try edPriv := ed in try mlPriv := ml in try xPriv := x in try kemPriv := kem in
  Ok (mkProvider id edPriv mlPriv xPriv kemPriv ∅).

(** [CryptoProvider.Public]. *)
Definition Public (p : CryptoProvider) : PublicBundle :=
  {| pb_KeyID := p.(keyID); pb_Ed25519 := ed_public p.(edPrivate);
     pb_MLDSA44 := ml_public p.(mlPrivate); pb_X25519 := x_public p.(xPrivate);
     pb_MLKEM768 := kem_public p.(kemPrivate) |}.

(** [CryptoProvider.Sign]. *)
Definition Sign (p : CryptoProvider) (message : bytes) : result HybridSignature :=
  let ed := ed_Sign p.(edPrivate) message in
  try ml := ml_Sign p.(mlPrivate) message mldsaContext in
  Ok {| sig_Ed25519 := ed; sig_MLDSA44 := ml |}.

(** [VerifyHybrid]; the wrapped ML-DSA error keeps its cause. *)
Definition VerifyHybrid (peer : PublicBundle) (message : bytes) (sig : HybridSignature) : result () :=
  if negb (bool_decide (length peer.(pb_Ed25519) = PublicKeySize))
     || negb (ed_Verify peer.(pb_Ed25519) message sig.(sig_Ed25519))
  then Err (ErrNew "invalid Ed25519 signature")
  else try mlPub := ml_NewPublicKey peer.(pb_MLDSA44) in
  match ml_Verify mlPub message sig.(sig_MLDSA44) mldsaContext with
  | Err _ => Err (ErrFmt "invalid ML-DSA signature: %w" [])
  | Ok _ => Ok tt
  end.

(** ** Sessions *)

(** From the two shared secrets to the session key, the buffers wiped on the
    way whatever the outcome (the common tail of [Establish] and [Accept]). *)
Definition deriveKey (classical pq : nat) : io mem (result Secret) :=
  do c <- load classical;
  do q <- load pq;
  do combined <- alloc (c ++ q);
  do ikm <- load combined;
  do key <- match hkdf_Key ikm sessionInfo KeySize with
            | Ok k => do l <- alloc k; io_ret (Ok l)
            | Err e => io_ret (Err e)
            end;
  do _ <- zero classical;
  do _ <- zero pq;
  do _ <- zero combined;
  match key with
  | Err e => io_ret (Err e)
  | Ok l => do s <- newSecret l; io_ret (Ok s)
  end.

(** [Establish]; [ephemeral] and [rnd] are what [GenerateKey] and
    [Encapsulate] draw. *)
Definition Establish (peer : PublicBundle) (ephemeral : result XPrivate) (rnd : bytes)
  : io mem (result (SessionOffer * Secret)) :=
  match x_NewPublicKey peer.(pb_X25519) with
  | Err e => io_ret (Err e)
  | Ok peerX =>
  match ephemeral with
  | Err e => io_ret (Err e)
  | Ok eph =>
  match x_ECDH eph peerX with
  | Err e => io_ret (Err e)
  | Ok shared =>
    do classical <- alloc shared;
    match kem_NewKey peer.(pb_MLKEM768) with
    | Err e => do _ <- zero classical; io_ret (Err e)
    | Ok peerKEM =>
      let '(pqShared, ciphertext) := kem_Encapsulate peerKEM rnd in
      do pq <- alloc pqShared;
      try s <- deriveKey classical pq;
      io_ret (Ok ({| so_EphemeralX25519 := x_public eph; so_MLKEMCiphertext := ciphertext |}, s))
    end
  end end end.

(** [Accept]. *)
Definition Accept (p : CryptoProvider) (offer : SessionOffer) : io mem (result Secret) :=
  match x_NewPublicKey offer.(so_EphemeralX25519) with
  | Err e => io_ret (Err e)
  | Ok peerX =>
  match x_ECDH p.(xPrivate) peerX with
  | Err e => io_ret (Err e)
  | Ok shared =>
    do classical <- alloc shared;
    match kem_Decapsulate p.(kemPrivate) offer.(so_MLKEMCiphertext) with
    | Err e => do _ <- zero classical; io_ret (Err e)
    | Ok pqShared =>
      do pq <- alloc pqShared;
      deriveKey classical pq
    end
  end end.

(** [Seal]; [nonce] is the outcome of [rand.Read] into 24 bytes. *)
Definition Seal (secret : Secret) (plaintext aad : bytes) (nonce : result bytes)
  : io mem (result bytes) :=
  Use secret (λ key,
    try _ := aead_NewX key in
    try n := nonce in
    Ok (n ++ aead_Seal key n plaintext aad)).

(** [Open]. *)
Definition Open (secret : Secret) (ciphertext aad : bytes) : io mem (result bytes) :=
  Use secret (λ key,
    try _ := aead_NewX key in
    if (length ciphertext <? NonceSizeX)%nat then Err (ErrNew "ciphertext too short")
    else
      let nonce := take NonceSizeX ciphertext in
      let body := drop NonceSizeX ciphertext in
      aead_Open key nonce body aad).

(** ** Proofs of possession *)

(** [json.Marshal] of an [unsignedPoP]: the text that is signed. *)
Definition unsigned_text (pr : ProofOfPossession) : bytes :=
  object [("holder", quote pr.(pop_Holder)); ("created_at_ms", format_int pr.(pop_CreatedAtMS));
          ("nonce", quote pr.(pop_Nonce)); ("method", quote pr.(pop_Method));
          ("target", quote pr.(pop_Target)); ("envelope_hash", quote pr.(pop_EnvelopeHash))].

Definition with_signature (s : HybridSignature) (pr : ProofOfPossession) : ProofOfPossession :=
  {| pop_Holder := pr.(pop_Holder); pop_CreatedAtMS := pr.(pop_CreatedAtMS);
     pop_Nonce := pr.(pop_Nonce); pop_Method := pr.(pop_Method); pop_Target := pr.(pop_Target);
     pop_EnvelopeHash := pr.(pop_EnvelopeHash); pop_Signature := s |}.

(** [NewPoP]; [nonceBytes] is the outcome of [rand.Read]. *)
Definition NewPoP (p : CryptoProvider) (method target : string) (env : Envelope) (now : Z)
  (nonceBytes : result bytes) : result ProofOfPossession :=
  try hash := DigestHex env in
  try nb := nonceBytes in
  let unsigned := {| pop_Holder := p.(keyID); pop_CreatedAtMS := UnixMilli now;
    pop_Nonce := EncodeToString nb; pop_Method := method; pop_Target := target;
    pop_EnvelopeHash := hash; pop_Signature := zero_signature |} in
  try sig := Sign p (unsigned_text unsigned) in
  Ok (with_signature sig unsigned).

Definition replayKey (pr : ProofOfPossession) : string :=
  (pr.(pop_Holder) ++ ":" ++ pr.(pop_Nonce))%string.

(** The entries that survive the sweep. *)
Definition sweep (cutoff : Z) (r : gmap string Z) : gmap string Z :=
  filter (λ kv, (cutoff ≤ kv.2)%Z) r.

(** The checks of [VerifyPoP] that do not touch the replay cache. *)
Definition checkPoP (peer : PublicBundle) (proof : ProofOfPossession) (method target : string)
  (env : Envelope) (now maxSkew : Z) : result () :=
  if negb (bool_decide (proof.(pop_Holder) = peer.(pb_KeyID)))
     || negb (bool_decide (proof.(pop_Method) = method))
     || negb (bool_decide (proof.(pop_Target) = target))
  then Err (ErrNew "proof binding mismatch")
  else
    let delta := Sub now (of_UnixMilli proof.(pop_CreatedAtMS)) in
    if (delta <? int64 (- maxSkew))%Z || (maxSkew <? delta)%Z
    then Err (ErrNew "proof outside freshness window")
    else try hash := DigestHex env in
    if negb (bool_decide (hash = proof.(pop_EnvelopeHash)))
    then Err (ErrNew "proof envelope hash mismatch")
    else VerifyHybrid peer (unsigned_text proof) proof.(pop_Signature).

(** [VerifyPoP]: the checks, then the replay cache under its lock. *)
Definition VerifyPoP (peer : PublicBundle) (proof : ProofOfPossession) (method target : string)
  (env : Envelope) (now maxSkew : Z) : io CryptoProvider (result ()) := λ p,
  match checkPoP peer proof method target env now maxSkew with
  | Err e => (Err e, p)
  | Ok _ =>
    let cutoff := UnixMilli (now + int64 (-2 * maxSkew)) in
    let swept := sweep cutoff p.(replay) in
    match swept !! replayKey proof with
    | Some _ => (Err (ErrNew "replayed proof"), with_replay swept p)
    | None => (Ok tt, with_replay (<[replayKey proof := proof.(pop_CreatedAtMS)]> swept) p)
    end
  end.
End crypto.
