(* ===== verification/CryptoExample.v ===== *)
(** * A concrete instance of the cryptographic interface

    One-byte keys and transparent "signatures" and "ciphertexts" that satisfy the
    documented laws of the primitives; the closed examples run on it. *)

From Stdlib Require Import ZArith NArith Lia Ascii String.
From stdpp Require Import base list gmap sets strings.
From S2P Require Import Prelude GoRegexp JsonText Model Json Crypto.

Definition one_byte (b : bytes) : result ascii :=
  match b with [c] => Ok c | _ => Err (ErrExternal 1) end.

Definition toy : Primitives := {|
  EdPrivate := ascii; MlPrivate := ascii; MlPublic := ascii;
  XPrivate := ascii; XPublic := ascii; KemPrivate := ascii; KemPublic := ascii;
  ed_public c := replicate PublicKeySize c;
  ed_Sign c m := c :: m;
  ed_Verify pub m s :=
    match s with
    | c :: m' => bool_decide (pub = replicate PublicKeySize c) && bool_decide (m' = m)
    | [] => false
    end;
  ml_public c := [c];
  ml_Sign c m ctx := Ok (c :: to_bytes ctx ++ m);
  ml_NewPublicKey := one_byte;
  ml_Verify c m s ctx := if bool_decide (s = c :: to_bytes ctx ++ m) then Ok tt else Err (ErrExternal 2);
  x_public c := [c];
  x_NewPublicKey := one_byte;
  x_ECDH a b := Ok [ascii_of_N ((N_of_ascii a + N_of_ascii b) mod 256)];
  kem_public c := [c];
  kem_NewKey := one_byte;
  kem_Encapsulate c rnd := (rnd, c :: rnd);
  kem_Decapsulate c ct :=
    match ct with d :: rnd => if bool_decide (c = d) then Ok rnd else Err (ErrExternal 3) | [] => Err (ErrExternal 3) end;
  hkdf_Key ikm info n := Ok (resize n "000"%char ikm);
  aead_NewX k := if bool_decide (length k = KeySize) then Ok tt else Err (ErrExternal 4);
  aead_Seal k nonce pt aad := k ++ nonce ++ aad ++ pt;
  aead_Open k nonce body aad :=
    if bool_decide (take (length (k ++ nonce ++ aad)) body = k ++ nonce ++ aad)
    then Ok (drop (length (k ++ nonce ++ aad)) body) else Err (ErrExternal 5);
|}.

Lemma toy_laws : PrimitiveLaws toy.
Proof.
  split; simpl.
  - done.
  - intros k m. by rewrite !bool_decide_eq_true_2.
  - intros k m s ctx [= <-]. exists k. by rewrite bool_decide_eq_true_2.
  - intros k. by exists k.
  - intros a b pa pb [= <-] [= <-]. by rewrite N.add_comm.
  - intros k rnd. exists k. by rewrite bool_decide_eq_true_2.
  - intros b info n k [= <-]. apply length_resize.
  - intros k Hk. by rewrite bool_decide_eq_true_2.
  - intros k nonce pt aad _ _. rewrite !app_assoc, take_app_length, drop_app_length.
    by rewrite bool_decide_eq_true_2.
Qed.

Definition toy_provider (id : string) (c : ascii) : @CryptoProvider toy := @mkProvider toy id c c c c ∅.
