(* ===== verification/CryptoTheorems.v ===== *)
(** * What sessions and proofs of possession guarantee

    Key buffers are wiped, both ends of a session derive the same key and can
    exchange messages, an accepted proof is bound to its holder, call, envelope
    and time, and is accepted once. *)

From Stdlib Require Import ZArith Lia Ascii String.
From stdpp Require Import base list gmap sets strings.
From S2P Require Import Prelude GoRegexp JsonScan Utf8 JsonText JsonRoundtrip Sha256 Model Json Crypto CryptoExample.

(** A sequence of verifications on one provider with one freshness window. *)
Record attempt := Attempt {
  at_peer : PublicBundle;
  at_proof : ProofOfPossession;
  at_method : string;
  at_target : string;
  at_env : Envelope;
  at_now : Z;
}.

Definition try_attempt `{Primitives} (skew : Z) (a : attempt) : io CryptoProvider (result ()) :=
  VerifyPoP a.(at_peer) a.(at_proof) a.(at_method) a.(at_target) a.(at_env) a.(at_now) skew.

(** Verifications, each with its own window. *)
Definition run_attempts `{Primitives} (l : list (Z * attempt)) (p : CryptoProvider) : CryptoProvider :=
  foldl (λ p '(skew, a), (try_attempt skew a p).2) p l.

(** 2^62 ns, about 146 years: the windows for which [-2 * maxSkew] is a [Duration]. *)
Definition two62 : Z := 4611686018427387904.

(** Every buffer allocated from [n] on is all zero, except the secret's own. *)
Definition wiped_from (n : nat) (keep : option nat) (m : mem) : Prop :=
  ∀ l b, n ≤ l → m !! l = Some b → keep ≠ Some l → Forall (λ c, c = "000"%char) b.

(** * Lemmas *)

Section memory.

Lemma load_cell k m cells :
  load (length m + k) (m ++ cells) = (default [] (cells !! k), m ++ cells).
Proof. unfold load. rewrite lookup_app_r by lia. by replace (length m + k - length m) with k by lia. Qed.

Lemma zero_cell k m cells :
  zero (length m + k) (m ++ cells) = (tt, m ++ alter zero_bytes k cells).
Proof. unfold zero. by rewrite alter_app_r. Qed.

Lemma alloc_cell b m cells : alloc b (m ++ cells) = (length m + length cells, m ++ (cells ++ [b])).
Proof. unfold alloc. by rewrite length_app, app_assoc. Qed.

Lemma zero_bytes_zero b : Forall (λ c, c = "000"%char) (zero_bytes b).
Proof. apply Forall_replicate. done. Qed.

Lemma zero_run l m : zero l m = (tt, alter zero_bytes l m).
Proof. done. Qed.
End memory.

#[local] Opaque alloc load zero.

Ltac cells := rewrite ?load_cell, ?zero_cell, ?alloc_cell; simpl.

Section sessions.
Context {prims : Primitives}.

Lemma newSecret_cell k m cells b :
  cells !! k = Some b →
  newSecret (length m + k) (m ++ cells) =
  ({| material := Some (length m + length cells); destroyed := false |},
   m ++ alter zero_bytes k cells ++ [b]).
Proof.
  intros Hb. unfold newSecret, io_bind, io_ret. rewrite load_cell, Hb. simpl. rewrite alloc_cell, zero_cell.
  rewrite alter_app_l by (by eapply lookup_lt_Some). done.
Qed.

(** The memory after the key derivation. *)
Lemma deriveKey_cells m c q :
  deriveKey (length m + 0) (length m + 1) (m ++ [c; q]) =
  match hkdf_Key (c ++ q) sessionInfo KeySize with
  | Ok k => (Ok {| material := Some (length m + 4); destroyed := false |},
             m ++ [zero_bytes c; zero_bytes q; zero_bytes (c ++ q); zero_bytes k; k])
  | Err e => (Err e, m ++ [zero_bytes c; zero_bytes q; zero_bytes (c ++ q)])
  end.
Proof.
  unfold deriveKey, io_bind, io_ret. repeat (progress cells).
  destruct (hkdf_Key (c ++ q) sessionInfo KeySize) as [k|e]; repeat (progress cells); [|done].
  by rewrite (newSecret_cell 3 m _ k).
Qed.

(** The memory after [Accept] and [Establish] on every branch. *)
Definition derived {A} (mk : Secret → A) (m : mem) (c q : bytes) (r : result A) (m' : mem) : Prop :=
  match hkdf_Key (c ++ q) sessionInfo KeySize with
  | Ok k => r = Ok (mk {| material := Some (length m + 4); destroyed := false |}) ∧
            m' = m ++ [zero_bytes c; zero_bytes q; zero_bytes (c ++ q); zero_bytes k; k]
  | Err e => r = Err e ∧ m' = m ++ [zero_bytes c; zero_bytes q; zero_bytes (c ++ q)]
  end.

Lemma Accept_cells p offer m r m' :
  Accept p offer m = (r, m') →
  (is_ok r = false ∧ (m' = m ∨ ∃ c, m' = m ++ [zero_bytes c])) ∨
  (∃ px c q, x_NewPublicKey offer.(so_EphemeralX25519) = Ok px ∧ x_ECDH p.(xPrivate) px = Ok c ∧
    kem_Decapsulate p.(kemPrivate) offer.(so_MLKEMCiphertext) = Ok q ∧ derived id m c q r m').
Proof.
  unfold Accept. destruct (x_NewPublicKey _) as [px|]; [|intros [= <- <-]; auto].
  destruct (x_ECDH _ px) as [c|] eqn:Hc; [|intros [= <- <-]; auto].
  unfold io_bind, io_ret. rewrite <- (app_nil_r m), alloc_cell. simpl.
  destruct (kem_Decapsulate _ _) as [q|] eqn:Hq.
  - rewrite alloc_cell. simpl. rewrite deriveKey_cells, app_nil_r. intros H. right.
    exists px, c, q. unfold derived. destruct (hkdf_Key _ _ _); by simplify_eq.
  - rewrite zero_cell, app_nil_r. simpl. intros [= <- <-]. left. eauto.
Qed.

Lemma Establish_cells peer eph rnd m r m' :
  Establish peer eph rnd m = (r, m') →
  (is_ok r = false ∧ (m' = m ∨ ∃ c, m' = m ++ [zero_bytes c])) ∨
  (∃ px ek e c, x_NewPublicKey peer.(pb_X25519) = Ok px ∧ kem_NewKey peer.(pb_MLKEM768) = Ok ek ∧
    eph = Ok e ∧ x_ECDH e px = Ok c ∧
    let '(q, ct) := kem_Encapsulate ek rnd in
    derived (pair {| so_EphemeralX25519 := x_public e; so_MLKEMCiphertext := ct |}) m c q r m').
Proof.
  unfold Establish. destruct (x_NewPublicKey _) as [px|]; [|intros [= <- <-]; auto].
  destruct eph as [e|]; [|intros [= <- <-]; auto].
  destruct (x_ECDH e px) as [c|] eqn:Hc; [|intros [= <- <-]; auto].
  unfold io_bind, io_ret. rewrite <- (app_nil_r m), alloc_cell. simpl.
  destruct (kem_NewKey _) as [ek|] eqn:Hk.
  - destruct (kem_Encapsulate ek rnd) as [q ct] eqn:He. rewrite alloc_cell. simpl.
    rewrite deriveKey_cells, app_nil_r. intros H. right.
    exists px, ek, e, c. rewrite He. unfold derived.
    destruct (hkdf_Key _ _ _); simplify_eq; split_and!; done.
  - rewrite zero_cell, app_nil_r. simpl. intros [= <- <-]. left. eauto.
Qed.

Lemma wiped_cells m keep cells :
  (∀ k b, cells !! k = Some b → keep ≠ Some (length m + k) → Forall (λ c, c = "000"%char) b) →
  wiped_from (length m) keep (m ++ cells).
Proof.
  intros H l b Hl. rewrite lookup_app_r by done. intros Hb Hk. eapply H; [exact Hb|].
  by replace (length m + (l - length m)) with l by lia.
Qed.

Lemma derived_wiped {A} (mk : Secret → A) m c q r m' :
  derived mk m c q r m' →
  take (length m) m' = m ∧
  (∀ keep, (∀ s, r = Ok (mk s) → s.(material) = keep) → wiped_from (length m) keep m').
Proof.
  unfold derived. destruct (hkdf_Key _ _ _) as [k|]; intros [-> ->]; rewrite take_app_length;
    (split; [done|]); intros keep Hkeep; apply wiped_cells; intros i b Hb Hne;
    destruct i as [|[|[|[|[|i]]]]]; simplify_eq/=; try apply zero_bytes_zero.
  by specialize (Hkeep _ eq_refl).
Qed.

Lemma failed_wiped m m' :
  m' = m ∨ (∃ c, m' = m ++ [zero_bytes c]) →
  take (length m) m' = m ∧ ∀ keep, wiped_from (length m) keep m'.
Proof.
  intros [->|[c ->]].
  - split; [by rewrite firstn_all|]. intros keep l b Hl Hb. apply lookup_lt_Some in Hb. lia.
  - rewrite take_app_length. split; [done|]. intros keep. apply wiped_cells.
    intros [|k] b Hb _; simplify_eq/=. apply zero_bytes_zero.
Qed.

(** Encryption under the key of cell [i]. *)
Lemma Seal_Open_cell {laws : PrimitiveLaws prims} m1 m2 cells1 cells2 i k pt aad nonce :
  cells1 !! i = Some k → cells2 !! i = Some k → length k = KeySize → length nonce = NonceSizeX →
  ∃ ct, Seal {| material := Some (length m1 + i); destroyed := false |} pt aad (Ok nonce) (m1 ++ cells1)
          = (Ok ct, m1 ++ cells1) ∧
        Open {| material := Some (length m2 + i); destroyed := false |} ct aad (m2 ++ cells2)
          = (Ok pt, m2 ++ cells2).
Proof.
  intros H1 H2 Hk Hn. exists (nonce ++ aead_Seal k nonce pt aad).
  unfold Seal, Open, Use, io_bind, io_ret. simpl. rewrite !load_cell, H1, H2. simpl.
  rewrite (aead_key_size _ Hk). split; [done|].
  replace (length (nonce ++ _) <? NonceSizeX)%nat with false
    by (symmetry; apply Nat.ltb_ge; rewrite length_app; lia).
  rewrite <- Hn, take_app_length, drop_app_length. by rewrite aead_correct.
Qed.

Lemma Accept_derives q offer px c pq k m :
  x_NewPublicKey offer.(so_EphemeralX25519) = Ok px → x_ECDH q.(xPrivate) px = Ok c →
  kem_Decapsulate q.(kemPrivate) offer.(so_MLKEMCiphertext) = Ok pq →
  hkdf_Key (c ++ pq) sessionInfo KeySize = Ok k →
  Accept q offer m = (Ok {| material := Some (length m + 4); destroyed := false |},
    m ++ [zero_bytes c; zero_bytes pq; zero_bytes (c ++ pq); zero_bytes k; k]).
Proof.
  intros Hpx Hc Hd Hk. unfold Accept. rewrite Hpx, Hc, Hd. unfold io_bind.
  rewrite <- (app_nil_r m), alloc_cell. simpl. rewrite alloc_cell. simpl.
  by rewrite deriveKey_cells, Hk, app_nil_r.
Qed.
End sessions.

Section proofs.
Context {prims : Primitives}.

Lemma VerifyHybrid_ok peer msg sig :
  VerifyHybrid peer msg sig = Ok tt ↔
  length peer.(pb_Ed25519) = PublicKeySize ∧
  ed_Verify peer.(pb_Ed25519) msg sig.(sig_Ed25519) = true ∧
  ∃ pk, ml_NewPublicKey peer.(pb_MLDSA44) = Ok pk ∧
    ml_Verify pk msg sig.(sig_MLDSA44) mldsaContext = Ok tt.
Proof.
  unfold VerifyHybrid. split.
  - destruct (_ || _) eqn:E; [done|]. bool_prop. destruct (ml_NewPublicKey _) as [pk|]; [|done].
    destruct (ml_Verify pk _ _ _) as [[]|] eqn:Ev; [|done]. eauto 10.
  - intros (->&->&pk&->&->). done.
Qed.

(** The freshness test, saturation of [Time.Sub] included. *)
Lemma fresh_iff now created skew :
  (0 ≤ skew < two63 - 1)%Z →
  (Sub now (of_UnixMilli created) <? int64 (- skew))%Z || (skew <? Sub now (of_UnixMilli created))%Z = false ↔
  (- skew ≤ now - of_UnixMilli created ≤ skew)%Z.
Proof.
  intros Hs. rewrite int64_id by (unfold int64_range, two62, two63 in *; lia).
  rewrite orb_false_iff, !Z.ltb_ge. unfold Sub, two63 in *. lia.
Qed.

Lemma checkPoP_ok peer pr method target env now skew :
  (0 ≤ skew < two63 - 1)%Z →
  checkPoP peer pr method target env now skew = Ok tt ↔
  pr.(pop_Holder) = peer.(pb_KeyID) ∧ pr.(pop_Method) = method ∧ pr.(pop_Target) = target ∧
  (- skew ≤ now - of_UnixMilli pr.(pop_CreatedAtMS) ≤ skew)%Z ∧
  DigestHex env = Ok pr.(pop_EnvelopeHash) ∧
  VerifyHybrid peer (unsigned_text pr) pr.(pop_Signature) = Ok tt.
Proof.
  intros Hs. rewrite <- (fresh_iff now _ _ Hs). unfold checkPoP. split.
  - destruct (negb _ || negb _ || negb _) eqn:E1; [done|].
    destruct (_ || (skew <? _)%Z) eqn:E2; [done|].
    destruct (DigestHex env) as [h|] eqn:E3; [|done].
    destruct (negb (bool_decide (h = _))) eqn:E4; [done|]. bool_prop. subst h. auto 10.
  - intros (->&->&->&->&->&->). by rewrite !bool_decide_eq_true_2 by done.
Qed.

(** A later accepted proof comes from a later sweep: entries leave the cache only
    when their proof is past the freshness window, by one more window. *)
Definition spent (skew : Z) (pr : ProofOfPossession) (now2 : Z) (p : CryptoProvider) : Prop :=
  p.(replay) !! replayKey pr = Some pr.(pop_CreatedAtMS) ∨
  (of_UnixMilli pr.(pop_CreatedAtMS) + skew < now2)%Z.

Lemma cutoff_spec now skew created :
  (0 ≤ skew < two62)%Z → int64_range now →
  ¬ (UnixMilli (now + int64 (-2 * skew)) ≤ created)%Z →
  (of_UnixMilli created + 2 * skew < now)%Z.
Proof.
  intros Hs Hn. rewrite int64_id by (unfold int64_range, two62, two63 in *; lia).
  unfold UnixMilli. rewrite int64_id.
  - intros H%Z.nle_gt. unfold of_UnixMilli, Millisecond in *.
    pose proof (Z.mul_div_le (now + -2 * skew) 1000000 ltac:(lia)). lia.
  - unfold int64_range, two62, two63, Millisecond in *. split.
    + apply Z.div_le_lower_bound; lia.
    + apply Z.div_lt_upper_bound; lia.
Qed.

(** A verification with a window [w] at least as long keeps it so. *)
Lemma spent_attempt skew w pr now2 a p :
  (0 ≤ skew ≤ w)%Z → (w < two62)%Z → int64_range a.(at_now) → (a.(at_now) - w ≤ now2)%Z →
  spent skew pr now2 p → spent skew pr now2 (try_attempt w a p).2.
Proof.
  intros Hs Hw Hn Hclock [Hin|Hold]; [|by right].
  unfold try_attempt, VerifyPoP. destruct (checkPoP _ _ _ _ _ _ _); [|by left].
  set (cut := UnixMilli _). destruct (decide (cut ≤ pop_CreatedAtMS pr)%Z) as [Hc|Hc].
  - left. assert (sweep cut (replay p) !! replayKey pr = Some (pop_CreatedAtMS pr)) as Hk
      by (apply map_lookup_filter_Some; by split).
    destruct (sweep cut (replay p) !! replayKey (at_proof a)) eqn:E; simpl; [done|].
    rewrite lookup_insert_ne; [done|]. intros Heq. rewrite Heq in E. congruence.
  - right. apply cutoff_spec in Hc; [lia|lia|done].
Qed.

Lemma spent_attempts skew pr now2 l p :
  (0 ≤ skew)%Z →
  Forall (λ '(w, a), (skew ≤ w < two62)%Z ∧ int64_range a.(at_now) ∧ (a.(at_now) - w ≤ now2)%Z) l →
  spent skew pr now2 p → spent skew pr now2 (run_attempts l p).
Proof.
  intros Hs Hl. revert p. induction Hl as [|[w a] l ([??]&Hn&Hc) _ IH]; intros p Hp; [done|].
  apply IH. by apply spent_attempt.
Qed.

Lemma spent_rejected skew a p :
  (0 ≤ skew < two62)%Z → int64_range a.(at_now) →
  spent skew a.(at_proof) a.(at_now) p → is_ok (try_attempt skew a p).1 = false.
Proof.
  intros Hs Hn Hsp. unfold try_attempt, VerifyPoP.
  destruct (checkPoP _ _ _ _ _ _ _) as [[]|] eqn:Hc; [|done].
  apply checkPoP_ok in Hc as (_&_&_&Hf&_); [|unfold two62, two63 in *; lia].
  destruct Hsp as [Hin|Hold]; [|lia].
  set (cut := UnixMilli _). destruct (decide (cut ≤ pop_CreatedAtMS (at_proof a))%Z) as [Hcut|Hcut].
  - replace (sweep cut (replay p) !! replayKey (at_proof a)) with (Some (pop_CreatedAtMS (at_proof a)));
      [done|]. symmetry. by apply map_lookup_filter_Some.
  - apply cutoff_spec in Hcut; [lia|done|done].
Qed.

(** The signed text determines what was signed. *)
Lemma unsigned_text_read pr :
  wf_proof pr = true →
  unmarshal_struct false (proof_fields false) zero_proof (unsigned_text pr) = Ok (with_signature zero_signature pr).
Proof.
  intros Hwf. unfold wf_proof in Hwf. bool_prop.
  apply unmarshal_object; [solve_values|solve_values|by repeat constructor|].
  destruct pr; simpl in *. unfold with_signature. simpl. by read_fields.
Qed.

(** A proof just made is accepted: what [NewPoP] signs for an envelope passes
    [VerifyPoP] at any provider that knows the signer's public bundle and has
    not seen the nonce, for the envelope as the wire delivers it, when the
    clocks differ by less than the window less one millisecond. *)
Lemma pop_fresh_accepted_ok {laws : PrimitiveLaws prims} p q method target env now nb pr now' skew :
  NewPoP p method target env now nb = Ok pr → int64_range now → (0 ≤ skew < two63 - 1)%Z →
  (- skew ≤ now' - now ≤ skew - Millisecond)%Z → q.(replay) !! replayKey pr = None →
  ∃ q', VerifyPoP (Public p) pr method target (normalize env) now' skew q = (Ok tt, q').
Proof.
  unfold NewPoP. intros H Hn Hs Hclock Hr.
  destruct (DigestHex env) as [h|] eqn:Hd; [|done]. destruct nb as [nb|]; [|done].
  unfold Sign in H. set (u := {| pop_Holder := keyID p |}) in H.
  destruct (ml_Sign _ _ _) as [ml|] eqn:Hml; [|done]. injection H as <-.
  assert (UnixMilli now = now `div` Millisecond)%Z as Hu.
  { apply int64_id. unfold int64_range, two63, Millisecond in *.
    split; [apply Z.div_le_lower_bound|apply Z.div_lt_upper_bound]; lia. }
  unfold VerifyPoP. rewrite (proj2 (checkPoP_ok _ _ _ _ _ _ _ Hs)).
  - replace (sweep _ _ !! _) with (@None Z); [eauto|]. symmetry. apply map_lookup_filter_None. by left.
  - split; [done|]. split; [done|]. split; [done|]. split; [|split].
    + simpl. rewrite Hu. unfold of_UnixMilli, Millisecond in *.
      pose proof (Z.div_mod now 1000000 ltac:(lia)). pose proof (Z.mod_pos_bound now 1000000 ltac:(lia)). lia.
    + simpl. by rewrite DigestHex_normalize.
    + apply VerifyHybrid_ok. simpl. split_and!; [apply ed_public_size|apply ed_correct|].
      by apply (ml_correct _ _ _ _ Hml).
Qed.
End proofs.

(** * Theorems *)

Section theorems.
Context {prims : Primitives}.

(** C37: Whatever [Establish] and [Accept] return, no key material is left behind:
    the caller's memory is as before, and every buffer they allocated (both
    shared secrets, their concatenation, the derived key) has been overwritten
    with zeros, except the private copy inside the returned [Secret]. *)
Theorem key_buffers_wiped p peer eph rnd offer m :
  (let '(r, m') := Establish peer eph rnd m in
   take (length m) m' = m ∧
   wiped_from (length m) (match r with Ok (_, s) => s.(material) | Err _ => None end) m') ∧
  (let '(r, m') := Accept p offer m in
   take (length m) m' = m ∧
   wiped_from (length m) (match r with Ok s => s.(material) | Err _ => None end) m').
Proof.
  split.
  - destruct (Establish peer eph rnd m) as [r m'] eqn:H.
    apply Establish_cells in H as [[_ H%failed_wiped]|(px&ek&e&c&_&_&_&_&H)]; [naive_solver|].
    destruct (kem_Encapsulate ek rnd) as [q ct]. apply derived_wiped in H as [Ht Hw].
    split; [done|]. apply Hw. by intros s ->.
  - destruct (Accept p offer m) as [r m'] eqn:H.
    apply Accept_cells in H as [[_ H%failed_wiped]|(px&c&q&_&_&_&H)]; [naive_solver|].
    apply derived_wiped in H as [Ht Hw]. split; [done|]. apply Hw. by intros s ->.
Qed.

(** After [Destroy] the key is gone: its buffer is all zero, [Seal], [Open] and
    any other use of the secret fail without touching memory, and destroying it
    again does nothing. *)
Theorem destroyed_secret_unusable s m :
  let '(s', m') := Destroy s m in
  (s.(destroyed) = false → ∀ l b, s.(material) = Some l → m' !! l = Some b →
     Forall (λ c, c = "000"%char) b) ∧
  (s.(destroyed) = false → ∀ l, s.(material) ≠ Some l → m' !! l = m !! l) ∧
  (∀ pt aad nonce, Seal s' pt aad nonce m' = (Err (ErrNew "secret already destroyed"), m')) ∧
  (∀ ct aad, Open s' ct aad m' = (Err (ErrNew "secret already destroyed"), m')) ∧
  Destroy s' m' = (s', m').
Proof.
  unfold Destroy, Seal, Open, Use, io_bind, io_ret. destruct s as [[l|] []]; simpl; try (split_and!; done).
  rewrite zero_run. simpl. split_and!; try done.
  - intros _ l' b [= <-]. rewrite list_lookup_alter_eq. intros (b'&_&->)%fmap_Some. apply zero_bytes_zero.
  - intros _ l' Hne. rewrite list_lookup_alter_ne; [done|congruence].
Qed.

(** C19: Both ends of a session agree: when [Establish] towards the holder of [q]
    succeeds, [Accept] on the offer succeeds on the holder's side, and whatever
    one side seals the other opens, in both directions. *)
Theorem session_agreement {laws : PrimitiveLaws prims} q eph rnd m1 offer s1 m1' m2 :
  Establish (Public q) eph rnd m1 = (Ok (offer, s1), m1') →
  ∃ s2 m2', Accept q offer m2 = (Ok s2, m2') ∧
    ∀ pt aad nonce, length nonce = NonceSizeX →
      (∃ c, Seal s1 pt aad (Ok nonce) m1' = (Ok c, m1') ∧ Open s2 c aad m2' = (Ok pt, m2')) ∧
      (∃ c, Seal s2 pt aad (Ok nonce) m2' = (Ok c, m2') ∧ Open s1 c aad m1' = (Ok pt, m1')).
Proof.
  intros [[? _]|(px&ek&e&c&Hpx&Hek&->&Hc&H)]%Establish_cells; [done|].
  destruct (kem_correct (kemPrivate q) rnd) as (ek'&Hek'&Hd).
  change (pb_MLKEM768 (Public q)) with (kem_public (kemPrivate q)) in Hek.
  rewrite Hek' in Hek. injection Hek as ->.
  destruct (kem_Encapsulate ek rnd) as [pq ct]. unfold derived in H.
  destruct (hkdf_Key (c ++ pq) sessionInfo KeySize) as [k|] eqn:Hk; [|by destruct H].
  destruct H as [[= -> ->] ->]. destruct (x_parse e) as [pe Hpe].
  rewrite (x_agree e (xPrivate q) pe px Hpe Hpx) in Hc.
  pose proof (hkdf_size _ _ _ _ Hk) as Hsz.
  eexists _, _. split; [apply (Accept_derives q _ pe c pq k); simpl; assumption|].
  intros pt aad nonce Hn. split; by apply (Seal_Open_cell _ _ _ _ _ k).
Qed.

Lemma sweep_None cutoff seen key :
  sweep cutoff seen !! key = None → ∀ at_, seen !! key = Some at_ → (at_ < cutoff)%Z.
Proof.
  intros [E|E]%map_lookup_filter_None at_ Hat; [congruence|]. specialize (E _ Hat). simpl in E. lia.
Qed.

(** An accepted proof is bound to everything it claims: holder, method and
    target are the expected ones, it was made within [maxSkew] of now, its hash
    is the digest of this envelope, both the Ed25519 and the ML-DSA signature of
    the peer verify on its text, it was not in the replay cache, and it is now. *)
Theorem pop_accept_sound peer pr method target env now skew p p' :
  (0 ≤ skew < two63 - 1)%Z →
  VerifyPoP peer pr method target env now skew p = (Ok tt, p') →
  pr.(pop_Holder) = peer.(pb_KeyID) ∧ pr.(pop_Method) = method ∧ pr.(pop_Target) = target ∧
  (- skew ≤ now - of_UnixMilli pr.(pop_CreatedAtMS) ≤ skew)%Z ∧
  DigestHex env = Ok pr.(pop_EnvelopeHash) ∧
  ed_Verify peer.(pb_Ed25519) (unsigned_text pr) pr.(pop_Signature).(sig_Ed25519) = true ∧
  (∃ pk, ml_NewPublicKey peer.(pb_MLDSA44) = Ok pk ∧
     ml_Verify pk (unsigned_text pr) pr.(pop_Signature).(sig_MLDSA44) mldsaContext = Ok tt) ∧
  (∀ at_, p.(replay) !! replayKey pr = Some at_ → (at_ < UnixMilli (now + int64 (-2 * skew)))%Z) ∧
  p'.(replay) !! replayKey pr = Some pr.(pop_CreatedAtMS).
Proof.
  intros Hs. unfold VerifyPoP. destruct (checkPoP _ _ _ _ _ _ _) as [[]|] eqn:Hc; [|done].
  apply checkPoP_ok in Hc as (?&?&?&?&?&(_&?&?)%VerifyHybrid_ok); [|done].
  destruct (sweep _ _ !! _) eqn:E; [done|]. intros [= <-]. split_and!; try done; try lia.
  - by apply sweep_None.
  - simpl. apply lookup_insert_eq.
Qed.

(** C16: A proof is accepted at most once: after an acceptance, with whatever
    [maxSkew], and whatever other proofs the provider was asked to verify since,
    the same proof is rejected, for any call and envelope it is presented with,
    provided none of the calls in between had a smaller [maxSkew] than the last
    call has; the clock may meanwhile have been set back by up to the [maxSkew]
    of those calls. *)
Theorem pop_replay_rejected skew1 a1 p1 p1' l skew2 a2 :
  (0 ≤ skew2 < two62)%Z →
  try_attempt skew1 a1 p1 = (Ok tt, p1') →
  Forall (λ '(skew, a), (skew2 ≤ skew < two62)%Z ∧ int64_range a.(at_now) ∧ (a.(at_now) - skew ≤ a2.(at_now))%Z) l →
  int64_range a2.(at_now) → a2.(at_proof) = a1.(at_proof) →
  is_ok (try_attempt skew2 a2 (run_attempts l p1')).1 = false.
Proof.
  intros Hs H1 Hl Hn Heq. apply spent_rejected; [done|done|]. rewrite Heq.
  apply spent_attempts; [apply Hs|done|]. left. unfold try_attempt, VerifyPoP in H1.
  destruct (checkPoP _ _ _ _ _ _ _); [|done]. destruct (sweep _ _ !! _); [done|].
  injection H1 as <-. simpl. apply lookup_insert_eq.
Qed.

(** The signed text is unambiguous: two proofs whose signed bytes are equal
    agree on holder, time, nonce, method, target and envelope hash, so that a
    signature made for one call verifies for no other. *)
Theorem pop_text_injective pr1 pr2 :
  wf_proof pr1 = true → wf_proof pr2 = true → unsigned_text pr1 = unsigned_text pr2 →
  with_signature zero_signature pr1 = with_signature zero_signature pr2.
Proof.
  intros H1 H2 Heq. pose proof (unsigned_text_read _ H1) as R1. pose proof (unsigned_text_read _ H2) as R2.
  congruence.
Qed.
End theorems.

(** * Closed instances *)

#[local] Existing Instance toy.
#[local] Existing Instance toy_laws.

Definition ex_alice : CryptoProvider := toy_provider "alice" "a".
Definition ex_bob : CryptoProvider := toy_provider "bob" "b".
Definition ex_eph : @XPrivate toy := "e"%char.
Definition ex_now : Z := 1000 * Second.
Definition ex_skew : Z := 2 * Minute.
Definition ex_nonce (c : ascii) : bytes := replicate 24 c.
Definition ex_proof (c : ascii) (now : Z) : ProofOfPossession :=
  value_or zero_proof (NewPoP ex_alice "PUBLISH" "ubiq://transport/nats" ex_envelope now (Ok (ex_nonce c))).
Definition ex_attempt (c : ascii) (made now : Z) : attempt :=
  Attempt (Public ex_alice) (ex_proof c made) "PUBLISH" "ubiq://transport/nats" ex_envelope now.

Lemma session_agreement_witness :
  ∃ s2 m2', Accept ex_bob {| so_EphemeralX25519 := ["e"%char]; so_MLKEMCiphertext := ["b"; "r"]%char |} [] = (Ok s2, m2').
Proof.
  destruct (session_agreement ex_bob (Ok ex_eph) ["r"%char] []
    {| so_EphemeralX25519 := ["e"%char]; so_MLKEMCiphertext := ["b"; "r"]%char |}
    (match (Establish (Public ex_bob) (Ok ex_eph) ["r"%char] []).1 with
     | Ok (_, s) => s | Err _ => {| material := None; destroyed := true |} end)
    (Establish (Public ex_bob) (Ok ex_eph) ["r"%char] []).2 []) as (s2&m2'&H&_);
    [vm_compute; reflexivity|]. exists s2, m2'. exact H.
Defined.

Lemma pop_accept_sound_witness : (ex_proof "n" ex_now).(pop_Holder) = "alice".
Proof.
  destruct (pop_accept_sound (Public ex_alice) (ex_proof "n" ex_now) "PUBLISH" "ubiq://transport/nats"
    ex_envelope (ex_now + Second) ex_skew ex_bob
    (try_attempt ex_skew (ex_attempt "n" ex_now (ex_now + Second)) ex_bob).2) as [H _];
    [done|vm_compute; reflexivity|exact H].
Defined.

Lemma pop_replay_rejected_witness :
  is_ok (try_attempt ex_skew (ex_attempt "n" ex_now (ex_now + 2 * Second))
    (run_attempts [(3 * Minute, ex_attempt "m" (ex_now + Second) (ex_now + Second))]%Z
      (try_attempt Minute (ex_attempt "n" ex_now ex_now) ex_bob).2)).1 = false.
Proof.
  apply (pop_replay_rejected Minute (ex_attempt "n" ex_now ex_now) ex_bob);
    [done|vm_compute; reflexivity|by repeat constructor|done|done].
Defined.

Lemma pop_text_injective_witness :
  with_signature zero_signature (ex_proof "n" ex_now) =
  with_signature zero_signature (with_signature zero_signature (ex_proof "n" ex_now)).
Proof.
  apply (pop_text_injective (ex_proof "n" ex_now) (with_signature zero_signature (ex_proof "n" ex_now)));
    vm_compute; reflexivity.
Defined.

(** One provider behind two transports with different freshness windows can
    accept a proof twice: the sweep of the shorter window removes the entry of a
    proof that is still fresh for the longer one. *)
Theorem pop_replay_two_windows :
  let accepted skew a p := is_ok (try_attempt skew a p).1 in
  let p1 := (try_attempt (10 * Minute)%Z (ex_attempt "n" ex_now ex_now) ex_bob).2 in
  let later m := (ex_now + m * Minute)%Z in
  let p2 := (try_attempt Minute (ex_attempt "m" (later 3%Z) (later 3%Z)) p1).2 in
  accepted (10 * Minute)%Z (ex_attempt "n" ex_now ex_now) ex_bob = true ∧
  accepted (10 * Minute)%Z (ex_attempt "n" ex_now (later 4%Z)) p2 = true.
Proof. vm_compute. done. Qed.
