(* ===== verification/Transport.v ===== *)
(** * Transports: transport.go and the in-process parts of the adapters

    Capabilities and requirements, the registry and its route validation, the
    handler tables that the QUIC, TCP and gRPC adapters share, and the memory
    transport.  A handler is an abstract token [H]; what calling it does is given
    by a section variable, so that handlers that publish, store or verify are all
    covered. *)

From Stdlib Require Import ZArith Lia Ascii String Sorted.
From stdpp Require Import base list gmap sets strings sorting.
From S2P Require Import Prelude GoRegexp Model.

(** ** Capabilities *)

Record Capabilities := mkCapabilities {
  Reliable : bool; Ordered : bool; Durable : bool; Replay : bool;
  Bidirectional : bool; ConsumerGroups : bool; Streaming : bool; ExecutionSettlement : bool;
}.

Record Requirement := mkRequirement {
  rq_Reliable : bool; rq_Ordered : bool; rq_Durable : bool; rq_Replay : bool;
  rq_Bidirectional : bool; rq_ConsumerGroups : bool; rq_Streaming : bool;
  rq_ExecutionSettlement : bool;
}.

(** [Capabilities.Satisfies]. *)
Definition Satisfies (c : Capabilities) (r : Requirement) : result () :=
  if r.(rq_Reliable) && negb c.(Reliable) then Err (ErrNew "reliable delivery required")
  else if r.(rq_Ordered) && negb c.(Ordered) then Err (ErrNew "ordering required")
  else if r.(rq_Durable) && negb c.(Durable) then Err (ErrNew "durability required")
  else if r.(rq_Replay) && negb c.(Replay) then Err (ErrNew "replay required")
  else if r.(rq_Bidirectional) && negb c.(Bidirectional) then Err (ErrNew "bidirectional transport required")
  else if r.(rq_ConsumerGroups) && negb c.(ConsumerGroups) then Err (ErrNew "consumer groups required")
  else if r.(rq_Streaming) && negb c.(Streaming) then Err (ErrNew "streaming required")
  else if r.(rq_ExecutionSettlement) && negb c.(ExecutionSettlement)
  then Err (ErrNew "execution settlement required")
  else Ok tt.

(** What the adapters advertise. *)
Definition caps_memory : Capabilities := mkCapabilities true true false false true false true true.
Definition caps_stream : Capabilities := mkCapabilities true true false false true false true false.
Definition caps_nats (jetStream : bool) : Capabilities :=
  if jetStream then mkCapabilities true false true true true true true true
  else mkCapabilities true false false false true false true false.
Definition caps_kafka : Capabilities := mkCapabilities true true true true false true true true.
Definition caps_rabbit : Capabilities := mkCapabilities true false true false true true false true.
Definition caps_redis : Capabilities := mkCapabilities true true true true false true true true.
Definition caps_mqtt : Capabilities := mkCapabilities true true false false true false true false.

(** ** Registry *)

(** What the registry needs of a [Transport]: its name and capabilities, which
    do not change. *)
Record Transport := mkTransport { tr_Name : string; tr_Capabilities : Capabilities }.

Module Registry.
Abbreviation state := (gmap string Transport).

Definition NewRegistry : state := ∅.

(** [Register]; [None] is a nil interface. *)
Definition Register (t : option Transport) : io state (result ()) := λ r,
  match t with
  | None => (Err (ErrNew "transport with name required"), r)
  | Some t =>
      if bool_decide (t.(tr_Name) = "") then (Err (ErrNew "transport with name required"), r)
      else match r !! t.(tr_Name) with
      | Some _ => (Err (ErrFmt "transport %q already registered" [t.(tr_Name)]), r)
      | None => (Ok tt, <[t.(tr_Name) := t]> r)
      end
  end.

(** [Get]. *)
Definition Get (r : state) (name : string) : result Transport :=
  match r !! name with
  | None => Err (ErrFmt "unknown transport %q" [name])
  | Some t => Ok t
  end.

Record Route := mkRoute { Ingress : string; Backbone : string; Egress : string; Requires : Requirement }.

(** The loop of [ValidateRoute] over the stage names. *)
Fixpoint stages (r : state) (names : list string) (hasDurable hasSettlement : bool)
  : result (bool * bool) :=
  match names with
  | [] => Ok (hasDurable, hasSettlement)
  | name :: names' =>
      if bool_decide (name = "") then stages r names' hasDurable hasSettlement
      else try t := Get r name in
        let c := t.(tr_Capabilities) in
        stages r names' (hasDurable || c.(Durable)) (hasSettlement || c.(ExecutionSettlement))
  end.

(** [ValidateRoute]. *)
Definition ValidateRoute (r : state) (route : Route) : result () :=
  try (hasDurable, hasSettlement) :=
    stages r [route.(Ingress); route.(Backbone); route.(Egress)] false false in
  if route.(Requires).(rq_Durable) && negb hasDurable then Err (ErrNew "route has no durable stage")
  else if route.(Requires).(rq_ExecutionSettlement) && negb hasSettlement
  then Err (ErrNew "route has no execution-settlement stage")
  else Ok tt.

(** [Names]: the keys, sorted. *)
Definition Names (r : state) : list string := merge_sort str_le (map_to_list r).*1.

(** [Close]: every transport is closed, in the iteration order of the map; the
    first error is returned. *)
Section close.
Context {W : Type} (close : Transport → io W (result ())).

Fixpoint close_all (ts : list Transport) (first : result ()) : io W (result ()) :=
  match ts with
  | [] => io_ret first
  | t :: ts' =>
      do res <- close t;
      close_all ts' (match res, first with Err e, Ok _ => Err e | _, _ => first end)
  end.
Definition Close (order : list Transport) : io W (result ()) := close_all order (Ok tt).
End close.
End Registry.

(** ** Subscriptions and handler tables *)

(** [funcSubscription]: the close function runs once. *)
Definition close_once {W} (close : io W (result ())) (done : bool) : io W (result () * bool) :=
  if done then io_ret (Ok tt, true)
  else do res <- close; io_ret (res, true).

(** [map[string][]Handler] of the QUIC, TCP and gRPC adapters; a closed entry is
    a nil handler. *)
Module Handlers.
Abbreviation table H := (gmap string (list (option H))).

Section handlers.
Context {H : Type}.

Definition at_event (event : string) (t : table H) : list (option H) := default [] (t !! event).

(** The table update of [Subscribe] ([addLocal] for gRPC): the new table and the
    index the subscription keeps. *)
Definition Subscribe (event : string) (h : H) (t : table H) : nat * table H :=
  let hs := at_event event t ++ [Some h] in
  (length hs - 1, <[event := hs]> t).

(** Closing the subscription of index [idx]. *)
Definition Unsubscribe (event : string) (idx : nat) (t : table H) : table H :=
  if (idx <? length (at_event event t))%nat
  then <[event := <[idx := None]> (at_event event t)]> t
  else t.

(** The handlers [dispatch] calls, in order: those of the event, then those of
    the wildcard. *)
Definition targets (event : string) (t : table H) : list H :=
  omap id (at_event event t ++ at_event "*" t).

Context {W : Type} (invoke : H → Envelope → io W (result ())).

(** [dispatch] of QUIC and TCP: errors are ignored. *)
Fixpoint call_all (hs : list H) (env : Envelope) : io W () :=
  match hs with
  | [] => io_ret tt
  | h :: hs' => do _ <- invoke h env; call_all hs' env
  end.
Definition dispatch (t : table H) (env : Envelope) : io W () := call_all (targets env.(env_Event) t) env.

(** [dispatch] of gRPC and delivery of the memory transport: the first error
    stops. *)
Fixpoint call_until_error (hs : list H) (env : Envelope) : io W (result ()) :=
  match hs with
  | [] => io_ret (Ok tt)
  | h :: hs' => try _ <- invoke h env; call_until_error hs' env
  end.
Definition dispatch_grpc (t : table H) (env : Envelope) : io W (result ()) :=
  call_until_error (targets env.(env_Event) t) env.
End handlers.
End Handlers.

(** ** The memory transport *)

Module MemoryTransport.
Section memory.
Context {H : Type}.

Record memorySub := { ms_event : string; ms_handler : H }.
Record state := mkState { next : Z; subs : gmap Z memorySub }.

Definition NewMemoryTransport : state := mkState 0 ∅.

(** [Subscribe]: the id the subscription keeps, and the new state; ids are
    [uint64]. *)
Definition Subscribe (event : string) (h : H) (m : state) : Z * state :=
  (m.(next), mkState (uint64 (m.(next) + 1)) (<[m.(next) := {| ms_event := event; ms_handler := h |}]> m.(subs))).

Definition Unsubscribe (id : Z) (m : state) : state := mkState m.(next) (delete id m.(subs)).

Definition Close (m : state) : state := mkState m.(next) ∅.

Definition matches (env : Envelope) (s : memorySub) : bool :=
  bool_decide (s.(ms_event) = "*") || bool_decide (s.(ms_event) = env.(env_Event)).

Context {W : Type} (invoke : H → Envelope → io W (result ())).

Fixpoint deliver (order : list memorySub) (env : Envelope) : io W (result ()) :=
  match order with
  | [] => io_ret (Ok tt)
  | sub :: order' =>
      if matches env sub
      then try _ <- invoke sub.(ms_handler) env; deliver order' env
      else deliver order' env
  end.

(** [Publish]; [order] is the iteration order of the subscription map. *)
Definition Publish (order : list memorySub) (env : Envelope) : io W (result ()) :=
  match Validate env with
  | Err e => io_ret (Err e)
  | Ok _ => deliver order env
  end.

(** The orders a range over the map may take. *)
Definition iteration (m : state) (order : list memorySub) : Prop :=
  order ≡ₚ (map_to_list m.(subs)).*2.
End memory.
Arguments memorySub : clear implicits.
Arguments state : clear implicits.
End MemoryTransport.

(** ** Reference definitions *)

(** A named stage of a route that is registered with a capability. *)
Definition has_stage (r : Registry.state) (route : Registry.Route) (cap : Capabilities → bool) : Prop :=
  ∃ name t, name ∈ [route.(Registry.Ingress); route.(Registry.Backbone); route.(Registry.Egress)] ∧
    name ≠ "" ∧ r !! name = Some t ∧ cap t.(tr_Capabilities) = true.

(** Subscriptions in the order they were made, each with its handler until it is
    closed. *)
Module Subscriptions.
Section subscriptions.
Context {H : Type}.

Inductive op := OpSubscribe (event : string) (h : H) | OpClose (k : nat).

Definition spec_step (all : list (string * option H)) (o : op) : list (string * option H) :=
  match o with
  | OpSubscribe event h => all ++ [(event, Some h)]
  | OpClose k => alter (λ x, (x.1, None)) k all
  end.

Definition of_event (event : string) (all : list (string * option H)) : list (string * option H) :=
  filter (λ x, x.1 = event) all.

(** The live handlers of an event, in order. *)
Definition live (event : string) (all : list (string * option H)) : list H :=
  omap snd (of_event event all).

(** The same operations on a handler table; the clients keep the event and the
    index of each subscription. *)
Definition table_step (s : Handlers.table H * list (string * nat)) (o : op)
  : Handlers.table H * list (string * nat) :=
  match o with
  | OpSubscribe event h =>
      let '(idx, t') := Handlers.Subscribe event h s.1 in (t', s.2 ++ [(event, idx)])
  | OpClose k =>
      match s.2 !! k with
      | Some (event, idx) => (Handlers.Unsubscribe event idx s.1, s.2)
      | None => s
      end
  end.
End subscriptions.
Arguments op : clear implicits.
End Subscriptions.

(** * Lemmas *)

Section registry.
Import Registry.

Lemma stages_ok r names d s d' s' :
  stages r names d s = Ok (d', s') ↔
  (∀ name, name ∈ names → name ≠ "" → is_Some (r !! name)) ∧
  d' = d || existsb (λ name, match r !! name with
                             | Some t => negb (bool_decide (name = "")) && t.(tr_Capabilities).(Durable)
                             | None => false end) names ∧
  s' = s || existsb (λ name, match r !! name with
                             | Some t => negb (bool_decide (name = "")) && t.(tr_Capabilities).(ExecutionSettlement)
                             | None => false end) names.
Proof.
  revert d s. induction names as [|name names IH]; intros d s; cbn [stages existsb].
  - rewrite !orb_false_r. split; [intros [= <- <-]; set_solver|naive_solver].
  - case_bool_decide as Hn.
    + subst name. rewrite IH. destruct (r !! ""); simpl; set_solver.
    + unfold Get. destruct (r !! name) as [t|] eqn:Ht.
      * rewrite IH, !orb_assoc. split; [|set_solver].
        intros (Ha&->&->). split_and!; [|done|done].
        intros n [->|Hin]%elem_of_cons; [by rewrite Ht|by apply Ha].
      * split; [done|]. intros (Ha&_). destruct (Ha name) as [? ?]; [set_solver|done|congruence].
Qed.

Lemma existsb_stage r route (cap : Capabilities → bool) :
  existsb (λ name, match r !! name with
                   | Some t => negb (bool_decide (name = "")) && cap t.(tr_Capabilities)
                   | None => false end) [Ingress route; Backbone route; Egress route] = true ↔
  has_stage r route cap.
Proof.
  rewrite existsb_exists. unfold has_stage. split.
  - intros (name&Hin&H). destruct (r !! name) as [t|] eqn:E; [|done]. bool_prop.
    exists name, t. split_and!; try done. by apply list_elem_of_In.
  - intros (name&t&Hin&Hne&Ht&Hc). exists name. split; [by apply list_elem_of_In|].
    rewrite Ht, Hc. by rewrite bool_decide_eq_false_2.
Qed.
End registry.

Section subscriptions.
Import Subscriptions.
Context {H : Type}.
Implicit Types (all : list (string * option H)) (ev : string).

(** The table holds, per event, every subscription ever made, closed ones as
    nil; a client's index counts the earlier subscriptions of the same event. *)
Definition represents (s : Handlers.table H * list (string * nat)) all : Prop :=
  (∀ ev, Handlers.at_event ev s.1 = (of_event ev all).*2) ∧
  length s.2 = length all ∧
  ∀ k x, all !! k = Some x → s.2 !! k = Some (x.1, length (of_event x.1 (take k all))).

Lemma omap_id_snd all : omap id all.*2 = omap snd all.
Proof. induction all as [|[ev [h|]] all IH]; [done|by apply (f_equal (cons h))|exact IH]. Qed.

Lemma of_event_middle ev l1 (x : string * option H) l2 :
  of_event ev (l1 ++ x :: l2) =
  of_event ev l1 ++ (if decide (x.1 = ev) then [x] else []) ++ of_event ev l2.
Proof.
  unfold of_event. rewrite filter_app.
  destruct (decide (x.1 = ev)) as [E|E];
    [by rewrite filter_cons_True by done|by rewrite filter_cons_False by done].
Qed.

Lemma represents_subscribe s all ev h :
  represents s all → represents (table_step s (OpSubscribe ev h)) (spec_step all (OpSubscribe ev h)).
Proof.
  intros (Ht&Hlen&Hh). destruct s as [t hs]; simpl in *. split_and!; simpl.
  - intros ev'. unfold Handlers.at_event. destruct (decide (ev' = ev)) as [->|Hne].
    + rewrite lookup_insert_eq, of_event_middle, decide_True by done. simpl.
      fold (Handlers.at_event ev t). by rewrite Ht, !fmap_app.
    + rewrite lookup_insert_ne by done. rewrite of_event_middle, decide_False by (simpl; congruence).
      simpl. rewrite app_nil_r. apply Ht.
  - rewrite !length_app. simpl. lia.
  - intros k x Hx. apply lookup_app_Some in Hx as [Hx|[Hk Hx]].
    + pose proof (lookup_lt_Some _ _ _ Hx). rewrite lookup_app_l by lia. rewrite (Hh _ _ Hx).
      by rewrite take_app_le by lia.
    + apply list_lookup_singleton_Some in Hx as [Hz <-]. assert (k = length all) as -> by lia.
      rewrite take_app_length, <- Hlen, list_lookup_middle by done. simpl.
      rewrite length_app, Ht, length_fmap. simpl. f_equal. f_equal. lia.
Qed.

Lemma represents_close s all k :
  represents s all → represents (table_step s (OpClose k)) (spec_step all (OpClose k)).
Proof.
  intros (Ht&Hlen&Hh). destruct s as [t hs]; simpl in *.
  destruct (all !! k) as [[ev x]|] eqn:Hk.
  - rewrite (Hh _ _ Hk). apply list_elem_of_split_length in Hk as (l1&l2&->&Hl1). subst k.
    rewrite take_app_length, alter_app_r_alt, Nat.sub_diag by done. simpl.
    assert (length (of_event ev l1) < length (Handlers.at_event ev t)) as Hlt.
    { rewrite Ht, length_fmap, of_event_middle, decide_True, !length_app by done. simpl. lia. }
    unfold Handlers.Unsubscribe. rewrite (proj2 (Nat.ltb_lt _ _) Hlt). split_and!; simpl.
    + intros ev'. unfold Handlers.at_event at 1. destruct (decide (ev' = ev)) as [->|Hne].
      * rewrite lookup_insert_eq. simpl. rewrite Ht, !of_event_middle, !decide_True, !fmap_app by done.
        rewrite insert_app_r_alt by (rewrite length_fmap; done). rewrite length_fmap, Nat.sub_diag. done.
      * rewrite lookup_insert_ne by done. fold (Handlers.at_event ev' t).
        rewrite Ht, !of_event_middle, !decide_False by (simpl; congruence). done.
    + rewrite !length_app in *. simpl in *. lia.
    + intros j y Hj. apply lookup_app_Some in Hj as [Hj|[Hle Hj]].
      * pose proof (lookup_lt_Some _ _ _ Hj). rewrite (Hh j y) by (by rewrite lookup_app_l by lia).
        by rewrite !take_app_le by lia.
      * destruct (j - length l1) as [|i] eqn:Ei; simpl in Hj.
        -- injection Hj as <-. assert (j = length l1) as -> by lia. simpl.
           rewrite (Hh (length l1) (ev, x)) by (by rewrite list_lookup_middle by done).
           by rewrite !take_app_length.
        -- rewrite (Hh j y) by (rewrite lookup_app_r, Ei by lia; done).
           rewrite !take_app_ge, Ei by lia. simpl.
           rewrite !of_event_middle, !length_app. simpl. by destruct (decide (ev = y.1)).
  - destruct (hs !! k) eqn:Hk'; [apply lookup_lt_Some in Hk'; apply lookup_ge_None in Hk; lia|].
    rewrite (list_alter_ext _ id all all k), list_alter_id; [done|done|by rewrite Hk|done].
Qed.
End subscriptions.

Lemma guard_ok (a b : bool) e (k : result ()) :
  (if a && negb b then Err e else k) = Ok tt ↔ (a → b) ∧ k = Ok tt.
Proof. destruct a, b; simpl; naive_solver. Qed.

(** * Theorems *)

(** [ValidateRoute] accepts exactly the routes whose named stages are all
    registered, with a durable stage if durability is required and a settling
    stage if execution settlement is required. *)
Theorem route_validation r route :
  Registry.ValidateRoute r route = Ok tt ↔
  (∀ name, name ∈ [Registry.Ingress route; Registry.Backbone route; Registry.Egress route] →
     name ≠ "" → is_Some (r !! name)) ∧
  (rq_Durable (Registry.Requires route) = true → has_stage r route Durable) ∧
  (rq_ExecutionSettlement (Registry.Requires route) = true → has_stage r route ExecutionSettlement).
Proof.
  rewrite <- !existsb_stage. unfold Registry.ValidateRoute.
  destruct (Registry.stages r _ false false) as [[d s]|] eqn:E.
  - apply stages_ok in E as (Ha&->&->). rewrite !orb_false_l.
    destruct (rq_Durable _), (rq_ExecutionSettlement _), (existsb _ _), (existsb _ _); naive_solver.
  - split; [done|]. intros (Ha&_). exfalso.
    pose proof (proj2 (stages_ok r [Registry.Ingress route; Registry.Backbone route; Registry.Egress route]
      false false _ _) (conj Ha (conj eq_refl eq_refl))) as Ho. congruence.
Qed.

(** The six other requirements of a route are never looked at: changing them
    does not change the verdict of [ValidateRoute], although [Satisfies] checks
    all eight. *)
Theorem route_ignores_requirements r i b e rq rq' c :
  rq_Durable rq = rq_Durable rq' → rq_ExecutionSettlement rq = rq_ExecutionSettlement rq' →
  Registry.ValidateRoute r (Registry.mkRoute i b e rq) = Registry.ValidateRoute r (Registry.mkRoute i b e rq') ∧
  (Satisfies c rq = Ok tt ↔
   (rq_Reliable rq → Reliable c) ∧ (rq_Ordered rq → Ordered c) ∧ (rq_Durable rq → Durable c) ∧
   (rq_Replay rq → Replay c) ∧ (rq_Bidirectional rq → Bidirectional c) ∧
   (rq_ConsumerGroups rq → ConsumerGroups c) ∧ (rq_Streaming rq → Streaming c) ∧
   (rq_ExecutionSettlement rq → ExecutionSettlement c)).
Proof.
  intros Hd Hs. split; [unfold Registry.ValidateRoute; simpl; by rewrite Hd, Hs|].
  unfold Satisfies. rewrite !guard_ok. tauto.
Qed.

(** C38: Handler tables implement subscriptions: after any sequence of [Subscribe]
    and [Close] calls, by any clients, [dispatch] calls exactly the handlers of
    the live subscriptions to the event, in the order they were made, followed
    by those of the live wildcard subscriptions; closing one subscription, once
    or twice, affects no other. *)
Theorem handlers_refine {H} (ops : list (Subscriptions.op H)) event :
  let '(t, _) := foldl Subscriptions.table_step (∅, []) ops in
  let all := foldl Subscriptions.spec_step [] ops in
  Handlers.targets event t = Subscriptions.live event all ++ Subscriptions.live "*" all.
Proof.
  assert (∀ s all, represents s all →
    represents (foldl Subscriptions.table_step s ops) (foldl Subscriptions.spec_step all ops)) as Hr.
  { induction ops as [|[ev h|k] ops IH]; intros s all Hs; [done|..]; apply IH;
      [by apply represents_subscribe|by apply represents_close]. }
  destruct (Hr (∅, []) []) as (Ht&_); [by split_and!|].
  destruct (foldl _ (∅, []) ops) as [t hs]; simpl in *.
  unfold Handlers.targets, Subscriptions.live. rewrite !Ht, omap_app, !omap_id_snd. done.
Qed.

Lemma route_ignores_requirements_witness :
  let none := mkRequirement false false false false false false false false in
  let ordered := mkRequirement false true false true false false false false in
  Registry.ValidateRoute {["mqtt" := mkTransport "mqtt" caps_mqtt]} (Registry.mkRoute "mqtt" "" "" ordered) =
  Registry.ValidateRoute {["mqtt" := mkTransport "mqtt" caps_mqtt]} (Registry.mkRoute "mqtt" "" "" none).
Proof. intros none ordered. apply (route_ignores_requirements _ _ _ _ ordered none caps_mqtt); reflexivity. Defined.
