(* ===== verification/Secure.v ===== *)
(** * Signed envelopes over any transport: secure_transport.go

    The trust store, the signing [Publish] and the verifying handler that
    [SecureTransport.Subscribe] puts in front of the application's handler.  The
    world of a handler is the provider (with its replay cache) and the state of
    the application. *)

From Stdlib Require Import ZArith Lia Ascii String.
From stdpp Require Import base list gmap sets strings.
From S2P Require Import Prelude GoRegexp JsonScan Utf8 JsonText JsonRoundtrip Sha256 Model Json.
From S2P Require Import Crypto CryptoExample CryptoTheorems Transport.

(** ** Trust store *)

Module StaticTrustStore.
Abbreviation state := (gmap string PublicBundle).
Definition NewStaticTrustStore : state := ∅.
Definition Add (p : PublicBundle) (s : state) : state := <[p.(pb_KeyID) := p]> s.
Definition Resolve (s : state) (id : string) : option PublicBundle := s !! id.
End StaticTrustStore.

Module SecureTransport.
Section secure.
Context {prims : Primitives} {A H : Type}.
(** The application's handlers. *)
Context (app : H → Envelope → io A (result ())).

Record config := mkConfig {
  inner_name : string;
  trust : StaticTrustStore.state;
  freshness : Z;
}.

(** [WrapSecureTransport] of arguments that are there: the default window. *)
Definition Wrap (name : string) (trust : StaticTrustStore.state) (freshness : Z) : config :=
  mkConfig name trust (if (freshness <=? 0)%Z then 2 * Minute else freshness)%Z.

(** [WrapSecureTransport]; [None] is a nil argument. *)
Definition WrapSecureTransport (inner : option Transport) (provider : option CryptoProvider)
  (trust : option StaticTrustStore.state) (freshness : Z) : result config :=
  match inner, provider, trust with
  | Some t, Some _, Some tr => Ok (Wrap t.(tr_Name) tr freshness)
  | _, _, _ => Err (ErrNew "inner transport, crypto provider and trust store are required")
  end.

Definition target (c : config) : string := ("ubiq://transport/" ++ c.(inner_name))%string.

(** The envelope [Publish] hands to the inner transport. *)
Definition sign (c : config) (p : CryptoProvider) (env : Envelope) (now : Z) (nonce : result bytes)
  : result Envelope :=
  let unsigned := set_Security None env in
  try proof := NewPoP p "PUBLISH" (target c) unsigned now nonce in
  Ok (set_Security (Some {| ms_KeyID := (Public p).(pb_KeyID); ms_Proof := proof |}) env).

(** [Publish], over the publication [inner] of the wrapped transport. *)
Definition Publish {W} (inner : Envelope → io W (result ())) (c : config) (p : CryptoProvider)
  (env : Envelope) (now : Z) (nonce : result bytes) : io W (result ()) :=
  match sign c p env now nonce with
  | Err e => io_ret (Err e)
  | Ok signed => inner signed
  end.

(** The handler [Subscribe] registers with the inner transport around [h]. *)
Definition handle (c : config) (h : H) (now : Z) (env : Envelope)
  : io (CryptoProvider * A) (result ()) := λ '(p, a),
  match env.(env_Security) with
  | None => (Err (ErrNew "unsigned UbiQ envelope"), (p, a))
  | Some sec =>
  match StaticTrustStore.Resolve c.(trust) sec.(ms_KeyID) with
  | None => (Err (ErrFmt "untrusted UbiQ holder %q" [sec.(ms_KeyID)]), (p, a))
  | Some peer =>
    let unsigned := set_Security None env in
    match VerifyPoP peer sec.(ms_Proof) "PUBLISH" (target c) unsigned now c.(freshness) p with
    | (Err e, p') => (Err e, (p', a))
    | (Ok _, p') => let (r, a') := app h unsigned a in (r, (p', a'))
    end
  end end.
End secure.
End SecureTransport.

(** * Lemmas *)

Lemma hexdigit_ascii n : (N_of_ascii (hexdigit n) < 128)%N.
Proof.
  unfold hexdigit. destruct (_ !! _) as [c|] eqn:E; [|done].
  apply list_elem_of_lookup_2 in E. revert E. generalize c. clear c.
  apply Forall_forall. by repeat constructor.
Qed.

Lemma utf8_ascii l : Forall (λ c, (N_of_ascii c < 128)%N) l → utf8_valid l = true.
Proof.
  induction 1 as [|c l Hc _ IH]; [done|]. rewrite utf8_valid_eq. unfold rune_len.
  apply N.ltb_lt in Hc. by rewrite Hc.
Qed.

Lemma utf8_app_ascii l l' :
  Forall (λ c, (N_of_ascii c < 128)%N) l → utf8_valid (l ++ l') = utf8_valid l'.
Proof.
  induction 1 as [|c l Hc _ IH]; [done|]. simpl app. rewrite utf8_valid_eq. unfold rune_len.
  apply N.ltb_lt in Hc. by rewrite Hc.
Qed.

Lemma utf8_hex l : utf8_string (EncodeToString l) = true.
Proof.
  unfold utf8_string, EncodeToString. rewrite String.list_ascii_of_string_of_list_ascii.
  apply utf8_ascii. induction l as [|c l IH]; [constructor|].
  cbn. repeat (constructor; [apply hexdigit_ascii|]). exact IH.
Qed.

Section secure.
Import SecureTransport.
Context {prims : Primitives} {A H : Type} (app : H → Envelope → io A (result ())).

(** Whether the application's handler gets to see an envelope. *)
Definition accepts (c : config) (now : Z) (env : Envelope) (p : CryptoProvider) : bool :=
  match env.(env_Security) with
  | None => false
  | Some sec =>
      match StaticTrustStore.Resolve c.(trust) sec.(ms_KeyID) with
      | None => false
      | Some peer =>
          is_ok (VerifyPoP peer sec.(ms_Proof) "PUBLISH" (target c) (set_Security None env) now c.(freshness) p).1
      end
  end.

(** The verification a delivery amounts to. *)
Definition attempt_of (c : config) (now : Z) (env : Envelope) (sec : MessageSecurity) (peer : PublicBundle) : attempt :=
  Attempt peer sec.(ms_Proof) "PUBLISH" (target c) (set_Security None env) now.

Lemma handle_cases c h now env p a :
  (∃ sec peer, env.(env_Security) = Some sec ∧ c.(trust) !! sec.(ms_KeyID) = Some peer ∧
     let '(v, p') := try_attempt c.(freshness) (attempt_of c now env sec peer) p in
     accepts c now env p = is_ok v ∧
     handle app c h now env (p, a) =
       match v with
       | Err e => (Err e, (p', a))
       | Ok _ => let (r, a') := app h (set_Security None env) a in (r, (p', a'))
       end) ∨
  (accepts c now env p = false ∧ ∃ e, handle app c h now env (p, a) = (Err e, (p, a))).
Proof.
  unfold handle, accepts. destruct (env_Security env) as [sec|]; [|right; eauto].
  unfold StaticTrustStore.Resolve. destruct (trust c !! ms_KeyID sec) as [peer|] eqn:Ht; [|right; eauto].
  left. exists sec, peer. unfold try_attempt, attempt_of. simpl.
  destruct (VerifyPoP _ _ _ _ _ _ _ p) as [v p']. by split_and!.
Qed.

(** Deliveries of signed envelopes to handlers that share a provider. *)
Record delivery := Delivery { dl_config : config; dl_handler : H; dl_now : Z; dl_env : Envelope }.

Definition deliver_one (w : CryptoProvider * A) (d : delivery) : CryptoProvider * A :=
  (handle app d.(dl_config) d.(dl_handler) d.(dl_now) d.(dl_env) w).2.

Lemma spent_delivery skew pr now2 d p a :
  (0 ≤ skew < two62)%Z → d.(dl_config).(freshness) = skew → int64_range d.(dl_now) →
  (d.(dl_now) - skew ≤ now2)%Z →
  spent skew pr now2 p → spent skew pr now2 (deliver_one (p, a) d).1.
Proof.
  intros Hs Hf Hn Hc Hp. unfold deliver_one.
  destruct (handle_cases (dl_config d) (dl_handler d) (dl_now d) (dl_env d) p a)
    as [(sec&peer&_&_&Hh)|[_ [e ->]]]; [|done].
  rewrite Hf in Hh.
  pose proof (spent_attempt skew skew pr now2 (attempt_of (dl_config d) (dl_now d) (dl_env d) sec peer) p ltac:(lia) ltac:(lia) Hn Hc Hp) as Hsp.
  destruct (try_attempt _ _ p) as [v p']. destruct Hh as [_ ->]. simpl in *.
  destruct v; [destruct (app _ _ a)|]; done.
Qed.

Lemma spent_deliveries skew pr now2 l w :
  (0 ≤ skew < two62)%Z →
  Forall (λ d, d.(dl_config).(freshness) = skew ∧ int64_range d.(dl_now) ∧ (d.(dl_now) - skew ≤ now2)%Z) l →
  spent skew pr now2 w.1 → spent skew pr now2 (foldl deliver_one w l).1.
Proof.
  intros Hs Hl. revert w. induction Hl as [|d l (Hf&Hn&Hc) _ IH]; intros [p a] Hp; [done|].
  apply IH. by apply spent_delivery.
Qed.

Lemma accepted_spent c h now env sec p a now2 :
  env.(env_Security) = Some sec → accepts c now env p = true →
  spent c.(freshness) sec.(ms_Proof) now2 (handle app c h now env (p, a)).2.1.
Proof.
  intros Hsec Hacc. destruct (handle_cases c h now env p a) as [(sec'&peer&Hs&_&Hh)|[? _]]; [|congruence].
  simplify_eq. left. destruct (try_attempt _ _ p) as [v p'] eqn:Ev. destruct Hh as [Hv ->].
  rewrite Hacc in Hv. destruct v as [[]|]; [|done]. unfold try_attempt, VerifyPoP in Ev.
  destruct (checkPoP _ _ _ _ _ _ _); [|done]. destruct (sweep _ _ !! _); [done|].
  injection Ev as <-. destruct (app _ _ a); simpl. apply lookup_insert_eq.
Qed.

Lemma spent_refused c h now env sec p a :
  (0 ≤ c.(freshness) < two62)%Z → int64_range now → env.(env_Security) = Some sec →
  spent c.(freshness) sec.(ms_Proof) now p →
  ∃ e p', handle app c h now env (p, a) = (Err e, (p', a)).
Proof.
  intros Hs Hn Hsec Hp. destruct (handle_cases c h now env p a) as [(sec'&peer&Hs'&_&Hh)|[_ [e He]]]; [|eauto].
  simplify_eq. pose proof (spent_rejected (freshness c) (attempt_of c now env sec peer) p Hs Hn Hp) as Hr.
  destruct (try_attempt _ _ p) as [v p']. simpl in Hr. destruct Hh as [_ ->]. destruct v; [done|eauto].
Qed.
End secure.

Section signing.
Import SecureTransport.
Context {prims : Primitives}.

(** What [NewPoP] makes can be written and read back. *)
Lemma NewPoP_wf p method target env now nb pr :
  utf8_string p.(keyID) = true → utf8_string method = true → utf8_string target = true →
  NewPoP p method target env now nb = Ok pr → wf_proof pr = true.
Proof.
  intros Hk Hm Ht. unfold NewPoP, DigestHex. destruct (Digest env) as [d|]; [|done].
  destruct nb as [nb|]; [|done]. destruct (Sign _ _) as [sg|]; [|done]. intros [= <-].
  unfold wf_proof. simpl. rewrite Hk, Hm, Ht, !utf8_hex. simpl.
  apply bool_decide_eq_true. apply int64_bounds.
Qed.

Lemma target_utf8 c : utf8_string c.(inner_name) = true → utf8_string (target c) = true.
Proof.
  intros Hn. unfold utf8_string, target. rewrite to_bytes_app, utf8_app_ascii; [done|].
  by repeat constructor.
Qed.

Lemma sign_inv c p env now nb signed :
  sign c p env now nb = Ok signed →
  ∃ pr nonce, nb = Ok nonce ∧ NewPoP p "PUBLISH" (target c) (set_Security None env) now nb = Ok pr ∧
    signed = set_Security (Some {| ms_KeyID := p.(keyID); ms_Proof := pr |}) env ∧
    replayKey pr = (p.(keyID) ++ ":" ++ EncodeToString nonce)%string.
Proof.
  unfold sign. destruct (NewPoP _ _ _ _ _ _) as [pr|] eqn:E; [|done]. intros [= <-].
  pose proof E as E'. unfold NewPoP in E'. destruct (DigestHex _); [|done]. destruct nb as [nonce|]; [|done].
  destruct (Sign _ _); [|done]. injection E' as <-. eauto 10.
Qed.

Lemma wf_text_signed env m : wf_text env = true → wf_security m = true → wf_text (set_Security (Some m) env) = true.
Proof.
  unfold wf_text. destruct env; simpl. intros H Hm. bool_prop.
  repeat match goal with H : _ = true |- _ => rewrite H; clear H end. simpl.
  rewrite bool_decide_eq_true_2 by done. done.
Qed.

(** What [Publish] sends is valid and can be read back. *)
Lemma sign_text c p env now nb signed :
  Validate env = Ok tt → wf_text env = true → utf8_string p.(keyID) = true → utf8_string c.(inner_name) = true →
  sign c p env now nb = Ok signed → Validate signed = Ok tt ∧ wf_text signed = true.
Proof.
  intros Hv Hwf Hk Hn (pr&nonce&_&Hpop&->&_)%sign_inv. split; [exact Hv|].
  apply wf_text_signed; [done|]. unfold wf_security. simpl. rewrite Hk. simpl.
  eapply NewPoP_wf; [exact Hk| |by apply target_utf8|exact Hpop]. done.
Qed.

(** A signed envelope as the wire delivers it passes the receiver's checks. *)
Lemma handle_signed {laws : PrimitiveLaws prims} {A H} (app : H → Envelope → io A (result ()))
  c c' p q env now nonce signed h now' a :
  int64_range now → (0 ≤ c'.(freshness) < two63 - 1)%Z →
  (- c'.(freshness) ≤ now' - now ≤ c'.(freshness) - Millisecond)%Z →
  c'.(inner_name) = c.(inner_name) → c'.(trust) !! p.(keyID) = Some (Public p) →
  q.(replay) !! (p.(keyID) ++ ":" ++ EncodeToString nonce)%string = None →
  sign c p env now (Ok nonce) = Ok signed →
  ∃ q', handle app c' h now' (normalize signed) (q, a) =
    let (r, a') := app h (normalize (set_Security None env)) a in (r, (q', a')).
Proof.
  intros Hr Hs Hclock Hname Htrust Hfresh (pr&nonce'&[= <-]&Hpop&->&Hkey)%sign_inv.
  assert (target c' = target c) as Htgt by (unfold target; by rewrite Hname).
  destruct (pop_fresh_accepted_ok p q "PUBLISH" (target c) (set_Security None env) now (Ok nonce) pr now'
    (freshness c')) as [q' Hq']; [done|done|done|done|by rewrite Hkey|].
  exists q'. set (m := {| ms_KeyID := keyID p; ms_Proof := pr |}).
  unfold handle. simpl. unfold StaticTrustStore.Resolve. rewrite Htrust, Htgt.
  change (set_Security None (normalize (set_Security (Some m) env))) with (normalize (set_Security None env)).
  by rewrite Hq'.
Qed.
End signing.

(** * Theorems *)

Section theorems.
Import SecureTransport.
Context {prims : Primitives} {A H : Type} (app : H → Envelope → io A (result ())).

(** C5: What one side signs and sends, the other side verifies and hands to the
    application: the signed envelope encodes, the text decodes, and the
    receiver's handler calls the application's handler with the original
    envelope, security block removed and payload compacted, provided the
    receiver trusts the sender's bundle, has not seen the nonce, and the clocks
    agree within the window. *)
Theorem secure_end_to_end {laws : PrimitiveLaws prims} c c' p q env now nonce signed h now' a :
  Validate env = Ok tt → wf_text env = true → utf8_string p.(keyID) = true →
  utf8_string c.(inner_name) = true → int64_range now → (0 ≤ c'.(freshness) < two63 - 1)%Z →
  (- c'.(freshness) ≤ now' - now ≤ c'.(freshness) - Millisecond)%Z →
  c'.(inner_name) = c.(inner_name) → c'.(trust) !! p.(keyID) = Some (Public p) →
  q.(replay) !! (p.(keyID) ++ ":" ++ EncodeToString nonce)%string = None →
  sign c p env now (Ok nonce) = Ok signed →
  ∃ raw received q', encodeEnvelope signed = Ok raw ∧ decodeEnvelope raw = Ok received ∧
    handle app c' h now' received (q, a) =
    let (r, a') := app h (normalize (set_Security None env)) a in (r, (q', a')).
Proof.
  intros Hv Hwf Hk Hn Hr Hs Hclock Hname Htrust Hfresh Hsign.
  destruct (sign_text c p env now (Ok nonce) signed) as [Hv' Hwf']; [done..|].
  destruct (encode_ok signed Hv') as [raw Hraw].
  destruct (handle_signed app c c' p q env now nonce signed h now' a) as [q' Hq']; [done..|].
  exists raw, (normalize signed), q'. split_and!; [done|by apply decodeEnvelope_encode|done].
Qed.

(** C12: The application sees nothing unauthenticated: either its handler was not
    called and the delivery reports an error, or the envelope carries a proof,
    for this transport, from a holder in the trust store, whose hash is the
    digest of what the application is handed, made within the window, with both
    signatures of that holder valid, and not in the replay cache (an entry older
    than twice the window is forgotten). *)
Theorem secure_handler_sound c h now env p a r p' a' :
  (0 ≤ c.(freshness) < two63 - 1)%Z →
  handle app c h now env (p, a) = (r, (p', a')) →
  (is_ok r = false ∧ a' = a) ∨
  (∃ sec peer, env.(env_Security) = Some sec ∧ c.(trust) !! sec.(ms_KeyID) = Some peer ∧
     let pr := sec.(ms_Proof) in
     pr.(pop_Holder) = peer.(pb_KeyID) ∧ pr.(pop_Method) = "PUBLISH" ∧ pr.(pop_Target) = target c ∧
     (∀ at_, p.(replay) !! replayKey pr = Some at_ → (at_ < UnixMilli (now + int64 (-2 * c.(freshness))))%Z) ∧
     (- c.(freshness) ≤ now - of_UnixMilli pr.(pop_CreatedAtMS) ≤ c.(freshness))%Z ∧
     DigestHex (set_Security None env) = Ok pr.(pop_EnvelopeHash) ∧
     VerifyHybrid peer (unsigned_text pr) pr.(pop_Signature) = Ok tt ∧
     app h (set_Security None env) a = (r, a')).
Proof.
  intros Hs Hh. destruct (handle_cases app c h now env p a) as [(sec&peer&Hsec&Ht&Hc)|[_ [e He]]].
  - unfold try_attempt, attempt_of, VerifyPoP in Hc. simpl at_proof in Hc.
    cbn [at_peer at_proof at_method at_target at_env at_now] in Hc.
    destruct (checkPoP _ _ _ _ _ _ _) as [[]|] eqn:Hck.
    + apply checkPoP_ok in Hck as (?&?&?&?&?&?); [|done].
      destruct (sweep _ _ !! _) eqn:Hsw; destruct Hc as [_ Hc]; rewrite Hh in Hc; [left; naive_solver|].
      destruct (app h _ a) as [r2 a2] eqn:Happ. right. exists sec, peer. simplify_eq.
      cbv zeta. split_and!; first [done|lia|exact (sweep_None _ _ _ Hsw)].
    + destruct Hc as [_ Hc]. left. rewrite Hh in Hc. naive_solver.
  - left. rewrite Hh in He. naive_solver.
Qed.

(** A secure transport is made exactly when it has something to wrap, keys to
    sign with and somebody to trust; its window is then positive, the one asked for
    or two minutes, and its proofs name the wrapped transport. *)
Theorem wrap_complete inner provider trust asked :
  match WrapSecureTransport inner provider trust asked with
  | Ok c => ∃ t p tr, inner = Some t ∧ provider = Some p ∧ trust = Some tr ∧ c.(SecureTransport.trust) = tr ∧
      (0 < c.(freshness))%Z ∧ (0 < asked → c.(freshness) = asked)%Z ∧ target c = ("ubiq://transport/" ++ t.(tr_Name))%string
  | Err _ => inner = None ∨ provider = None ∨ trust = None
  end.
Proof.
  unfold WrapSecureTransport. destruct inner as [t|], provider as [p|], trust as [tr|]; auto.
  exists t, p, tr. unfold Wrap. simpl. destruct (Z.leb_spec asked 0); split_and!; try done; try lia.
Qed.

(** A signed envelope reaches the application at most once: after a delivery
    was accepted, and whatever was delivered since to handlers that share the
    provider, delivering the same envelope again, to any of them, is refused
    without calling the application, even if the first call failed. *)
Theorem redelivery_refused c1 h1 now1 env p a l c2 h2 now2 sec :
  (0 ≤ c2.(freshness) < two62)%Z → c1.(freshness) = c2.(freshness) → int64_range now2 →
  env.(env_Security) = Some sec → accepts c1 now1 env p = true →
  Forall (λ d, d.(dl_config).(freshness) = c2.(freshness) ∧ int64_range d.(dl_now) ∧
               (d.(dl_now) - c2.(freshness) ≤ now2)%Z) l →
  let w := foldl (deliver_one app) (handle app c1 h1 now1 env (p, a)).2 l in
  ∃ e p', handle app c2 h2 now2 env w = (Err e, (p', w.2)).
Proof.
  intros Hs Hf Hn Hsec Hacc Hl w. destruct w as [pw aw] eqn:Ew. simpl. subst w.
  apply (spent_refused app c2 h2 now2 env sec); [done|done|done|].
  pose proof (spent_deliveries app (freshness c2) (ms_Proof sec) now2 l
    (handle app c1 h1 now1 env (p, a)).2 Hs Hl) as Hd.
  rewrite Ew in Hd. simpl in Hd. apply Hd. rewrite <- Hf. by eapply accepted_spent.
Qed.

(** Two subscribers behind one provider cannot both receive a publication of
    the memory transport: when the first handler called accepts it, the second
    refuses the same proof as a replay, the publication fails, and only the
    first application handler has run. *)
Theorem secure_fanout_single c now_of env sec p a s1 s2 rest a1 :
  (0 ≤ c.(freshness) < two62)%Z → int64_range (now_of (MemoryTransport.ms_handler s2)) →
  Validate env = Ok tt → env.(env_Security) = Some sec →
  MemoryTransport.matches env s1 = true → MemoryTransport.matches env s2 = true →
  accepts c (now_of (MemoryTransport.ms_handler s1)) env p = true →
  app (MemoryTransport.ms_handler s1) (set_Security None env) a = (Ok tt, a1) →
  ∃ e p', MemoryTransport.Publish (λ h, handle app c h (now_of h)) (s1 :: s2 :: rest) env (p, a) =
    (Err e, (p', a1)).
Proof.
  intros Hs Hn Hv Hsec Hm1 Hm2 Hacc Happ. unfold MemoryTransport.Publish. rewrite Hv.
  cbn [MemoryTransport.deliver]. rewrite Hm1, Hm2. unfold io_bind, io_ret.
  pose proof (accepted_spent app c (MemoryTransport.ms_handler s1) _ env sec p a
    (now_of (MemoryTransport.ms_handler s2)) Hsec Hacc) as Hsp.
  destruct (handle_cases app c (MemoryTransport.ms_handler s1) (now_of (MemoryTransport.ms_handler s1)) env p a)
    as [(sec'&peer&_&_&Hh)|[? _]]; [|congruence].
  destruct (try_attempt _ _ p) as [v p1]. destruct Hh as [Hv1 Hh]. rewrite Hacc in Hv1.
  destruct v as [[]|]; [|done]. rewrite Happ in Hh. rewrite Hh in *. simpl in Hsp.
  destruct (spent_refused app c (MemoryTransport.ms_handler s2) _ env sec p1 a1 Hs Hn Hsec Hsp) as (e&p'&He).
  rewrite He. eauto.
Qed.
End theorems.

(** * Closed instances: one application that counts its calls. *)

#[local] Existing Instance toy.
#[local] Existing Instance toy_laws.

Import SecureTransport.

Definition ex_app (h : nat) (env : Envelope) : io (list nat) (result ()) := λ log, (Ok tt, log ++ [h]).
Definition ex_failing (h : nat) (env : Envelope) : io (list nat) (result ()) :=
  λ log, (Err (ErrNew "handler failed"), log ++ [h]).
Definition ex_config : config :=
  Wrap "memory" (StaticTrustStore.Add (Public ex_alice) StaticTrustStore.NewStaticTrustStore) 0.
Definition ex_signed : Envelope :=
  value_or ex_envelope (sign ex_config ex_alice ex_envelope ex_now (Ok (ex_nonce "n"))).
Definition ex_sub (h : nat) : MemoryTransport.memorySub nat :=
  {| MemoryTransport.ms_event := "*"; MemoryTransport.ms_handler := h |}.

Lemma secure_end_to_end_witness :
  ∃ raw received q', encodeEnvelope ex_signed = Ok raw ∧ decodeEnvelope raw = Ok received ∧
    handle ex_app ex_config 7 (ex_now + Second) received (ex_bob, []) = (Ok tt, (q', [7])).
Proof.
  apply (secure_end_to_end ex_app ex_config ex_config ex_alice ex_bob ex_envelope ex_now (ex_nonce "n") ex_signed 7
    (ex_now + Second) []); first [done | vm_compute; reflexivity].
Defined.

Lemma secure_handler_sound_witness :
  ∃ sec, ex_signed.(env_Security) = Some sec.
Proof.
  destruct (secure_handler_sound ex_app ex_config 7 (ex_now + Second) ex_signed ex_bob [] (Ok tt)
    (handle ex_app ex_config 7 (ex_now + Second) ex_signed (ex_bob, [])).2.1 [7])
    as [[H _]|(sec&_&H&_)]; [done|vm_compute; reflexivity|discriminate H|]. exists sec. exact H.
Defined.

Lemma redelivery_refused_witness :
  let w := (handle ex_failing ex_config 7 ex_now ex_signed (ex_bob, [])).2 in
  ∃ e p', handle ex_failing ex_config 7 (ex_now + Second) ex_signed w = (Err e, (p', [7])).
Proof.
  apply (redelivery_refused ex_failing ex_config 7 ex_now ex_signed ex_bob [] [] ex_config 7 (ex_now + Second)
    (default zero_security ex_signed.(env_Security)));
    [done|done|done|vm_compute; reflexivity|vm_compute; reflexivity|constructor].
Defined.

Lemma secure_fanout_single_witness :
  ∃ e p', MemoryTransport.Publish (λ h, handle ex_app ex_config h ex_now) [ex_sub 1; ex_sub 2] ex_signed (ex_bob, []) =
    (Err e, (p', [1])).
Proof.
  apply (secure_fanout_single ex_app ex_config (λ _, ex_now) ex_signed (default zero_security ex_signed.(env_Security))
    ex_bob [] (ex_sub 1) (ex_sub 2) [] [1]);
    [done|done|vm_compute; reflexivity|vm_compute; reflexivity|reflexivity|reflexivity|vm_compute; reflexivity|reflexivity].
Defined.
