(* ===== verification/Tcp.v ===== *)
(** * The TCP adapter: tcp.go

    Length-prefixed frames over a byte stream: what [Publish] writes to a
    connection, and the loop of [handleConn] that reads frames from one and
    dispatches the envelopes they hold. *)

From Stdlib Require Import ZArith NArith Lia Ascii String.
From stdpp Require Import base list gmap sets strings.
From S2P Require Import Prelude GoRegexp JsonScan JsonText Sha256 Model Json Transport.

(** [binary.BigEndian.PutUint32] and [Uint32]. *)
Definition PutUint32 (n : Z) : bytes :=
  let b k := ascii_of_N (Z.to_N ((n `div` 256 ^ k) `mod` 256)) in [b 3; b 2; b 1; b 0]%Z.
Definition Uint32 (l : bytes) : Z := foldl (λ acc c, acc * 256 + Z.of_N (N_of_ascii c))%Z 0%Z l.

(** [NewTCPTransport]'s default for the largest frame: 16 MiB. *)
Definition maxFrame (cfg : Z) : Z := if (cfg =? 0)%Z then Z.shiftl 16 20 else cfg.

(** The frame [Publish] writes for an encoded envelope: the length check, the
    header and the body; [len(raw)] is truncated to [uint32] in both places. *)
Definition frame (max : Z) (raw : bytes) : result (bytes * bytes) :=
  if (max <? uint32 (Z.of_nat (length raw)))%Z then Err (ErrNew "tcp frame too large")
  else Ok (PutUint32 (uint32 (Z.of_nat (length raw))), raw).

(** The outcome of [conn.Write]: complete, or an error after some of the bytes. *)
Definition write : Type := option (nat * error).
Definition written (w : write) (b : bytes) : bytes :=
  match w with None => b | Some (n, _) => take n b end.

(** [Publish]; the state is the bytes the connection took, [dial], [w1] and [w2]
    are the outcomes of dialing and of the two writes.  A write without an error
    says that the local network stack has the bytes, not that the peer gets them:
    [Publish] closes the connection and waits for no answer. *)
Definition Publish (max : Z) (peerAddr : string) (env : Envelope) (dial : result ()) (w1 w2 : write)
  : io bytes (result ()) :=
  if bool_decide (peerAddr = "") then io_ret (Err (ErrNew "tcp peer address not configured"))
  else match encodeEnvelope env with
  | Err e => io_ret (Err e)
  | Ok raw =>
  match frame max raw with
  | Err e => io_ret (Err e)
  | Ok (header, body) =>
  match dial with
  | Err e => io_ret (Err e)
  | Ok _ => λ conn,
    match w1 with
    | Some (_, e) => (Err e, conn ++ written w1 header)
    | None =>
        (match w2 with Some (_, e) => Err e | None => Ok tt end, conn ++ header ++ written w2 body)
    end
  end end end.

(** [io.ReadFull]: [n] bytes, or the end of the stream. *)
Definition ReadFull (n : Z) (stream : bytes) : option (bytes * bytes) :=
  if (n <=? Z.of_nat (length stream))%Z
  then Some (take (Z.to_nat n) stream, drop (Z.to_nat n) stream) else None.

(** The loop of [handleConn] on the bytes a connection carries until its end: the
    envelopes dispatched.  Each round takes at least the header, so the length
    of the stream is enough fuel. *)
Fixpoint handleConn (fuel : nat) (max : Z) (stream : bytes) : list Envelope :=
  match fuel with
  | O => []
  | S fuel =>
      match ReadFull 4 stream with
      | None => []
      | Some (header, rest) =>
          let n := Uint32 header in
          if (n =? 0)%Z || (max <? n)%Z then []
          else match ReadFull n rest with
          | None => []
          | Some (raw, rest') =>
              match decodeEnvelope raw with
              | Err _ => handleConn fuel max rest'
              | Ok env => env :: handleConn fuel max rest'
              end
          end
      end
  end.
Definition receive (max : Z) (stream : bytes) : list Envelope := handleConn (length stream) max stream.

(** What the program sets of a [tls.Config]; certificates and pools are named by
    the files they come from. *)
Record tlsConfig := mkTLS {
  MinVersion : Z; Certificates : list string; ClientCAs : list string; RequireClientCert : bool;
  RootCAs : list string; NextProtos : list string }.

(** ** The transport *)

Module TCPTransport.
Record TCPConfig := mkTCPConfig {
  Name : string; PeerAddr : string; ListenAddr : string; ClientTLS : option tlsConfig; ServerTLS : option tlsConfig; MaxFrame : Z }.

(** A listener, and whether it speaks TLS. *)
Record state (H : Type) := mkTCP { cfg : TCPConfig; listener : option (option tlsConfig); handlers : Handlers.table H }.
Arguments mkTCP {H} _ _ _.
Arguments cfg {H} _.
Arguments listener {H} _.
Arguments handlers {H} _.

Section tcp.
Context {H : Type}.

(** [NewTCPTransport]; [listen] is the outcome of [tls.Listen] or [net.Listen]. *)
Definition NewTCPTransport (c : TCPConfig) (listen : result ()) : result (state H) :=
  if bool_decide (c.(Name) = "") then Err (ErrNew "tcp name required")
  else
    let c := mkTCPConfig c.(Name) c.(PeerAddr) c.(ListenAddr) c.(ClientTLS) c.(ServerTLS) (maxFrame c.(MaxFrame)) in
    if bool_decide (c.(ListenAddr) = "") then Ok (mkTCP c None ∅)
    else try _ := listen in Ok (mkTCP c (Some c.(ServerTLS)) ∅).

(** [Subscribe]; [None] is a nil handler. *)
Definition Subscribe (event : string) (h : option H) : io (state H) (result nat) := λ t,
  match t.(listener), h with
  | None, _ => (Err (ErrNew "tcp listener not configured"), t)
  | Some _, None => (Err (ErrNew "handler required"), t)
  | Some _, Some h =>
      let '(idx, tbl) := Handlers.Subscribe event h t.(handlers) in (Ok idx, mkTCP t.(cfg) t.(listener) tbl)
  end.

(** [acceptLoop]: an error ends it only after [Close]; otherwise it accepts again. *)
Fixpoint acceptLoop {A} (outcomes : list (result A * bool)) : list A :=
  match outcomes with
  | [] => []
  | (Ok c, _) :: outcomes' => c :: acceptLoop outcomes'
  | (Err _, closed) :: outcomes' => if closed : bool then [] else acceptLoop outcomes'
  end.

(** [Close]; [close] is the outcome of closing the listener. *)
Definition Close (t : state H) (close : result ()) : result () :=
  match t.(listener) with Some _ => close | None => Ok tt end.

Context {W : Type} (invoke : H → Envelope → io W (result ())).

(** [dispatch]: the handlers of the event and of the wildcard, errors ignored. *)
Definition dispatch (t : state H) (env : Envelope) : io W () := Handlers.dispatch invoke t.(handlers) env.

(** A connection: what its bytes hold, dispatched in order. *)
Fixpoint serve (t : state H) (envs : list Envelope) : io W () :=
  match envs with
  | [] => io_ret tt
  | env :: envs' => do _ <- dispatch t env; serve t envs'
  end.
Definition serve_conn (t : state H) (stream : bytes) : io W () := serve t (receive (MaxFrame t.(cfg)) stream).
End tcp.
End TCPTransport.

(** * Lemmas *)

Lemma ascii_byte z : (0 ≤ z < 256)%Z → Z.of_N (N_of_ascii (ascii_of_N (Z.to_N z))) = z.
Proof. intros Hz. rewrite N_ascii_embedding by lia. lia. Qed.

Lemma Uint32_PutUint32 n : (0 ≤ n < two32)%Z → Uint32 (PutUint32 n) = n.
Proof.
  intros Hn. unfold Uint32, PutUint32, two32 in *. cbn [foldl].
  rewrite !ascii_byte by (apply Z.mod_pos_bound; lia).
  change (256 ^ 3)%Z with 16777216%Z. change (256 ^ 2)%Z with 65536%Z.
  change (256 ^ 1)%Z with 256%Z. change (256 ^ 0)%Z with 1%Z.
  Z.div_mod_to_equations. lia.
Qed.

Lemma ReadFull_app n l rest : Z.of_nat (length l) = n → ReadFull n (l ++ rest) = Some (l, rest).
Proof.
  intros Hn. unfold ReadFull. rewrite (proj2 (Z.leb_le _ _)) by (rewrite length_app; lia).
  replace (Z.to_nat n) with (length l) by lia. by rewrite take_app_length, drop_app_length.
Qed.

Lemma ReadFull_inv n l a b :
  (0 ≤ n)%Z → ReadFull n l = Some (a, b) → l = a ++ b ∧ Z.of_nat (length a) = n.
Proof.
  unfold ReadFull. intros Hn. destruct (_ <=? _)%Z eqn:E; [|done]. intros [= <- <-]. bool_prop.
  rewrite take_drop. split; [done|]. rewrite length_take. lia.
Qed.

Lemma Uint32_nonneg l acc : (0 ≤ acc)%Z → (0 ≤ foldl (λ acc c, acc * 256 + Z.of_N (N_of_ascii c)) acc l)%Z.
Proof. revert acc. induction l as [|c l IH]; intros acc Ha; simpl; [done|]. apply IH. lia. Qed.

(** More fuel than bytes changes nothing. *)
Lemma handleConn_fuel max f1 f2 stream :
  length stream ≤ f1 → length stream ≤ f2 → handleConn f1 max stream = handleConn f2 max stream.
Proof.
  revert f2 stream. induction f1 as [|f1 IH]; intros f2 stream H1 H2.
  - destruct stream; [|simpl in H1; lia]. by destruct f2.
  - destruct f2 as [|f2]; [destruct stream; [done|simpl in H2; lia]|]. cbn [handleConn].
    destruct (ReadFull 4 stream) as [[hd rest]|] eqn:E; [|done].
    apply ReadFull_inv in E as [-> Hh]; [|lia]. rewrite length_app in *.
    destruct (_ || _); [done|]. destruct (ReadFull _ rest) as [[raw rest']|] eqn:E; [|done].
    apply ReadFull_inv in E as [-> Hr]; [|by apply Uint32_nonneg]. rewrite length_app in *.
    destruct (decodeEnvelope raw); [f_equal|]; apply IH; lia.
Qed.

Lemma receive_frame max raw rest :
  (0 < Z.of_nat (length raw) < two32)%Z → (Z.of_nat (length raw) ≤ max)%Z →
  receive max (PutUint32 (Z.of_nat (length raw)) ++ raw ++ rest) =
  match decodeEnvelope raw with Ok env => [env] | Err _ => [] end ++ receive max rest.
Proof.
  intros Hl Hm. unfold receive. set (stream := PutUint32 _ ++ _).
  rewrite (handleConn_fuel max _ (S (length stream)) stream) by lia. cbn [handleConn].
  assert (ReadFull 4 stream = Some (PutUint32 (Z.of_nat (length raw)), raw ++ rest)) as ->
    by (unfold stream; by rewrite (ReadFull_app 4) by done).
  rewrite Uint32_PutUint32 by lia.
  assert ((Z.of_nat (length raw) =? 0)%Z = false) as -> by (apply Z.eqb_neq; lia).
  assert ((max <? Z.of_nat (length raw))%Z = false) as -> by (apply Z.ltb_ge; lia). cbn [orb].
  rewrite ReadFull_app by done.
  assert (handleConn (length stream) max rest = handleConn (length rest) max rest) as ->.
  { apply handleConn_fuel; [|lia]. unfold stream. rewrite !length_app. lia. }
  by destruct (decodeEnvelope raw).
Qed.

Lemma frame_inv max raw header body :
  (Z.of_nat (length raw) < two32)%Z → frame max raw = Ok (header, body) →
  header = PutUint32 (Z.of_nat (length raw)) ∧ body = raw ∧ (Z.of_nat (length raw) ≤ max)%Z.
Proof.
  intros Hl. unfold frame. rewrite uint32_id by lia. destruct (_ <? _)%Z eqn:E; [done|].
  bool_prop. by intros [= <- <-].
Qed.

(** * Theorems *)

(** What TCP publishers send is what the receiver dispatches: the frames of any
    number of published envelopes, one after the other on a stream, followed by
    any incomplete frame, are dispatched as the same envelopes (payloads
    compacted), in order. *)
Theorem tcp_stream_roundtrip max (sent : list (Envelope * bytes)) header body rest :
  Forall (λ '(env, raw), wf_text env = true ∧ encodeEnvelope env = Ok raw ∧
            (0 < Z.of_nat (length raw) < two32)%Z ∧ is_ok (frame max raw) = true) sent →
  rest = [] ∨ (length header = 4 ∧ (Z.of_nat (length body) < Uint32 header)%Z ∧
               (rest = header ++ body ∨ ∃ k, k < 4 ∧ rest = take k header)) →
  receive max (foldr (λ '(_, raw) acc, PutUint32 (Z.of_nat (length raw)) ++ raw ++ acc) rest sent) =
  normalize ∘ fst <$> sent.
Proof.
  intros Hs Hrest. induction Hs as [|[env raw] sent (Hwf&He&Hl&Hf) _ IH]; cbn [foldr].
  - destruct Hrest as [->|(Hh&Hb&[->|(k&Hk&->)])]; [done|..].
    + unfold receive. rewrite length_app, Hh. cbn [handleConn plus].
      rewrite (ReadFull_app 4) by lia. destruct (_ || _); [done|].
      unfold ReadFull. by rewrite (proj2 (Z.leb_gt _ _)) by lia.
    + unfold receive. destruct (length (take k header)) eqn:El; [done|]. cbn [handleConn].
      rewrite length_take in El. unfold ReadFull.
      rewrite (proj2 (Z.leb_gt _ _)); [done|]. rewrite length_take. lia.
  - destruct (frame max raw) as [[hd bd]|] eqn:Hfr; [|done].
    apply frame_inv in Hfr as (->&->&Hm); [|lia]. rewrite receive_frame by done.
    rewrite (decodeEnvelope_encode _ _ Hwf He), IH. done.
Qed.

(** A part of a frame is no envelope. *)
Lemma receive_prefix max raw got :
  (0 < Z.of_nat (length raw) < two32)%Z → got `prefix_of` PutUint32 (Z.of_nat (length raw)) ++ raw →
  got ≠ PutUint32 (Z.of_nat (length raw)) ++ raw → receive max got = [].
Proof.
  intros Hl Hpre Hne. unfold receive. rewrite (handleConn_fuel max _ (S (length got)) got) by lia. cbn [handleConn].
  destruct (ReadFull 4 got) as [[hd rest]|] eqn:E; [|done]. apply ReadFull_inv in E as [-> Hh]; [|lia].
  destruct Hpre as [more Hmore]. rewrite <- app_assoc in Hmore. symmetry in Hmore.
  assert (length hd = length (PutUint32 (Z.of_nat (length raw)))) as Hlen by (change (length (PutUint32 _)) with 4; lia).
  apply app_inj_1 in Hmore as [-> Hrest]; [|done]. rewrite Uint32_PutUint32 by lia. destruct (_ || _); [done|].
  unfold ReadFull. destruct (_ <=? _)%Z eqn:Hle; [|done]. exfalso. bool_prop. apply Hne. f_equal.
  destruct more as [|c more]; [by rewrite app_nil_r in Hrest|]. apply (f_equal length) in Hrest. rewrite length_app in Hrest. simpl in Hrest. lia.
Qed.

(** A TCP publication is received whole or not at all: whatever part of what the
    connection took reaches the peer, over a connection that carries nothing else,
    the receiver dispatches exactly the published envelope (payload compacted) if
    the whole frame reached it, and nothing otherwise.  A successful [Publish] has
    written the whole frame. *)
Lemma tcp_publish_receive max peerAddr env dial w1 w2 r conn got :
  wf_text env = true →
  (∀ raw, encodeEnvelope env = Ok raw → 0 < Z.of_nat (length raw) < two32)%Z →
  Publish max peerAddr env dial w1 w2 [] = (r, conn) → got `prefix_of` conn →
  (receive max got = [normalize env] ∨ receive max got = []) ∧ (is_ok r = true → receive max conn = [normalize env]).
Proof.
  intros Hwf Hlen Hp Hgot. unfold Publish, io_ret in Hp.
  assert (got `prefix_of` [] → (receive max got = [normalize env] ∨ receive max got = [])) as Hnil by (intros ->%prefix_nil_inv; by right).
  destruct (bool_decide _); [injection Hp as <- <-; by split; [apply Hnil|]|].
  destruct (encodeEnvelope env) as [raw|] eqn:He; [|injection Hp as <- <-; by split; [apply Hnil|]]. specialize (Hlen raw eq_refl).
  destruct (frame max raw) as [[hd bd]|] eqn:Hf; [|injection Hp as <- <-; by split; [apply Hnil|]].
  apply frame_inv in Hf as (->&->&Hm); [|lia]. destruct dial; [|injection Hp as <- <-; by split; [apply Hnil|]]. clear Hnil.
  assert (receive max (PutUint32 (Z.of_nat (length raw)) ++ raw) = [normalize env]) as Hwhole.
  { pose proof (receive_frame max raw [] ltac:(lia) Hm) as H. rewrite app_nil_r in H.
    by rewrite H, (decodeEnvelope_encode _ _ Hwf He). }
  assert (conn `prefix_of` PutUint32 (Z.of_nat (length raw)) ++ raw ∧
    (is_ok r = true → conn = PutUint32 (Z.of_nat (length raw)) ++ raw)) as [Hpre Hfull].
  { destruct w1 as [[k e]|]; [|destruct w2 as [[k e]|]]; apply pair_equal_spec in Hp as [<- <-]; unfold written; cbn [is_ok app]; split; try done.
    - apply (prefix_app_r _ _ raw), prefix_take.
    - apply prefix_app, prefix_take. }
  split; [|intros Hok; by rewrite Hfull].
  destruct (decide (got = PutUint32 (Z.of_nat (length raw)) ++ raw)) as [->|Hne]; [by left|right].
  apply (receive_prefix max raw); [done|by etrans|done].
Qed.

(** Over such a connection the receiving transport calls its live handlers of the
    event, then those of the wildcard, once each, or none. *)
Lemma tcp_publish_serve {H W} (invoke : H → Envelope → io W (result ())) (t : TCPTransport.state H) peerAddr env dial w1 w2 r conn got :
  wf_text env = true →
  (∀ raw, encodeEnvelope env = Ok raw → 0 < Z.of_nat (length raw) < two32)%Z →
  Publish (TCPTransport.MaxFrame (TCPTransport.cfg t)) peerAddr env dial w1 w2 [] = (r, conn) → got `prefix_of` conn →
  ∀ w, TCPTransport.serve_conn invoke t got w =
      Handlers.call_all invoke (Handlers.targets env.(env_Event) (TCPTransport.handlers t)) (normalize env) w ∨
    TCPTransport.serve_conn invoke t got w = (tt, w).
Proof.
  intros Hwf Hlen Hp Hgot w. unfold TCPTransport.serve_conn.
  destruct (tcp_publish_receive _ _ _ _ _ _ _ _ _ Hwf Hlen Hp Hgot) as [[-> | ->] _]; [left|by right].
  cbn [TCPTransport.serve]. unfold TCPTransport.dispatch, Handlers.dispatch, io_bind, io_ret.
  destruct (normalize_fields env) as (_&->&_). by destruct (Handlers.call_all _ _ _ w) as [[] ?].
Qed.

(** C36: Whatever bytes arrive, every envelope the receiver dispatches has passed
    [Validate]; and the number of dispatched envelopes is bounded by the bytes
    received: each costs a header and a nonempty body. *)
Theorem tcp_receive_safe max stream :
  Forall (λ env, Validate env = Ok tt) (receive max stream) ∧
  (5 * length (receive max stream) ≤ length stream)%nat.
Proof.
  unfold receive. assert (∀ fuel s, Forall (λ env, Validate env = Ok tt) (handleConn fuel max s) ∧
    (5 * length (handleConn fuel max s) ≤ length s)%nat) as H; [|apply H].
  intros fuel. induction fuel as [|fuel IH]; intros s; [by split; [|simpl; lia]|]. cbn [handleConn].
  destruct (ReadFull 4 s) as [[hd rest]|] eqn:E; [|by split; [|simpl; lia]].
  apply ReadFull_inv in E as [-> Hh]; [|lia].
  destruct (_ || _) eqn:En; [by split; [|simpl; lia]|]. apply orb_false_iff in En as [En _].
  apply Z.eqb_neq in En. destruct (ReadFull _ rest) as [[raw rest']|] eqn:E; [|by split; [|simpl; lia]].
  apply ReadFull_inv in E as [-> Hr]; [|by apply Uint32_nonneg].
  pose proof (Uint32_nonneg hd 0 ltac:(lia)) as Hnn. fold (Uint32 hd) in Hnn.
  destruct (IH rest') as [IH1 IH2]. rewrite !length_app.
  destruct (decodeEnvelope raw) as [env|] eqn:Ed; [|split; [done|lia]].
  split; [constructor; [|done]|simpl; lia]. unfold decodeEnvelope in Ed.
  destruct (json_Unmarshal raw) as [e|]; [|done]. destruct (Validate e) as [[]|] eqn:Hv; [|done]. congruence.
Qed.

(** The frame length is only right below 4 GiB: it is the length modulo 2^32
    both in the size check and in the header, so that an encoded envelope of
    2^32 + n bytes with n within the limit passes the check, and its header
    announces n bytes. *)
Theorem tcp_length_wraps max raw :
  (two32 ≤ Z.of_nat (length raw) < 2 * two32)%Z → (Z.of_nat (length raw) - two32 ≤ max)%Z →
  ∃ header, frame max raw = Ok (header, raw) ∧ Uint32 header = (Z.of_nat (length raw) - two32)%Z.
Proof.
  intros Hl Hm. assert (uint32 (Z.of_nat (length raw)) = Z.of_nat (length raw) - two32)%Z as Hu.
  { unfold uint32. symmetry. apply (Z.mod_unique _ _ 1); lia. }
  unfold frame. rewrite Hu, (proj2 (Z.ltb_ge _ _)) by done. eexists. split; [done|].
  apply Uint32_PutUint32. lia.
Qed.

(** * Closed instances *)

Definition ex_wire : bytes := value_or [] (encodeEnvelope ex_envelope).

Lemma tcp_stream_roundtrip_witness :
  receive (maxFrame 0) (PutUint32 (Z.of_nat (length ex_wire)) ++ ex_wire ++
                        PutUint32 (Z.of_nat (length ex_wire)) ++ ex_wire ++ ["000"; "000"]%char) =
  [normalize ex_envelope; normalize ex_envelope].
Proof.
  apply (tcp_stream_roundtrip (maxFrame 0) [(ex_envelope, ex_wire); (ex_envelope, ex_wire)]
    ["000"; "000"; "000"; "001"]%char [] ["000"; "000"]%char).
  - repeat constructor; vm_compute; done.
  - right. split; [done|]. split; [done|]. right. exists 2. split; [lia|done].
Defined.

Lemma tcp_length_wraps_witness :
  let raw := replicate (Z.to_nat (two32 + 5)) "x"%char in
  ∃ header, frame (maxFrame 0) raw = Ok (header, raw) ∧ Uint32 header = (Z.of_nat (length raw) - two32)%Z.
Proof.
  intros raw. assert (Z.of_nat (length raw) = two32 + 5)%Z as Hl.
  { unfold raw. rewrite length_replicate, Z2Nat.id; [reflexivity|]. unfold two32. lia. }
  apply (tcp_length_wraps (maxFrame 0) raw); rewrite Hl; unfold two32; [lia|done].
Defined.
