(* ===== verification/Brokers.v ===== *)
(** * Broker adapters: transports_broker.go

    Subject and queue names, and what the consumer of each adapter does with one
    message: decode it, filter it, call the handler, and acknowledge it or not.
    The brokers themselves are outside the repository; a message is its bytes
    (and its offset), an acknowledgement is a value. *)

From Stdlib Require Import ZArith Lia Ascii String.
From stdpp Require Import base list gmap sets strings.
From S2P Require Import Prelude GoRegexp JsonScan JsonText JsonRoundtrip Sha256 Model Json Transport.

(** ** Names *)

(** [strings.TrimSuffix] of a one-byte suffix. *)
Definition TrimSuffix (c : ascii) (s : string) : string :=
  let l := to_bytes s in
  match last l with
  | Some d => if decide (d = c) then of_bytes (take (length l - 1) l) else s
  | None => s
  end.

(** [strings.ReplaceAll] of one byte by another. *)
Definition ReplaceAll (old new : ascii) (s : string) : string :=
  of_bytes ((λ c, if decide (c = old) then new else c) <$> to_bytes s).

(** [canonicalSubject]. *)
Definition canonicalSubject (prefix event : string) : string :=
  if decide (prefix = "") then event else (TrimSuffix "." prefix ++ "." ++ event)%string.

(** [sanitizeName]. *)
Definition sanitize_char (c : ascii) : bytes :=
  if is_char "." c || is_char "_" c then ["-"%char]
  else if is_char "*" c || is_char ">" c then to_bytes "all"
  else [c].
Definition sanitizeName (s : string) : string := of_bytes (to_bytes s ≫= sanitize_char).

(** The topic an MQTT subscription asks for. *)
Definition mqttTopic (prefix event : string) : string :=
  if decide (event = "*") then (TrimSuffix "/" (ReplaceAll "." "/" prefix) ++ "/#")%string
  else ReplaceAll "." "/" (canonicalSubject prefix event).

(** The queue and the routing key of a RabbitMQ subscription; an empty queue name
    asks the broker for a private one. *)
Definition rabbitQueue (queuePrefix event : string) : string :=
  if decide (queuePrefix = "") then "" else (queuePrefix ++ "-" ++ sanitizeName event)%string.
Definition rabbitKey (event : string) : string := if decide (event = "*") then "#" else event.

(** The consumer group of a Kafka subscription. *)
Definition kafkaGroup (group event : string) : string :=
  if decide (group = "") then ("ubiq-" ++ sanitizeName event)%string else group.

(** ** Configurations and constructors

    Connecting is the library's: its outcomes are arguments, in the order of the
    calls. *)

Record NATSConfig := mkNATSConfig {
  nc_Name : string; nc_URL : string; nc_Prefix : string; nc_JetStream : bool; nc_Stream : string; nc_DurablePrefix : string }.
Record KafkaConfig := mkKafkaConfig { kc_Name : string; kc_Brokers : list string; kc_Topic : string; kc_Group : string }.
Record RabbitConfig := mkRabbitConfig { rc_Name : string; rc_URL : string; rc_Exchange : string; rc_QueuePrefix : string }.
Record RedisStreamsConfig := mkRedisConfig {
  xc_Name : string; xc_Addr : string; xc_Password : string; xc_Stream : string; xc_Group : string; xc_DB : Z }.
Record MQTTConfig := mkMQTTConfig {
  mc_Name : string; mc_Broker : string; mc_ClientID : string; mc_Prefix : string; mc_Username : string; mc_Password : string }.

(** [NewNATSTransport]: the configuration, and the stream it adds (name and
    subject) when the server has none of that name. *)
Definition NewNATSTransport (cfg : NATSConfig) (connect jetStream streamInfo addStream : result ())
  : result (NATSConfig * option (string * string)) :=
  try _ := connect in
  if cfg.(nc_JetStream) then
    try _ := jetStream in
    let stream := if decide (cfg.(nc_Stream) = "") then "UBIQ_EVENTS" else cfg.(nc_Stream) in
    let subject := canonicalSubject cfg.(nc_Prefix) ">" in
    match streamInfo with
    | Ok _ => Ok (cfg, None)
    | Err _ => try _ := addStream in Ok (cfg, Some (stream, subject))
    end
  else Ok (cfg, None).

Definition NewKafkaTransport (cfg : KafkaConfig) : result KafkaConfig :=
  match cfg.(kc_Brokers) with
  | [] => Err (ErrNew "kafka brokers required")
  | _ => Ok (mkKafkaConfig cfg.(kc_Name) cfg.(kc_Brokers)
           (if decide (cfg.(kc_Topic) = "") then "ubiq-events" else cfg.(kc_Topic)) cfg.(kc_Group))
  end.

Definition NewRabbitTransport (cfg : RabbitConfig) (dial channel declare : result ()) : result RabbitConfig :=
  try _ := dial in try _ := channel in
  let cfg := mkRabbitConfig cfg.(rc_Name) cfg.(rc_URL)
    (if decide (cfg.(rc_Exchange) = "") then "ubiq" else cfg.(rc_Exchange)) cfg.(rc_QueuePrefix) in
  try _ := declare in Ok cfg.

Definition NewRedisStreamsTransport (cfg : RedisStreamsConfig) : RedisStreamsConfig :=
  mkRedisConfig cfg.(xc_Name) cfg.(xc_Addr) cfg.(xc_Password)
    (if decide (cfg.(xc_Stream) = "") then "ubiq-events" else cfg.(xc_Stream))
    (if decide (cfg.(xc_Group) = "") then "ubiq" else cfg.(xc_Group)) cfg.(xc_DB).

(** [connected] is whether the client answered within fifteen seconds. *)
Definition NewMQTTTransport (cfg : MQTTConfig) (connected : bool) (connect : result ()) : result MQTTConfig :=
  if negb connected then Err (ErrNew "mqtt connect timeout") else try _ := connect in Ok cfg.

(** ** Publishers *)

Record kafkaMessage := mkKafkaMessage { km_Key : bytes; km_Value : bytes; km_Headers : list (string * bytes) }.
Record rabbitPublishing := mkPublishing {
  rp_ContentType : string; rp_Persistent : bool; rp_MessageId : string; rp_CorrelationId : string; rp_Body : bytes }.

Section publishers.
Context {W : Type}.

Definition nats_publish (cfg : NATSConfig) (jsPublish ncPublish : string → bytes → io W (result ()))
  (flush : io W (result ())) (env : Envelope) : io W (result ()) :=
  match encodeEnvelope env with
  | Err e => io_ret (Err e)
  | Ok raw =>
      let subject := canonicalSubject cfg.(nc_Prefix) env.(env_Event) in
      if cfg.(nc_JetStream) then jsPublish subject raw
      else try _ <- ncPublish subject raw; flush
  end.

Definition kafka_publish (writeMessages : kafkaMessage → io W (result ())) (env : Envelope) : io W (result ()) :=
  match encodeEnvelope env with
  | Err e => io_ret (Err e)
  | Ok raw => writeMessages (mkKafkaMessage (to_bytes env.(env_Event)) raw [("ubiq-event", to_bytes env.(env_Event))])
  end.

Definition rabbit_publish (cfg : RabbitConfig) (publish : string → string → rabbitPublishing → io W (result ()))
  (env : Envelope) : io W (result ()) :=
  match encodeEnvelope env with
  | Err e => io_ret (Err e)
  | Ok raw => publish cfg.(rc_Exchange) env.(env_Event)
      (mkPublishing "application/json" true env.(env_ID) env.(env_CorrelationID) raw)
  end.

Definition redis_publish (cfg : RedisStreamsConfig) (xadd : string → list (string * bytes) → io W (result ()))
  (env : Envelope) : io W (result ()) :=
  match encodeEnvelope env with
  | Err e => io_ret (Err e)
  | Ok raw => xadd cfg.(xc_Stream) [("event", to_bytes env.(env_Event)); ("envelope", raw)]
  end.

(** [publish topic qos retained payload]. *)
Definition mqtt_publish (cfg : MQTTConfig) (publish : string → Z → bool → bytes → io W (result ()))
  (env : Envelope) : io W (result ()) :=
  match encodeEnvelope env with
  | Err e => io_ret (Err e)
  | Ok raw => publish (ReplaceAll "." "/" (canonicalSubject cfg.(mc_Prefix) env.(env_Event))) 1%Z false raw
  end.
End publishers.

(** ** Consumers *)

(** What happens to a message: acknowledged (committed), left unacknowledged,
    rejected for redelivery, rejected for good. *)
Inductive disposition := Acked | Unacked | Requeued | Dropped.

#[global] Instance disposition_eq_dec : EqDecision disposition.
Proof. solve_decision. Defined.

(** The filter of the Kafka and Redis consumers. *)
Definition wanted (event : string) (env : Envelope) : bool :=
  bool_decide (event = "*") || bool_decide (env.(env_Event) = event).

Section consumers.
Context {W : Type} (h : Envelope → io W (result ())).

(** The callback of [NATSTransport.Subscribe]. *)
Definition nats_deliver (jetStream : bool) (data : bytes) : io W disposition :=
  match decodeEnvelope data with
  | Err _ => io_ret Unacked
  | Ok env =>
      do res <- h env;
      io_ret (if is_ok res && jetStream then Acked else Unacked)
  end.

(** One round of the loop of [KafkaTransport.Subscribe]. *)
Definition kafka_deliver (event : string) (value : bytes) : io W disposition :=
  match decodeEnvelope value with
  | Err _ => io_ret Unacked
  | Ok env =>
      if negb (wanted event env) then io_ret Acked
      else do res <- h env; io_ret (if is_ok res then Acked else Unacked)
  end.

(** The loop over fetched messages: the offsets committed, in order. *)
Fixpoint kafka_loop (event : string) (msgs : list (Z * bytes)) : io W (list Z) :=
  match msgs with
  | [] => io_ret []
  | (offset, value) :: msgs' =>
      do d <- kafka_deliver event value;
      do rest <- kafka_loop event msgs';
      io_ret (if decide (d = Acked) then offset :: rest else rest)
  end.

(** One delivery of [RabbitTransport.Subscribe]. *)
Definition rabbit_deliver (body : bytes) : io W disposition :=
  match decodeEnvelope body with
  | Err _ => io_ret Dropped
  | Ok env => do res <- h env; io_ret (if is_ok res then Acked else Requeued)
  end.

(** One message of [RedisStreamsTransport.Subscribe]; [None] is a message without
    an [envelope] field. *)
Definition redis_deliver (event : string) (raw : option bytes) : io W disposition :=
  match raw with
  | None => io_ret Unacked
  | Some raw =>
    match decodeEnvelope raw with
    | Err _ => io_ret Unacked
    | Ok env =>
        if negb (wanted event env) then io_ret Acked
        else do res <- h env; io_ret (if is_ok res then Acked else Unacked)
    end
  end.

(** The loop of [RabbitTransport.Subscribe] over the deliveries until the channel
    is closed: each with what became of it. *)
Fixpoint rabbit_loop (bodies : list bytes) : io W (list disposition) :=
  match bodies with
  | [] => io_ret []
  | b :: bodies' =>
      do d <- rabbit_deliver b;
      do ds <- rabbit_loop bodies';
      io_ret (d :: ds)
  end.

(** The loop of [RedisStreamsTransport.Subscribe] over the answers of the server:
    messages with their ids, the end of the subscription, or an error after which
    it reads again.  The ids acknowledged. *)
Inductive redisRead := ReadMessages (msgs : list (string * option bytes)) | ReadCanceled | ReadError.

Fixpoint redis_batch (event : string) (msgs : list (string * option bytes)) : io W (list string) :=
  match msgs with
  | [] => io_ret []
  | (id, raw) :: msgs' =>
      do d <- redis_deliver event raw;
      do ids <- redis_batch event msgs';
      io_ret (if decide (d = Acked) then id :: ids else ids)
  end.

Fixpoint redis_loop (event : string) (reads : list redisRead) : io W (list string) :=
  match reads with
  | ReadMessages msgs :: reads' =>
      do ids <- redis_batch event msgs; do rest <- redis_loop event reads'; io_ret (ids ++ rest)
  | ReadError :: reads' => redis_loop event reads'
  | ReadCanceled :: _ | [] => io_ret []
  end.

(** The callback of [MQTTTransport.Subscribe]: the client acknowledges. *)
Definition mqtt_deliver (payload : bytes) : io W () :=
  match decodeEnvelope payload with
  | Err _ => io_ret tt
  | Ok env => do _ <- h env; io_ret tt
  end.
End consumers.

(** A value of a stream entry. *)
Fixpoint field (name : string) (values : list (string * bytes)) : bytes :=
  match values with
  | (k, v) :: values' => if decide (k = name) then v else field name values'
  | [] => []
  end.

(** ** An adapter, as its peers see it

    Where [Publish] sends an envelope and what it sends, where a subscription to
    an event listens, and what becomes of a body that arrives there. *)
Record adapter := mkAdapter {
  ad_message : ∀ W, (string → bytes → io W (result ())) → Envelope → io W (result ());
  ad_listens : string → string;
  ad_deliver : ∀ W, (Envelope → io W (result ())) → string → bytes → io W disposition;
  ad_settles : result () → disposition;
}.

Definition nats_adapter (cfg : NATSConfig) : adapter := {|
  ad_message W send := nats_publish cfg send send (io_ret (Ok tt));
  ad_listens event := canonicalSubject cfg.(nc_Prefix) event;
  ad_deliver W h _ := nats_deliver h cfg.(nc_JetStream);
  ad_settles r := if is_ok r && cfg.(nc_JetStream) then Acked else Unacked |}.
Definition kafka_adapter (cfg : KafkaConfig) : adapter := {|
  ad_message W send := kafka_publish (λ m, send cfg.(kc_Topic) m.(km_Value));
  ad_listens _ := cfg.(kc_Topic);
  ad_deliver W h event := kafka_deliver h event;
  ad_settles r := if is_ok r then Acked else Unacked |}.
Definition rabbit_adapter (cfg : RabbitConfig) : adapter := {|
  ad_message W send := rabbit_publish cfg (λ _ key p, send key p.(rp_Body));
  ad_listens event := rabbitKey event;
  ad_deliver W h _ := rabbit_deliver h;
  ad_settles r := if is_ok r then Acked else Requeued |}.
Definition redis_adapter (cfg : RedisStreamsConfig) : adapter := {|
  ad_message W send := redis_publish cfg (λ stream values, send stream (field "envelope" values));
  ad_listens _ := cfg.(xc_Stream);
  ad_deliver W h event raw := redis_deliver h event (Some raw);
  ad_settles r := if is_ok r then Acked else Unacked |}.
(** The MQTT client acknowledges whatever the callback did. *)
Definition mqtt_adapter (cfg : MQTTConfig) : adapter := {|
  ad_message W send := mqtt_publish cfg (λ topic _ _, send topic);
  ad_listens event := mqttTopic cfg.(mc_Prefix) event;
  ad_deliver W h _ body := (do _ <- mqtt_deliver h body; io_ret Acked);
  ad_settles _ := Acked |}.

(** The adapters of the runtime. *)
Inductive broker_adapter : adapter → Prop :=
| is_nats cfg : broker_adapter (nats_adapter cfg)
| is_kafka cfg : broker_adapter (kafka_adapter cfg)
| is_rabbit cfg : broker_adapter (rabbit_adapter cfg)
| is_redis cfg : broker_adapter (redis_adapter cfg)
| is_mqtt cfg : broker_adapter (mqtt_adapter cfg).

(** The number of tokens of a subject. *)
Definition tokens (s : string) : nat := length (Split "." s).

(** * Lemmas *)

Lemma split_length_app c l1 l2 :
  length (split_bytes c (l1 ++ c :: l2)) = length (split_bytes c l1) + length (split_bytes c l2).
Proof.
  induction l1 as [|d l1 IH]; simpl.
  - by rewrite decide_True.
  - destruct (decide (d = c)); simpl; [by rewrite IH|].
    pose proof (split_bytes_nonempty c l1) as H1. pose proof (split_bytes_nonempty c (l1 ++ c :: l2)) as H2.
    destruct (split_bytes c l1), (split_bytes c (l1 ++ c :: l2)); done.
Qed.

Lemma tokens_subject prefix event :
  tokens (canonicalSubject prefix event) =
  (if decide (prefix = "") then 0 else tokens (TrimSuffix "." prefix)) + tokens event.
Proof.
  unfold canonicalSubject. destruct (decide (prefix = "")); [done|].
  unfold tokens, Split. rewrite !length_fmap, !to_bytes_app. simpl. apply split_length_app.
Qed.

(** * Theorems *)

(** What a broker adapter publishes, its own consumer takes apart again: an
    envelope that passes [Publish] is sent, once, where a subscription to its
    event listens; and a consumer subscribed to the event or to every event calls
    its handler once with the published envelope (payload compacted) and settles
    the message by what the handler returned. *)
Lemma broker_roundtrip a env {W V : Type} (send : string → bytes → io W (result ())) (h : Envelope → io V (result ())) event w v :
  broker_adapter a → wf_text env = true → Validate env = Ok tt → event = env.(env_Event) ∨ event = "*" →
  ∃ body, ad_message a W send env w = send (ad_listens a env.(env_Event)) body w ∧
    ad_deliver a V h event body v = let (r, v') := h (normalize env) v in (ad_settles a r, v').
Proof.
  intros Ha Hwf Hv Hev. destruct (encode_ok env Hv) as [raw Hraw]. exists raw.
  pose proof (decodeEnvelope_encode _ _ Hwf Hraw) as Hd.
  assert (wanted event (normalize env) = true) as Hw.
  { unfold wanted. destruct (normalize_fields env) as (_&->&_). apply orb_true_iff.
    destruct Hev as [->| ->]; [right|left]; by apply bool_decide_eq_true_2. }
  assert (env.(env_Event) ≠ "*") as Hstar.
  { apply Validate_ok in Hv as (_&_&_&_&Hs&_). unfold State in Hs. intros E. rewrite E in Hs. vm_compute in Hs. done. }
  destruct Ha; simpl; unfold nats_publish, kafka_publish, rabbit_publish, redis_publish, mqtt_publish,
    nats_deliver, kafka_deliver, rabbit_deliver, redis_deliver, mqtt_deliver, rabbitKey, mqttTopic, io_bind, io_ret;
    rewrite Hraw, Hd, ?Hw, ?decide_False by done; simpl; split; try done; try (by destruct (h (normalize env) v)).
  destruct (nc_JetStream cfg); [done|]. by destruct (send _ _ w) as [[[]|] ?].
Qed.

Section theorems.
Context {W : Type} (h : Envelope → io W (result ())).

(** What took place with a message at a subscription; [filter] is the event a
    shared stream is filtered for, [None] where the broker routes by event. *)
Inductive outcome := Unreadable | Unwanted | Succeeded | Failed.
Inductive took_place (filter : option string) (data : bytes) (w : W) : outcome → W → Prop :=
| took_unreadable e : decodeEnvelope data = Err e → took_place filter data w Unreadable w
| took_unwanted env event :
    decodeEnvelope data = Ok env → filter = Some event → event ≠ "*" → env.(env_Event) ≠ event →
    took_place filter data w Unwanted w
| took_succeeded env r w' :
    decodeEnvelope data = Ok env → (∀ event, filter = Some event → event = "*" ∨ env.(env_Event) = event) →
    h env w = (Ok r, w') → took_place filter data w Succeeded w'
| took_failed env e w' :
    decodeEnvelope data = Ok env → (∀ event, filter = Some event → event = "*" ∨ env.(env_Event) = event) →
    h env w = (Err e, w') → took_place filter data w Failed w'.

Lemma took_place_run filter data w : ∃ o w', took_place filter data w o w' ∧
  match decodeEnvelope data with
  | Err _ => o = Unreadable ∧ w' = w
  | Ok env =>
      if match filter with Some event => wanted event env | None => true end
      then o = (if is_ok (h env w).1 then Succeeded else Failed) ∧ w' = (h env w).2
      else o = Unwanted ∧ w' = w
  end.
Proof.
  destruct (decodeEnvelope data) as [env|e] eqn:Hd; [|by eexists _, _; split; [eapply took_unreadable|]].
  destruct (match filter with Some event => wanted event env | None => true end) eqn:Hw.
  - assert (∀ event, filter = Some event → event = "*" ∨ env.(env_Event) = event) as Hwanted.
    { intros event ->. apply orb_true_iff in Hw as [Hw|Hw]; bool_prop; auto. }
    destruct (h env w) as [[r|e] w'] eqn:Hh; eexists _, _; (split; [|done]); [by eapply took_succeeded|by eapply took_failed].
  - destruct filter as [event|]; [|done]. unfold wanted in Hw. apply orb_false_iff in Hw as [H1 H2].
    apply bool_decide_eq_false in H1, H2. eexists _, _. split; [by eapply took_unwanted|done].
Qed.

(** C34: What becomes of a message, on every branch of every adapter.  JetStream and
    RabbitMQ acknowledge it exactly when its handler was called, once, and
    succeeded; Redis also when it is of another event than the subscribed one, in
    which case no handler was called.  Otherwise JetStream and Redis leave it
    unacknowledged, RabbitMQ asks for redelivery after a failed handler and drops
    what cannot be read.  Kafka commits a message's own offset as Redis
    acknowledges (a commit also passes over the earlier messages of the partition,
    see [kafka_failure_passed_over]).  Core NATS acknowledges nothing, and MQTT
    everything, whatever the handler did. *)
Theorem ack_after_success event data w :
  (∃ o w', took_place None data w o w' ∧
     nats_deliver h true data w = (match o with Succeeded => Acked | _ => Unacked end, w') ∧
     nats_deliver h false data w = (Unacked, w') ∧
     rabbit_deliver h data w =
       (match o with Succeeded => Acked | Failed => Requeued | _ => Dropped end, w') ∧
     (∀ cfg, ad_deliver (mqtt_adapter cfg) W h event data w = (Acked, w'))) ∧
  (∃ o w', took_place (Some event) data w o w' ∧
     redis_deliver h event (Some data) w = (match o with Succeeded | Unwanted => Acked | _ => Unacked end, w') ∧
     kafka_deliver h event data w = (match o with Succeeded | Unwanted => Acked | _ => Unacked end, w')) ∧
  redis_deliver h event None w = (Unacked, w).
Proof.
  split_and!; [| |done].
  - destruct (took_place_run None data w) as (o&w'&Ht&Hrun). exists o, w'. split; [done|]. simpl.
    unfold nats_deliver, rabbit_deliver, mqtt_deliver, io_bind, io_ret.
    destruct (decodeEnvelope data) as [env|]; destruct Hrun as [-> ->]; [|done]. by destruct (h env w) as [[r|e] w1].
  - destruct (took_place_run (Some event) data w) as (o&w'&Ht&Hrun). exists o, w'. split; [done|].
    unfold kafka_deliver, redis_deliver, io_bind, io_ret.
    destruct (decodeEnvelope data) as [env|]; [|by destruct Hrun as [-> ->]].
    destruct (wanted event env); destruct Hrun as [-> ->]; simpl; [|done]. destruct (h env w) as [[r|e] w1]; done.
Qed.

(** The Kafka consumer passes over a message whose handler failed: the commit
    of the next message carries a larger offset, and offsets are committed per
    partition, so the failed message is not fetched again. *)
Theorem kafka_failure_passed_over event o1 v1 env1 o2 v2 env2 e r w w1 w2 :
  (o1 < o2)%Z → decodeEnvelope v1 = Ok env1 → decodeEnvelope v2 = Ok env2 →
  wanted event env1 = true → wanted event env2 = true →
  h env1 w = (Err e, w1) → h env2 w1 = (Ok r, w2) →
  ∃ commits, kafka_loop h event [(o1, v1); (o2, v2)] w = (commits, w2) ∧ (o1 ∉ commits) ∧
    ∃ o, o ∈ commits ∧ (o1 < o)%Z.
Proof.
  intros Ho Hd1 Hd2 Hw1 Hw2 Hh1 Hh2. exists [o2]. split_and!.
  - cbn [kafka_loop]. unfold kafka_deliver, io_bind, io_ret. rewrite Hd1, Hw1. simpl. rewrite Hh1. simpl.
    rewrite Hd2, Hw2. simpl. by rewrite Hh2.
  - rewrite list_elem_of_singleton. lia.
  - exists o2. split; [by apply list_elem_of_singleton|done].
Qed.
End theorems.

(** On NATS a subscription to every event receives none: in a subject, [*]
    stands for exactly one token, so that [canonicalSubject prefix "*"] has
    fewer tokens than the subject of any valid event, which has at least three
    of its own.  [matches] is the broker's subject matching; the hypothesis is
    its documented treatment of patterns without [>]. *)
Theorem nats_star_receives_nothing (matches : string → string → bool) prefix env st :
  (∀ pattern subject, matches pattern subject = true → ">"%char ∉ to_bytes pattern →
     tokens pattern = tokens subject) →
  ">"%char ∉ to_bytes (canonicalSubject prefix "*") → State env = Ok st →
  matches (canonicalSubject prefix "*") (canonicalSubject prefix env.(env_Event)) = false.
Proof.
  intros Hdoc Hgt Hst. apply not_true_iff_false. intros Hm. apply Hdoc in Hm; [|done].
  rewrite !tokens_subject in Hm. change (tokens "*") with 1 in Hm.
  unfold State in Hst. destruct (MatchString _ _) eqn:Hp; [|done].
  rewrite canonical_pattern_parts in Hp. unfold canonical_name in Hp. bool_prop.
  assert (3 ≤ tokens (env_Event env)) by (unfold tokens, Split; by rewrite length_fmap). lia.
Qed.

(** Durable consumer and queue names are not unique: different valid event
    names can be sanitized to the same name, and their subscriptions then share
    one queue. *)
Theorem sanitize_collision :
  ∃ e1 e2, e1 ≠ e2 ∧ canonical_name e1 = true ∧ canonical_name e2 = true ∧
    ∀ queuePrefix, rabbitQueue queuePrefix e1 = rabbitQueue queuePrefix e2 ∧
      kafkaGroup "" e1 = kafkaGroup "" e2.
Proof. by exists "Billing.invoice.paid.ok", "Billing.invoice_paid.ok". Qed.

(** * Closed instances *)

Fixpoint ex_match (pattern subject : list string) : bool :=
  match pattern, subject with
  | [], [] => true
  | p :: ps, s :: ss => (bool_decide (p = "*") || bool_decide (p = s)) && ex_match ps ss
  | _, _ => false
  end.

Lemma ex_match_length ps ss : ex_match ps ss = true → length ps = length ss.
Proof.
  revert ss. induction ps as [|p ps IH]; intros [|s ss]; simpl; try done.
  intros H. bool_prop. f_equal. by apply IH.
Qed.

Lemma nats_star_receives_nothing_witness :
  ex_match (Split "." (canonicalSubject "ubiq" "*"))
    (Split "." (canonicalSubject "ubiq" "Financial.createInvoice.request")) = false.
Proof.
  apply (nats_star_receives_nothing (λ p s, ex_match (Split "." p) (Split "." s)) "ubiq" ex_envelope StateRequest).
  - intros p s H _. by apply ex_match_length.
  - apply not_elem_of_cons. split; [done|]. vm_compute. set_solver.
  - vm_compute. reflexivity.
Defined.

Lemma kafka_failure_passed_over_witness :
  let wire := value_or [] (encodeEnvelope ex_envelope) in
  let h (_ : Envelope) (n : nat) := (match n with O => Err (ErrNew "busy") | _ => Ok tt end, S n) in
  ∃ commits, kafka_loop h "*" [(10%Z, wire); (11%Z, wire)] 0 = (commits, 2) ∧ (10%Z ∉ commits) ∧
    ∃ o, o ∈ commits ∧ (10 < o)%Z.
Proof.
  intros wire h. apply (kafka_failure_passed_over h "*" 10 wire (normalize ex_envelope) 11 wire
    (normalize ex_envelope) (ErrNew "busy") tt 0 1 2);
    [lia|vm_compute; reflexivity|vm_compute; reflexivity|reflexivity|reflexivity|reflexivity|reflexivity].
Defined.

Definition ex_kafka : KafkaConfig := value_or (mkKafkaConfig "" [] "" "") (NewKafkaTransport (mkKafkaConfig "kafka" ["k1:9092"] "" "")).
Definition ex_count (env : Envelope) : io nat (result ()) := λ n, (Ok tt, S n).
