(* ===== verification/BrokerSubs.v ===== *)
(** * Subscriptions of the broker adapters: transports_broker.go

    What [Subscribe], the [Close] of a subscription and the [Close] of a transport
    leave registered at a broker: consumers with the queue or group they share,
    where they listen, and whether the adapter still has a loop or a callback
    behind them.  The libraries' calls are outcomes; what a call of a library
    does to its consumers is its documented effect. *)

From Stdlib Require Import ZArith Lia Ascii String.
From stdpp Require Import base list gmap sets strings.
From S2P Require Import Prelude GoRegexp JsonScan JsonText JsonRoundtrip Sha256 Model Json Transport Brokers.

(** A consumer at a broker.  Consumers of one group (a Kafka or Redis group, a
    RabbitMQ queue, a durable JetStream consumer) share its messages; without a
    group each message comes to the consumer itself.  [co_alive]: somebody takes
    its messages. *)
Record consumer := mkConsumer { co_group : option string; co_listens : string; co_event : string; co_alive : bool }.

(** Calls that set something up at the broker. *)
Inductive setup :=
| QueueDeclare (name : string) (durable autoDelete exclusive : bool)
| QueueBind (queue key exchange : string)
| XGroupCreateMkStream (stream group start : string).

(** One connected adapter: its consumers, the readers it has kept (Kafka), what it
    has set up. *)
Record session := mkSession {
  se_open : bool; se_next : nat; se_consumers : gmap nat consumer; se_readers : list nat; se_setup : list setup }.
Definition new_session : session := mkSession true 0 ∅ [] [].

Inductive broker := NATS (cfg : NATSConfig) | Kafka (cfg : KafkaConfig) | Rabbit (cfg : RabbitConfig)
| Redis (cfg : RedisStreamsConfig) | MQTT (cfg : MQTTConfig).

Definition adapter_of (b : broker) : adapter :=
  match b with
  | NATS cfg => nats_adapter cfg | Kafka cfg => kafka_adapter cfg | Rabbit cfg => rabbit_adapter cfg
  | Redis cfg => redis_adapter cfg | MQTT cfg => mqtt_adapter cfg
  end.

(** [Name]. *)
Definition Name (b : broker) : string :=
  match b with
  | NATS cfg => cfg.(nc_Name) | Kafka cfg => cfg.(kc_Name) | Rabbit cfg => cfg.(rc_Name)
  | Redis cfg => cfg.(xc_Name) | MQTT cfg => cfg.(mc_Name)
  end.

(** ** Subscribing *)

Definition register (c : consumer) : io session (result nat) := λ s,
  (Ok s.(se_next), mkSession s.(se_open) (S s.(se_next)) (<[s.(se_next) := c]> s.(se_consumers)) s.(se_readers) s.(se_setup)).
Definition set_up (c : setup) : io session () := λ s,
  (tt, mkSession s.(se_open) s.(se_next) s.(se_consumers) s.(se_readers) (s.(se_setup) ++ [c])).
(** [t.readers=append(t.readers,r)], before the reader's loop starts. *)
Definition keep_reader : io session () := λ s,
  (tt, mkSession s.(se_open) s.(se_next) s.(se_consumers) (s.(se_readers) ++ [s.(se_next)]) s.(se_setup)).

Definition nats_subscribe (cfg : NATSConfig) (event : string) (subscribe : result ()) : io session (result nat) :=
  let subject := canonicalSubject cfg.(nc_Prefix) event in
  let group :=
    if cfg.(nc_JetStream) && negb (bool_decide (cfg.(nc_DurablePrefix) = ""))
    then Some (cfg.(nc_DurablePrefix) ++ "-" ++ sanitizeName event)%string else None in
  match subscribe with
  | Err e => io_ret (Err e)
  | Ok _ => register (mkConsumer group subject event true)
  end.

Definition kafka_subscribe (cfg : KafkaConfig) (event : string) : io session (result nat) :=
  do _ <- keep_reader;
  register (mkConsumer (Some (kafkaGroup cfg.(kc_Group) event)) cfg.(kc_Topic) event true).

(** [declare] answers the name of the queue: the broker chooses one for [""]. *)
Definition rabbit_subscribe (cfg : RabbitConfig) (event : string) (declare : result string) (bind consume : result ())
  : io session (result nat) :=
  let qname := rabbitQueue cfg.(rc_QueuePrefix) event in
  match declare with
  | Err e => io_ret (Err e)
  | Ok q =>
      do _ <- set_up (QueueDeclare q (negb (bool_decide (qname = ""))) (bool_decide (qname = "")) (bool_decide (qname = "")));
      match bind with
      | Err e => io_ret (Err e)
      | Ok _ =>
          do _ <- set_up (QueueBind q (rabbitKey event) cfg.(rc_Exchange));
          match consume with
          | Err e => io_ret (Err e)
          | Ok _ => register (mkConsumer (Some q) (rabbitKey event) event true)
          end
      end
  end.

(** The answer to [XGroupCreateMkStream] is ignored. *)
Definition redis_subscribe (cfg : RedisStreamsConfig) (event : string) (create : result ()) : io session (result nat) :=
  do _ <- (match create with
           | Ok _ => set_up (XGroupCreateMkStream cfg.(xc_Stream) cfg.(xc_Group) "0")
           | Err _ => io_ret tt
           end);
  register (mkConsumer (Some cfg.(xc_Group)) cfg.(xc_Stream) event true).

Definition mqtt_subscribe (cfg : MQTTConfig) (event : string) (subscribe : result ()) : io session (result nat) :=
  match subscribe with
  | Err e => io_ret (Err e)
  | Ok _ => register (mkConsumer None (mqttTopic cfg.(mc_Prefix) event) event true)
  end.

(** The outcomes of the library's calls, in their order. *)
Record answers := mkAnswers { an_name : result string; an_first : result (); an_second : result () }.

Definition Subscribe (b : broker) (event : string) (a : answers) : io session (result nat) :=
  match b with
  | NATS cfg => nats_subscribe cfg event a.(an_first)
  | Kafka cfg => kafka_subscribe cfg event
  | Rabbit cfg => rabbit_subscribe cfg event a.(an_name) a.(an_first) a.(an_second)
  | Redis cfg => redis_subscribe cfg event a.(an_first)
  | MQTT cfg => mqtt_subscribe cfg event a.(an_first)
  end.

(** ** Closing *)

Definition with_consumers (f : gmap nat consumer → gmap nat consumer) (s : session) : session :=
  mkSession s.(se_open) s.(se_next) (f s.(se_consumers)) s.(se_readers) s.(se_setup).
Definition stop (c : consumer) : consumer := mkConsumer c.(co_group) c.(co_listens) c.(co_event) false.

(** The close functions of subscription [id].  [Unsubscribe] of NATS. *)
Definition nats_unsubscribe (id : nat) : session → session := with_consumers (delete id).
(** Kafka: the loop is cancelled and the reader closed. *)
Definition kafka_unsubscribe (id : nat) : session → session := with_consumers (delete id).
(** RabbitMQ: the loop is cancelled, the channel goes on consuming. *)
Definition rabbit_unsubscribe (id : nat) : session → session := with_consumers (alter stop id).
(** Redis: the loop, which asks for its messages, is cancelled. *)
Definition redis_unsubscribe (id : nat) : session → session := with_consumers (delete id).
(** MQTT: [Unsubscribe] ends what is subscribed to the topic. *)
Definition mqtt_unsubscribe (id : nat) (s : session) : session :=
  match s.(se_consumers) !! id with
  | Some c => with_consumers (filter (λ kc, kc.2.(co_listens) ≠ c.(co_listens))) s
  | None => s
  end.

Definition close_subscription (b : broker) : nat → session → session :=
  match b with
  | NATS _ => nats_unsubscribe | Kafka _ => kafka_unsubscribe | Rabbit _ => rabbit_unsubscribe
  | Redis _ => redis_unsubscribe | MQTT _ => mqtt_unsubscribe
  end.

(** The loop of subscription [id] ends of its own: the caller's context is
    cancelled, Kafka's [FetchMessage] failed, or RabbitMQ's channel of deliveries is
    closed.  The Kafka reader stays open and in its group, the RabbitMQ channel goes
    on consuming; only Redis asks for messages in the loop itself.  NATS and MQTT
    have no loops: the library calls the handler. *)
Definition kafka_loop_ends (id : nat) : session → session := with_consumers (alter stop id).
Definition rabbit_loop_ends (id : nat) : session → session := with_consumers (alter stop id).
Definition redis_loop_ends (id : nat) : session → session := with_consumers (delete id).
Definition loop_ends (b : broker) : nat → session → session :=
  match b with
  | Kafka _ => kafka_loop_ends | Rabbit _ => rabbit_loop_ends | Redis _ => redis_loop_ends
  | NATS _ | MQTT _ => λ _ s, s
  end.

(** [Close] of a transport; [answer] is the outcome of closing the client, the
    writer or the connection. *)
Definition disconnected (keep : gmap nat consumer) (s : session) : session :=
  mkSession false s.(se_next) keep s.(se_readers) s.(se_setup).

(** The connection ends its subscriptions. *)
Definition nats_close (s : session) : result () * session := (Ok tt, disconnected ∅ s).
(** The readers that were kept are closed, their loops end; then the writer. *)
Definition kafka_close (writer : result ()) (s : session) : result () * session :=
  (writer, disconnected (filter (λ kc, kc.1 ∉ s.(se_readers)) s.(se_consumers)) s).
(** The channel closes the deliveries, the loops end; then the connection. *)
Definition rabbit_close (conn : result ()) (s : session) : result () * session := (conn, disconnected ∅ s).
(** Only the client is closed; a loop ends when its own context does. *)
Definition redis_close (client : result ()) (s : session) : result () * session := (client, disconnected s.(se_consumers) s).
Definition mqtt_close (s : session) : result () * session := (Ok tt, disconnected ∅ s).

Definition Close (b : broker) (answer : result ()) : session → result () * session :=
  match b with
  | NATS _ => nats_close | Kafka _ => kafka_close answer | Rabbit _ => rabbit_close answer
  | Redis _ => redis_close answer | MQTT _ => mqtt_close
  end.

(** ** Runs, and the subscriptions that ought to be live *)

Inductive op := OpSubscribe (event : string) (a : answers) | OpClose (id : nat) | OpLoopEnds (id : nat).

Definition step (b : broker) (st : session * gmap nat string) (o : op) : session * gmap nat string :=
  let '(s, live) := st in
  match o with
  | OpSubscribe event a =>
      match Subscribe b event a s with
      | (Ok id, s') => (s', <[id := event]> live)
      | (Err _, s') => (s', live)
      end
  | OpClose id => (close_subscription b id s, delete id live)
  | OpLoopEnds id => (loop_ends b id s, live)
  end.
Definition run (b : broker) (ops : list op) : session * gmap nat string := foldl (step b) (new_session, ∅) ops.

(** The subscriptions whose loops ended of their own. *)
Definition ended (ops : list op) : gset nat := list_to_set (omap (λ o, match o with OpLoopEnds id => Some id | _ => None end) ops).

Definition is_mqtt (b : broker) : bool := match b with MQTT _ => true | _ => false end.
Definition is_rabbit (b : broker) : bool := match b with Rabbit _ => true | _ => false end.
Definition is_kafka (b : broker) : bool := match b with Kafka _ => true | _ => false end.
Definition is_redis (b : broker) : bool := match b with Redis _ => true | _ => false end.

(** * Lemmas *)

(** What an operation of the session leaves. *)
Record tracked (b : broker) (s : session) (live : gmap nat string) (E : gset nat) : Prop := {
  tr_fresh : ∀ id, s.(se_next) ≤ id → s.(se_consumers) !! id = None ∧ live !! id = None;
  tr_listens : ∀ id c, s.(se_consumers) !! id = Some c → c.(co_listens) = ad_listens (adapter_of b) c.(co_event);
  tr_alive : ∀ id c, s.(se_consumers) !! id = Some c → c.(co_alive) = true → live !! id = Some c.(co_event);
  tr_live : is_mqtt b = false → ∀ id e, live !! id = Some e → id ∉ E →
    ∃ c, s.(se_consumers) !! id = Some c ∧ c.(co_alive) = true;
  tr_no_dead : is_rabbit b = false → is_kafka b = false → ∀ id c, s.(se_consumers) !! id = Some c → c.(co_alive) = true;
  tr_readers : (∃ cfg, b = Kafka cfg) → ∀ id c, s.(se_consumers) !! id = Some c → id ∈ s.(se_readers);
}.

(** Subscribing adds one consumer, or nothing. *)
Lemma subscribe_cases b event a s :
  ∃ readers sets,
    (Subscribe b event a s).2 = mkSession s.(se_open) s.(se_next) s.(se_consumers) readers sets ∧ is_ok (Subscribe b event a s).1 = false
    ∨ ∃ group, Subscribe b event a s =
      (Ok s.(se_next), mkSession s.(se_open) (S s.(se_next))
        (<[s.(se_next) := mkConsumer group (ad_listens (adapter_of b) event) event true]> s.(se_consumers)) readers sets) ∧
      (∀ cfg, b = Kafka cfg → readers = s.(se_readers) ++ [s.(se_next)]).
Proof.
  destruct s as [op nx co re se].
  destruct b; cbn [Subscribe adapter_of ad_listens nats_adapter kafka_adapter rabbit_adapter redis_adapter mqtt_adapter];
    unfold nats_subscribe, kafka_subscribe, rabbit_subscribe, redis_subscribe, mqtt_subscribe,
    register, set_up, keep_reader, io_bind, io_ret; destruct a as [[q|] [|] [|]]; cbn;
    first [ eexists _, _; right; eexists; split; [reflexivity|]; (reflexivity || (intros ? ?; done))
          | eexists _, _; left; split; reflexivity ].
Qed.

Lemma tracked_subscribe b event a s live E :
  tracked b s live E → tracked b (step b (s, live) (OpSubscribe event a)).1 (step b (s, live) (OpSubscribe event a)).2 E.
Proof.
  intros [Hf Hl Ha Hv Hd Hr]. simpl. destruct (subscribe_cases b event a s) as (re&se&[[Hs Hok]|(g&Hs&Hre)]).
  - destruct (Subscribe b event a s) as [[id|e] s'] eqn:HS; [done|]. simpl in *. subst s'.
    destruct b; (split; [exact Hf|exact Hl|exact Ha|exact Hv|exact Hd|by intros [??]]).
  - rewrite Hs. simpl. destruct (Hf s.(se_next) ltac:(lia)) as [Hn1 Hn2]. split; cbn [se_next se_consumers se_readers].
    + intros id Hid. rewrite !lookup_insert_ne by lia. apply Hf. lia.
    + intros id c [[<- <-]|[_ Hc]]%lookup_insert_Some; [done|by eapply Hl].
    + intros id c [[<- <-]|[Hne Hc]]%lookup_insert_Some Hal; [by rewrite lookup_insert_eq|].
      rewrite lookup_insert_ne by done. by apply Ha.
    + intros Hm id e [[<- <-]|[Hne He]]%lookup_insert_Some HE; [eexists; by rewrite lookup_insert_eq|].
      destruct (Hv Hm _ _ He HE) as (c&?&?). exists c. by rewrite lookup_insert_ne.
    + intros Hrb Hkf id c [[<- <-]|[_ Hc]]%lookup_insert_Some; [done|by eapply Hd].
    + intros [cfg ->] id c Hc. rewrite (Hre cfg eq_refl). apply elem_of_app.
      apply lookup_insert_Some in Hc as [[<- <-]|[_ Hc]]; [right; by apply list_elem_of_singleton|left; eapply Hr; eauto].
Qed.

Lemma tracked_delete b s live E id :
  is_mqtt b = false → tracked b s live E → tracked b (with_consumers (delete id) s) (delete id live) E.
Proof.
  intros Hm [Hf Hl Ha Hv Hd Hr]. split; cbn [with_consumers se_next se_consumers se_readers].
  - intros k Hk. destruct (Hf k Hk). by rewrite !lookup_delete_None; auto.
  - intros k c [_ Hc]%lookup_delete_Some. by eapply Hl.
  - intros k c [Hne Hc]%lookup_delete_Some Hal. rewrite lookup_delete_ne by done. by apply Ha.
  - intros _ k e [Hne He]%lookup_delete_Some HE. rewrite lookup_delete_ne by done. by eapply Hv.
  - intros Hrb Hkf k c [_ Hc]%lookup_delete_Some. by eapply Hd.
  - intros Hk k c [_ Hc]%lookup_delete_Some. by eapply Hr.
Qed.

(** Messages of the consumer are no longer taken; its subscription was closed, or
    its loop has ended. *)
Lemma tracked_stop b s live E live' E' id :
  (is_rabbit b = true ∨ is_kafka b = true) → tracked b s live E →
  (live' = delete id live ∧ E' = E ∨ live' = live ∧ E' = {[id]} ∪ E) →
  tracked b (with_consumers (alter stop id) s) live' E'.
Proof.
  intros Hb [Hf Hl Ha Hv Hd Hr] Hlive.
  assert (∀ k, k ≠ id → live' !! k = live !! k) as Hsame.
  { intros k Hk. destruct Hlive as [[-> _]|[-> _]]; [by apply lookup_delete_ne|done]. }
  split; cbn [with_consumers se_next se_consumers se_readers].
  - intros k Hk. destruct (Hf k Hk). rewrite lookup_alter_None. split; [done|].
    destruct (decide (k = id)) as [->|Hne]; [|by rewrite Hsame]. destruct Hlive as [[-> _]|[-> _]]; [apply lookup_delete_eq|done].
  - intros k c. destruct (decide (k = id)) as [->|Hne]; [|rewrite lookup_alter_ne by done; apply Hl].
    rewrite lookup_alter_eq. intros (c0&Hc&->)%fmap_Some. by apply (Hl id c0).
  - intros k c. destruct (decide (k = id)) as [->|Hne]; [|rewrite lookup_alter_ne, Hsame by done; apply Ha].
    rewrite lookup_alter_eq. by intros (c0&Hc&->)%fmap_Some.
  - intros Hm k e He HE. destruct (decide (k = id)) as [->|Hne].
    + destruct Hlive as [[-> _]|[-> ->]]; [by rewrite lookup_delete_eq in He|set_solver].
    + rewrite lookup_alter_ne by done. rewrite Hsame in He by done. eapply Hv; [done|done|].
      destruct Hlive as [[_ ->]|[_ ->]]; [done|set_solver].
  - intros Hrb Hkf. destruct Hb; congruence.
  - intros Hk k c Hc. destruct (decide (k = id)) as [->|Hne].
    + rewrite lookup_alter_eq in Hc. apply fmap_Some in Hc as (c0&Hc&_). by eapply Hr.
    + rewrite lookup_alter_ne in Hc by done. by eapply Hr.
Qed.

Lemma tracked_weaken b s live E E' : E ⊆ E' → tracked b s live E → tracked b s live E'.
Proof. intros HE [Hf Hl Ha Hv Hd Hr]. split; try done. intros Hm id e He Hid. eapply Hv; [done|done|set_solver]. Qed.

Lemma tracked_loop_gone b s live E id :
  is_mqtt b = false → tracked b s live E → tracked b (with_consumers (delete id) s) live ({[id]} ∪ E).
Proof.
  intros Hm Ht. destruct (tracked_delete b s live E id Hm Ht) as [_ Hl' Ha' _ Hd' Hr']. destruct Ht as [Hf Hl Ha Hv Hd Hr].
  split; [|done| | |done|done]; cbn [with_consumers se_next se_consumers se_readers].
  - intros k Hk. destruct (Hf k Hk). by rewrite lookup_delete_None; auto.
  - intros k c Hc Hal. specialize (Ha' k c Hc Hal). by apply lookup_delete_Some in Ha' as [_ ?].
  - intros _ k e He HE. rewrite lookup_delete_ne by set_solver. eapply Hv; [done|done|set_solver].
Qed.

Lemma tracked_unsubscribe cfg s live E id :
  tracked (MQTT cfg) s live E → tracked (MQTT cfg) (close_subscription (MQTT cfg) id s) (delete id live) E.
Proof.
  intros [Hf Hl Ha Hv Hd Hr]. simpl. unfold mqtt_unsubscribe. destruct (se_consumers s !! id) as [c0|] eqn:H0.
  - split; cbn [with_consumers se_next se_consumers se_readers]; [..|done| |by intros [??]].
    + intros k Hk. destruct (Hf k Hk). rewrite map_lookup_filter_None, lookup_delete_None. auto.
    + intros k c [Hc _]%map_lookup_filter_Some. by eapply Hl.
    + intros k c [Hc Hne]%map_lookup_filter_Some Hal. rewrite lookup_delete_ne; [by apply Ha|]. intros ->. by simplify_eq/=.
    + intros Hrb Hkf k c [Hc _]%map_lookup_filter_Some. by eapply Hd.
  - split; [|done| |done|done|by intros [??]].
    + intros k Hk. destruct (Hf k Hk). rewrite lookup_delete_None. auto.
    + intros k c Hc Hal. rewrite lookup_delete_ne; [by apply Ha|congruence].
Qed.

Lemma run_tracked b ops : tracked b (run b ops).1 (run b ops).2 (ended ops).
Proof.
  induction ops as [|o ops IH] using rev_ind.
  { split; simpl; [done|done|done|done|done|by intros ???]. }
  assert (ended (ops ++ [o]) = ended ops ∪ ended [o]) as HE by (unfold ended; by rewrite omap_app, list_to_set_app_L).
  unfold run. rewrite foldl_app. fold (run b ops). simpl. destruct (run b ops) as [s live]. simpl in IH. rewrite HE.
  destruct o as [event a|id|id].
  - eapply tracked_weaken; [|by apply tracked_subscribe]. set_solver.
  - eapply tracked_weaken with (ended ops); [set_solver|]. simpl.
    destruct b; [by apply tracked_delete|by apply tracked_delete|eapply tracked_stop; by eauto|by apply tracked_delete|by apply tracked_unsubscribe].
  - replace (ended ops ∪ ended [OpLoopEnds id]) with ({[id]} ∪ ended ops) by (unfold ended; simpl; set_solver). simpl.
    destruct b; [eapply tracked_weaken; [|done]; set_solver|eapply tracked_stop; by eauto|eapply tracked_stop; by eauto|
      by apply tracked_loop_gone|eapply tracked_weaken; [|done]; set_solver].
Qed.

(** * Theorems *)

(** Subscriptions and consumers stay in step: whatever subscriptions were made,
    failed, closed and ended of their own, every consumer listens where a
    subscription to its event does, and one that somebody takes messages from
    belongs to a subscription that was made and not closed; on all brokers but MQTT
    every such subscription whose loop runs has its consumer, on all but RabbitMQ
    and Kafka no consumer is left without somebody, and on all but Redis closing
    the transport ends them all. *)
Theorem subscriptions_tracked b ops :
  let '(s, live) := run b ops in
  (∀ id c, s.(se_consumers) !! id = Some c →
     c.(co_listens) = ad_listens (adapter_of b) c.(co_event) ∧ (c.(co_alive) = true → live !! id = Some c.(co_event))) ∧
  (is_mqtt b = false → ∀ id e, live !! id = Some e → id ∉ ended ops →
     ∃ c, s.(se_consumers) !! id = Some c ∧ c.(co_alive) = true ∧ c.(co_event) = e) ∧
  (is_rabbit b = false → is_kafka b = false → ∀ id c, s.(se_consumers) !! id = Some c → c.(co_alive) = true) ∧
  (is_redis b = false → ∀ answer, (Close b answer s).2.(se_consumers) = ∅).
Proof.
  destruct (run b ops) as [s live] eqn:E. pose proof (run_tracked b ops) as Ht. rewrite E in Ht. simpl in Ht.
  destruct Ht as [_ Hl Ha Hv Hd Hr]. split_and!; [by eauto| |done|].
  - intros Hm id e He HE. destruct (Hv Hm _ _ He HE) as (c&Hc&Hal). exists c. split_and!; [done|done|].
    specialize (Ha _ _ Hc Hal). congruence.
  - intros Hrd answer. destruct b as [cfg|cfg|cfg|cfg|cfg]; try done. simpl. apply map_empty. intros id.
    apply map_lookup_filter_None. right. intros c Hc Hn. apply Hn. simpl. by eapply (Hr (ex_intro _ cfg eq_refl)).
Qed.

(** Kafka: a loop that ends because [FetchMessage] failed leaves its reader open
    and in the group, with nobody taking its messages; the subscription reports
    nothing. *)
Lemma kafka_reader_unserved cfg :
  let '(s, live) := run (Kafka cfg) [OpSubscribe "A.b.ok" (mkAnswers (Ok "") (Ok tt) (Ok tt)); OpLoopEnds 0] in
  live = {[0 := "A.b.ok"]} ∧
  (λ c, (c.(co_group), c.(co_alive))) <$> s.(se_consumers) = {[0 := (Some (kafkaGroup cfg.(kc_Group) "A.b.ok"), false)]}.
Proof. split; [reflexivity|]. apply map_eq. intros [|i]; reflexivity. Qed.

(** RabbitMQ: a closed subscription is still consuming: its consumer stays in the
    queue's round of deliveries with nobody taking them, so that a share of the
    queue's messages stays unacknowledged while the channel is open. *)
Lemma rabbit_closed_consumes cfg q :
  let '(s, live) := run (Rabbit cfg) [OpSubscribe "A.b.ok" (mkAnswers (Ok q) (Ok tt) (Ok tt));
                                      OpSubscribe "A.b.ok" (mkAnswers (Ok q) (Ok tt) (Ok tt)); OpClose 0] in
  live = {[1 := "A.b.ok"]} ∧ (λ c, (c.(co_group), c.(co_alive))) <$> s.(se_consumers) = {[0 := (Some q, false); 1 := (Some q, true)]}.
Proof. split; [reflexivity|]. apply map_eq. intros [|[|[|i]]]; reflexivity. Qed.

(** MQTT: closing one of two subscriptions to a topic ends both. *)
Lemma mqtt_close_ends_both cfg :
  let ok := mkAnswers (Ok "") (Ok tt) (Ok tt) in
  let '(s, live) := run (MQTT cfg) [OpSubscribe "A.b.ok" ok; OpSubscribe "A.b.ok" ok; OpClose 0] in
  live = {[1 := "A.b.ok"]} ∧ s.(se_consumers) = ∅.
Proof.
  simpl. split; [reflexivity|]. apply map_empty. intros id. apply map_lookup_filter_None. right. intros c Hc Hn.
  apply Hn. simpl in *. apply lookup_insert_Some in Hc as [[_ <-]|[_ Hc]]; [reflexivity|].
  apply lookup_insert_Some in Hc as [[_ <-]|[_ Hc]]; [reflexivity|done].
Qed.

(** Redis: closing the transport leaves the read loops of its subscriptions, and a
    loop whose reads fail because the client is closed reads again, however
    often. *)
Lemma redis_loops_survive cfg ops answer {W} (h : Envelope → io W (result ())) event n w :
  (Close (Redis cfg) answer (run (Redis cfg) ops).1).2.(se_consumers) = (run (Redis cfg) ops).1.(se_consumers) ∧
  ∀ reads, redis_loop h event (replicate n ReadError ++ reads) w = redis_loop h event reads w.
Proof. split; [done|]. intros reads. induction n; [done|]. simpl. done. Qed.

(** All consumers of a Redis stream, and of a Kafka topic with a configured group,
    are in one group, whatever event they are for. *)
Lemma one_group b g ops :
  (∃ cfg, b = Redis cfg ∧ g = cfg.(xc_Group)) ∨ (∃ cfg, b = Kafka cfg ∧ g = cfg.(kc_Group) ∧ g ≠ "") →
  ∀ id c, (run b ops).1.(se_consumers) !! id = Some c → c.(co_group) = Some g.
Proof.
  intros Hb. induction ops as [|o ops IH] using rev_ind; [done|]. intros id c. unfold run. rewrite foldl_app. fold (run b ops).
  simpl. destruct (run b ops) as [s live]. simpl in IH.
  destruct Hb as [(cfg&->&->)|(cfg&->&->&Hg)], o as [event [? [|] ?]|k|k]; simpl;
    try (intros [_ Hc]%lookup_delete_Some; by eapply IH);
    try (rewrite lookup_alter_Some; intros [(->&c0&Hc&->)|[_ Hc]]; simpl; by eapply IH);
    (intros [[<- <-]|[_ Hc]]%lookup_insert_Some; [simpl|by eapply IH]); try done;
    unfold kafkaGroup; by rewrite decide_False.
Qed.

(** A group hands a message to one of its consumers.  With two subscriptions to
    different events in one group, a message that comes to the wrong one is
    acknowledged without a call: the subscription that wants it never sees it. *)
Theorem shared_group_discards b g ops id1 id2 c1 c2 {W} (h : Envelope → io W (result ())) env raw w :
  (∃ cfg, b = Redis cfg ∧ g = cfg.(xc_Group)) ∨ (∃ cfg, b = Kafka cfg ∧ g = cfg.(kc_Group) ∧ g ≠ "") →
  (run b ops).1.(se_consumers) !! id1 = Some c1 → (run b ops).1.(se_consumers) !! id2 = Some c2 →
  decodeEnvelope raw = Ok env → wanted c1.(co_event) env = true → wanted c2.(co_event) env = false →
  c1.(co_group) = c2.(co_group) ∧ c1.(co_listens) = c2.(co_listens) ∧
  ad_deliver (adapter_of b) W h c2.(co_event) raw w = (Acked, w).
Proof.
  intros Hb H1 H2 Hd Hw1 Hw2. rewrite (one_group b g ops Hb _ _ H1), (one_group b g ops Hb _ _ H2).
  pose proof (tr_listens _ _ _ _ (run_tracked b ops)) as Hl. rewrite (Hl _ _ H1), (Hl _ _ H2).
  destruct Hb as [(cfg&->&->)|(cfg&->&->&Hg)]; simpl; unfold redis_deliver, kafka_deliver, io_ret; rewrite Hd, Hw2; done.
Qed.

(** * Closed instances *)

Definition ex_redis : RedisStreamsConfig := NewRedisStreamsTransport (mkRedisConfig "redis" "localhost:6379" "" "" "" 0).
Definition ex_answers : answers := mkAnswers (Ok "") (Ok tt) (Ok tt).

Lemma shared_group_discards_witness :
  let wire := value_or [] (encodeEnvelope ex_envelope) in
  ad_deliver (adapter_of (Redis ex_redis)) nat ex_count "Other.thing.ok" wire 0 = (Acked, 0).
Proof.
  intros wire.
  apply (shared_group_discards (Redis ex_redis) "ubiq"
    [OpSubscribe ex_envelope.(env_Event) ex_answers; OpSubscribe "Other.thing.ok" ex_answers] 0 1
    (mkConsumer (Some "ubiq") "ubiq-events" ex_envelope.(env_Event) true) (mkConsumer (Some "ubiq") "ubiq-events" "Other.thing.ok" true)
    ex_count (normalize ex_envelope) wire 0);
    [left; exists ex_redis; split; reflexivity|reflexivity|reflexivity|vm_compute; reflexivity|reflexivity|reflexivity].
Defined.
