(* ===== verification/Server.v ===== *)
(** * The control server: server.go

    The hub of live subscribers, ingestion (store, hub, egress transport,
    outbox), the HTTP handlers over the store, the binding of a transport to the
    store, and the maintenance tick that requeues expired leases and drains the
    outbox.  What the registered transports do when asked to publish is the
    section variable [publish]; a request is its decoded parts, a response its
    status and body. *)

From Stdlib Require Import ZArith Lia Ascii String.
From stdpp Require Import base list gmap sets strings.
From S2P Require Import Prelude GoRegexp JsonScan JsonText JsonValues Sha256 Model Json Db Store Transport.

(** ** Hub *)

Module Hub.
(** A buffered channel: capacity and queued values. *)
Record chan := Chan { buffer : nat; queue : list Envelope }.
Record state := mkHub { next : Z; subs : gmap Z chan }.

Definition NewHub : state := mkHub 0 ∅.

Definition Subscribe (buffer : nat) (h : state) : Z * state :=
  (h.(next), mkHub (uint64 (h.(next) + 1)) (<[h.(next) := Chan buffer []]> h.(subs))).

Definition Unsubscribe (id : Z) (h : state) : state := mkHub h.(next) (delete id h.(subs)).

(** [select { case ch <- env: default: }]. *)
Definition offer (env : Envelope) (c : chan) : chan :=
  if (length c.(queue) <? c.(buffer))%nat then Chan c.(buffer) (c.(queue) ++ [env]) else c.

Definition Publish (env : Envelope) (h : state) : state := mkHub h.(next) (offer env <$> h.(subs)).

(** A subscriber's receive. *)
Definition receive (id : Z) (h : state) : option Envelope * state :=
  match h.(subs) !! id with
  | Some (Chan b (e :: q)) => (Some e, mkHub h.(next) (<[id := Chan b q]> h.(subs)))
  | _ => (None, h)
  end.
End Hub.

(** ** Requests and responses *)

Inductive body := NoBody | ErrorBody (e : error) | EnvelopeBody (e : Envelope) | ClaimBody (c : ClaimedEvent).
Record response := Response { status : Z; content : body }.

Definition StatusOK : Z := 200.
Definition StatusAccepted : Z := 202.
Definition StatusNoContent : Z := 204.
Definition StatusBadRequest : Z := 400.
Definition StatusConflict : Z := 409.
Definition StatusBadGateway : Z := 502.

Definition writeJSON (status : Z) (b : body) : response := Response status b.
Definition writeError (status : Z) (e : error) : response := writeJSON status (ErrorBody e).

(** The JSON fields of a [ControlFrame]. *)
Definition frame_fields : fields ControlFrame :=
  [("kind", λ v '(mkFrame a b c d e f), try x := string_into v a in Ok (mkFrame x b c d e f));
   ("event_id", λ v '(mkFrame a b c d e f), try x := string_into v b in Ok (mkFrame a x c d e f));
   ("worker_id", λ v '(mkFrame a b c d e f), try x := string_into v c in Ok (mkFrame a b x d e f));
   ("fencing_token", λ v '(mkFrame a b c d e f), try x := uint64_into v d in Ok (mkFrame a b c x e f));
   ("at_ms", λ v '(mkFrame a b c d e f), try x := int64_into v e in Ok (mkFrame a b c d x f));
   ("evidence", λ v '(mkFrame a b c d e f), Ok (mkFrame a b c d e v))].
Definition zero_frame : ControlFrame := mkFrame "" "" "" 0 0 [].

Definition set_kind (k : string) (f : ControlFrame) : ControlFrame :=
  mkFrame k f.(fr_EventID) f.(fr_WorkerID) f.(fr_FencingToken) f.(fr_AtMS) f.(fr_Evidence).
(** [if frame.AtMS == 0 { frame.AtMS = time.Now().UnixMilli() }]. *)
Definition default_at (now : Z) (f : ControlFrame) : ControlFrame :=
  if (f.(fr_AtMS) =? 0)%Z
  then mkFrame f.(fr_Kind) f.(fr_EventID) f.(fr_WorkerID) f.(fr_FencingToken) (UnixMilli now) f.(fr_Evidence)
  else f.

(** ** The server *)

Module Server.
Section server.
Context {E : Type} (registry : Registry.state).
(** Publication through a registered transport, on the state of the outside. *)
Context (publish : Transport → Envelope → io E (result ())).

Record state := mkServer { sv_store : world control_db; sv_hub : Hub.state; sv_ext : E }.

Definition on_store {A} (m : io (world control_db) A) : io state A := λ s,
  let (a, w) := m s.(sv_store) in (a, mkServer w s.(sv_hub) s.(sv_ext)).
Definition on_hub (f : Hub.state → Hub.state) : io state () := λ s,
  (tt, mkServer s.(sv_store) (f s.(sv_hub)) s.(sv_ext)).
Definition on_ext {A} (m : io E A) : io state A := λ s,
  let (a, e) := m s.(sv_ext) in (a, mkServer s.(sv_store) s.(sv_hub) e).

(** [ingest]; [now] and [now'] are the clock readings of the store and of the
    outbox.  Beside an error the callers use nothing. *)
Definition ingest (defaultTransport : string) (env : Envelope) (transport : string) (now now' : Z)
  : io state (result (Envelope * bool)) :=
  do r <- on_store (ControlStore.Publish env now);
  match r with
  | Err e => io_ret (Err e)
  | Ok (stored, created) =>
    do _ <- on_hub (Hub.Publish stored);
    let transport := if decide (transport = "") then defaultTransport else transport in
    if negb (bool_decide (transport = "")) && created then
      match Registry.Get registry transport with
      | Err e => io_ret (Err e)
      | Ok t =>
        do res <- on_ext (publish t stored);
        match res with
        | Err e =>
            let raw := value_or [] (json_Marshal stored) in
            do _ <- on_store (ControlStore.EnqueueOutbox stored.(env_ID) transport raw (now' + Second));
            io_ret (Err e)
        | Ok _ => io_ret (Ok (stored, created))
        end
      end
    else io_ret (Ok (stored, created))
  end.

(** The limit of [http.MaxBytesReader]. *)
Definition maxBody : nat := N.to_nat (N.shiftl 8 20).

(** [handlePublish]; [dec] is what [Decode] makes of the (limited) body. *)
Definition handlePublish (defaultTransport : string) (dec : result Envelope) (pathEvent transport : string)
  (now now' : Z) : io state response :=
  match dec with
  | Err e => io_ret (writeError StatusBadRequest e)
  | Ok env =>
    if decide (env.(env_Event) ≠ pathEvent)
    then io_ret (writeError StatusBadRequest
           (ErrFmt "path event %q differs from envelope %q" [pathEvent; env.(env_Event)]))
    else
      do r <- ingest defaultTransport env transport now now';
      io_ret (match r with
              | Err e => writeError StatusBadGateway e
              | Ok (stored, created) =>
                  writeJSON (if created then StatusAccepted else StatusOK) (EnvelopeBody stored)
              end)
  end.

(** The decoding of the publish handler: unknown fields are refused, the body is
    cut at the limit. *)
Definition decode_publish (b : bytes) : result Envelope :=
  Decode true (envelope_fields true) zero_envelope (take maxBody b).

(** The lease of [handleClaim]: [time.Duration(v) * time.Millisecond] is an int64
    product. *)
Definition claim_lease (leaseDuration : Z) (lease_ms : option Z) : Z :=
  match lease_ms with
  | Some v => if (0 <? v)%Z then int64 (v * Millisecond) else leaseDuration
  | None => leaseDuration
  end.

(** [handleClaim]; [lease_ms] is the parameter as scanned, [None] when absent or
    unreadable. *)
Definition handleClaim (leaseDuration : Z) (worker : string) (lease_ms : option Z) (now : Z)
  : io state response :=
  do r <- on_store (ControlStore.Claim worker (claim_lease leaseDuration lease_ms) now);
  io_ret (match r with
          | Err e => if decide (e = ErrNothingAvailable) then writeJSON StatusNoContent NoBody
                     else writeError StatusConflict e
          | Ok c => writeJSON StatusOK (ClaimBody c)
          end).

(** [handleReceived] and [handleSettle]. *)
Definition handleReceived (b : bytes) (now : Z) : io state response :=
  match Decode false frame_fields zero_frame b with
  | Err e => io_ret (writeError StatusBadRequest e)
  | Ok frame =>
      do r <- on_store (ControlStore.MarkReceived (default_at now (set_kind ControlReceived frame)) now);
      io_ret (match r with
              | Err e => writeError StatusConflict e
              | Ok _ => writeJSON StatusNoContent NoBody
              end)
  end.

Definition handleSettle (b : bytes) (now : Z) : io state response :=
  match Decode false frame_fields zero_frame b with
  | Err e => io_ret (writeError StatusBadRequest e)
  | Ok frame =>
      do r <- on_store (ControlStore.Settle (default_at now frame) now);
      io_ret (match r with
              | Err e => writeError StatusConflict e
              | Ok _ => writeJSON StatusNoContent NoBody
              end)
  end.

(** The handler [BindTransport] subscribes: store, then hub. *)
Definition bound_handler (now : Z) (env : Envelope) : io state (result ()) :=
  do r <- on_store (ControlStore.Publish env now);
  match r with
  | Err e => io_ret (Err e)
  | Ok _ => do _ <- on_hub (Hub.Publish env); io_ret (Ok tt)
  end.

(** The outbox rounds of a tick. *)
Fixpoint drain (rounds : nat) (now : Z) : io state () :=
  match rounds with
  | O => io_ret tt
  | S rounds =>
      do r <- on_store (ControlStore.NextOutbox now);
      match r with
      | Err _ => io_ret tt
      | Ok record =>
          match json_Unmarshal record.(or_Payload) with
          | Err _ => do _ <- on_store (ControlStore.MarkOutboxDelivered record.(or_Seq) now); drain rounds now
          | Ok env =>
              match Registry.Get registry record.(or_Transport) with
              | Err _ => io_ret tt
              | Ok t =>
                  do res <- on_ext (publish t env);
                  match res with
                  | Err _ => io_ret tt
                  | Ok _ => do _ <- on_store (ControlStore.MarkOutboxDelivered record.(or_Seq) now); drain rounds now
                  end
              end
          end
      end
  end.

(** One tick of [RunMaintenance]. *)
Definition tick (now : Z) : io state () :=
  do _ <- on_store (ControlStore.RequeueExpired now);
  drain 64 now.
End server.
Arguments state : clear implicits.
End Server.
