(* ===== verification/ServerTheorems.v ===== *)
(** * What the control server guarantees

    Ingestion hands every new event to its transport or queues it, a tick drains
    the outbox in order, and the two ways an event can miss its transport. *)

From Stdlib Require Import ZArith Lia Ascii String Sorted.
From stdpp Require Import base list gmap sets strings relations sorting.
From S2P Require Import Prelude GoRegexp JsonScan JsonText Sha256 Model Json Db Store StoreSteps.
From S2P Require Import StoreTheorems Transport Server.
Import Sql.

(** * Lemmas *)

(** [ControlStore.Publish] without driver failures, by what is already stored. *)
Lemma Publish_new d env raw now :
  Validate env = Ok tt → json_Marshal env = Ok raw →
  by_key env.(env_IdempotencyKey) d = None → d.(events) !! env.(env_ID) = None →
  ControlStore.Publish env now (World d []) =
  (Ok (env, true),
   World (with_history (d.(delivery_history) ++
            [HistoryRow env.(env_ID) DeliveryPublished None None (UnixMilli now) None])
          (with_events (<[env.(env_ID) := EventRow env.(env_IdempotencyKey) env.(env_Event) raw
             DeliveryPublished None None 0 0 env.(env_CreatedAtMS) (UnixMilli now)]> d.(events)) d)) []).
Proof.
  intros Hv Hm Hk Hn. unfold ControlStore.Publish, io_bind, io_ret. rewrite Hv, Hm, exec_clean.
  unfold insert_event. rewrite Hk, Hn, rows_affected_clean, decide_True by done. by rewrite exec_clean.
Qed.

Lemma Publish_dup d env raw now id r :
  Validate env = Ok tt → json_Marshal env = Ok raw → by_key env.(env_IdempotencyKey) d = Some (id, r) →
  ControlStore.Publish env now (World d []) =
  (try existing := json_Unmarshal r.(ev_envelope) in Ok (existing, false), World d []).
Proof.
  intros Hv Hm Hk. unfold ControlStore.Publish, io_bind, io_ret. rewrite Hv, Hm, exec_clean.
  unfold insert_event. rewrite Hk, rows_affected_clean, decide_False by done.
  rewrite query_clean. unfold select_envelope. by rewrite Hk.
Qed.

Section ingest.
Context {E : Type} (registry : Registry.state) (publish : Transport → Envelope → io E (result ())).
Abbreviation server := (Server.state E).
Abbreviation ingest := (Server.ingest registry publish).

(** The database after a new event is stored. *)
Definition stored_db (env : Envelope) (raw : bytes) (now : Z) (d : control_db) : control_db :=
  with_history (d.(delivery_history) ++ [HistoryRow env.(env_ID) DeliveryPublished None None (UnixMilli now) None])
    (with_events (<[env.(env_ID) := EventRow env.(env_IdempotencyKey) env.(env_Event) raw
       DeliveryPublished None None 0 0 env.(env_CreatedAtMS) (UnixMilli now)]> d.(events)) d).

Lemma stored_db_inv env raw now d :
  Inv d → Validate env = Ok tt → json_Marshal env = Ok raw →
  by_key env.(env_IdempotencyKey) d = None → d.(events) !! env.(env_ID) = None → Inv (stored_db env raw now d).
Proof.
  intros HI Hv Hm Hk Hn. eapply inv_steps; [exact HI|].
  pose proof (Publish_moves env now (World d [])) as Hs. by rewrite (Publish_new d env raw now) in Hs.
Qed.

Lemma by_key_stored env raw now d :
  Inv d → Validate env = Ok tt → json_Marshal env = Ok raw →
  by_key env.(env_IdempotencyKey) d = None → d.(events) !! env.(env_ID) = None →
  ∃ id r, by_key env.(env_IdempotencyKey) (stored_db env raw now d) = Some (id, r) ∧ r.(ev_envelope) = raw.
Proof.
  intros HI Hv Hm Hk Hn. pose proof (stored_db_inv env raw now d HI Hv Hm Hk Hn) as HI'.
  set (r := EventRow env.(env_IdempotencyKey) env.(env_Event) raw
       DeliveryPublished None None 0 0 env.(env_CreatedAtMS) (UnixMilli now)).
  exists env.(env_ID), r. split; [|done].
  apply (by_key_unique _ _ r HI'). simpl. apply lookup_insert_eq.
Qed.

Lemma EnqueueOutbox_clean id tr raw at_ d :
  id ≠ "" → tr ≠ "" → raw ≠ [] →
  ControlStore.EnqueueOutbox id tr raw at_ (World d []) =
  (Ok tt, World (with_outbox (d.(outbox) ++ [OutboxRow (d.(outbox_seq) + 1) id tr raw 0 (UnixMilli at_) None])
                   (d.(outbox_seq) + 1) d) []).
Proof.
  intros Hi Ht Hr. unfold ControlStore.EnqueueOutbox, io_bind, io_ret.
  rewrite !bool_decide_eq_false_2 by done. cbn [orb]. by rewrite exec_clean.
Qed.

Lemma marshal_nonempty env raw : json_Marshal env = Ok raw → raw ≠ [].
Proof. simpl. unfold marshal_envelope. destruct (marshal_raw _); [|done]. by intros [= <-]. Qed.
End ingest.

(** The outbox under the store invariant: the next record is the first pending
    one, and marking it removes exactly it. *)
Section outbox.
Implicit Types (d : control_db).
Abbreviation pending_rows now d := (filter (pending now) d.(outbox)).

Lemma sorted_seq_filter now d :
  Inv d → StronglySorted (λ x y, x.(ob_seq) < y.(ob_seq))%Z (pending_rows now d).
Proof.
  intros HI. destruct (inv_outbox _ HI) as [Hs _].
  induction Hs as [|x l Hs IH Hx]; [constructor|].
  destruct (decide (pending now x)); [rewrite filter_cons_True by done|by rewrite filter_cons_False].
  constructor; [done|]. rewrite Forall_forall in *. intros y [_ Hy]%list_elem_of_filter. by apply Hx.
Qed.

Lemma list_min_head (l : list outbox_row) x :
  StronglySorted (λ x y, x.(ob_seq) < y.(ob_seq))%Z (x :: l) → list_min seq_le (x :: l) = Some x.
Proof.
  intros Hs. destruct (list_min seq_le (x :: l)) as [y|] eqn:E; [|by apply list_min_None in E].
  pose proof (list_min_elem _ _ _ E) as Hy. apply elem_of_cons in Hy as [->|Hy]; [done|].
  assert (PreOrder seq_le) by (split; intros ?; unfold seq_le; lia).
  assert (Total seq_le) by (intros ??; unfold seq_le; lia).
  pose proof (list_min_le seq_le _ _ x E (list_elem_of_here _ _)) as Hle.
  apply StronglySorted_inv in Hs as [_ Hs]. rewrite Forall_forall in Hs. apply Hs in Hy.
  unfold seq_le in Hle. lia.
Qed.

Lemma NextOutbox_clean now d :
  Inv d →
  ControlStore.NextOutbox now (World d []) =
  (match pending_rows (UnixMilli now) d with
   | [] => Err ErrNothingAvailable
   | x :: _ => Ok (mkOutboxRecord x.(ob_seq) x.(ob_event_id) x.(ob_transport) x.(ob_payload) x.(ob_attempts))
   end, World d []).
Proof.
  intros HI. unfold ControlStore.NextOutbox, io_bind, io_ret. rewrite query_clean. unfold select_outbox.
  pose proof (sorted_seq_filter (UnixMilli now) d HI) as Hs.
  destruct (pending_rows (UnixMilli now) d) as [|x l]; [done|]. by rewrite (list_min_head l x).
Qed.

(** Marking the first pending record delivered. *)
Lemma deliver_update_head now at_ d x l :
  Inv d → pending_rows now d = x :: l →
  ∃ d', deliver_update x.(ob_seq) at_ d = Ok (1%Z, d') ∧ pending_rows now d' = l.
Proof.
  intros HI Hp. assert (x ∈ pending_rows now d) as [[Hd Ha] Hx]%list_elem_of_filter by (rewrite Hp; constructor).
  apply list_elem_of_split in Hx as (l1&l2&Ho).
  destruct (inv_outbox _ HI) as [Hs _]. rewrite Ho in Hs. apply StronglySorted_app in Hs as (Hlt&_&Hs2).
  apply StronglySorted_inv in Hs2 as [_ Hgt]. rewrite Forall_forall in Hgt.
  assert (∀ y, y ∈ l1 ∨ y ∈ l2 → ¬ undelivered x.(ob_seq) y) as Hne.
  { intros y [Hy|Hy] [Hq _]; [specialize (Hlt y x Hy ltac:(constructor))|specialize (Hgt y Hy)]; lia. }
  assert (∀ k, (∀ y, y ∈ k → ¬ undelivered x.(ob_seq) y) →
    filter (undelivered x.(ob_seq)) k = [] ∧
    ((λ r, if decide (undelivered x.(ob_seq) r) then deliver_row at_ r else r) <$> k) = k) as Hk.
  { intros k. induction k as [|y k IH]; intros Hy; [done|].
    destruct IH as [IH1 IH2]; [intros; apply Hy; by constructor|].
    rewrite filter_cons_False by (apply Hy; constructor).
    rewrite fmap_cons, decide_False by (apply Hy; constructor). by rewrite IH1, IH2. }
  destruct (Hk l1) as [F1 M1]; [auto|]. destruct (Hk l2) as [F2 M2]; [auto|].
  assert (undelivered x.(ob_seq) x) as Hu by done.
  eexists. split.
  - unfold deliver_update. rewrite Ho at 1. rewrite filter_app, filter_cons_True, F1, F2 by done. done.
  - cbn [outbox with_outbox]. rewrite Ho, fmap_app, fmap_cons, decide_True, M1, M2 by done.
    rewrite Ho, filter_app, filter_cons_True in Hp by done.
    rewrite filter_app, filter_cons_False by (by intros [? _]).
    destruct (filter (pending now) l1) as [|y k] eqn:Ef; [by injection Hp|].
    injection Hp as -> _. assert (x ∈ filter (pending now) l1) as [_ Hx1]%list_elem_of_filter
      by (rewrite Ef; constructor). exfalso. by apply (Hne x (or_introl Hx1)).
Qed.

Lemma MarkOutboxDelivered_head now d x l :
  Inv d → pending_rows (UnixMilli now) d = x :: l →
  ∃ d', ControlStore.MarkOutboxDelivered x.(ob_seq) now (World d []) = (Ok tt, World d' []) ∧
    pending_rows (UnixMilli now) d' = l ∧ Inv d' ∧ d'.(events) = d.(events).
Proof.
  intros HI Hp. destruct (deliver_update_head _ (UnixMilli now) d x l HI Hp) as (d'&Hd&Hp').
  exists d'. split_and!; [|done| |].
  - unfold ControlStore.MarkOutboxDelivered, io_bind, io_ret. by rewrite exec_clean, Hd, rows_affected_clean.
  - eapply inv_step; [exact HI|]. by eapply step_deliver.
  - unfold deliver_update in Hd. by simplify_eq/=.
Qed.
End outbox.

(** Ingestion on each of its branches. *)
Section branches.
Context {E : Type} (registry : Registry.state) (publish : Transport → Envelope → io E (result ())).

(** The outbox record of an event its transport refused. *)
Definition queue_db (id tr : string) (raw : bytes) (at_ : Z) (d : control_db) : control_db :=
  with_outbox (d.(outbox) ++ [OutboxRow (d.(outbox_seq) + 1) id tr raw 0 (UnixMilli at_) None]) (d.(outbox_seq) + 1) d.

Lemma ingest_new dt env tr t raw now now' d hub e :
  Validate env = Ok tt → json_Marshal env = Ok raw →
  by_key env.(env_IdempotencyKey) d = None → d.(events) !! env.(env_ID) = None →
  (if decide (tr = "") then dt else tr) ≠ "" →
  registry !! (if decide (tr = "") then dt else tr) = Some t →
  Server.ingest registry publish dt env tr now now' (Server.mkServer (World d []) hub e) =
  let '(res, e') := publish t env e in
  (match res with Ok _ => Ok (env, true) | Err er => Err er end,
   Server.mkServer (World (match res with
     | Ok _ => stored_db env raw now d
     | Err _ => queue_db env.(env_ID) (if decide (tr = "") then dt else tr) raw (now' + Second) (stored_db env raw now d)
     end) []) (Hub.Publish env hub) e').
Proof.
  intros Hv Hm Hk Hn Hne Hreg. destruct (publish t env e) as [res e'] eqn:Hp.
  unfold Server.ingest, io_bind at 1, Server.on_store at 1. cbn [Server.sv_store].
  rewrite (Publish_new d env raw now) by done. cbn [Server.sv_hub Server.sv_ext].
  unfold io_bind at 1, Server.on_hub at 1. cbn [Server.sv_store Server.sv_hub Server.sv_ext].
  rewrite (bool_decide_eq_false_2 _ Hne). cbn [negb andb]. unfold Registry.Get. rewrite Hreg.
  unfold io_bind at 1, Server.on_ext. cbn [Server.sv_store Server.sv_hub Server.sv_ext]. rewrite Hp.
  destruct res as [[]|er]; [done|]. unfold io_bind, Server.on_store. cbn [Server.sv_store Server.sv_hub Server.sv_ext].
  rewrite Hm. cbn [value_or]. apply Validate_ok in Hv as (Hid&_).
  by rewrite EnqueueOutbox_clean; [|done|done|by eapply marshal_nonempty].
Qed.

Lemma ingest_conflict dt env raw tr now now' d hub e :
  Validate env = Ok tt → json_Marshal env = Ok raw →
  by_key env.(env_IdempotencyKey) d = None → is_Some (d.(events) !! env.(env_ID)) →
  Server.ingest registry publish dt env tr now now' (Server.mkServer (World d []) hub e) =
  (Err constraint_primarykey, Server.mkServer (World d []) hub e).
Proof.
  intros Hv Hm Hk [r Hr]. unfold Server.ingest, Server.on_store, ControlStore.Publish, io_bind, io_ret. cbn [Server.sv_store].
  rewrite Hv, Hm, exec_clean. unfold insert_event. by rewrite Hk, Hr.
Qed.

Lemma ingest_unknown dt env raw tr now now' d hub e :
  Validate env = Ok tt → json_Marshal env = Ok raw →
  by_key env.(env_IdempotencyKey) d = None → d.(events) !! env.(env_ID) = None →
  tr ≠ "" → registry !! tr = None →
  Server.ingest registry publish dt env tr now now' (Server.mkServer (World d []) hub e) =
  (Err (ErrFmt "unknown transport %q" [tr]),
   Server.mkServer (World (stored_db env raw now d) []) (Hub.Publish env hub) e).
Proof.
  intros Hv Hm Hk Hn Hne Hreg. unfold Server.ingest, io_bind, Server.on_store, Server.on_hub. cbn [Server.sv_store].
  rewrite (Publish_new d env raw now) by done. rewrite decide_False by done.
  rewrite (bool_decide_eq_false_2 _ Hne). cbn [negb andb]. unfold Registry.Get. by rewrite Hreg.
Qed.

Lemma ingest_dup dt env raw tr now now' d id r hub e :
  Validate env = Ok tt → json_Marshal env = Ok raw → by_key env.(env_IdempotencyKey) d = Some (id, r) →
  Server.ingest registry publish dt env tr now now' (Server.mkServer (World d []) hub e) =
  match json_Unmarshal r.(ev_envelope) with
  | Ok stored => (Ok (stored, false), Server.mkServer (World d []) (Hub.Publish stored hub) e)
  | Err er => (Err er, Server.mkServer (World d []) hub e)
  end.
Proof.
  intros Hv Hm Hk. unfold Server.ingest, io_bind, Server.on_store, Server.on_hub. cbn [Server.sv_store].
  rewrite (Publish_dup d env raw now id r) by done. destruct (json_Unmarshal (ev_envelope r)); [|done].
  by rewrite andb_false_r.
Qed.
End branches.

(** Draining when every publication succeeds. *)
Section drain.
Context {E : Type} (registry : Registry.state) (publish : Transport → Envelope → io E (result ())).

(** What the records ask to be published: those whose text is an envelope, on the
    transport they name. *)
Definition offers (xs : list outbox_row) : list (Transport * Envelope) :=
  omap (λ x, match json_Unmarshal x.(ob_payload), registry !! x.(ob_transport) with
             | Ok env, Some t => Some (t, env) | _, _ => None end) xs.
Definition publish_each (offered : list (Transport * Envelope)) (e : E) : E :=
  foldl (λ e '(t, env), (publish t env e).2) e offered.

Lemma drain_all n now d hub e :
  Inv d → (∀ t env e, is_ok (publish t env e).1 = true) →
  Forall (λ x, is_Some (registry !! x.(ob_transport))) (filter (pending (UnixMilli now)) d.(outbox)) →
  ∃ d', Server.drain registry publish n now (Server.mkServer (World d []) hub e) =
      (tt, Server.mkServer (World d' []) hub
        (publish_each (offers (take n (filter (pending (UnixMilli now)) d.(outbox)))) e)) ∧
    filter (pending (UnixMilli now)) d'.(outbox) = drop n (filter (pending (UnixMilli now)) d.(outbox)) ∧
    d'.(events) = d.(events).
Proof.
  intros HI Hp. revert d e HI. induction n as [|n IH]; intros d e HI Hr; [by eexists|].
  cbn [Server.drain]. unfold io_bind at 1, Server.on_store at 1. cbn [Server.sv_store].
  rewrite NextOutbox_clean by done. cbn [Server.sv_hub Server.sv_ext].
  destruct (filter (pending (UnixMilli now)) (outbox d)) as [|x l] eqn:Ef.
  { eexists. split; [done|]. by rewrite Ef. }
  apply Forall_cons in Hr as [[t Ht] Hl].
  destruct (MarkOutboxDelivered_head now d x l HI Ef) as (d'&Hd&Hl'&HI'&Hev).
  cbn [or_Payload or_Transport or_Seq].
  assert (∀ e', ∃ d2, io_bind (Server.on_store (ControlStore.MarkOutboxDelivered x.(ob_seq) now))
      (λ _, Server.drain registry publish n now) (Server.mkServer (World d []) hub e') =
      (tt, Server.mkServer (World d2 []) hub (publish_each (offers (take n l)) e')) ∧
    filter (pending (UnixMilli now)) d2.(outbox) = drop n l ∧ d2.(events) = d.(events)) as Hgo.
  { intros e'. unfold io_bind, Server.on_store. cbn [Server.sv_store]. rewrite Hd.
    cbn [Server.sv_hub Server.sv_ext]. rewrite <- Hl', <- Hev. apply IH; [done|by rewrite Hl']. }
  cbn [take]. unfold offers. cbn [omap list_omap]. fold (offers (take n l)).
  destruct (json_Unmarshal (ob_payload x)) as [env|]; [|apply Hgo].
  unfold Registry.Get. rewrite Ht. cbn [publish_each foldl]. unfold io_bind at 1, Server.on_ext. cbn [Server.sv_ext].
  specialize (Hp t env e). destruct (publish t env e) as [[]  e1]; [|done]. apply Hgo.
Qed.

(** Draining with a head record that cannot be sent. *)
Lemma drain_blocked n now d hub e x l env :
  Inv d → filter (pending (UnixMilli now)) d.(outbox) = x :: l →
  json_Unmarshal x.(ob_payload) = Ok env → registry !! x.(ob_transport) = None →
  Server.drain registry publish n now (Server.mkServer (World d []) hub e) =
  (tt, Server.mkServer (World d []) hub e).
Proof.
  intros HI Hp Hu Hr. destruct n as [|n]; [done|].
  cbn [Server.drain]. unfold io_bind at 1, Server.on_store at 1. cbn [Server.sv_store].
  rewrite NextOutbox_clean, Hp by done.
  cbn [Server.sv_hub Server.sv_ext or_Payload or_Transport]. rewrite Hu. unfold Registry.Get. by rewrite Hr.
Qed.

Lemma tick_requeues now d hub e :
  Inv d →
  ∃ d1, Inv d1 ∧ d1.(outbox) = d.(outbox) ∧
    Server.tick registry publish now (Server.mkServer (World d []) hub e) =
    Server.drain registry publish 64 now (Server.mkServer (World d1 []) hub e).
Proof.
  intros HI. unfold Server.tick, io_bind, Server.on_store. cbn [Server.sv_store].
  unfold ControlStore.RequeueExpired, io_bind. rewrite exec_clean. unfold requeue_update.
  rewrite rows_affected_clean. cbn [Server.sv_hub Server.sv_ext].
  exists (with_events (expire_row (UnixMilli now) <$> events d) d). split; [|split; reflexivity].
  eapply inv_step; [exact HI|]. by eapply step_requeue.
Qed.
End drain.

(** * Theorems *)

Section theorems.
Context {E : Type} (registry : Registry.state) (publish : Transport → Envelope → io E (result ())).

(** C14: Ingestion loses nothing it accepted: a new event sent to a registered
    transport is stored, published to live subscribers, and offered once to the
    transport; if the transport refuses it, the outbox holds one more record,
    due in a second, with the transport's name and a text that reads back as the
    event. *)
Theorem ingest_forwards_or_queues dt env tr t raw now now' d hub e :
  Validate env = Ok tt → wf_text env = true → json_Marshal env = Ok raw →
  by_key env.(env_IdempotencyKey) d = None → d.(events) !! env.(env_ID) = None →
  (if decide (tr = "") then dt else tr) ≠ "" →
  registry !! (if decide (tr = "") then dt else tr) = Some t →
  let '(res, e') := publish t env e in
  ∃ d', d'.(events) !! env.(env_ID) = Some (EventRow env.(env_IdempotencyKey) env.(env_Event) raw
      DeliveryPublished None None 0 0 env.(env_CreatedAtMS) (UnixMilli now)) ∧
    match res with
    | Ok _ => d'.(outbox) = d.(outbox)
    | Err _ => d'.(outbox) = d.(outbox) ++ [OutboxRow (d.(outbox_seq) + 1) env.(env_ID)
                 (if decide (tr = "") then dt else tr) raw 0 (UnixMilli (now' + Second)) None] ∧
               json_Unmarshal raw = Ok (normalize env)
    end ∧
    Server.ingest registry publish dt env tr now now' (Server.mkServer (World d []) hub e) =
      (match res with Ok _ => Ok (env, true) | Err er => Err er end,
       Server.mkServer (World d' []) (Hub.Publish env hub) e').
Proof.
  intros Hv Hwf Hm Hk Hn Hne Hreg.
  pose proof (ingest_new registry publish dt env tr t raw now now' d hub e Hv Hm Hk Hn Hne Hreg) as Hi.
  destruct (publish t env e) as [[[]|er] e']; (eexists; split_and!; [..|exact Hi]);
    [apply lookup_insert_eq|done|apply lookup_insert_eq|done|by apply codec_roundtrip].
Qed.

(** C21: A tick drains the outbox: with a store that answers, when every
    publication succeeds and the transports of the pending records are
    registered, one tick hands the 64 oldest pending records, in order of their
    numbers, each once, as the envelopes their texts hold to the transports they
    name, and nothing else; afterwards exactly those records are no longer
    pending.  A record whose text is no envelope is marked without having been
    published. *)
Theorem tick_drains_outbox now d hub e :
  Inv d → (∀ t env e, is_ok (publish t env e).1 = true) →
  Forall (λ x, is_Some (registry !! x.(ob_transport))) (filter (pending (UnixMilli now)) d.(outbox)) →
  ∃ d', Server.tick registry publish now (Server.mkServer (World d []) hub e) =
      (tt, Server.mkServer (World d' []) hub
        (publish_each publish (offers registry (take 64 (filter (pending (UnixMilli now)) d.(outbox)))) e)) ∧
    filter (pending (UnixMilli now)) d'.(outbox) = drop 64 (filter (pending (UnixMilli now)) d.(outbox)).
Proof.
  intros HI Hp Hr. destruct (tick_requeues registry publish now d hub e HI) as (d1&HI1&Ho&->).
  rewrite <- Ho in *. destruct (drain_all registry publish 64 now d1 hub e) as (d'&H&Hl&_); eauto.
Qed.

(** The head of the outbox blocks the rest: while the oldest pending record
    names a transport that is not registered, a tick publishes nothing and
    delivers nothing, however many other records are pending, and [attempts] of
    no record changes. *)
Theorem outbox_head_blocks now d hub e x l env :
  Inv d → filter (pending (UnixMilli now)) d.(outbox) = x :: l →
  json_Unmarshal x.(ob_payload) = Ok env → registry !! x.(ob_transport) = None →
  ∃ d', Server.tick registry publish now (Server.mkServer (World d []) hub e) =
      (tt, Server.mkServer (World d' []) hub e) ∧ d'.(outbox) = d.(outbox).
Proof.
  intros HI Hp Hu Hr. destruct (tick_requeues registry publish now d hub e HI) as (d1&HI1&Ho&->).
  exists d1. split; [|done]. rewrite <- Ho in Hp. by eapply drain_blocked.
Qed.

(** An event first sent to an unknown transport is never forwarded: the call
    reports an error but the event is stored, so that a retry with a registered
    transport finds it stored, reports success, and hands it neither to the
    transport nor to the outbox. *)
Theorem unknown_transport_never_forwarded dt env raw tr now now' d hub e tr2 t2 now2 now2' :
  Inv d → Validate env = Ok tt → wf_text env = true → json_Marshal env = Ok raw →
  by_key env.(env_IdempotencyKey) d = None → d.(events) !! env.(env_ID) = None →
  tr ≠ "" → registry !! tr = None → registry !! tr2 = Some t2 →
  let '(r1, s1) := Server.ingest registry publish dt env tr now now' (Server.mkServer (World d []) hub e) in
  let '(r2, s2) := Server.ingest registry publish dt env tr2 now2 now2' s1 in
  is_ok r1 = false ∧ r2 = Ok (normalize env, false) ∧ s2.(Server.sv_ext) = e ∧
  s2.(Server.sv_store).(db).(outbox) = d.(outbox).
Proof.
  intros HI Hv Hwf Hm Hk Hn Hne Hreg Hreg2. rewrite (ingest_unknown registry publish dt env raw) by done.
  destruct (by_key_stored env raw now d HI Hv Hm Hk Hn) as (id&r&Hb&Hr).
  rewrite (ingest_dup registry publish dt env raw tr2 now2 now2' _ id r) by done.
  by rewrite Hr, (codec_roundtrip _ _ Hwf Hm).
Qed.
End theorems.

(** The lease a claim asks for is honoured up to 2^63 ns: for at most
    9223372036854 ms the lease is exactly that long; beyond, the int64 product
    wraps, and there are values, such as 18446744073710 ms, for which the server
    answers 200 with a lease that is over when it is granted. *)
Theorem claim_lease_range :
  (∀ leaseDuration v, (0 < v ≤ 9223372036854)%Z →
     Milliseconds (Server.claim_lease leaseDuration (Some v)) = v) ∧
  let s := Server.mkServer (ex_world ex_published) Hub.NewHub tt in
  let now := (5 * Second)%Z in
  match (Server.handleClaim (5 * Second) "worker" (Some 18446744073710%Z) now s).1 with
  | Response st (ClaimBody c) => st = StatusOK ∧ Active c.(cl_Lease) now = false
  | _ => False
  end.
Proof.
  split; [|vm_compute; done]. intros L v Hv. unfold Server.claim_lease.
  rewrite (proj2 (Z.ltb_lt _ _)) by lia.
  rewrite int64_id by (unfold int64_range, two63, Millisecond; lia).
  apply Z.quot_mul. done.
Qed.

(** * Closed instances *)

Definition ex_registry : Registry.state := {["nats" := mkTransport "nats" (caps_nats false)]}.
Definition ex_down (t : Transport) (env : Envelope) : io nat (result ()) := λ n, (Err (ErrNew "down"), S n).
Definition ex_up (t : Transport) (env : Envelope) : io nat (result ()) := λ n, (Ok tt, S n).
Definition ex_queued (tr : string) : control_db :=
  (ex_world [CallEnqueue "evt-1" tr (ex_raw ex_env) Second; CallEnqueue "evt-2" "nats" (ex_raw ex_env) Second]).(db).

Lemma ingest_forwards_or_queues_witness :
  ∃ d', length d'.(outbox) = 1 ∧
    Server.ingest ex_registry ex_down "" ex_env "nats" Second Second
      (Server.mkServer (World empty_db []) Hub.NewHub 0) =
    (Err (ErrNew "down"), Server.mkServer (World d' []) (Hub.Publish ex_env Hub.NewHub) 1).
Proof.
  destruct (ingest_forwards_or_queues ex_registry ex_down "" ex_env "nats" (mkTransport "nats" (caps_nats false))
    (ex_raw ex_env) Second Second empty_db Hub.NewHub 0) as (d'&_&[Ho _]&H);
    [vm_compute; reflexivity|vm_compute; reflexivity|vm_compute; reflexivity|reflexivity|reflexivity|done|reflexivity|].
  exists d'. split; [by rewrite Ho|exact H].
Defined.

Lemma tick_drains_outbox_witness :
  ∃ d', Server.tick ex_registry ex_up (5 * Second) (Server.mkServer (World (ex_queued "nats") []) Hub.NewHub 0) =
    (tt, Server.mkServer (World d' []) Hub.NewHub 2) ∧ filter (pending 5000) d'.(outbox) = [].
Proof.
  destruct (tick_drains_outbox ex_registry ex_up (5 * Second) (ex_queued "nats") Hub.NewHub 0) as (d'&H&Hl);
    [apply ex_inv|done|by repeat constructor|]. exists d'. split; [|exact Hl].
  rewrite H. reflexivity.
Defined.

Lemma outbox_head_blocks_witness :
  ∃ d', Server.tick ex_registry ex_up (5 * Second) (Server.mkServer (World (ex_queued "gone") []) Hub.NewHub 0) =
    (tt, Server.mkServer (World d' []) Hub.NewHub 0) ∧ d'.(outbox) = (ex_queued "gone").(outbox).
Proof.
  apply (outbox_head_blocks ex_registry ex_up (5 * Second) (ex_queued "gone") Hub.NewHub 0
    (OutboxRow 1 "evt-1" "gone" (ex_raw ex_env) 0 1000 None)
    [OutboxRow 2 "evt-2" "nats" (ex_raw ex_env) 0 1000 None] (normalize ex_env));
    [apply ex_inv|vm_compute; reflexivity|vm_compute; reflexivity|reflexivity].
Defined.

Lemma unknown_transport_never_forwarded_witness :
  let '(r1, s1) := Server.ingest ex_registry ex_up "" ex_env "typo" Second Second
    (Server.mkServer (World empty_db []) Hub.NewHub 0) in
  let '(r2, s2) := Server.ingest ex_registry ex_up "" ex_env "nats" (2 * Second) (2 * Second) s1 in
  is_ok r1 = false ∧ r2 = Ok (normalize ex_env, false) ∧ s2.(Server.sv_ext) = 0 ∧
  s2.(Server.sv_store).(db).(outbox) = [].
Proof.
  apply (unknown_transport_never_forwarded ex_registry ex_up "" ex_env (ex_raw ex_env) "typo" Second Second empty_db
    Hub.NewHub 0 "nats" (mkTransport "nats" (caps_nats false)));
    [apply inv_empty|vm_compute; reflexivity|vm_compute; reflexivity|vm_compute; reflexivity|reflexivity|reflexivity|
     done|reflexivity|reflexivity].
Defined.
