(* ===== verification/Shard.v ===== *)
(** * Shard migrations: shard.go

    The coordinator that moves a key range from one backend to another: the
    table of migrations with its state machine, the copying of the range in
    batches from a checkpoint, the verification by counts, cut-over, completion,
    rollback, and the backends a write must go to.  The migrations live in a SQL
    database with driver failures ([Db]); the backends act on the state [E] of
    the stores outside. *)

From Stdlib Require Import ZArith Lia String Sorted.
From stdpp Require Import base list gmap sets strings pretty sorting.
From S2P Require Import Prelude Db.

(** ** Data *)

Inductive MigrationState :=
| MigrationPlanned | MigrationDualWrite | MigrationBackfill | MigrationVerify
| MigrationCutover | MigrationComplete | MigrationRolledBack.

#[global] Instance MigrationState_eq_dec : EqDecision MigrationState.
Proof. solve_decision. Defined.

Abbreviation data := (list Ascii.ascii).

Record ShardDocument := mkDocument { sd_Key : string; sd_Data : data }.
Record ShardBatch := mkBatch { Documents : list ShardDocument; Next : string; Done : bool }.

(** The interface of a backend: its identity and its operations on the state of
    the stores. *)
Record ShardBackend (E : Type) := mkBackend {
  be_ID : string;
  ExportRange : string → string → string → Z → io E (result ShardBatch);
  Import : list ShardDocument → io E (result ());
  CountRange : string → string → io E (result Z);
  DeleteRange : string → string → io E (result ());
}.
Arguments be_ID {E} _.
Arguments ExportRange {E} _ _ _ _ _.
Arguments Import {E} _ _.
Arguments CountRange {E} _ _ _.
Arguments DeleteRange {E} _ _ _.

Record ShardMigration := mkMigration {
  mg_ID : string; mg_Source : string; mg_Destination : string;
  mg_RangeStart : string; mg_RangeEnd : string;
  mg_State : MigrationState; mg_Checkpoint : string; mg_UpdatedAtMS : Z;
}.

(** ** Statements on [shard_migrations] *)

Abbreviation migrations := (gmap string ShardMigration).

Module MigrationSql.
(** [INSERT INTO shard_migrations]: [id] is the primary key. *)
Definition insert_migration (m : ShardMigration) (d : migrations) : result (() * migrations) :=
  match d !! m.(mg_ID) with
  | Some _ => Err (ErrNew "constraint failed: UNIQUE constraint failed: shard_migrations.id")
  | None => Ok (tt, <[m.(mg_ID) := m]> d)
  end.

(** [SELECT ... WHERE id=?] into a row. *)
Definition select_migration (id : string) (d : migrations) : result ShardMigration :=
  match d !! id with Some m => Ok m | None => Err ErrNoRows end.

Definition set_state (to : MigrationState) (checkpoint : string) (ms : Z) (m : ShardMigration) : ShardMigration :=
  mkMigration m.(mg_ID) m.(mg_Source) m.(mg_Destination) m.(mg_RangeStart) m.(mg_RangeEnd) to checkpoint ms.

(** [UPDATE ... SET state=?,checkpoint=?,updated_at_ms=? WHERE id=? AND state IN (...)]
    and the number of rows it changed. *)
Definition update_state (id : string) (from : list MigrationState) (to : MigrationState)
  (checkpoint : string) (ms : Z) (d : migrations) : result (Z * migrations) :=
  match d !! id with
  | Some m => if bool_decide (m.(mg_State) ∈ from)
              then Ok (1%Z, <[id := set_state to checkpoint ms m]> d) else Ok (0%Z, d)
  | None => Ok (0%Z, d)
  end.

(** [UPDATE ... SET checkpoint=?,updated_at_ms=? WHERE id=? AND state=?]. *)
Definition update_checkpoint (id checkpoint : string) (ms : Z) (d : migrations) : result (() * migrations) :=
  match d !! id with
  | Some m => if bool_decide (m.(mg_State) = MigrationBackfill)
              then Ok (tt, <[id := set_state MigrationBackfill checkpoint ms m]> d) else Ok (tt, d)
  | None => Ok (tt, d)
  end.

(** [SELECT ... WHERE state != ?]. *)
Definition select_live (d : migrations) : list ShardMigration :=
  filter (λ m, m.(mg_State) ≠ MigrationRolledBack) (map_to_list d).*2.
End MigrationSql.

(** ** The coordinator *)

Module ShardCoordinator.
Import MigrationSql.
Section coordinator.
Context {E : Type}.
Abbreviation registry := (gmap string (ShardBackend E)).

(** [Register]; [None] is a nil interface. *)
Definition Register (b : option (ShardBackend E)) : io registry (result ()) := λ r,
  match b with
  | None => (Err (ErrNew "backend id required"), r)
  | Some b =>
      if bool_decide (b.(be_ID) = "") then (Err (ErrNew "backend id required"), r)
      else match r !! b.(be_ID) with
      | Some _ => (Err (ErrFmt "duplicate shard backend %q" [b.(be_ID)]), r)
      | None => (Ok tt, <[b.(be_ID) := b]> r)
      end
  end.

Context (backends : registry).

Definition backend (id : string) : result (ShardBackend E) :=
  match backends !! id with
  | None => Err (ErrFmt "unknown shard backend %q" [id])
  | Some b => Ok b
  end.

Record state := mkCoordinator { sc_db : world migrations; sc_ext : E }.

Definition on_db {A} (m : io (world migrations) A) : io state A := λ s,
  let (a, w) := m s.(sc_db) in (a, mkCoordinator w s.(sc_ext)).
Definition on_backend {A} (m : io E A) : io state A := λ s,
  let (a, e) := m s.(sc_ext) in (a, mkCoordinator s.(sc_db) e).
(** A step that can fail without touching the state. *)
Definition lift {A} (r : result A) : io state (result A) := io_ret r.

Definition Create (m : ShardMigration) (now : Z) : io state (result ()) :=
  if bool_decide (m.(mg_ID) = "") || bool_decide (m.(mg_Source) = "")
     || bool_decide (m.(mg_Destination) = "") || bool_decide (m.(mg_Source) = m.(mg_Destination))
  then io_ret (Err (ErrNew "invalid migration"))
  else
    try _ <- lift (backend m.(mg_Source));
    try _ <- lift (backend m.(mg_Destination));
    on_db (exec (insert_migration (set_state MigrationPlanned "" (UnixMilli now) m))).

Definition Get (id : string) : io state (result ShardMigration) := on_db (query (select_migration id)).

Definition setState (id : string) (from : list MigrationState) (to : MigrationState)
  (checkpoint : string) (now : Z) : io state (result ()) :=
  try n <- on_db (exec (update_state id from to checkpoint (UnixMilli now)));
  do r <- on_db (rows_affected n);
  io_ret (if (value_or 0 r =? 1)%Z then Ok tt else Err (ErrNew "invalid migration transition")).

Definition EnableDualWrite (id : string) (now : Z) : io state (result ()) :=
  setState id [MigrationPlanned] MigrationDualWrite "" now.

Definition BeginBackfill (id : string) (now : Z) : io state (result ()) :=
  setState id [MigrationDualWrite] MigrationBackfill "" now.

Definition BackfillStep (id : string) (limit : Z) (now : Z) : io state (result bool) :=
  let limit := if (limit <=? 0)%Z then 500%Z else limit in
  try m <- Get id;
  if bool_decide (m.(mg_State) ≠ MigrationBackfill)
  then io_ret (Err (ErrNew "migration is not in backfill"))
  else
    try src <- lift (backend m.(mg_Source));
    try dst <- lift (backend m.(mg_Destination));
    try batch <- on_backend (ExportRange src m.(mg_RangeStart) m.(mg_RangeEnd) m.(mg_Checkpoint) limit);
    try _ <- (if (0 <? length batch.(Documents))%nat
              then on_backend (Import dst batch.(Documents)) else io_ret (Ok tt));
    if batch.(Done) then
      try _ <- setState id [MigrationBackfill] MigrationVerify batch.(Next) now;
      io_ret (Ok true)
    else
      try _ <- on_db (exec (update_checkpoint id batch.(Next) (UnixMilli now)));
      io_ret (Ok false).

Definition Verify (id : string) (now : Z) : io state (result ()) :=
  try m <- Get id;
  if bool_decide (m.(mg_State) ≠ MigrationVerify)
  then io_ret (Err (ErrNew "migration is not ready to verify"))
  else
    try src <- lift (backend m.(mg_Source));
    try dst <- lift (backend m.(mg_Destination));
    try a <- on_backend (CountRange src m.(mg_RangeStart) m.(mg_RangeEnd));
    try b <- on_backend (CountRange dst m.(mg_RangeStart) m.(mg_RangeEnd));
    if bool_decide (a ≠ b)
    then io_ret (Err (ErrFmt "verification failed: source=%d destination=%d" [pretty a; pretty b]))
    else setState id [MigrationVerify] MigrationCutover m.(mg_Checkpoint) now.

Definition Complete (id : string) (deleteSource : bool) (now : Z) : io state (result ()) :=
  try m <- Get id;
  if bool_decide (m.(mg_State) ≠ MigrationCutover)
  then io_ret (Err (ErrNew "migration is not cut over"))
  else
    try _ <- (if deleteSource then
                try src <- lift (backend m.(mg_Source));
                on_backend (DeleteRange src m.(mg_RangeStart) m.(mg_RangeEnd))
              else io_ret (Ok tt));
    setState id [MigrationCutover] MigrationComplete m.(mg_Checkpoint) now.

Definition Rollback (id : string) (now : Z) : io state (result ()) :=
  try m <- Get id;
  if bool_decide (m.(mg_State) = MigrationCutover) || bool_decide (m.(mg_State) = MigrationComplete)
  then io_ret (Err (ErrNew "cannot rollback after cutover"))
  else
    try dst <- lift (backend m.(mg_Destination));
    try _ <- on_backend (DeleteRange dst m.(mg_RangeStart) m.(mg_RangeEnd));
    setState id [MigrationPlanned; MigrationDualWrite; MigrationBackfill; MigrationVerify]
      MigrationRolledBack m.(mg_Checkpoint) now.

(** The backends one migration adds for a key. *)
Definition targets_of (key : string) (m : ShardMigration) : gset string :=
  if bool_decide (str_lt key m.(mg_RangeStart)) || bool_decide (str_le m.(mg_RangeEnd) key) then ∅
  else match m.(mg_State) with
  | MigrationPlanned => {[m.(mg_Source)]}
  | MigrationDualWrite | MigrationBackfill | MigrationVerify => {[m.(mg_Source); m.(mg_Destination)]}
  | MigrationCutover | MigrationComplete => {[m.(mg_Destination)]}
  | MigrationRolledBack => ∅
  end.

Definition TargetsForWrite (key : string) : io state (result (list string)) :=
  try rows <- on_db (query (λ d, Ok (select_live d)));
  io_ret (Ok (merge_sort str_le (elements (⋃ (targets_of key <$> rows))))).
End coordinator.
Arguments state : clear implicits.
End ShardCoordinator.

(** ** What a backend promises

    The abstract content of a store is a map from keys to documents; an export
    is a slice of its sorted range, an import merges, and so on. *)

Definition within (start end_ key : string) : bool :=
  bool_decide (str_le start key) && bool_decide (str_lt key end_).

(** The condition of an export: in the range, and beyond the checkpoint if there
    is one. *)
Definition selected (start end_ after key : string) : bool :=
  within start end_ key && (bool_decide (after = "") || bool_decide (str_lt after key)).

Definition key_le {A} (x y : string * A) : Prop := str_le x.1 y.1.
#[global] Instance key_le_dec {A} : RelDecision (@key_le A) := λ x y, str_le_dec x.1 y.1.

Definition range_pairs {A} (start end_ after : string) (m : gmap string A) : list (string * A) :=
  merge_sort key_le (filter (λ kv, selected start end_ after kv.1 = true) (map_to_list m)).

Definition batch_of (start end_ after : string) (limit : Z) (m : gmap string data) : ShardBatch :=
  let kvs := take (Z.to_nat limit) (range_pairs start end_ after m) in
  mkBatch ((λ kv, mkDocument kv.1 kv.2) <$> kvs) (default "" (fst <$> last kvs))
    (Z.of_nat (length kvs) <? limit)%Z.

(** Merging documents into a store: one that is there is kept, or replaced. *)
Definition import_one (keep : bool) (m : gmap string data) (d : ShardDocument) : gmap string data :=
  if keep && bool_decide (is_Some (m !! d.(sd_Key))) then m else <[d.(sd_Key) := d.(sd_Data)]> m.
Definition import_docs (keep : bool) (ds : list ShardDocument) (m : gmap string data) : gmap string data :=
  foldl (import_one keep) m ds.

Definition restrict {A} (start end_ : string) (m : gmap string A) : gmap string A :=
  filter (λ kv, within start end_ kv.1 = true) m.
Definition delete_range {A} (start end_ : string) (m : gmap string A) : gmap string A :=
  filter (λ kv, within start end_ kv.1 = false) m.

(** The laws of a set of registered backends over their stores.  [ready] says
    that the stores answer and that what they hold can be exported;
    [importable id] which documents backend [id] takes in unchanged. *)
Class StoreLaws {E} (backends : gmap string (ShardBackend E)) := {
  docs : string → E → gmap string data;
  ready : E → Prop;
  keeps : string → bool;
  importable : string → ShardDocument → Prop;
  export_spec id b e start end_ after limit :
    backends !! id = Some b → ready e → (0 < limit)%Z →
    ExportRange b start end_ after limit e = (Ok (batch_of start end_ after limit (docs id e)), e);
  import_spec id b e ds :
    backends !! id = Some b → ready e → Forall (importable id) ds →
    ∃ e', Import b ds e = (Ok tt, e') ∧ ready e' ∧
      docs id e' = import_docs (keeps id) ds (docs id e) ∧ ∀ id', id' ≠ id → docs id' e' = docs id' e;
  count_spec id b e start end_ :
    backends !! id = Some b → ready e →
    CountRange b start end_ e = (Ok (Z.of_nat (size (restrict start end_ (docs id e)))), e);
  delete_spec id b e start end_ :
    backends !! id = Some b → ready e →
    ∃ e', DeleteRange b start end_ e = (Ok tt, e') ∧ ready e' ∧
      docs id e' = delete_range start end_ (docs id e) ∧ ∀ id', id' ≠ id → docs id' e' = docs id' e;
}.

(** * Lemmas *)

(** ** Sorted ranges *)

Definition key_lt {A} (x y : string * A) : Prop := str_lt x.1 y.1.

#[global] Instance key_lt_trans {A} : Transitive (@key_lt A).
Proof. intros x y z. unfold key_lt. apply transitivity. Qed.
#[global] Instance key_le_trans {A} : Transitive (@key_le A).
Proof. intros x y z. unfold key_le. apply transitivity. Qed.
#[global] Instance key_le_total {A} : Total (@key_le A).
Proof. intros x y. apply str_le_total. Qed.
#[global] Instance key_lt_antisymm {A} : AntiSymm (=) (@key_lt A).
Proof. intros x y H1 H2. destruct (str_lt_irrefl x.1). unfold key_lt in *. by trans y.1. Qed.

Lemma sorted_strict {A} (l : list (string * A)) :
  NoDup l.*1 → StronglySorted key_le l → StronglySorted key_lt l.
Proof.
  intros Hnd Hs. induction Hs as [|x l _ IH Hx]; [constructor|].
  apply NoDup_cons in Hnd as [Hn Hnd]. constructor; [by apply IH|].
  apply Forall_forall. intros y Hy. rewrite Forall_forall in Hx.
  destruct (proj1 (str_le_lt_or_eq _ _) (Hx y Hy)) as [?|Heq]; [done|].
  destruct Hn. rewrite Heq. by apply list_elem_of_fmap_2.
Qed.

Lemma sorted_NoDup {A} (l : list (string * A)) : StronglySorted key_lt l → NoDup l.
Proof.
  induction 1 as [|x l _ IH Hx]; [constructor|]. constructor; [|done].
  intros Hin. rewrite Forall_forall in Hx. by apply (str_lt_irrefl x.1), Hx.
Qed.

Lemma sorted_ext {A} (l1 l2 : list (string * A)) :
  StronglySorted key_lt l1 → StronglySorted key_lt l2 → (∀ x, x ∈ l1 ↔ x ∈ l2) → l1 = l2.
Proof.
  intros H1 H2 He. eapply (StronglySorted_unique key_lt); [done..|].
  apply NoDup_Permutation; [by apply sorted_NoDup..|done].
Qed.

(** The last element of a sorted prefix separates it from the rest. *)
Lemma sorted_split {A} (l1 l2 : list (string * A)) x :
  StronglySorted key_lt (l1 ++ l2) → last l1 = Some x →
  (∀ y, y ∈ l1 → str_le y.1 x.1) ∧ (∀ y, y ∈ l2 → str_lt x.1 y.1).
Proof.
  intros Hs (l&->)%last_Some. rewrite <- app_assoc in Hs. apply StronglySorted_app in Hs as (Hll&_&Hs).
  apply StronglySorted_app in Hs as (Hx&_&_). split.
  - intros y [Hy|Hy]%elem_of_app; [|by apply list_elem_of_singleton in Hy as ->].
    apply str_lt_le, (Hll y x); [done|]. apply elem_of_app. left. by apply list_elem_of_singleton.
  - intros y Hy. apply (Hx x y); [by apply list_elem_of_singleton|done].
Qed.

Lemma range_pairs_sorted {A} s t a (m : gmap string A) : StronglySorted key_lt (range_pairs s t a m).
Proof.
  apply sorted_strict; [|apply StronglySorted_merge_sort; apply _].
  unfold range_pairs. rewrite merge_sort_Permutation.
  eapply sublist_NoDup; [apply (NoDup_fst_map_to_list m)|apply fmap_sublist, sublist_filter].
Qed.

Lemma elem_of_range_pairs {A} s t a (m : gmap string A) k v :
  (k, v) ∈ range_pairs s t a m ↔ m !! k = Some v ∧ selected s t a k = true.
Proof.
  unfold range_pairs. rewrite merge_sort_Permutation, list_elem_of_filter, elem_of_map_to_list.
  simpl. tauto.
Qed.

Lemma within_iff s t k : within s t k = true ↔ str_le s k ∧ str_lt k t.
Proof. unfold within. by rewrite andb_true_iff, !bool_decide_eq_true. Qed.

Lemma selected_iff s t a k :
  selected s t a k = true ↔ within s t k = true ∧ (a = "" ∨ str_lt a k).
Proof. unfold selected. by rewrite andb_true_iff, orb_true_iff, !bool_decide_eq_true. Qed.

Lemma elem_of_take_in {A} n (l : list A) x : x ∈ take n l → x ∈ l.
Proof. intros H. rewrite <- (take_drop n l). apply elem_of_app. by left. Qed.

(** Exporting from the last key of a batch gives the rest of the range. *)
Lemma range_pairs_after {A} s t a (m : gmap string A) n x :
  last (take n (range_pairs s t a m)) = Some x → x.1 ≠ "" →
  range_pairs s t x.1 m = drop n (range_pairs s t a m).
Proof.
  intros Hl Hx. pose proof (range_pairs_sorted s t a m) as Hs.
  rewrite <- (take_drop n (range_pairs s t a m)) in Hs.
  destruct (sorted_split _ _ _ Hs Hl) as [H1 H2]. apply StronglySorted_app_1_r in Hs.
  apply sorted_ext; [apply range_pairs_sorted|done|]. intros [k v].
  assert (x ∈ range_pairs s t a m) as Hxr.
  { destruct (last_Some (take n (range_pairs s t a m)) x) as [[l E] _]; [done|].
    rewrite <- (take_drop n (range_pairs s t a m)), E. set_solver. }
  destruct x as [kx vx]. apply elem_of_range_pairs in Hxr as [_ [_ Ha]%selected_iff]. simpl in *.
  rewrite elem_of_range_pairs, selected_iff. split.
  - intros (Hm&Hw&[->|Hlt]); [done|].
    assert ((k, v) ∈ range_pairs s t a m) as Hin.
    { rewrite elem_of_range_pairs, selected_iff. split_and!; [done..|].
      destruct Ha as [->|Ha]; [by left|right; by trans kx]. }
    rewrite <- (take_drop n (range_pairs s t a m)) in Hin. apply elem_of_app in Hin as [Hin|Hin]; [|done].
    destruct (str_lt_not_le _ _ Hlt). by apply (H1 (k, v)).
  - intros Hin. specialize (H2 (k, v) Hin). simpl in H2.
    assert ((k, v) ∈ range_pairs s t a m) as Hr
      by (rewrite <- (take_drop n (range_pairs s t a m)); set_solver).
    rewrite elem_of_range_pairs, selected_iff in Hr. tauto.
Qed.

(** A document whose key does not pass the last key of a batch is in the batch,
    or was before it. *)
Lemma range_pairs_upto {A} s t a (m : gmap string A) n k v :
  m !! k = Some v → within s t k = true →
  length (take n (range_pairs s t a m)) < n ∨
    str_le k (default "" (fst <$> last (take n (range_pairs s t a m)))) ∧
    default "" (fst <$> last (take n (range_pairs s t a m))) ≠ "" →
  (k, v) ∈ take n (range_pairs s t a m) ∨ (a ≠ "" ∧ str_le k a).
Proof.
  intros Hm Hw Hn. destruct (decide (selected s t a k = true)) as [Hs|Hs].
  - left. assert ((k, v) ∈ range_pairs s t a m) as Hin by by apply elem_of_range_pairs.
    rewrite <- (take_drop n (range_pairs s t a m)) in Hin. apply elem_of_app in Hin as [Hin|Hin]; [done|].
    destruct Hn as [Hn|[Hk Hne]].
    + rewrite length_take in Hn. rewrite drop_ge in Hin by lia. by apply not_elem_of_nil in Hin.
    + destruct (last (take n _)) as [x|] eqn:Hl; [|done]. simpl in *.
      pose proof (range_pairs_sorted s t a m) as Hss.
      rewrite <- (take_drop n (range_pairs s t a m)) in Hss.
      destruct (sorted_split _ _ _ Hss Hl) as [_ H2]. by destruct (str_lt_not_le _ _ (H2 _ Hin)).
  - right. rewrite selected_iff in Hs. destruct (decide (a = "")) as [->|Ha]; [naive_solver|].
    split; [done|]. destruct (decide (str_le k a)); [done|]. destruct Hs. split; [done|]. right.
    by apply str_nle_lt.
Qed.

(** ** Imports *)

(** Where the destination holds nothing or what the source holds, importing
    documents of the source keeps it so, and makes the imported keys agree.  A
    document that has been overwritten since it was exported does no harm if the
    destination keeps what it has. *)
Lemma import_agree keep (kvs : list (string * data)) (m src : gmap string data) k :
  (m !! k = None ∨ m !! k = src !! k) →
  (∀ v, (k, v) ∈ kvs → src !! k = Some v ∨ (keep = true ∧ is_Some (m !! k))) →
  let m' := import_docs keep ((λ kv, mkDocument kv.1 kv.2) <$> kvs) m in
  (m' !! k = None ∨ m' !! k = src !! k) ∧ ((∃ v, (k, v) ∈ kvs) ∨ m !! k = src !! k → m' !! k = src !! k).
Proof.
  unfold import_docs. revert m. induction kvs as [|[k0 v0] kvs IH]; intros m Ha Hp; simpl.
  { set_solver. }
  assert (Hstep : let m1 := import_one keep m (mkDocument k0 v0) in
     (m1 !! k = None ∨ m1 !! k = src !! k) ∧ (k = k0 ∨ m !! k = src !! k → m1 !! k = src !! k) ∧
     (is_Some (m !! k) → is_Some (m1 !! k))).
  { unfold import_one. simpl. destruct (decide (k = k0)) as [<-|Hne].
    - destruct (Hp v0) as [Hs|[-> [x Hx]]]; [set_solver|..].
      + destruct (m !! k) as [x|] eqn:Hx.
        * rewrite bool_decide_eq_true_2 by done. destruct keep; simpl.
          -- rewrite Hx. destruct Ha as [?|Ha]; [done|]. naive_solver.
          -- rewrite lookup_insert_eq, Hs. naive_solver.
        * rewrite andb_false_r, lookup_insert_eq, Hs. naive_solver.
      + rewrite Hx, bool_decide_eq_true_2 by done. simpl. rewrite Hx in *. naive_solver.
    - assert ((if keep && bool_decide (is_Some (m !! k0)) then m else <[k0:=v0]> m) !! k = m !! k) as ->.
      { destruct (_ && _); [done|]. by rewrite lookup_insert_ne. }
      naive_solver. }
  destruct Hstep as (H1&H2&H3). specialize (IH (import_one keep m (mkDocument k0 v0)) H1).
  destruct IH as [I1 I2].
  { intros v Hv. destruct (Hp v) as [?|[??]]; [set_solver|by left|right; auto]. }
  split; [done|]. intros [[v Hv]|He]; apply I2.
  - apply elem_of_cons in Hv as [[= -> ->]|Hv]; [right; by apply H2; left|left; eauto].
  - right. auto.
Qed.

Definition as_docs (kvs : list (string * data)) : list ShardDocument := (λ kv, mkDocument kv.1 kv.2) <$> kvs.

Lemma import_lookup keep (kvs : list (string * data)) m k :
  NoDup kvs.*1 →
  import_docs keep (as_docs kvs) m !! k =
  match (list_to_map kvs : gmap string data) !! k with
  | Some v => Some (if keep then default v (m !! k) else v)
  | None => m !! k
  end.
Proof.
  unfold import_docs, as_docs. revert m. induction kvs as [|[k0 v0] kvs IH]; intros m Hnd; [done|].
  apply NoDup_cons in Hnd as [Hn Hnd]. cbn [fmap list_fmap foldl list_to_map foldr fst snd]. rewrite (IH _ Hnd).
  unfold import_one. cbn [sd_Key sd_Data]. destruct (decide (k = k0)) as [->|Hne].
  - rewrite (not_elem_of_list_to_map_1 _ _ Hn). rewrite lookup_insert_eq.
    destruct (m !! k0) as [x|] eqn:Hx.
    + destruct keep; simpl; [by rewrite Hx|by rewrite lookup_insert_eq].
    + rewrite andb_false_r, lookup_insert_eq. by destruct keep.
  - rewrite lookup_insert_ne by done.
    assert ((if keep && bool_decide (is_Some (m !! k0)) then m else <[k0:=v0]> m) !! k = m !! k) as ->.
    { destruct (_ && _); [done|]. by rewrite lookup_insert_ne. }
    done.
Qed.

Lemma range_pairs_all {A} s t (m : gmap string A) : range_pairs s t "" m ≡ₚ map_to_list (restrict s t m).
Proof.
  apply NoDup_Permutation; [apply sorted_NoDup, range_pairs_sorted|apply NoDup_map_to_list|].
  intros [k v]. rewrite elem_of_range_pairs, elem_of_map_to_list, selected_iff. unfold restrict.
  rewrite map_lookup_filter_Some. naive_solver.
Qed.

Lemma range_pairs_lookup {A} s t (m : gmap string A) k :
  (list_to_map (range_pairs s t "" m) : gmap string A) !! k = restrict s t m !! k.
Proof.
  apply option_eq. intros v. rewrite <- elem_of_list_to_map, range_pairs_all, elem_of_map_to_list; [done|].
  rewrite range_pairs_all. apply NoDup_fst_map_to_list.
Qed.
