(* ===== verification/ShardBackends.v ===== *)
(** * Shard backends: shard_sql.go and shard_mongo.go

    The SQL and the MongoDB backend over their stores, and the proof that a
    registry of such backends keeps the promises of [StoreLaws].  What belongs to
    the drivers is a parameter: the values of a row with their JSON text
    ([RowCodec]) and MongoDB documents with their [_id] and extended JSON text
    ([DocCodec]).  The calls on a store can fail as in [Db].

    Keys are compared byte by byte.  This is how the stores compare a key column of
    type text under SQLite's BINARY or PostgreSQL's C collation, and strings in a
    MongoDB collection without a collation of its own; columns of other types or
    collations, which the code would take as well, are outside the model. *)

From Stdlib Require Import ZArith Lia Ascii String Sorted.
From stdpp Require Import base list gmap sets strings sorting.
From S2P Require Import Prelude GoRegexp Db Shard.

(** ** SQL *)

(** The values a driver hands out: their text ([fmt.Sprint]), the conversion of a
    [[]byte] to a string, NULL, and [encoding/json] on a row. *)
Class RowCodec (V : Type) := {
  Sprint : V → string;
  as_text : V → V;
  null : V;
  marshal_row : gmap string V → result data;
  unmarshal_row : data → result (gmap string V);
}.

(** [sqlIdentifier]. *)
Definition identifier_char (c : ascii) : bool := is_alpha c || is_digit c || is_char "_" c.
Definition sqlIdentifier : regex :=
  RSeq (RClass (λ c, is_alpha c || is_char "_" c)) (RStar (RClass identifier_char)).

(** A table: its columns, and its rows by the text of their key, which is the key
    itself for a text column. *)
Record table (V : Type) := mkTable { tb_columns : gset string; tb_rows : gmap string (gmap string V) }.
Arguments mkTable {V} _ _.
Arguments tb_columns {V} _.
Arguments tb_rows {V} _.

Record SQLShardBackend := mkSQL { sql_id : string; sql_driver : string; sql_table : string; sql_keyColumn : string }.

Module SqlBackend.
Section sql.
Context {V : Type} `{RowCodec V}.

(** [OpenSQLShardBackend]; [open] and [ping] are the outcomes of [sql.Open] and
    [Ping]. *)
Definition Open (id driver tbl keyColumn : string) (open ping : result ()) : result SQLShardBackend :=
  if negb (MatchString sqlIdentifier tbl) || negb (MatchString sqlIdentifier keyColumn)
  then Err (ErrNew "unsafe SQL identifier")
  else try _ := open in try _ := ping in Ok (mkSQL id driver tbl keyColumn).

Context (b : SQLShardBackend).

(** [SELECT * ... WHERE key >= ? AND key < ? [AND key > ?] ORDER BY key LIMIT ?]. *)
Definition select_rows (start end_ after : string) (limit : Z) (t : table V) : list (gmap string V) :=
  snd <$> take (Z.to_nat limit) (range_pairs start end_ after t.(tb_rows)).

(** The loop over the rows. *)
Fixpoint read_rows (rows : list (gmap string V)) (batch : ShardBatch) : result ShardBatch :=
  match rows with
  | [] => Ok batch
  | row :: rows' =>
      let doc := as_text <$> row in
      let key := default "" (Sprint <$> doc !! b.(sql_keyColumn)) in
      try raw := marshal_row doc in
      read_rows rows' (mkBatch (batch.(Documents) ++ [mkDocument key raw]) key batch.(Done))
  end.

Definition ExportRange (start end_ after : string) (limit : Z) : io (world (table V)) (result ShardBatch) :=
  try rows <- query (λ t, Ok (select_rows start end_ after limit t));
  io_ret (try batch := read_rows rows (mkBatch [] "" false) in
          Ok (mkBatch batch.(Documents) batch.(Next) (Z.of_nat (length batch.(Documents)) <? limit)%Z)).

(** [INSERT INTO t (...) VALUES (...) ON CONFLICT (key) DO NOTHING]; columns that
    are not given are NULL. *)
Definition insert_row (fields : gmap string V) (t : table V) : result (() * table V) :=
  if bool_decide (dom fields ⊆ t.(tb_columns)) then
    match fields !! b.(sql_keyColumn) with
    | None => Err (ErrNew "NOT NULL constraint failed")
    | Some v =>
        match t.(tb_rows) !! Sprint v with
        | Some _ => Ok (tt, t)
        | None => Ok (tt, mkTable t.(tb_columns)
                     (<[Sprint v := fields ∪ gset_to_gmap null t.(tb_columns)]> t.(tb_rows)))
        end
    end
  else Err (ErrNew "no such column").

Fixpoint import_rows (ds : list ShardDocument) : io (world (table V)) (result ()) :=
  match ds with
  | [] => io_ret (Ok tt)
  | d :: ds' =>
      match unmarshal_row d.(sd_Data) with
      | Err e => io_ret (Err e)
      | Ok fields =>
          if forallb (MatchString sqlIdentifier) (map_to_list fields).*1
          then try _ <- exec (insert_row fields); import_rows ds'
          else io_ret (Err (ErrNew "unsafe imported column"))
      end
  end.

Definition Import (ds : list ShardDocument) : io (world (table V)) (result ()) :=
  transaction (import_rows ds).

Definition CountRange (start end_ : string) : io (world (table V)) (result Z) :=
  query (λ t, Ok (Z.of_nat (size (restrict start end_ t.(tb_rows))))).

Definition DeleteRange (start end_ : string) : io (world (table V)) (result ()) :=
  exec (λ t, Ok (tt, mkTable t.(tb_columns) (delete_range start end_ t.(tb_rows)))).
End sql.
End SqlBackend.

(** ** MongoDB *)

(** Documents whose key field is missing or a string, with their [_id] (as a text;
    a document to be written may have none) and their canonical extended JSON text;
    [generate_id] is the [_id] the server makes up for a document it adds. *)
Class DocCodec (M : Type) := {
  key_field : M → option string;
  doc_id : M → option string;
  with_id : string → M → M;
  generate_id : list M → string;
  MarshalExtJSON : M → result data;
  UnmarshalExtJSON : data → result M;
}.

Module MongoBackend.
(** [OpenMongoShardBackend]: the id and the key field of the backend; [connect]
    and [ping] are the outcomes of the driver. *)
Definition Open (id uri database collection keyField : string) (connect ping : result ()) : result (string * string) :=
  if bool_decide (id = "") || bool_decide (uri = "") || bool_decide (database = "") || bool_decide (collection = "")
     || bool_decide (keyField = "")
  then Err (ErrNew "invalid Mongo shard config")
  else try _ := connect in try _ := ping in Ok (id, keyField).

Section mongo.
Context {M : Type} `{DocCodec M}.

(** [rangeFilter] on a document. *)
Definition rangeFilter (start end_ after : string) (doc : M) : bool :=
  match key_field doc with Some k => selected start end_ after k | None => false end.

Definition by_key (x y : M) : Prop := str_le (default "" (key_field x)) (default "" (key_field y)).
#[global] Instance by_key_dec : RelDecision by_key := λ x y, str_le_dec _ _.

(** [Find] with the filter, sorted by the key, limited. *)
Definition find (start end_ after : string) (limit : Z) (c : list M) : list M :=
  take (Z.to_nat limit) (merge_sort by_key (filter (λ doc, rangeFilter start end_ after doc = true) c)).

Fixpoint read_docs (found : list M) (batch : ShardBatch) : result ShardBatch :=
  match found with
  | [] => Ok batch
  | doc :: found' =>
      let key := default "<nil>" (key_field doc) in
      try raw := MarshalExtJSON doc in
      read_docs found' (mkBatch (batch.(Documents) ++ [mkDocument key raw]) key batch.(Done))
  end.

Definition ExportRange (start end_ after : string) (limit : Z) : io (world (list M)) (result ShardBatch) :=
  try found <- query (λ c, Ok (find start end_ after limit c));
  io_ret (try batch := read_docs found (mkBatch [] "" false) in
          Ok (mkBatch batch.(Documents) batch.(Next) (Z.of_nat (length batch.(Documents)) <? limit)%Z)).

(** [ReplaceOne] with [upsert]: the first document with the key is replaced, or
    the document is added.  A replacement without [_id] keeps that of the document
    it replaces; one with another [_id] is refused, since the field is immutable.
    A document that is added gets an [_id] when it has none, and is refused when
    its [_id], which has a unique index, is taken. *)
Definition identified (i : option string) (doc : M) : M :=
  match doc_id doc, i with None, Some i => with_id i doc | _, _ => doc end.
Definition replaced (x doc : M) : result M :=
  if bool_decide (doc_id doc = None) || bool_decide (doc_id doc = doc_id x)
  then Ok (identified (doc_id x) doc)
  else Err (ErrNew "the (immutable) field '_id' was found to have been altered").
Fixpoint replace_first (key : string) (doc : M) (c : list M) : option (result (list M)) :=
  match c with
  | [] => None
  | x :: c' =>
      if decide (key_field x = Some key) then Some (try doc' := replaced x doc in Ok (doc' :: c'))
      else match replace_first key doc c' with
           | Some res => Some (try c'' := res in Ok (x :: c''))
           | None => None
           end
  end.
Definition replace_one (key : string) (doc : M) (c : list M) : result (() * list M) :=
  match replace_first key doc c with
  | Some res => try c' := res in Ok (tt, c')
  | None =>
      let doc' := identified (Some (generate_id c)) doc in
      if existsb (λ x, bool_decide (doc_id x = doc_id doc')) c
      then Err (ErrNew "E11000 duplicate key error")
      else Ok (tt, c ++ [doc'])
  end.

Fixpoint Import (keyField : string) (ds : list ShardDocument) : io (world (list M)) (result ()) :=
  match ds with
  | [] => io_ret (Ok tt)
  | d :: ds' =>
      match UnmarshalExtJSON d.(sd_Data) with
      | Err e => io_ret (Err e)
      | Ok doc =>
          match key_field doc with
          | None => io_ret (Err (ErrFmt "document missing shard key %q" [keyField]))
          | Some key => try _ <- exec (replace_one key doc); Import keyField ds'
          end
      end
  end.

Definition CountRange (start end_ : string) : io (world (list M)) (result Z) :=
  query (λ c, Ok (Z.of_nat (length (filter (λ doc, rangeFilter start end_ "" doc = true) c)))).

Definition DeleteRange (start end_ : string) : io (world (list M)) (result ()) :=
  exec (λ c, Ok (tt, filter (λ doc, rangeFilter start end_ "" doc = false) c)).
End mongo.
End MongoBackend.

(** * Lemmas *)

Lemma range_pairs_fmap {A B} (f : A → B) s t a (m : gmap string A) :
  range_pairs s t a (f <$> m) = prod_map id f <$> range_pairs s t a m.
Proof.
  apply sorted_ext; [apply range_pairs_sorted|..].
  - pose proof (range_pairs_sorted s t a m) as Hs. induction Hs as [|x l _ IH Hx]; [constructor|].
    constructor; [done|]. apply Forall_fmap. eapply Forall_impl; [done|]. by intros [].
  - intros [k v]. rewrite elem_of_range_pairs, lookup_fmap, fmap_Some, list_elem_of_fmap. split.
    + intros [(x&Hx&->) Hs]. exists (k, x). by rewrite elem_of_range_pairs.
    + intros ([k' x]&[= -> ->]&[Hx Hs]%elem_of_range_pairs). eauto.
Qed.

Lemma restrict_fmap {A B} (f : A → B) s t (m : gmap string A) : restrict s t (f <$> m) = f <$> restrict s t m.
Proof. unfold restrict. by rewrite map_filter_fmap. Qed.
Lemma delete_range_fmap {A B} (f : A → B) s t (m : gmap string A) :
  delete_range s t (f <$> m) = f <$> delete_range s t m.
Proof. unfold delete_range. by rewrite map_filter_fmap. Qed.

Lemma Forall_filter_in {A} (Q P : A → Prop) `{!∀ x, Decision (P x)} l : Forall Q l → Forall Q (filter P l).
Proof. rewrite !Forall_forall. intros Hl x [_ Hx]%list_elem_of_filter. auto. Qed.

(** ** The SQL backend *)

Section sql_laws.
Context {V : Type} `{RowCodec V} (b : SQLShardBackend).
Implicit Types (t : table V).

Definition row_text (row : gmap string V) : data := value_or [] (marshal_row (as_text <$> row)).
Definition sql_content t : gmap string data := row_text <$> t.(tb_rows).

(** Every row can be written as JSON, under the key it is stored by. *)
Definition sql_ok t : Prop := ∀ k row, t.(tb_rows) !! k = Some row →
  marshal_row (as_text <$> row) = Ok (row_text row) ∧ Sprint <$> (as_text <$> row) !! b.(sql_keyColumn) = Some k.

(** A document that is the text of a whole row of the table. *)
Definition sql_importable (columns : gset string) (d : ShardDocument) : Prop :=
  ∃ row, unmarshal_row d.(sd_Data) = Ok row ∧ dom row = columns ∧
    Forall (λ c, MatchString sqlIdentifier c = true) (map_to_list row).*1 ∧
    Sprint <$> row !! b.(sql_keyColumn) = Some d.(sd_Key) ∧
    as_text <$> row = row ∧ marshal_row row = Ok d.(sd_Data).

Lemma read_rows_ok t kvs batch :
  sql_ok t → Forall (λ kv, t.(tb_rows) !! kv.1 = Some kv.2) kvs →
  SqlBackend.read_rows b kvs.*2 batch =
  Ok (mkBatch (batch.(Documents) ++ as_docs (prod_map id row_text <$> kvs))
        (default batch.(Next) (fst <$> last kvs)) batch.(Done)).
Proof.
  intros Hok Hkvs. revert batch. induction Hkvs as [|[k row] kvs Hr _ IH]; intros batch; simpl.
  { rewrite app_nil_r. by destruct batch. }
  simpl in Hr. destruct (Hok _ _ Hr) as [-> ->]. simpl. rewrite IH. simpl. do 2 f_equal; [by rewrite <- app_assoc|].
  destruct kvs as [|kv kvs]; [done|]. simpl. destruct (last _) eqn:E; [done|]. by apply last_None in E.
Qed.

Lemma sql_export t s e a limit :
  sql_ok t → SqlBackend.ExportRange b s e a limit (World t []) =
    (Ok (batch_of s e a limit (sql_content t)), World t []).
Proof.
  intros Hok. unfold SqlBackend.ExportRange, io_bind. rewrite query_clean. unfold io_ret, SqlBackend.select_rows.
  rewrite (read_rows_ok t); [|done|].
  - simpl. unfold batch_of, sql_content. rewrite range_pairs_fmap, <- fmap_take, fmap_last. unfold as_docs.
    rewrite !length_fmap. do 3 f_equal. by destruct (last _).
  - apply Forall_take, Forall_forall. intros [k row] Hin. by apply elem_of_range_pairs in Hin as [? _].
Qed.

Lemma insert_row_ok t d row :
  sql_ok t → dom row = t.(tb_columns) → Sprint <$> row !! b.(sql_keyColumn) = Some d.(sd_Key) →
  as_text <$> row = row → marshal_row row = Ok d.(sd_Data) →
  ∃ t', SqlBackend.insert_row b row t = Ok (tt, t') ∧ sql_ok t' ∧ t'.(tb_columns) = t.(tb_columns) ∧
    sql_content t' = import_one true (sql_content t) d.
Proof.
  intros Hok Hdom (v&Hv&Hk)%fmap_Some Ht Hm. unfold SqlBackend.insert_row, import_one, sql_content. simpl.
  rewrite bool_decide_eq_true_2 by (by rewrite Hdom). rewrite Hv, <- Hk, lookup_fmap.
  destruct (tb_rows t !! sd_Key d) as [old|] eqn:Hold; [by exists t|]. rewrite bool_decide_eq_false_2 by (intros [? ?]; simplify_eq/=).
  assert (row ∪ gset_to_gmap null (tb_columns t) = row) as Hu.
  { apply map_eq. intros c. rewrite lookup_union. destruct (row !! c) as [x|] eqn:Hc; [by rewrite union_Some_l|].
    assert (c ∉ tb_columns t) as Hn by (rewrite <- Hdom; by apply not_elem_of_dom).
    by rewrite (proj2 (lookup_gset_to_gmap_None _ _ _) Hn). }
  assert (row_text row = sd_Data d) as Htext by (unfold row_text; by rewrite Ht, Hm).
  eexists. split; [done|]. cbn [tb_rows tb_columns]. rewrite Hu. split_and!; [|done|by rewrite fmap_insert, Htext].
  intros k row'. simpl. rewrite lookup_insert_Some. intros [[<- <-]|[_ Hr]]; [|by apply Hok].
  by rewrite Htext, Ht, Hm, Hv, Hk.
Qed.

Lemma sql_import t ds :
  sql_ok t → Forall (sql_importable t.(tb_columns)) ds →
  ∃ t', SqlBackend.Import b ds (World t []) = (Ok tt, World t' []) ∧ sql_ok t' ∧
    t'.(tb_columns) = t.(tb_columns) ∧ sql_content t' = import_docs true ds (sql_content t).
Proof.
  intros Hok Hds. assert (∃ t', SqlBackend.import_rows b ds (World t []) = (Ok tt, World t' []) ∧ sql_ok t' ∧
    t'.(tb_columns) = t.(tb_columns) ∧ sql_content t' = import_docs true ds (sql_content t)) as (t'&Hi&?&?&?).
  { revert t Hok Hds. induction ds as [|d ds IH]; intros t Hok Hds; [by exists t|].
    apply Forall_cons in Hds as [(row&Hu&Hdom&Hc&Hk&Ht&Hm) Hds].
    destruct (insert_row_ok _ _ _ Hok Hdom Hk Ht Hm) as (t1&H1&Hok1&Hc1&Hd1). rewrite <- Hc1 in Hds.
    destruct (IH _ Hok1 Hds) as (t2&H2&Hok2&Hc2&Hd2). exists t2. simpl. rewrite Hu.
    rewrite (proj2 (forallb_Forall _ _) Hc). unfold io_bind. rewrite exec_clean, H1, H2.
    split_and!; [done|done|congruence|]. by rewrite Hd2, Hd1. }
  exists t'. unfold SqlBackend.Import. by rewrite (transaction_clean _ _ _ _ Hi).
Qed.

Lemma sql_count t s e :
  SqlBackend.CountRange s e (World t []) = (Ok (Z.of_nat (size (restrict s e (sql_content t)))), World t []).
Proof.
  unfold SqlBackend.CountRange, sql_content. by rewrite query_clean, restrict_fmap, map_size_fmap.
Qed.

Lemma sql_delete t s e :
  sql_ok t → ∃ t', SqlBackend.DeleteRange s e (World t []) = (Ok tt, World t' []) ∧ sql_ok t' ∧
    t'.(tb_columns) = t.(tb_columns) ∧ sql_content t' = delete_range s e (sql_content t).
Proof.
  intros Hok. unfold SqlBackend.DeleteRange. rewrite exec_clean. eexists. split_and!; [done| |done|].
  - intros k row. simpl. intros [Hr _]%map_lookup_filter_Some. by apply Hok.
  - unfold sql_content. by rewrite delete_range_fmap.
Qed.
End sql_laws.

(** ** The MongoDB backend *)

(** The [_id] of a document is determined by its shard key, the same in every
    store, as it is when the shard key is [_id]. *)
Class KeyIds := { id_of : string → string; #[global] id_of_inj :: Inj (=) (=) id_of }.

Section mongo_laws.
Context {M : Type} `{DocCodec M} `{!KeyIds}.
Implicit Types (c : list M).

Definition doc_pair (doc : M) : string * data :=
  (default "" (key_field doc), value_or [] (MarshalExtJSON doc)).
Definition mongo_content c : gmap string data := list_to_map (doc_pair <$> c).

Definition doc_ok (doc : M) : Prop :=
  key_field doc = Some (doc_pair doc).1 ∧ MarshalExtJSON doc = Ok (doc_pair doc).2 ∧
  doc_id doc = Some (id_of (doc_pair doc).1).

(** Every document has a key, its [_id] and a text, and keys are unique. *)
Definition mongo_ok c : Prop := Forall doc_ok c ∧ NoDup (doc_pair <$> c).*1.

Definition mongo_importable (d : ShardDocument) : Prop :=
  ∃ doc, UnmarshalExtJSON d.(sd_Data) = Ok doc ∧ key_field doc = Some d.(sd_Key) ∧
    MarshalExtJSON doc = Ok d.(sd_Data) ∧ doc_id doc = Some (id_of d.(sd_Key)).

Lemma mongo_lookup c k v : mongo_ok c → mongo_content c !! k = Some v ↔ (k, v) ∈ doc_pair <$> c.
Proof. intros [_ Hnd]. unfold mongo_content. by rewrite <- elem_of_list_to_map. Qed.

Lemma mongo_ok_filter (P : M → Prop) `{!∀ x, Decision (P x)} c : mongo_ok c → mongo_ok (filter P c).
Proof.
  intros [Hok Hnd]. split; [by apply Forall_filter_in|].
  eapply sublist_NoDup; [exact Hnd|]. apply fmap_sublist, fmap_sublist, sublist_filter.
Qed.

Lemma rangeFilter_pair s e a doc : doc_ok doc → MongoBackend.rangeFilter s e a doc = selected s e a (doc_pair doc).1.
Proof. intros [Hk _]. unfold MongoBackend.rangeFilter. by rewrite Hk. Qed.

Lemma elem_of_found (f : string → bool) (P : M → bool) c k v :
  mongo_ok c → (∀ doc, doc_ok doc → P doc = f (doc_pair doc).1) →
  (k, v) ∈ doc_pair <$> filter (λ doc, P doc = true) c ↔ mongo_content c !! k = Some v ∧ f k = true.
Proof.
  intros Hok HP. rewrite (mongo_lookup c k v Hok), !list_elem_of_fmap. destruct Hok as [Hok _].
  rewrite Forall_forall in Hok. split.
  - intros (doc&He&[Hp Hd]%list_elem_of_filter). split; [by exists doc|]. rewrite (HP _ (Hok _ Hd)), <- He in Hp. done.
  - intros [(doc&He&Hd) Hf]. exists doc. split; [done|]. apply list_elem_of_filter. split; [|done].
    by rewrite (HP _ (Hok _ Hd)), <- He.
Qed.

Lemma find_sorted c :
  mongo_ok c → StronglySorted key_lt (doc_pair <$> merge_sort MongoBackend.by_key c).
Proof.
  intros [_ Hnd]. apply sorted_strict; [by rewrite merge_sort_Permutation|].
  assert (StronglySorted MongoBackend.by_key (merge_sort MongoBackend.by_key c)) as Hs.
  { apply StronglySorted_merge_sort; [intros x y z; apply str_le_trans|intros x y; apply str_le_total]. }
  induction Hs as [|x l _ IH Hx]; [constructor|]. constructor; [done|]. by apply Forall_fmap.
Qed.

Lemma find_range c s e a :
  mongo_ok c → doc_pair <$> merge_sort MongoBackend.by_key (filter (λ doc, MongoBackend.rangeFilter s e a doc = true) c) =
  range_pairs s e a (mongo_content c).
Proof.
  intros Hok. apply sorted_ext; [by apply find_sorted, mongo_ok_filter|apply range_pairs_sorted|]. intros [k v].
  rewrite elem_of_range_pairs, merge_sort_Permutation. apply elem_of_found; [done|apply rangeFilter_pair].
Qed.

Lemma read_docs_ok c batch :
  Forall doc_ok c →
  MongoBackend.read_docs c batch =
  Ok (mkBatch (batch.(Documents) ++ as_docs (doc_pair <$> c))
        (default batch.(Next) (fst <$> last (doc_pair <$> c))) batch.(Done)).
Proof.
  intros Hc. revert batch. induction Hc as [|doc c (Hk&Hm&_) _ IH]; intros batch; simpl.
  { rewrite app_nil_r. by destruct batch. }
  rewrite Hk, Hm. simpl. rewrite IH. simpl. do 2 f_equal; [by rewrite <- app_assoc|].
  destruct c as [|x c]; [done|]. simpl. destruct (last _) eqn:E; [done|]. by apply last_None in E.
Qed.

Lemma mongo_export c s e a limit :
  mongo_ok c → MongoBackend.ExportRange s e a limit (World c []) =
    (Ok (batch_of s e a limit (mongo_content c)), World c []).
Proof.
  intros Hok. unfold MongoBackend.ExportRange, io_bind. rewrite query_clean. unfold io_ret, MongoBackend.find.
  rewrite read_docs_ok.
  - simpl. unfold batch_of. rewrite <- (find_range c s e a Hok), <- fmap_take. unfold as_docs.
    rewrite !length_fmap. done.
  - apply Forall_take. rewrite merge_sort_Permutation. apply Forall_filter_in, Hok.
Qed.

(** The collection after the replacement of a document with its own [_id]. *)
Fixpoint put_doc (key : string) (doc : M) (c : list M) : list M :=
  match c with
  | [] => [doc]
  | x :: c' => if decide (key_field x = Some key) then doc :: c' else x :: put_doc key doc c'
  end.

Lemma doc_ok_id x y : doc_ok x → doc_ok y → doc_id x = doc_id y ↔ key_field x = key_field y.
Proof. intros (Hx&_&Hix) (Hy&_&Hiy). rewrite Hx, Hy, Hix, Hiy. split; intros Heq%(inj Some); f_equal; [by apply (inj id_of)|by f_equal]. Qed.

Lemma replace_first_ok key doc c :
  Forall doc_ok c → doc_ok doc → key_field doc = Some key →
  MongoBackend.replace_first key doc c = if decide (key ∈ (doc_pair <$> c).*1) then Some (Ok (put_doc key doc c)) else None.
Proof.
  intros Hc Hdoc Hk. induction Hc as [|x c Hx _ IH]; [done|]. cbn [MongoBackend.replace_first put_doc]. rewrite !fmap_cons.
  pose proof (proj1 Hx) as Hkx. destruct (decide (key_field x = Some key)) as [E|E].
  - rewrite decide_True by (apply elem_of_cons; left; congruence).
    assert (doc_id doc = doc_id x) as Hid by (apply doc_ok_id; [done|done|congruence]).
    unfold MongoBackend.replaced, MongoBackend.identified. rewrite (bool_decide_eq_true_2 _ Hid), orb_true_r.
    destruct Hdoc as (_&_&Hi). by rewrite Hi.
  - rewrite IH. assert (key ≠ (doc_pair x).1) by congruence. case_decide as Hd.
    + rewrite decide_True; [done|]. apply elem_of_cons. by right.
    + rewrite decide_False; [done|]. rewrite elem_of_cons. naive_solver.
Qed.

Lemma put_doc_new key doc c : Forall doc_ok c → key ∉ (doc_pair <$> c).*1 → put_doc key doc c = c ++ [doc].
Proof.
  intros Hc Hk. induction Hc as [|x c [Hx _] _ IH]; [done|]. rewrite !fmap_cons, not_elem_of_cons in Hk. cbn [put_doc app].
  rewrite decide_False by (rewrite Hx; naive_solver). f_equal. apply IH. naive_solver.
Qed.

Lemma replace_one_ok key doc c :
  Forall doc_ok c → doc_ok doc → key_field doc = Some key →
  MongoBackend.replace_one key doc c = Ok (tt, put_doc key doc c).
Proof.
  intros Hc Hdoc Hk. unfold MongoBackend.replace_one. rewrite replace_first_ok by done. case_decide as Hd; [done|].
  assert (MongoBackend.identified (Some (generate_id c)) doc = doc) as ->.
  { unfold MongoBackend.identified. destruct Hdoc as (_&_&Hi). by rewrite Hi. }
  destruct (existsb _ c) eqn:Hx; [|by rewrite put_doc_new]. exfalso. apply existsb_exists in Hx as (x&Hin&Hid). bool_prop.
  apply list_elem_of_In in Hin. rewrite Forall_forall in Hc. pose proof (Hc x Hin) as Hxok.
  apply doc_ok_id in Hid; [|done|done]. apply Hd. rewrite <- list_fmap_compose. apply list_elem_of_fmap. exists x.
  split; [|done]. simpl. by rewrite Hid, Hk.
Qed.

Lemma put_keys key doc c :
  Forall doc_ok c → (doc_pair doc).1 = key →
  (doc_pair <$> put_doc key doc c).*1 =
  if decide (key ∈ (doc_pair <$> c).*1) then (doc_pair <$> c).*1 else (doc_pair <$> c).*1 ++ [key].
Proof.
  intros Hc Hk. induction Hc as [|x c [Hx _] _ IH]; [cbn in *; by rewrite Hk|].
  cbn [put_doc]. destruct (decide (key_field x = Some key)) as [E|E]; rewrite !fmap_cons.
  - assert ((doc_pair x).1 = key) as -> by congruence. rewrite decide_True by (apply elem_of_cons; by left).
    by rewrite Hk.
  - rewrite IH. assert (key ≠ (doc_pair x).1) by congruence. case_decide as Hd.
    + rewrite decide_True; [done|]. apply elem_of_cons. by right.
    + rewrite decide_False; [done|]. rewrite elem_of_cons. naive_solver.
Qed.

Lemma put_content key doc c :
  mongo_ok c → doc_ok doc → (doc_pair doc).1 = key →
  mongo_ok (put_doc key doc c) ∧ mongo_content (put_doc key doc c) = <[key := (doc_pair doc).2]> (mongo_content c).
Proof.
  intros [Hok Hnd] Hdoc Hk. split.
  - split.
    + clear Hnd. induction Hok as [|x c Hx Hc IH]; simpl; [by apply Forall_singleton|].
      case_decide; by apply Forall_cons.
    + rewrite (put_keys _ _ _ Hok Hk). case_decide; [done|]. apply NoDup_app. split_and!; [done| |].
      * by intros x Hx ->%list_elem_of_singleton.
      * apply NoDup_singleton.
  - unfold mongo_content. induction Hok as [|x c [Hx _] Hc IH]; [cbn in *; by rewrite Hk|].
    apply NoDup_cons in Hnd as [Hn Hnd]. cbn [put_doc].
    destruct (decide (key_field x = Some key)) as [E|E]; rewrite !fmap_cons; cbn [list_to_map foldr].
    + assert ((doc_pair x).1 = key) as -> by congruence. by rewrite insert_insert_eq, Hk.
    + rewrite (IH Hnd). apply insert_insert_ne. congruence.
Qed.

Lemma mongo_import c ds keyField :
  mongo_ok c → Forall mongo_importable ds →
  ∃ c', MongoBackend.Import keyField ds (World c []) = (Ok tt, World c' []) ∧ mongo_ok c' ∧
    mongo_content c' = import_docs false ds (mongo_content c).
Proof.
  intros Hok Hds. revert c Hok. induction Hds as [|d ds (doc&Hu&Hk&Hm&Hi0) _ IH]; intros c Hok; [by exists c|].
  assert (doc_pair doc = (sd_Key d, sd_Data d)) as Hp by (unfold doc_pair; by rewrite Hk, Hm).
  assert (doc_ok doc) as Hdoc by (unfold doc_ok; by rewrite Hp).
  destruct (put_content (sd_Key d) doc c Hok Hdoc) as [Hok1 Hc1]; [by rewrite Hp|].
  destruct (IH _ Hok1) as (c'&Hi&Hok'&Hc'). exists c'. simpl. rewrite Hu, Hk. unfold io_bind.
  rewrite exec_clean, replace_one_ok, Hi by (try apply Hok; done).
  split_and!; [done|done|]. rewrite Hc', Hc1, Hp. done.
Qed.

(** A document whose [_id] is not that of the document with its key is refused, and
    nothing of the batch from there on is imported. *)
Lemma mongo_other_id_refused c keyField d ds doc x i j :
  UnmarshalExtJSON d.(sd_Data) = Ok doc → key_field doc = Some d.(sd_Key) → doc_id doc = Some i →
  x ∈ c → key_field x = Some d.(sd_Key) → doc_id x = Some j → i ≠ j → NoDup (key_field <$> c) →
  ∃ e, MongoBackend.Import keyField (d :: ds) (World c []) = (Err e, World c []).
Proof.
  intros Hu Hk Hi Hx Hkx Hj Hne Hnd. cbn [MongoBackend.Import]. rewrite Hu, Hk. unfold io_bind. rewrite exec_clean.
  assert (∃ e, MongoBackend.replace_first (sd_Key d) doc c = Some (Err e)) as [e He].
  { induction c as [|y c IH]; [by apply elem_of_nil in Hx|]. cbn [MongoBackend.replace_first].
    rewrite fmap_cons, NoDup_cons in Hnd. destruct Hnd as [Hn Hnd]. apply elem_of_cons in Hx as [->|Hx].
    - rewrite decide_True by done. unfold MongoBackend.replaced. rewrite Hi, Hj.
      rewrite !bool_decide_eq_false_2 by congruence. by eexists.
    - rewrite decide_False; [by destruct (IH Hx Hnd) as [e ->]; eexists|].
      intros Hy. apply Hn. apply list_elem_of_fmap. exists x. by rewrite Hkx. }
  unfold MongoBackend.replace_one. rewrite He. by eexists.
Qed.

Lemma mongo_count c s e :
  mongo_ok c → MongoBackend.CountRange s e (World c []) =
    (Ok (Z.of_nat (size (restrict s e (mongo_content c)))), World c []).
Proof.
  intros Hok. unfold MongoBackend.CountRange. rewrite query_clean. do 3 f_equal.
  rewrite <- length_map_to_list, <- range_pairs_all, <- (find_range c s e "" Hok), length_fmap.
  by rewrite merge_sort_Permutation.
Qed.

Lemma mongo_delete c s e :
  mongo_ok c → ∃ c', MongoBackend.DeleteRange s e (World c []) = (Ok tt, World c' []) ∧ mongo_ok c' ∧
    mongo_content c' = delete_range s e (mongo_content c).
Proof.
  intros Hok. unfold MongoBackend.DeleteRange. rewrite exec_clean. eexists. split_and!; [done|by apply mongo_ok_filter|].
  set (P := λ doc, negb (MongoBackend.rangeFilter s e "" doc)).
  rewrite (list_filter_iff _ (λ doc, P doc = true)) by (intros; unfold P; by rewrite negb_true_iff).
  apply map_eq. intros k. apply option_eq. intros v. rewrite (mongo_lookup _ k v) by (by apply mongo_ok_filter).
  rewrite (elem_of_found (λ k, negb (selected s e "" k)) P c k v Hok) by (intros doc Hd; unfold P; by rewrite rangeFilter_pair).
  unfold delete_range. rewrite map_lookup_filter_Some, negb_true_iff. simpl.
  assert (selected s e "" k = within s e k) as ->; [|done]. unfold selected. by rewrite bool_decide_eq_true_2, andb_true_r.
Qed.
End mongo_laws.

(** ** A registry of backends over named stores *)

Inductive store (V M : Type) :=
| SQLStore (w : world (table V))
| MongoStore (w : world (list M)).
Arguments SQLStore {V M} _.
Arguments MongoStore {V M} _.

Inductive shard_config :=
| ConfigSQL (driver tbl keyColumn : string) (columns : gset string)
| ConfigMongo (keyField : string).

Section registry.
Context {V M : Type} `{RowCodec V} `{DocCodec M} `{!KeyIds}.
Abbreviation stores := (gmap string (store V M)).

Definition closed {A} : result A := Err (ErrNew "store is closed").

Definition on_sql {A} (id : string) (m : io (world (table V)) (result A)) : io stores (result A) := λ e,
  match e !! id with
  | Some (SQLStore w) => let (r, w') := m w in (r, <[id := SQLStore w']> e)
  | _ => (closed, e)
  end.
Definition on_mongo {A} (id : string) (m : io (world (list M)) (result A)) : io stores (result A) := λ e,
  match e !! id with
  | Some (MongoStore w) => let (r, w') := m w in (r, <[id := MongoStore w']> e)
  | _ => (closed, e)
  end.

Definition sql_backend (b : SQLShardBackend) : ShardBackend stores :=
  mkBackend _ b.(sql_id)
    (λ s e a n, on_sql b.(sql_id) (SqlBackend.ExportRange b s e a n))
    (λ ds, on_sql b.(sql_id) (SqlBackend.Import b ds))
    (λ s e, on_sql b.(sql_id) (SqlBackend.CountRange s e))
    (λ s e, on_sql b.(sql_id) (SqlBackend.DeleteRange s e)).
Definition mongo_backend (id keyField : string) : ShardBackend stores :=
  mkBackend _ id
    (λ s e a n, on_mongo id (MongoBackend.ExportRange s e a n))
    (λ ds, on_mongo id (MongoBackend.Import keyField ds))
    (λ s e, on_mongo id (MongoBackend.CountRange s e))
    (λ s e, on_mongo id (MongoBackend.DeleteRange s e)).

Context (cfg : gmap string shard_config).

Definition make_backend (id : string) (c : shard_config) : ShardBackend stores :=
  match c with
  | ConfigSQL drv tbl key _ => sql_backend (mkSQL id drv tbl key)
  | ConfigMongo field => mongo_backend id field
  end.
Definition registry_of : gmap string (ShardBackend stores) := map_imap (λ id c, Some (make_backend id c)) cfg.

Definition store_content (st : store V M) : gmap string data :=
  match st with
  | SQLStore w => sql_content w.(db)
  | MongoStore w => mongo_content w.(db)
  end.
Definition store_docs (id : string) (e : stores) : gmap string data :=
  match e !! id with Some st => store_content st | None => ∅ end.

Definition store_ready (id : string) (c : shard_config) (st : option (store V M)) : Prop :=
  match c, st with
  | ConfigSQL drv tbl key cols, Some (SQLStore w) =>
      ∃ t, w = World t [] ∧ sql_ok (mkSQL id drv tbl key) t ∧ t.(tb_columns) = cols
  | ConfigMongo _, Some (MongoStore w) => ∃ c, w = World c [] ∧ mongo_ok c
  | _, _ => False
  end.
Definition stores_ready (e : stores) : Prop := ∀ id c, cfg !! id = Some c → store_ready id c (e !! id).

Definition store_keeps (id : string) : bool :=
  match cfg !! id with Some (ConfigSQL _ _ _ _) => true | _ => false end.
Definition store_importable (id : string) (d : ShardDocument) : Prop :=
  match cfg !! id with
  | Some (ConfigSQL drv tbl key cols) => sql_importable (mkSQL id drv tbl key) cols d
  | Some (ConfigMongo _) => mongo_importable d
  | None => False
  end.

(** Replacing one ready store by another one. *)
Lemma replace_store id c st e :
  stores_ready e → cfg !! id = Some c → store_ready id c (Some st) →
  stores_ready (<[id := st]> e) ∧ store_docs id (<[id := st]> e) = store_content st ∧
  ∀ id', id' ≠ id → store_docs id' (<[id := st]> e) = store_docs id' e.
Proof.
  intros Hr Hc Hst. split_and!.
  - intros id' c' Hc'. destruct (decide (id' = id)) as [->|Hne].
    + rewrite lookup_insert_eq. by simplify_eq.
    + rewrite lookup_insert_ne by done. by apply Hr.
  - unfold store_docs. by rewrite lookup_insert_eq.
  - intros id' Hne. unfold store_docs. by rewrite lookup_insert_ne.
Qed.

Lemma registry_lookup id b :
  registry_of !! id = Some b → ∃ c, cfg !! id = Some c ∧ b = make_backend id c.
Proof. unfold registry_of. rewrite map_lookup_imap. destruct (cfg !! id) as [c|]; [|done]. intros [= <-]. by exists c. Qed.

#[global] Program Instance registry_laws : StoreLaws registry_of := {|
  docs := store_docs; ready := stores_ready; keeps := store_keeps; importable := store_importable |}.
Next Obligation.
  intros id b e s t a n (c&Hc&->)%registry_lookup Hr _. specialize (Hr _ _ Hc). unfold store_docs.
  destruct c as [tbl key cols|field], (e !! id) as [[w|w]|] eqn:He; try done.
  - destruct Hr as (tb&->&Hok&_). simpl. unfold on_sql. rewrite He, sql_export, insert_id by done. done.
  - destruct Hr as (c&->&Hok). simpl. unfold on_mongo. rewrite He, mongo_export, insert_id by done. done.
Qed.
Next Obligation.
  intros id b e ds (c&Hc&->)%registry_lookup Hr Hds. pose proof (Hr _ _ Hc) as Hs.
  unfold store_docs at 2. unfold store_importable in Hds. unfold store_keeps. rewrite Hc in *.
  destruct c as [tbl key cols|field], (e !! id) as [[w|w]|] eqn:He; try done.
  - destruct Hs as (tb&->&Hok&<-). destruct (sql_import _ _ _ Hok Hds) as (tb'&Hi&Hok'&Hcol&Hd).
    destruct (replace_store id _ (SQLStore (World tb' [])) e Hr Hc) as (?&Hdoc&?); [by exists tb'|].
    exists (<[id := SQLStore (World tb' [])]> e). simpl. unfold on_sql. by rewrite He, Hi, Hdoc.
  - destruct Hs as (c&->&Hok). destruct (mongo_import _ _ field Hok Hds) as (c'&Hi&Hok'&Hd).
    destruct (replace_store id _ (MongoStore (World c' [])) e Hr Hc) as (?&Hdoc&?); [by exists c'|].
    exists (<[id := MongoStore (World c' [])]> e). simpl. unfold on_mongo. by rewrite He, Hi, Hdoc.
Qed.
Next Obligation.
  intros id b e s t (c&Hc&->)%registry_lookup Hr. specialize (Hr _ _ Hc). unfold store_docs.
  destruct c as [tbl key cols|field], (e !! id) as [[w|w]|] eqn:He; try done.
  - destruct Hr as (tb&->&Hok&_). simpl. unfold on_sql. rewrite He, sql_count, insert_id by done. done.
  - destruct Hr as (c&->&Hok). simpl. unfold on_mongo. rewrite He, mongo_count, insert_id by done. done.
Qed.
Next Obligation.
  intros id b e s t (c&Hc&->)%registry_lookup Hr. pose proof (Hr _ _ Hc) as Hs. unfold store_docs at 2.
  destruct c as [tbl key cols|field], (e !! id) as [[w|w]|] eqn:He; try done.
  - destruct Hs as (tb&->&Hok&<-). destruct (sql_delete _ _ s t Hok) as (tb'&Hi&Hok'&Hcol&Hd).
    destruct (replace_store id _ (SQLStore (World tb' [])) e Hr Hc) as (?&Hdoc&?); [by exists tb'|].
    exists (<[id := SQLStore (World tb' [])]> e). simpl. unfold on_sql. by rewrite He, Hi, Hdoc.
  - destruct Hs as (c&->&Hok). destruct (mongo_delete _ s t Hok) as (c'&Hi&Hok'&Hd).
    destruct (replace_store id _ (MongoStore (World c' [])) e Hr Hc) as (?&Hdoc&?); [by exists c'|].
    exists (<[id := MongoStore (World c' [])]> e). simpl. unfold on_mongo. by rewrite He, Hi, Hdoc.
Qed.
End registry.
