(* ===== verification/SqlText.v ===== *)
(** * The statements of the SQL shard backend, as texts

    shard_sql.go builds its statements by formatting table and column names and
    placeholders into texts.  This file has the texts, a reference reader of the
    SQL they are written in, and the proof that each text reads as the statement
    that [SqlBackend] executes, for every driver and all names that are not
    reserved words: no name can change the statement it is put into. *)

From Stdlib Require Import ZArith Lia Ascii String DecimalString.
From stdpp Require Import base list gmap sets strings sorting.
From S2P Require Import Prelude GoRegexp JsonScan JsonText JsonRoundtrip Db Shard ShardBackends.

(** ** The texts *)

(** [strings.Contains]. *)
Fixpoint contains (sub l : bytes) : bool :=
  bool_decide (take (length sub) l = sub) || match l with [] => false | _ :: l' => contains sub l' end.

(** [strings.Join]. *)
Fixpoint join (sep : bytes) (parts : list bytes) : bytes :=
  match parts with
  | [] => []
  | [p] => p
  | p :: ps => p ++ sep ++ join sep ps
  end.

Section texts.
Context (b : SQLShardBackend).
Let table := to_bytes b.(sql_table).
Let key := to_bytes b.(sql_keyColumn).

(** The placeholder of the [i]-th argument. *)
Definition ph (i : nat) : bytes :=
  if contains (to_bytes "pgx") (to_bytes b.(sql_driver)) then "$"%char :: format_int (Z.of_nat i) else ["?"%char].

(** ["%s WHERE %s >= %s AND %s < %s"] with the words before it. *)
Definition range_text (head : string) : bytes :=
  to_bytes head ++ table ++ to_bytes " WHERE " ++ key ++ to_bytes " >= " ++ ph 1 ++ to_bytes " AND " ++ key ++ to_bytes " < " ++ ph 2.

(** [ExportRange]: the text and the number of its arguments. *)
Definition export_text (after : string) : bytes :=
  let more := negb (bool_decide (after = "")) in
  let nargs := if more then 4 else 3 in
  range_text "SELECT * FROM " ++ (if more then to_bytes " AND " ++ key ++ to_bytes " > " ++ ph 3 else []) ++
  to_bytes " ORDER BY " ++ key ++ to_bytes " LIMIT " ++ ph nargs.

(** [Import], for the sorted columns of a document. *)
Definition insert_text (cols : list string) : bytes :=
  to_bytes "INSERT INTO " ++ table ++ to_bytes " (" ++ join [","%char] (to_bytes <$> cols) ++ to_bytes ") VALUES (" ++
  join [","%char] (ph ∘ S <$> List.seq 0 (length cols)) ++ to_bytes ") ON CONFLICT (" ++ key ++ to_bytes ") DO NOTHING".

Definition count_text : bytes := range_text "SELECT COUNT(*) FROM ".
Definition delete_text : bytes := range_text "DELETE FROM ".
End texts.

(** ** A reader of SQL *)

Inductive token := Word (w : bytes) | Sym (c : ascii).

Definition word_char (c : ascii) : bool := identifier_char c || is_char "$" c.

Definition flush (acc : bytes) (ts : list token) : list token := match acc with [] => ts | _ => Word acc :: ts end.

(** Words, and any other character on its own; spaces separate. *)
Fixpoint lex (acc : bytes) (s : bytes) : list token :=
  match s with
  | [] => flush acc []
  | c :: s' =>
      if word_char c then lex (acc ++ [c]) s'
      else if is_char " " c then flush acc (lex [] s')
      else flush acc (Sym c :: lex [] s')
  end.

(** Words are compared without case. *)
Definition upper (c : ascii) : ascii := if in_range "a" "z" c then ascii_of_N (N_of_ascii c - 32) else c.
Definition reserved : list string :=
  ["SELECT"; "FROM"; "WHERE"; "AND"; "ORDER"; "BY"; "LIMIT"; "INSERT"; "INTO"; "VALUES"; "ON"; "CONFLICT"; "DO"; "NOTHING"; "DELETE"; "COUNT"].
Definition is_reserved (w : bytes) : bool := bool_decide (of_bytes (upper <$> w) ∈ reserved).

(** A name that can stand where a table or a column is expected. *)
Definition is_name (w : bytes) : bool := match_bytes sqlIdentifier w && negb (is_reserved w).

Inductive comparison := Ge | Lt | Gt.

(** Statements; arguments are numbered from 1. *)
Inductive statement :=
| SelectRows (table : bytes) (conds : list (bytes * comparison * nat)) (order : bytes) (limit : nat)
| SelectCount (table : bytes) (conds : list (bytes * comparison * nat))
| DeleteRows (table : bytes) (conds : list (bytes * comparison * nat))
| InsertRow (table : bytes) (cols : list bytes) (vals : list nat) (conflict : bytes).

(** The reader's state: the tokens left and the number of the next ["?"]. *)
Definition reader (A : Type) : Type := list token * nat → option (A * (list token * nat)).
Definition rd_ret {A} (a : A) : reader A := λ s, Some (a, s).
Definition rd_bind {A B} (m : reader A) (k : A → reader B) : reader B := λ s, '(a, s') ← m s; k a s'.
#[local] Notation "'let*' x ':=' m 'in' k" := (rd_bind m (λ x, k)) (at level 10, x name, m at level 100, k at level 200).
#[local] Notation "m >> k" := (rd_bind m (λ _, k)) (at level 60, right associativity).

Definition kw (k : string) : reader () := λ '(ts, n),
  match ts with Word w :: ts' => if decide (of_bytes (upper <$> w) = k) then Some (tt, (ts', n)) else None | _ => None end.
Definition sym (c : ascii) : reader () := λ '(ts, n),
  match ts with Sym d :: ts' => if decide (d = c) then Some (tt, (ts', n)) else None | _ => None end.
Definition name : reader bytes := λ '(ts, n),
  match ts with Word w :: ts' => if is_name w then Some (w, (ts', n)) else None | _ => None end.
Definition arg : reader nat := λ '(ts, n),
  match ts with
  | Sym "?" :: ts' => Some (n, (ts', S n))
  | Word ("$"%char :: digits) :: ts' =>
      z ← Z.of_int <$> NilZero.int_of_string (of_bytes digits); if (0 <? z)%Z then Some (Z.to_nat z, (ts', n)) else None
  | _ => None
  end%char.

Definition comparison_op : reader comparison := λ '(ts, n),
  match ts with
  | Sym ">" :: Sym "=" :: ts' => Some (Ge, (ts', n))
  | Sym "<" :: ts' => Some (Lt, (ts', n))
  | Sym ">" :: ts' => Some (Gt, (ts', n))
  | _ => None
  end%char.
Definition condition : reader (bytes * comparison * nat) :=
  let* c := name in let* op := comparison_op in let* i := arg in rd_ret (c, op, i).

(** [p], then any number of [sep p]; each round takes a token, so the number of
    tokens is enough fuel. *)
Fixpoint more {A} (fuel : nat) (sep : reader ()) (p : reader A) : reader (list A) := λ s,
  match fuel with
  | O => Some ([], s)
  | S fuel =>
      match sep s with
      | None => Some ([], s)
      | Some (_, s') => (let* x := p in let* xs := more fuel sep p in rd_ret (x :: xs)) s'
      end
  end.
Definition list_of {A} (sep : reader ()) (p : reader A) : reader (list A) := λ s,
  (let* x := p in let* xs := more (length s.1) sep p in rd_ret (x :: xs)) s.

Definition where_clause : reader (list (bytes * comparison * nat)) :=
  kw "WHERE" >> list_of (kw "AND") condition.

Definition select_statement : reader statement := λ s,
  match (kw "SELECT" >> sym "*" >> kw "FROM") s with
  | Some (_, s') =>
      (let* t := name in let* cs := where_clause in kw "ORDER" >> kw "BY" >> let* o := name in
       kw "LIMIT" >> let* l := arg in rd_ret (SelectRows t cs o l)) s'
  | None =>
      (kw "SELECT" >> kw "COUNT" >> sym "(" >> sym "*" >> sym ")" >> kw "FROM" >> let* t := name in
       let* cs := where_clause in rd_ret (SelectCount t cs)) s
  end.
Definition delete_statement : reader statement :=
  kw "DELETE" >> kw "FROM" >> let* t := name in let* cs := where_clause in rd_ret (DeleteRows t cs).
Definition insert_statement : reader statement :=
  kw "INSERT" >> kw "INTO" >> let* t := name in sym "(" >> let* cols := list_of (sym ",") name in sym ")" >>
  kw "VALUES" >> sym "(" >> let* vals := list_of (sym ",") arg in sym ")" >>
  kw "ON" >> kw "CONFLICT" >> sym "(" >> let* k := name in sym ")" >> kw "DO" >> kw "NOTHING" >>
  rd_ret (InsertRow t cols vals k).

Definition read_statement (text : bytes) : option statement :=
  let s := (lex [] text, 1) in
  let whole (r : option (statement * (list token * nat))) := match r with Some (st, ([], _)) => Some st | _ => None end in
  match whole (select_statement s), whole (delete_statement s) with
  | Some st, _ => Some st
  | None, Some st => Some st
  | None, None => whole (insert_statement s)
  end.

(** ** The statements on a table *)

(** What a statement is given: a text, a number, or a value of the driver. *)
Inductive argument (V : Type) := ArgText (s : string) | ArgInt (z : Z) | ArgVal (v : V).
Arguments ArgText {V} _.
Arguments ArgInt {V} _.
Arguments ArgVal {V} _.

Inductive outcome (V : Type) := Rows (rows : list (gmap string V)) | Count (n : Z) | Applied.
Arguments Rows {V} _.
Arguments Count {V} _.
Arguments Applied {V}.

Definition compare_text (op : comparison) (x y : string) : bool :=
  match op with Ge => bool_decide (str_le y x) | Lt => bool_decide (str_lt x y) | Gt => bool_decide (str_lt y x) end.

(** The numbers of the arguments that a statement names. *)
Definition params (st : statement) : list nat :=
  match st with
  | SelectRows _ cs _ l => (snd <$> cs) ++ [l]
  | SelectCount _ cs | DeleteRows _ cs => snd <$> cs
  | InsertRow _ _ vals _ => vals
  end.

Section run.
Context {V : Type} `{RowCodec V} (b : SQLShardBackend).
Implicit Types (t : table V) (row : gmap string V) (args : list (argument V)).

(** Columns are compared as texts. *)
Definition column_text (row : gmap string V) (c : bytes) : option string := Sprint <$> (as_text <$> row) !! of_bytes c.

Definition holds (args : list (argument V)) (row : gmap string V) (c : bytes * comparison * nat) : bool :=
  match column_text row c.1.1, args !! pred c.2 with
  | Some x, Some (ArgText y) => compare_text c.1.2 x y
  | _, _ => false
  end.
Definition all_hold (args : list (argument V)) (conds : list (bytes * comparison * nat)) (row : gmap string V) : bool :=
  forallb (holds args row) conds.
Definition matching (args : list (argument V)) (conds : list (bytes * comparison * nat)) (t : table V) : list (string * gmap string V) :=
  filter (λ kv, all_hold args conds kv.2 = true) (map_to_list t.(tb_rows)).

Definition column_le (c : bytes) (x y : string * gmap string V) : Prop :=
  str_le (default "" (column_text x.2 c)) (default "" (column_text y.2 c)).
#[global] Instance column_le_dec c : RelDecision (column_le c) := λ x y, str_le_dec _ _.

(** The values of the given arguments. *)
Fixpoint values (args : list (argument V)) (nums : list nat) : option (list V) :=
  match nums with
  | [] => Some []
  | i :: nums' => match args !! pred i with Some (ArgVal v) => cons v <$> values args nums' | _ => None end
  end.

(** A statement on the table of backend [b]. *)
Definition run (st : statement) (args : list (argument V)) (t : table V) : result (outcome V * table V) :=
  let on (tbl : bytes) (r : result (outcome V * table V)) :=
    if negb (bool_decide (length args = foldr Nat.max 0 (params st))) then Err (ErrNew "wrong number of arguments")
    else if decide (tbl = to_bytes b.(sql_table)) then r else Err (ErrNew "no such table") in
  match st with
  | SelectRows tbl conds order limit => on tbl
      match args !! pred limit with
      | Some (ArgInt n) =>
          if (n <? 0)%Z then Err (ErrNew "LIMIT must not be negative")
          else Ok (Rows (take (Z.to_nat n) (merge_sort (column_le order) (matching args conds t))).*2, t)
      | _ => Err (ErrNew "datatype mismatch")
      end
  | SelectCount tbl conds => on tbl (Ok (Count (Z.of_nat (length (matching args conds t))), t))
  | DeleteRows tbl conds => on tbl
      (Ok (Applied, mkTable t.(tb_columns) (filter (λ kv, all_hold args conds kv.2 = false) t.(tb_rows))))
  | InsertRow tbl cols vals conflict => on tbl
      match values args vals with
      | None => Err (ErrNew "datatype mismatch")
      | Some vs =>
          if decide (length vs = length cols ∧ conflict = to_bytes b.(sql_keyColumn))
          then try r := SqlBackend.insert_row b (list_to_map (zip (of_bytes <$> cols) vs)) t in Ok (Applied, r.2)
          else Err (ErrNew "no such constraint")
      end
  end.

Definition run_text (text : bytes) (args : list (argument V)) (t : table V) : result (outcome V * table V) :=
  match read_statement text with Some st => run st args t | None => Err (ErrNew "syntax error") end.

(** The arguments that the operations pass. *)
Definition range_args (start end_ : string) : list (argument V) := [ArgText start; ArgText end_].
Definition export_args (start end_ after : string) (limit : Z) : list (argument V) :=
  range_args start end_ ++ (if bool_decide (after = "") then [] else [ArgText after]) ++ [ArgInt limit].

(** [sort.Strings] on the columns of a document, and the values in that order. *)
Definition import_columns (fields : gmap string V) : list string := merge_sort str_le (map_to_list fields).*1.
Definition import_args (fields : gmap string V) : list (argument V) :=
  (λ c, ArgVal (default null (fields !! c))) <$> import_columns fields.
End run.

(** * Lemmas *)

(** ** Tokens *)

Lemma lex_word acc w s : Forall (λ c, word_char c = true) w → lex acc (w ++ s) = lex (acc ++ w) s.
Proof.
  intros Hw. revert acc. induction Hw as [|c w Hc _ IH]; intros acc; simpl; [by rewrite app_nil_r|].
  by rewrite Hc, IH, <- app_assoc.
Qed.

(** A text that is one token, whatever follows that is not part of a word. *)
Definition one_token (p : bytes) (t : token) : Prop :=
  (∀ c s, word_char c = false → lex [] (p ++ c :: s) = t :: lex [] (c :: s)) ∧ lex [] p = [t].

Lemma word_token w : w ≠ [] → Forall (λ c, word_char c = true) w → one_token w (Word w).
Proof.
  intros Hne Hw. split.
  - intros c s Hc. rewrite lex_word by done. simpl. rewrite Hc. by destruct w; [|destruct (is_char " " c)].
  - pose proof (lex_word [] w [] Hw) as H. rewrite app_nil_r in H. rewrite H. by destruct w.
Qed.

Lemma name_word w : is_name w = true → one_token w (Word w).
Proof.
  unfold is_name. intros [Hm _]%andb_true_iff. apply match_bytes_spec in Hm.
  inversion Hm as [| |r1 r2 s1 s2 H1 H2| | | |]; subst. inversion H1 as [|p c Hc| | | | |]; subst. apply word_token; [done|].
  simpl. constructor; [unfold word_char, identifier_char; apply orb_true_iff in Hc as [->| ->]; by rewrite ?orb_true_r|].
  clear -H2. remember (RStar _) as r eqn:E. induction H2 as [| | | | | |r s1 s2 H1 _ H2 IH2]; try done.
  injection E as ->. inversion H1 as [|p c Hc| | | | |]; subst. simpl. constructor; [by unfold word_char; rewrite Hc|by apply IH2].
Qed.

Lemma digits_word d : Forall (λ c, word_char c = true) (to_bytes (NilEmpty.string_of_uint d)).
Proof. induction d; simpl; constructor; done. Qed.

Lemma format_nat_word i : Forall (λ c, word_char c = true) (format_int (Z.of_nat i)).
Proof.
  unfold format_int. destruct (Z.of_nat i) eqn:E; [by repeat constructor| |lia]. simpl.
  unfold NilZero.string_of_uint. destruct (Pos.to_uint p); [by repeat constructor|..]; apply (digits_word (_ _)).
Qed.

(** The token of a placeholder. *)
Definition pgx (b : SQLShardBackend) : bool := contains (to_bytes "pgx") (to_bytes b.(sql_driver)).
Definition ph_token (b : SQLShardBackend) (i : nat) : token :=
  if pgx b then Word ("$"%char :: format_int (Z.of_nat i)) else Sym "?".

Lemma ph_one b i : one_token (ph b i) (ph_token b i).
Proof.
  unfold ph, ph_token, pgx. destruct (contains _ _); [|by split].
  apply word_token; [done|]. constructor; [done|apply format_nat_word].
Qed.

Definition tail_ok (rest : bytes) : Prop := match rest with [] => True | c :: _ => word_char c = false end.

Lemma lex_one p t rest : one_token p t → tail_ok rest → lex [] (p ++ rest) = t :: lex [] rest.
Proof. intros [H1 H2] Hr. destruct rest as [|c s]; [by rewrite app_nil_r, H2|by apply H1]. Qed.

(** ** Reading *)

#[local] Arguments name : simpl never.
#[local] Arguments arg : simpl never.
#[local] Arguments kw : simpl never.
#[local] Arguments comparison_op : simpl never.
#[local] Arguments sym : simpl never.
#[local] Arguments is_name : simpl never.

Lemma name_ok w ts n : is_name w = true → name (Word w :: ts, n) = Some (w, (ts, n)).
Proof. intros H. unfold name. by rewrite H. Qed.

Lemma kw_ok k w ts n : of_bytes (upper <$> w) = k → kw k (Word w :: ts, n) = Some (tt, (ts, n)).
Proof. intros H. unfold kw. by rewrite decide_True. Qed.
Lemma kw_no k w ts n : of_bytes (upper <$> w) ≠ k → kw k (Word w :: ts, n) = None.
Proof. intros H. unfold kw. by rewrite decide_False. Qed.

Lemma sym_ok c ts n : sym c (Sym c :: ts, n) = Some (tt, (ts, n)).
Proof. unfold sym. by rewrite decide_True. Qed.

(** Words, signs and names that are there are read. *)
Ltac read_tokens :=
  repeat first
    [ progress cbn [mbind option_bind app]
    | rewrite sym_ok
    | rewrite name_ok by assumption
    | rewrite kw_ok by reflexivity ].

(** The number of the next ["?"] when [i] arguments come next. *)
Definition next_mark (b : SQLShardBackend) (i : nat) : nat := if pgx b then 1 else i.

Lemma arg_ok b i ts : 0 < i → arg (ph_token b i :: ts, next_mark b i) = Some (i, (ts, next_mark b (S i))).
Proof.
  intros Hi. unfold ph_token, next_mark. destruct (pgx b); [|done]. unfold arg.
  rewrite int_of_format. simpl. rewrite (proj2 (Z.ltb_lt _ _)) by lia. by rewrite Nat2Z.id.
Qed.

Definition op_tokens (op : comparison) : list token :=
  match op with Ge => [Sym ">"; Sym "="] | Lt => [Sym "<"] | Gt => [Sym ">"] end%char.

Lemma condition_ok b w op i ts :
  is_name w = true → 0 < i →
  condition (Word w :: op_tokens op ++ ph_token b i :: ts, next_mark b i) = Some ((w, op, i), (ts, next_mark b (S i))).
Proof.
  intros Hw Hi. unfold condition, rd_bind, rd_ret. rewrite name_ok by done. simpl.
  assert (comparison_op (op_tokens op ++ ph_token b i :: ts, next_mark b i) = Some (op, (ph_token b i :: ts, next_mark b i))) as ->.
  { destruct op; try done. unfold ph_token. by destruct (pgx b). }
  simpl. by rewrite arg_ok.
Qed.

Lemma more_stop {A} f sep (p : reader A) s : sep s = None → more f sep p s = Some ([], s).
Proof. destruct f; simpl; [done|]. by intros ->. Qed.

Lemma more_step {A} f sep (p : reader A) s s1 s2 x xs s3 :
  sep s = Some (tt, s1) → p s1 = Some (x, s2) → more f sep p s2 = Some (xs, s3) → more (S f) sep p s = Some (x :: xs, s3).
Proof. intros Hs Hp Hm. simpl. rewrite Hs. unfold rd_bind, rd_ret. rewrite Hp. simpl. by rewrite Hm. Qed.

Lemma list_of_ok {A} sep (p : reader A) s s1 x xs s2 :
  p s = Some (x, s1) → more (length s.1) sep p s1 = Some (xs, s2) → list_of sep p s = Some (x :: xs, s2).
Proof. intros Hp Hm. unfold list_of, rd_bind, rd_ret. rewrite Hp. simpl. by rewrite Hm. Qed.

(** The tokens of the range condition, and of the condition on the checkpoint. *)
Definition range_tokens (b : SQLShardBackend) : list token :=
  Word (to_bytes "WHERE") :: Word (to_bytes b.(sql_keyColumn)) :: op_tokens Ge ++ ph_token b 1 ::
  Word (to_bytes "AND") :: Word (to_bytes b.(sql_keyColumn)) :: op_tokens Lt ++ [ph_token b 2].
Definition after_tokens (b : SQLShardBackend) (more : bool) : list token :=
  if more then Word (to_bytes "AND") :: Word (to_bytes b.(sql_keyColumn)) :: op_tokens Gt ++ [ph_token b 3] else [].

Definition range_conds (b : SQLShardBackend) (more : bool) : list (bytes * comparison * nat) :=
  let key := to_bytes b.(sql_keyColumn) in
  [(key, Ge, 1); (key, Lt, 2)] ++ (if more then [(key, Gt, 3)] else []).

Section reading.
Context (b : SQLShardBackend).
Hypothesis Ht : is_name (to_bytes b.(sql_table)) = true.
Hypothesis Hk : is_name (to_bytes b.(sql_keyColumn)) = true.

Lemma lex_range head toks rest :
  (∀ r, lex [] (to_bytes head ++ r) = toks ++ lex [] r) → tail_ok rest →
  lex [] (range_text b head ++ rest) = toks ++ Word (to_bytes b.(sql_table)) :: range_tokens b ++ lex [] rest.
Proof using Ht Hk.
  intros Hh Hr. unfold range_text. rewrite <- !app_assoc, Hh. f_equal.
  rewrite (lex_one _ _ _ (name_word _ Ht)) by done. f_equal. unfold range_tokens. simpl.
  rewrite (lex_one _ _ _ (name_word _ Hk)) by done. simpl.
  rewrite (lex_one _ _ _ (ph_one b 1)) by done. simpl.
  rewrite (lex_one _ _ _ (name_word _ Hk)) by done. simpl.
  by rewrite (lex_one _ _ _ (ph_one b 2)).
Qed.

Lemma where_ok more0 ts :
  (ts = [] ∨ ∃ w ts', ts = Word w :: ts' ∧ of_bytes (upper <$> w) ≠ "AND") →
  where_clause (range_tokens b ++ after_tokens b more0 ++ ts, next_mark b 1) =
  Some (range_conds b more0, (ts, next_mark b (if more0 then 4 else 3))).
Proof using Hk.
  intros Hts. assert (∀ n, kw "AND" (ts, n) = None) as Hstop.
  { intros n. destruct Hts as [->|(w&ts'&->&Hw)]; [done|by apply kw_no]. }
  unfold where_clause, range_tokens, rd_bind at 1. cbn [app]. rewrite kw_ok by done. cbn [mbind option_bind].
  rewrite <- !app_assoc. cbn [app]. eapply list_of_ok; [by apply condition_ok; [|lia]|]. cbn [fst length].
  eapply more_step; [by apply kw_ok| |].
  { rewrite <- !app_assoc. cbn [app]. apply condition_ok; [done|lia]. }
  destruct more0; cbn [after_tokens app].
  - rewrite <- !app_assoc. cbn [app]. eapply more_step; [by apply kw_ok|apply condition_ok; [done|lia]|by apply more_stop].
  - by apply more_stop.
Qed.

Lemma next_mark_one : next_mark b 1 = 1.
Proof. unfold next_mark. by destruct (pgx b). Qed.

Lemma lex_export after :
  lex [] (export_text b after) =
  let more := negb (bool_decide (after = "")) in
  [Word (to_bytes "SELECT"); Sym "*"; Word (to_bytes "FROM"); Word (to_bytes b.(sql_table))] ++
  range_tokens b ++ after_tokens b more ++
  [Word (to_bytes "ORDER"); Word (to_bytes "BY"); Word (to_bytes b.(sql_keyColumn)); Word (to_bytes "LIMIT");
   ph_token b (if more then 4 else 3)].
Proof using Ht Hk.
  unfold export_text. cbv zeta. set (m := negb _). set (n := if m then 4 else 3).
  set (tail := to_bytes " ORDER BY " ++ _). assert (tail_ok tail) as Htail by done.
  assert (lex [] tail =
    [Word (to_bytes "ORDER"); Word (to_bytes "BY"); Word (to_bytes b.(sql_keyColumn)); Word (to_bytes "LIMIT"); ph_token b n]) as Hend.
  { unfold tail. simpl. rewrite (lex_one _ _ _ (name_word _ Hk)) by done. simpl. by rewrite (proj2 (ph_one b n)). }
  clearbody tail. rewrite (lex_range _ [Word (to_bytes "SELECT"); Sym "*"; Word (to_bytes "FROM")]); [|done|by destruct m].
  cbn [app]. do 4 f_equal. f_equal. destruct m; cbn [app after_tokens]; [|exact Hend].
  rewrite <- !app_assoc. simpl. rewrite (lex_one _ _ _ (name_word _ Hk)) by done. simpl.
  by rewrite (lex_one _ _ _ (ph_one b 3)), Hend.
Qed.

#[local] Arguments range_tokens : simpl never.
#[local] Arguments after_tokens : simpl never.

Lemma select_rows_ok more0 :
  select_statement ([Word (to_bytes "SELECT"); Sym "*"; Word (to_bytes "FROM"); Word (to_bytes b.(sql_table))] ++
    range_tokens b ++ after_tokens b more0 ++
    [Word (to_bytes "ORDER"); Word (to_bytes "BY"); Word (to_bytes b.(sql_keyColumn)); Word (to_bytes "LIMIT");
     ph_token b (if more0 then 4 else 3)], next_mark b 1) =
  Some (SelectRows (to_bytes b.(sql_table)) (range_conds b more0) (to_bytes b.(sql_keyColumn)) (if more0 then 4 else 3),
        ([], next_mark b (if more0 then 5 else 4))).
Proof using Ht Hk.
  unfold select_statement, rd_bind, rd_ret. read_tokens.
  rewrite where_ok by (right; eexists _, _; split; [reflexivity|by vm_compute]). read_tokens.
  rewrite arg_ok by (destruct more0; lia). by destruct more0.
Qed.

Lemma read_export after :
  read_statement (export_text b after) =
  let more := negb (bool_decide (after = "")) in
  Some (SelectRows (to_bytes b.(sql_table)) (range_conds b more) (to_bytes b.(sql_keyColumn)) (if more then 4 else 3)).
Proof using Ht Hk.
  unfold read_statement. rewrite lex_export. cbv zeta. set (m := negb _).
  pose proof (select_rows_ok m) as Hs. rewrite next_mark_one in Hs. by rewrite Hs.
Qed.

Lemma read_count : read_statement (count_text b) = Some (SelectCount (to_bytes b.(sql_table)) (range_conds b false)).
Proof using Ht Hk.
  unfold read_statement, count_text. rewrite <- (app_nil_r (range_text _ _)).
  rewrite (lex_range _ [Word (to_bytes "SELECT"); Word (to_bytes "COUNT"); Sym "("; Sym "*"; Sym ")"; Word (to_bytes "FROM")]) by done.
  change (lex [] []) with (@nil token). pose proof (where_ok false [] (or_introl eq_refl)) as Hw. rewrite next_mark_one in Hw. unfold after_tokens in Hw. cbn [app] in Hw.
  unfold select_statement, rd_bind, rd_ret. read_tokens. unfold sym at 1. read_tokens. by rewrite Hw.
Qed.

Lemma not_select w ts n : of_bytes (upper <$> w) ≠ "SELECT" → select_statement (Word w :: ts, n) = None.
Proof. intros H. unfold select_statement, rd_bind. by rewrite !kw_no. Qed.

Lemma read_delete : read_statement (delete_text b) = Some (DeleteRows (to_bytes b.(sql_table)) (range_conds b false)).
Proof using Ht Hk.
  unfold read_statement, delete_text. rewrite <- (app_nil_r (range_text _ _)).
  rewrite (lex_range _ [Word (to_bytes "DELETE"); Word (to_bytes "FROM")]) by done.
  change (lex [] []) with (@nil token). pose proof (where_ok false [] (or_introl eq_refl)) as Hw. rewrite next_mark_one in Hw. unfold after_tokens in Hw. cbn [app] in Hw.
  cbn [app]. rewrite not_select by (by vm_compute). unfold delete_statement, rd_bind, rd_ret. read_tokens. by rewrite Hw.
Qed.

(** ** Lists *)

Fixpoint separated (ts : list token) : list token :=
  match ts with [] => [] | [t] => [t] | t :: ts' => t :: Sym "," :: separated ts' end.

Lemma lex_join ps ts c s :
  Forall2 one_token ps ts → ps ≠ [] → word_char c = false →
  lex [] (join [","%char] ps ++ c :: s) = separated ts ++ lex [] (c :: s).
Proof.
  intros Hps Hne Hc. induction Hps as [|p t ps ts Hp Hps IH]; [done|]. destruct Hps as [|p' t' ps ts Hp' Hps].
  - simpl. by apply (lex_one _ _ (c :: s) Hp).
  - change (join [","%char] (p :: p' :: ps)) with (p ++ [","%char] ++ join [","%char] (p' :: ps)).
    rewrite <- !app_assoc. rewrite (lex_one _ _ _ Hp) by done. cbn [app]. 
    change (lex [] (","%char :: join [","%char] (p' :: ps) ++ c :: s)) with (Sym "," :: lex [] (join [","%char] (p' :: ps) ++ c :: s)).
    by rewrite IH.
Qed.

Fixpoint rest_tokens (ts : list token) : list token := match ts with [] => [] | t :: ts' => Sym "," :: t :: rest_tokens ts' end.
Lemma separated_cons t ts : separated (t :: ts) = t :: rest_tokens ts.
Proof. revert t. induction ts as [|t' ts IH]; intros t; [done|]. simpl in *. by rewrite <- IH. Qed.
Lemma rest_tokens_length ts : length ts ≤ length (rest_tokens ts).
Proof. induction ts; simpl; lia. Qed.

(** Items that are read one token each, the mark moving along. *)
Inductive reads {A} (item : reader A) : nat → list token → list A → nat → Prop :=
| reads_nil n : reads item n [] [] n
| reads_cons n t x n1 ts xs n2 :
    (∀ r, item (t :: r, n) = Some (x, (r, n1))) → reads item n1 ts xs n2 → reads item n (t :: ts) (x :: xs) n2.

Lemma more_reads {A} (item : reader A) fuel n toks xs n' ts :
  reads item n toks xs n' → length toks ≤ fuel → (∀ k, sym "," (ts, k) = None) →
  more fuel (sym ",") item (rest_tokens toks ++ ts, n) = Some (xs, (ts, n')).
Proof.
  intros Hr Hf Hstop. revert fuel Hf. induction Hr as [n|n t x n1 toks xs n2 Hx Hr IH]; intros fuel Hf; [by apply more_stop|].
  destruct fuel as [|fuel]; [simpl in Hf; lia|]. simpl in Hf. eapply more_step; [apply sym_ok|apply Hx|apply IH; lia].
Qed.

Lemma list_reads {A} (item : reader A) n toks xs n' ts :
  reads item n toks xs n' → toks ≠ [] → (∀ k, sym "," (ts, k) = None) →
  list_of (sym ",") item (separated toks ++ ts, n) = Some (xs, (ts, n')).
Proof.
  intros Hr Hne Hstop. destruct Hr as [|n t x n1 toks xs n2 Hx Hr]; [done|]. rewrite separated_cons.
  eapply list_of_ok; [apply Hx|]. eapply more_reads; [done| |done].
  simpl. rewrite length_app. pose proof (rest_tokens_length toks). lia.
Qed.

Lemma reads_names n cols : Forall (λ c, is_name c = true) cols → reads name n (Word <$> cols) cols n.
Proof. induction 1; simpl; econstructor; [|done]. intros r. by apply name_ok. Qed.

Lemma reads_args i k : 0 < i → reads arg (next_mark b i) (ph_token b <$> List.seq i k) (List.seq i k) (next_mark b (i + k)).
Proof.
  revert i. induction k as [|k IH]; intros i Hi; [rewrite Nat.add_0_r; constructor|]. simpl.
  econstructor; [intros r; by apply arg_ok|]. rewrite <- Nat.add_succ_comm. apply IH. lia.
Qed.

Lemma lex_insert (cols : list string) :
  cols ≠ [] → Forall (λ c, is_name (to_bytes c) = true) cols →
  lex [] (insert_text b cols) =
  [Word (to_bytes "INSERT"); Word (to_bytes "INTO"); Word (to_bytes b.(sql_table)); Sym "("] ++
  separated (Word <$> (to_bytes <$> cols)) ++ [Sym ")"; Word (to_bytes "VALUES"); Sym "("] ++
  separated (ph_token b <$> List.seq 1 (length cols)) ++
  [Sym ")"; Word (to_bytes "ON"); Word (to_bytes "CONFLICT"); Sym "("; Word (to_bytes b.(sql_keyColumn)); Sym ")";
   Word (to_bytes "DO"); Word (to_bytes "NOTHING")].
Proof using Ht Hk.
  intros Hne Hcols. unfold insert_text.
  assert (Forall2 one_token (to_bytes <$> cols) (Word <$> (to_bytes <$> cols))) as H1.
  { clear Hne. induction Hcols; constructor; [by apply name_word|done]. }
  assert (Forall2 one_token (ph b ∘ S <$> List.seq 0 (length cols)) (ph_token b <$> List.seq 1 (length cols))) as H2.
  { rewrite <- seq_shift. change (map S ?l) with (S <$> l). rewrite <- list_fmap_compose. clear.
    induction (List.seq 0 (length cols)); constructor; [apply ph_one|done]. }
  simpl. rewrite (lex_one _ _ _ (name_word _ Ht)) by done. simpl. do 4 f_equal.
  rewrite (lex_join _ _ _ _ H1) by (done || by destruct cols). f_equal. simpl. do 3 f_equal.
  rewrite (lex_join _ _ _ _ H2) by (done || by destruct cols). f_equal. simpl. do 4 f_equal.
  by rewrite (lex_one _ _ _ (name_word _ Hk)).
Qed.

Lemma read_insert (cols : list string) :
  cols ≠ [] → Forall (λ c, is_name (to_bytes c) = true) cols →
  read_statement (insert_text b cols) =
  Some (InsertRow (to_bytes b.(sql_table)) (to_bytes <$> cols) (List.seq 1 (length cols)) (to_bytes b.(sql_keyColumn))).
Proof using Ht Hk.
  intros Hne Hcols. unfold read_statement. rewrite lex_insert by done. cbn [app].
  rewrite not_select by (by vm_compute).
  assert (∀ ts n, delete_statement (Word (to_bytes "INSERT") :: ts, n) = None) as -> by done.
  unfold insert_statement, rd_bind, rd_ret. read_tokens.
  rewrite (list_reads name _ _ (to_bytes <$> cols) 1); [|by apply reads_names, Forall_fmap|by destruct cols|done]. read_tokens.
  pose proof (reads_args 1 (length cols) ltac:(lia)) as Ha. rewrite next_mark_one in Ha.
  rewrite (list_reads arg _ _ _ _ _ Ha); [|by destruct cols|done]. by read_tokens.
Qed.
End reading.

(** ** Execution *)

Section execution.
Context {V : Type} `{RowCodec V} (b : SQLShardBackend).
Implicit Types (t : table V).
Abbreviation key := (to_bytes b.(sql_keyColumn)).

Lemma key_text t k row : sql_ok b t → t.(tb_rows) !! k = Some row → column_text row key = Some k.
Proof. intros Hok Hr. unfold column_text. rewrite String.string_of_list_ascii_of_string. by apply Hok. Qed.

Lemma range_holds t s e rest k row :
  sql_ok b t → t.(tb_rows) !! k = Some row → all_hold (range_args s e ++ rest) (range_conds b false) row = within s e k.
Proof. intros Hok Hr. unfold all_hold, holds, within. simpl. rewrite (key_text _ _ _ Hok Hr). simpl. by rewrite andb_true_r. Qed.

Lemma export_holds t s e a limit k row :
  sql_ok b t → t.(tb_rows) !! k = Some row →
  all_hold (export_args s e a limit) (range_conds b (negb (bool_decide (a = "")))) row = selected s e a k.
Proof.
  intros Hok Hr. unfold all_hold, holds, selected, within, export_args, range_conds. case_bool_decide; simpl;
    rewrite (key_text _ _ _ Hok Hr); simpl; by rewrite ?andb_true_r, ?andb_assoc.
Qed.

Lemma elem_of_matching args conds t k row :
  (k, row) ∈ matching args conds t ↔ t.(tb_rows) !! k = Some row ∧ all_hold args conds row = true.
Proof. unfold matching. rewrite list_elem_of_filter, elem_of_map_to_list. simpl. tauto. Qed.

Lemma matching_sorted args conds t :
  sql_ok b t → StronglySorted key_lt (merge_sort (column_le key) (matching args conds t)).
Proof.
  intros Hok. apply sorted_strict.
  { rewrite merge_sort_Permutation. eapply sublist_NoDup; [apply (NoDup_fst_map_to_list t.(tb_rows))|].
    apply fmap_sublist, sublist_filter. }
  assert (StronglySorted (column_le key) (merge_sort (column_le key) (matching args conds t))) as Hs.
  { apply StronglySorted_merge_sort; [intros x y z; apply str_le_trans|intros x y; apply str_le_total]. }
  assert (∀ x, x ∈ merge_sort (column_le key) (matching args conds t) → column_text x.2 key = Some x.1) as Hall.
  { intros [k row]. rewrite merge_sort_Permutation, elem_of_matching. intros [Hr _]. by apply (key_text t). }
  induction Hs as [|x l _ IH Hx]; constructor; [apply IH; intros y Hy; apply Hall, elem_of_cons; by right|].
  rewrite Forall_forall in *. intros y Hy. specialize (Hx y Hy). unfold column_le, key_le in *.
  by rewrite !Hall in Hx by (apply elem_of_cons; auto).
Qed.

Lemma matching_export t s e a limit :
  sql_ok b t →
  merge_sort (column_le key) (matching (export_args s e a limit) (range_conds b (negb (bool_decide (a = "")))) t) =
  range_pairs s e a t.(tb_rows).
Proof.
  intros Hok. apply sorted_ext; [by apply matching_sorted|apply range_pairs_sorted|]. intros [k row].
  rewrite merge_sort_Permutation, elem_of_matching, elem_of_range_pairs.
  split; intros [Hr Hh]; (split; [done|]); by rewrite ?(export_holds t _ _ _ _ k) in * by done.
Qed.

Lemma matching_range t s e :
  sql_ok b t → length (matching (range_args s e) (range_conds b false) t) = size (restrict s e t.(tb_rows)).
Proof.
  intros Hok. rewrite <- length_map_to_list. apply Permutation_length.
  apply NoDup_Permutation; [apply NoDup_filter, NoDup_map_to_list|apply NoDup_map_to_list|]. intros [k row].
  unfold restrict. rewrite elem_of_matching, elem_of_map_to_list, map_lookup_filter_Some. simpl.
  pose proof (range_holds t s e [] k row Hok) as Hh. rewrite app_nil_r in Hh. naive_solver congruence.
Qed.

(** The columns and values of a document are the document again. *)
Lemma values_import (f : string → V) cols i :
  ∀ args, drop i args = (λ c, ArgVal (f c)) <$> cols → values args (List.seq (S i) (length cols)) = Some (f <$> cols).
Proof.
  revert i. induction cols as [|c cols IH]; intros i args Hd; [done|]. simpl.
  assert (args !! i = Some (ArgVal (f c))) as ->.
  { rewrite <- (Nat.add_0_r i), <- lookup_drop, Hd. done. }
  rewrite IH; [done|]. rewrite <- (Nat.add_1_r i), <- drop_drop, Hd. done.
Qed.

Lemma zip_import (fields : gmap string V) :
  list_to_map (zip (import_columns fields) ((λ c, default null (fields !! c)) <$> import_columns fields)) = fields.
Proof.
  assert (∀ c, c ∈ import_columns fields ↔ is_Some (fields !! c)) as Hin.
  { intros c. unfold import_columns. rewrite merge_sort_Permutation, list_elem_of_fmap. split.
    - intros ([c' v]&->&Hv%elem_of_map_to_list). by exists v.
    - intros [v Hv]. exists (c, v). by rewrite elem_of_map_to_list. }
  rewrite zip_with_fmap_r. rewrite zip_with_diag.
  apply map_eq. intros c. apply option_eq. intros v. rewrite <- elem_of_list_to_map.
  - rewrite list_elem_of_fmap. split.
    + intros (c'&[= <- Hv]&[w Hw]%Hin). by rewrite Hv, Hw.
    + intros Hv. exists c. rewrite Hv. split; [done|]. apply Hin. eauto.
  - rewrite <- list_fmap_compose. unfold compose. simpl. rewrite list_fmap_id. unfold import_columns. rewrite merge_sort_Permutation.
    apply NoDup_fst_map_to_list.
Qed.
End execution.

(** * Theorems *)

Section statements.
Context {V : Type} `{RowCodec V}.

Lemma open_names id driver tbl key open ping b :
  SqlBackend.Open id driver tbl key open ping = Ok b → is_reserved (to_bytes tbl) = false → is_reserved (to_bytes key) = false →
  is_name (to_bytes b.(sql_table)) = true ∧ is_name (to_bytes b.(sql_keyColumn)) = true.
Proof.
  unfold SqlBackend.Open, is_name, MatchString. intros Ho Ht Hk.
  destruct (match_bytes sqlIdentifier (to_bytes tbl)) eqn:E1; [|done].
  destruct (match_bytes sqlIdentifier (to_bytes key)) eqn:E2; [|done]. simpl in Ho.
  destruct open as [[]|]; [|done]. destruct ping as [[]|]; [|done]. simpl in Ho. injection Ho as <-. simpl.
  by rewrite E1, E2, Ht, Hk.
Qed.

Lemma insert_runs (b : SQLShardBackend) (fields : gmap string V) (t : table V) :
  run b (InsertRow (to_bytes b.(sql_table)) (to_bytes <$> import_columns fields) (List.seq 1 (length (import_columns fields)))
           (to_bytes b.(sql_keyColumn))) (import_args fields) t =
  try r := SqlBackend.insert_row b fields t in Ok (Applied, r.2).
Proof.
  unfold run, import_args. simpl. rewrite length_fmap.
  assert (∀ n k, foldr Nat.max k (List.seq 1 n) = Nat.max k n) as Hmax.
  { induction n as [|n IH]; intros k; [simpl; lia|]. rewrite seq_S, foldr_app, IH. simpl. lia. }
  rewrite Hmax, bool_decide_eq_true_2 by lia. simpl. rewrite decide_True by done.
  rewrite (values_import (λ c, default null (fields !! c)) _ 0) by done.
  rewrite decide_True by (by rewrite !length_fmap).
  assert (of_bytes <$> (to_bytes <$> import_columns fields) = import_columns fields) as ->; [|by rewrite zip_import].
  rewrite <- list_fmap_compose. transitivity (id <$> import_columns fields); [|apply list_fmap_id].
  apply list_fmap_ext. intros i c _. apply String.string_of_list_ascii_of_string.
Qed.

(** C25: The texts the SQL backend sends do what [SqlBackend] says its operations
    do, for either style of placeholder: for a backend that [OpenSQLShardBackend]
    accepted and whose table and key column are not words of the statements, over
    a table whose rows are stored under their keys, every text is read as one
    statement of the intended form with its arguments in the intended places, and
    its execution exports, counts and deletes exactly the rows of the range (past
    the checkpoint, in key order, up to the limit), and inserts a document with
    its values under its own columns unless the key is there. *)
Theorem statements_execute id driver tbl key open ping b (t : table V) :
  SqlBackend.Open id driver tbl key open ping = Ok b → is_reserved (to_bytes tbl) = false → is_reserved (to_bytes key) = false →
  sql_ok b t →
  (∀ start end_ after limit, (0 ≤ limit)%Z →
     run_text b (export_text b after) (export_args start end_ after limit) t =
     Ok (Rows (SqlBackend.select_rows start end_ after limit t), t)) ∧
  (∀ start end_, run_text b (count_text b) (range_args start end_) t =
     Ok (Count (Z.of_nat (size (restrict start end_ t.(tb_rows)))), t)) ∧
  (∀ start end_, run_text b (delete_text b) (range_args start end_) t =
     Ok (Applied, mkTable t.(tb_columns) (delete_range start end_ t.(tb_rows)))) ∧
  (∀ fields : gmap string V, fields ≠ ∅ →
     Forall (λ c, MatchString sqlIdentifier c = true ∧ is_reserved (to_bytes c) = false) (map_to_list fields).*1 →
     run_text b (insert_text b (import_columns fields)) (import_args fields) t =
     try r := SqlBackend.insert_row b fields t in Ok (Applied, r.2)).
Proof.
  intros Ho Htr Hkr Hok. destruct (open_names _ _ _ _ _ _ _ Ho Htr Hkr) as [Ht Hk]. unfold run_text. split_and!.
  - intros s e a limit Hl. rewrite read_export by done. cbv zeta. unfold run. cbv zeta.
    assert (length (export_args (V:=V) s e a limit) = if negb (bool_decide (a = "")) then 4 else 3) as Hlen
      by (unfold export_args; by case_bool_decide).
    rewrite bool_decide_eq_true_2 by (rewrite Hlen; by case_bool_decide). cbn [negb]. rewrite decide_True by done.
    assert (export_args (V:=V) s e a limit !! pred (if negb (bool_decide (a = "")) then 4 else 3) = Some (ArgInt limit)) as ->
      by (unfold export_args; by case_bool_decide).
    rewrite (proj2 (Z.ltb_ge _ _)) by lia. by rewrite matching_export.
  - intros s e. rewrite read_count by done. unfold run. simpl. rewrite decide_True by done. by rewrite matching_range.
  - intros s e. rewrite read_delete by done. unfold run. simpl. rewrite decide_True by done. do 3 f_equal.
    apply map_filter_ext. intros k row Hr. simpl. pose proof (range_holds b t s e [] k row Hok Hr) as Hh.
    rewrite app_nil_r in Hh. unfold all_hold, range_conds in Hh. simpl in Hh. by rewrite Hh.
  - intros fields Hne Hf. rewrite read_insert; [by rewrite insert_runs|done|done|..].
    + intros Hnil. apply Hne. apply map_to_list_empty_iff. apply (fmap_nil_inv fst). unfold import_columns in Hnil.
      apply Permutation_nil_r. by rewrite <- Hnil, merge_sort_Permutation.
    + unfold import_columns. rewrite merge_sort_Permutation. eapply Forall_impl; [done|]. intros c [Hm Hr]. simpl.
      unfold is_name. unfold MatchString in Hm. by rewrite Hm, Hr.
Qed.
End statements.

(** ** A closed instance *)

#[local] Instance ex_codec : RowCodec string := {|
  Sprint := λ v, v; as_text := λ v, v; null := ""; marshal_row _ := Ok []; unmarshal_row _ := Ok ∅ |}.

Definition ex_sql : SQLShardBackend := mkSQL "a" "pgx" "orders" "id".
Definition ex_orders : table string :=
  mkTable {["id"; "v"]} {["k1" := {["id" := "k1"; "v" := "x"]}; "k2" := {["id" := "k2"; "v" := "y"]}]}.

Lemma ex_orders_ok : sql_ok ex_sql ex_orders.
Proof.
  intros k row Hr. unfold ex_orders in Hr. simpl in Hr. split; [reflexivity|].
  apply lookup_insert_Some in Hr as [[<- <-]|[_ [<- <-]%lookup_singleton_Some]]; reflexivity.
Qed.

Lemma statements_execute_witness :
  run_text ex_sql (export_text ex_sql "k1") (export_args "k" "l" "k1" 10) ex_orders =
    Ok (Rows [{["id" := "k2"; "v" := "y"]}], ex_orders) ∧
  of_bytes (export_text ex_sql "k1") = "SELECT * FROM orders WHERE id >= $1 AND id < $2 AND id > $3 ORDER BY id LIMIT $4".
Proof.
  split; [|reflexivity].
  destruct (statements_execute "a" "pgx" "orders" "id" (Ok tt) (Ok tt) ex_sql ex_orders) as (He&_);
    [vm_compute; reflexivity|vm_compute; reflexivity|vm_compute; reflexivity|apply ex_orders_ok|].
  rewrite He; [vm_compute; reflexivity|lia].
Defined.

(** [sqlIdentifier] lets words of SQL itself through, which the statements do not
    quote: a document with a column [order] cannot be imported. *)
Lemma reserved_column :
  MatchString sqlIdentifier "order" = true ∧
  run_text ex_sql (insert_text ex_sql ["id"; "order"]) (ArgVal <$> ["k3"; "7"]) ex_orders = Err (ErrNew "syntax error").
Proof. split; vm_compute; reflexivity. Qed.
