(* ===== verification/ShardTheorems.v ===== *)
(** * Theorems on shard migrations

    The migration table follows the migration state machine; the copy of a range
    ends, and ends with equal ranges, even while clients write; cut-over,
    completion and rollback touch the stores they should. *)

From Stdlib Require Import ZArith Lia Ascii String Sorted.
From stdpp Require Import base list gmap sets strings sorting.
From S2P Require Import Prelude JsonText Db Shard ShardBackends.
Import MigrationSql ShardCoordinator.

(** * Lemmas *)

(** ** The migration state machine *)

(** The steps of a migration: [None] is a migration that does not exist. *)
Inductive edge : option MigrationState → MigrationState → Prop :=
| edge_create : edge None MigrationPlanned
| edge_dual_write : edge (Some MigrationPlanned) MigrationDualWrite
| edge_backfill : edge (Some MigrationDualWrite) MigrationBackfill
| edge_checkpoint : edge (Some MigrationBackfill) MigrationBackfill
| edge_verify : edge (Some MigrationBackfill) MigrationVerify
| edge_cutover : edge (Some MigrationVerify) MigrationCutover
| edge_complete : edge (Some MigrationCutover) MigrationComplete
| edge_rollback st :
    st ∈ [MigrationPlanned; MigrationDualWrite; MigrationBackfill; MigrationVerify] →
    edge (Some st) MigrationRolledBack.

(** Everything but state, checkpoint and time stamp. *)
Definition same_plan (m m' : ShardMigration) : Prop :=
  m'.(mg_ID) = m.(mg_ID) ∧ m'.(mg_Source) = m.(mg_Source) ∧ m'.(mg_Destination) = m.(mg_Destination) ∧
  m'.(mg_RangeStart) = m.(mg_RangeStart) ∧ m'.(mg_RangeEnd) = m.(mg_RangeEnd).

(** One change of the table: one migration takes one edge. *)
Definition mig_step (d d' : migrations) : Prop :=
  ∃ id m', edge (mg_State <$> d !! id) m'.(mg_State) ∧ d' = <[id := m']> d ∧
    match d !! id with
    | Some m => same_plan m m'
    | None => m'.(mg_ID) = id ∧ m'.(mg_Source) ≠ m'.(mg_Destination)
    end.

Lemma set_state_plan to cp ms m : same_plan m (set_state to cp ms m).
Proof. by split_and!. Qed.

Lemma update_state_step id from to cp ms d n d' :
  Forall (λ st, edge (Some st) to) from →
  update_state id from to cp ms d = Ok (n, d') →
  (n = 0%Z ∧ d' = d) ∨
  (n = 1%Z ∧ mig_step d d' ∧ ∃ m, d !! id = Some m ∧ m.(mg_State) ∈ from ∧ d' = <[id := set_state to cp ms m]> d).
Proof.
  unfold update_state. intros Hf H. destruct (d !! id) as [m|] eqn:Hm; [|left; naive_solver].
  case_bool_decide as Hs; simplify_eq; [|by left]. right. split_and!; [done| |by eauto].
  exists id, (set_state to cp ms m). rewrite Hm. simpl. split_and!; [|done|apply set_state_plan].
  rewrite Forall_forall in Hf. auto.
Qed.

Lemma update_checkpoint_step id cp ms d d' :
  update_checkpoint id cp ms d = Ok (tt, d') →
  d' = d ∨ (mig_step d d' ∧ ∃ m, d !! id = Some m ∧ m.(mg_State) = MigrationBackfill ∧
            d' = <[id := set_state MigrationBackfill cp ms m]> d).
Proof.
  unfold update_checkpoint. intros H. destruct (d !! id) as [m|] eqn:Hm; [|naive_solver].
  case_bool_decide as Hs; simplify_eq; [|by left]. right. split; [|by eauto].
  exists id, (set_state MigrationBackfill cp ms m). rewrite Hm. simpl. rewrite Hs.
  split_and!; [constructor|done|apply set_state_plan].
Qed.

Section coordinator.
Context {E : Type} (backends : gmap string (ShardBackend E)).
Implicit Types (s : state E).

(** Whatever fails, [m] takes the table along [R]. *)
Definition takes {A} (R : relation migrations) (m : io (state E) A) : Prop :=
  ∀ s, R s.(sc_db).(db) (m s).2.(sc_db).(db).

Section takes.
Context (R : relation migrations) `{!PreOrder R}.

Lemma takes_ret {A} (a : A) : takes R (io_ret a).
Proof. by intros s. Qed.
Lemma takes_bind {A B} (m : io (state E) A) (k : A → io (state E) B) :
  takes R m → (∀ a, takes R (k a)) → takes R (io_bind m k).
Proof.
  intros Hm Hk s. unfold io_bind. specialize (Hm s). destruct (m s) as [a s1]; simpl in *.
  etrans; [exact Hm|apply Hk].
Qed.
Lemma takes_db {A} (m : io (world migrations) A) : moves R m → takes R (on_db m).
Proof. intros Hm s. unfold on_db. specialize (Hm s.(sc_db)). by destruct (m _). Qed.
Lemma takes_backend {A} (m : io E A) : takes R (on_backend m).
Proof. intros s. unfold on_backend. by destruct (m _). Qed.
End takes.

End coordinator.

Ltac io_takes :=
  repeat match goal with
  | |- takes _ (io_ret _) => apply takes_ret; apply _
  | |- takes _ (lift _) => apply takes_ret; apply _
  | |- takes _ (io_bind _ _) => apply takes_bind; [try apply _| |intros ?]
  | |- takes _ (on_backend _) => apply takes_backend; apply _
  | |- takes _ (on_db (query _)) => apply takes_db, moves_query; apply _
  | |- takes _ (on_db (rows_affected _)) => apply takes_db, moves_rows; apply _
  | |- takes _ (match ?x with _ => _ end) => destruct x eqn:?
  end.

Section operations.
Context {E : Type} (backends : gmap string (ShardBackend E)).
Implicit Types (s : state E).

Lemma setState_takes id from to cp now :
  Forall (λ st, edge (Some st) to) from → takes (E:=E) (rtc mig_step) (setState id from to cp now).
Proof.
  intros Hf. unfold setState. io_takes. apply takes_db, moves_exec; [apply _|].
  intros d n d' H. destruct (update_state_step _ _ _ _ _ _ _ _ Hf H) as [[_ ->]|(_&Hs&_)]; [done|].
  by apply rtc_once.
Qed.

Lemma setState_edges :
  (Forall (λ st, edge (Some st) MigrationDualWrite) [MigrationPlanned]) ∧
  (Forall (λ st, edge (Some st) MigrationBackfill) [MigrationDualWrite]) ∧
  (Forall (λ st, edge (Some st) MigrationVerify) [MigrationBackfill]) ∧
  (Forall (λ st, edge (Some st) MigrationCutover) [MigrationVerify]) ∧
  (Forall (λ st, edge (Some st) MigrationComplete) [MigrationCutover]) ∧
  (Forall (λ st, edge (Some st) MigrationRolledBack)
     [MigrationPlanned; MigrationDualWrite; MigrationBackfill; MigrationVerify]).
Proof. split_and!; repeat constructor; set_solver. Qed.

(** The operations as calls. *)
Inductive call :=
| CCreate (m : ShardMigration) | CEnableDualWrite (id : string) | CBeginBackfill (id : string)
| CBackfillStep (id : string) (limit : Z) | CVerify (id : string)
| CComplete (id : string) (deleteSource : bool) | CRollback (id : string) | CTargets (key : string).

Definition run_call (s : state E) (c : call * Z) : state E :=
  let now := c.2 in
  match c.1 with
  | CCreate m => (Create backends m now s).2
  | CEnableDualWrite id => (EnableDualWrite id now s).2
  | CBeginBackfill id => (BeginBackfill id now s).2
  | CBackfillStep id limit => (BackfillStep backends id limit now s).2
  | CVerify id => (Verify backends id now s).2
  | CComplete id del => (Complete backends id del now s).2
  | CRollback id => (Rollback backends id now s).2
  | CTargets key => (TargetsForWrite key s).2
  end.

Lemma Create_takes m now : takes (rtc mig_step) (Create backends m now).
Proof.
  unfold Create. destruct (_ || _) eqn:Hg; [io_takes|]. io_takes.
  apply takes_db, moves_exec; [apply _|]. intros d [] d'. unfold insert_migration.
  destruct (d !! _) eqn:Hd; intros [= <-]. apply rtc_once. simpl in *.
  exists (mg_ID m), (set_state MigrationPlanned "" (UnixMilli now) m). rewrite Hd. bool_prop.
  split_and!; [constructor|done|done|done].
Qed.

Ltac ops_takes := repeat (io_takes; try (apply setState_takes, setState_edges)).

Lemma BackfillStep_takes id limit now : takes (rtc mig_step) (BackfillStep backends id limit now).
Proof.
  unfold BackfillStep, Get. ops_takes. apply takes_db, moves_exec; [apply _|].
  intros d [] d' [->|[H _]]%update_checkpoint_step; [done|]. by apply rtc_once.
Qed.

Lemma migration_call_steps s c : rtc mig_step s.(sc_db).(db) (run_call s c).(sc_db).(db).
Proof.
  destruct c as [[] now]; [apply Create_takes|..|].
  - apply (setState_takes _ _ _ _ _ (proj1 setState_edges)).
  - apply (setState_takes _ _ _ _ _ (proj1 (proj2 setState_edges))).
  - apply BackfillStep_takes.
  - enough (takes (rtc mig_step) (Verify backends id now)) as H by apply H.
    unfold Verify, Get. ops_takes.
  - enough (takes (rtc mig_step) (Complete backends id deleteSource now)) as H by apply H.
    unfold Complete, Get. ops_takes.
  - enough (takes (rtc mig_step) (Rollback backends id now)) as H by apply H.
    unfold Rollback, Get. ops_takes.
  - enough (takes (E:=E) (rtc mig_step) (TargetsForWrite key)) as H by apply H.
    unfold TargetsForWrite. ops_takes.
Qed.

Lemma migration_calls_steps s cs : rtc mig_step s.(sc_db).(db) (foldl run_call s cs).(sc_db).(db).
Proof.
  revert s. induction cs as [|c cs IH]; intros s; [done|]. simpl. etrans; [apply migration_call_steps|apply IH].
Qed.
End operations.

(** What a migration keeps along the steps. *)
Definition mig_later (m m' : ShardMigration) : Prop :=
  same_plan m m' ∧
  (m.(mg_State) ∈ [MigrationCutover; MigrationComplete] →
   m'.(mg_State) ∈ [MigrationCutover; MigrationComplete]) ∧
  (m.(mg_State) ∈ [MigrationComplete; MigrationRolledBack] → m' = m).

#[local] Instance mig_later_preorder : PreOrder mig_later.
Proof.
  split; [intros m; by split_and!|]. intros m1 m2 m3 (P1&C1&F1) (P2&C2&F2). unfold mig_later, same_plan in *.
  split_and!; [naive_solver congruence..| | ].
  - auto.
  - intros H. rewrite (F1 H) in F2. rewrite (F2 H). auto.
Qed.

Lemma mig_step_later d d' id m :
  mig_step d d' → d !! id = Some m → ∃ m', d' !! id = Some m' ∧ mig_later m m'.
Proof.
  intros (id'&m'&He&->&Hp) Hm. destruct (decide (id' = id)) as [->|Hne].
  - rewrite Hm in *. exists m'. rewrite lookup_insert_eq. split_and!; [done|]. unfold mig_later.
    simpl in He. split_and!; [done|..]; intros Hin; rewrite !elem_of_cons, elem_of_nil in Hin;
      destruct_or! Hin; try done; rewrite Hin in He; inversion He as [| | | | | | |st Hst]; subst;
      set_solver.
  - exists m. rewrite lookup_insert_ne by done. split; [done|apply reflexivity].
Qed.

Lemma mig_steps_later d d' id m :
  rtc mig_step d d' → d !! id = Some m → ∃ m', d' !! id = Some m' ∧ mig_later m m'.
Proof.
  intros Hs. revert m. induction Hs as [d|d1 d2 d3 H12 _ IH]; intros m Hm.
  - exists m. split; [done|apply reflexivity].
  - destruct (mig_step_later _ _ _ _ H12 Hm) as (m2&Hm2&L2). destruct (IH _ Hm2) as (m3&?&L3).
    exists m3. split; [done|]. by etrans.
Qed.

(** ** Write targets *)

Lemma targets_of_spec key m id :
  id ∈ targets_of key m ↔ within m.(mg_RangeStart) m.(mg_RangeEnd) key = true ∧
    ((id = m.(mg_Source) ∧ m.(mg_State) ∈ [MigrationPlanned; MigrationDualWrite; MigrationBackfill; MigrationVerify]) ∨
     (id = m.(mg_Destination) ∧
      m.(mg_State) ∈ [MigrationDualWrite; MigrationBackfill; MigrationVerify; MigrationCutover; MigrationComplete])).
Proof.
  unfold targets_of. destruct (bool_decide (str_lt _ _) || bool_decide (str_le _ _)) eqn:Hb.
  - rewrite within_iff. apply orb_true_iff in Hb. rewrite !bool_decide_eq_true in Hb. split; [set_solver|].
    intros [[H1 H2] _]. exfalso. destruct Hb as [Hb|Hb]; [by apply (str_lt_not_le _ _ Hb)|by apply (str_lt_not_le _ _ H2)].
  - bool_prop. assert (within m.(mg_RangeStart) m.(mg_RangeEnd) key = true) as Hw.
    { apply within_iff. split.
      - destruct (total str_le (mg_RangeStart m) key) as [?|[?| ->]%str_le_lt_or_eq]; done.
      - by apply str_nle_lt. }
    rewrite Hw. destruct (mg_State m); rewrite ?elem_of_union, ?elem_of_singleton, ?elem_of_empty; set_solver.
Qed.

Lemma TargetsForWrite_ok {E} key (s : state E) ts s' :
  TargetsForWrite key s = (Ok ts, s') →
  s'.(sc_db).(db) = s.(sc_db).(db) ∧ s'.(sc_ext) = s.(sc_ext) ∧ Sorted str_le ts ∧ NoDup ts ∧
  ∀ id, id ∈ ts ↔ ∃ mid m, s.(sc_db).(db) !! mid = Some m ∧ id ∈ targets_of key m.
Proof.
  unfold TargetsForWrite, on_db, io_bind, io_ret.
  destruct (query _ (sc_db s)) as [[rows|] w] eqn:Hq; [|done]. simpl. intros [= <- <-]. simpl.
  pose proof (query_db _ _ _ _ Hq) as Hd. apply query_ok in Hq as [= <-].
  split_and!; [done|done|apply Sorted_merge_sort, _|rewrite merge_sort_Permutation; apply NoDup_elements|].
  intros id. rewrite merge_sort_Permutation, elem_of_elements, elem_of_union_list. split.
  - intros (X&(m&->&Hm)%list_elem_of_fmap&Hid). unfold select_live in Hm.
    apply list_elem_of_filter in Hm as [_ ([mid m']&->&Hm)%list_elem_of_fmap].
    apply elem_of_map_to_list in Hm. eauto.
  - intros (mid&m&Hm&Hid). exists (targets_of key m). split; [|done]. apply list_elem_of_fmap_2.
    apply list_elem_of_filter. split.
    + intros Hr. apply targets_of_spec in Hid as [_ Hid]. rewrite Hr in Hid. set_solver.
    + apply list_elem_of_fmap. exists (mid, m). by rewrite elem_of_map_to_list.
Qed.

(** ** Operations on stores that answer *)

Section stores.
Context {E : Type} (backends : gmap string (ShardBackend E)) {laws : StoreLaws backends}.
Implicit Types (s : state E) (e : E).

Lemma Get_ok id s m s' :
  Get id s = (Ok m, s') →
  s.(sc_db).(db) !! id = Some m ∧ s'.(sc_db).(db) = s.(sc_db).(db) ∧ s'.(sc_ext) = s.(sc_ext).
Proof.
  unfold Get, on_db. destruct (query _ _) as [r w] eqn:Hq. intros [= -> <-]. simpl.
  pose proof (query_db _ _ _ _ Hq). apply query_ok in Hq. unfold select_migration in Hq.
  destruct (_ !! id); by simplify_eq.
Qed.

Lemma Get_clean id d e m : d !! id = Some m → Get id (mkCoordinator (World d []) e) = (Ok m, mkCoordinator (World d []) e).
Proof. intros Hm. unfold Get, on_db. simpl. rewrite query_clean. unfold select_migration. by rewrite Hm. Qed.

Lemma setState_clean id from to cp now d e m :
  d !! id = Some m →
  setState id from to cp now (mkCoordinator (World d []) e) =
  if bool_decide (m.(mg_State) ∈ from)
  then (Ok tt, mkCoordinator (World (<[id := set_state to cp (UnixMilli now) m]> d) []) e)
  else (Err (ErrNew "invalid migration transition"), mkCoordinator (World d []) e).
Proof.
  intros Hm. unfold setState, on_db, io_bind, io_ret. simpl. rewrite exec_clean. unfold update_state. rewrite Hm.
  by case_bool_decide.
Qed.

Lemma backend_ok id b : backends !! id = Some b → backend backends id = Ok b.
Proof. unfold backend. by intros ->. Qed.

(** A state in which the table has migration [id] in plan [m], without driver
    failures and with stores that answer. *)
Definition settled_at (id : string) (m : ShardMigration) (src dst : ShardBackend E) (s : state E) : Prop :=
  s.(sc_db).(faults) = [] ∧ s.(sc_db).(db) !! id = Some m ∧ m.(mg_Source) ≠ m.(mg_Destination) ∧
  backends !! m.(mg_Source) = Some src ∧ backends !! m.(mg_Destination) = Some dst ∧ ready s.(sc_ext).

(** What the stores of another backend hold is untouched. *)
Definition others_kept (id : string) e e' : Prop := ∀ id', id' ≠ id → docs id' e' = docs id' e.

Definition batch_limit (limit : Z) : Z := if (limit <=? 0)%Z then 500%Z else limit.

Lemma import_maybe id b e ds w :
  backends !! id = Some b → ready e → Forall (importable id) ds →
  ∃ e', (if (0 <? length ds)%nat then on_backend (Import b ds) else io_ret (Ok tt)) (mkCoordinator w e) =
      (Ok tt, mkCoordinator w e') ∧
    ready e' ∧ others_kept id e e' ∧ docs id e' = import_docs (keeps id) ds (docs id e).
Proof.
  intros Hb Hr Himp. destruct (import_spec _ _ _ _ Hb Hr Himp) as (e'&Hi&Hr'&Hd&Ho). destruct (0 <? _)%nat eqn:Hn.
  - exists e'. unfold on_backend. simpl. by rewrite Hi.
  - exists e. apply Nat.ltb_ge in Hn. destruct ds; [|simpl in Hn; lia]. split_and!; [done|done|by intros ??|done].
Qed.

Lemma BackfillStep_clean id limit now m src dst s :
  settled_at id m src dst s → m.(mg_State) = MigrationBackfill →
  let batch := batch_of m.(mg_RangeStart) m.(mg_RangeEnd) m.(mg_Checkpoint) (batch_limit limit)
                 (docs m.(mg_Source) s.(sc_ext)) in
  Forall (importable m.(mg_Destination)) batch.(Documents) →
  ∃ e', BackfillStep backends id limit now s =
    (Ok batch.(Done), mkCoordinator
       (World (<[id := set_state (if batch.(Done) then MigrationVerify else MigrationBackfill)
                        batch.(Next) (UnixMilli now) m]> s.(sc_db).(db)) []) e') ∧
    ready e' ∧ others_kept m.(mg_Destination) s.(sc_ext) e' ∧
    docs m.(mg_Destination) e' =
      import_docs (keeps m.(mg_Destination)) batch.(Documents) (docs m.(mg_Destination) s.(sc_ext)).
Proof.
  destruct s as [[d fs] e]. intros (Hf&Hm&Hne&Hsrc&Hdst&Hr) Hst batch Himp.
  assert (Hb : batch = batch_of m.(mg_RangeStart) m.(mg_RangeEnd) m.(mg_Checkpoint) (batch_limit limit)
    (docs m.(mg_Source) e)) by done.
  clearbody batch. simpl in *. subst fs.
  assert (0 < batch_limit limit)%Z as Hl by (unfold batch_limit; destruct (limit <=? 0)%Z eqn:?; lia).
  unfold BackfillStep. fold (batch_limit limit). unfold io_bind at 1. rewrite (Get_clean _ _ _ _ Hm).
  rewrite bool_decide_eq_false_2 by (intros H; by apply H). unfold lift, io_bind at 1 2, io_ret at 1 2.
  rewrite (backend_ok _ _ Hsrc), (backend_ok _ _ Hdst). unfold io_bind at 1, on_backend at 1. simpl.
  rewrite (export_spec _ _ _ _ _ _ _ Hsrc Hr Hl), <- Hb.
  destruct (import_maybe _ _ _ _ (World d []) Hdst Hr Himp) as (e'&Hi&Hr'&Ho&Hd).
  exists e'. split_and!; [|done|done|done]. unfold io_bind at 1. rewrite Hi.
  destruct (Done batch).
  - unfold io_bind. rewrite (setState_clean _ _ _ _ _ _ _ _ Hm), bool_decide_eq_true_2 by (rewrite Hst; set_solver). done.
  - unfold io_bind, on_db. simpl. rewrite exec_clean. unfold update_checkpoint. rewrite Hm, bool_decide_eq_true_2 by done.
    done.
Qed.

(** Running a backfill to its end. *)
Fixpoint backfill_run (id : string) (limit now : Z) (n : nat) : io (state E) (result bool) :=
  match n with
  | O => io_ret (Ok false)
  | S n => try finished <- BackfillStep backends id limit now;
           if (finished : bool) then io_ret (Ok true) else backfill_run id limit now n
  end.

Lemma settled_at_update id m src dst s m' e' :
  settled_at id m src dst s → same_plan m m' → ready e' →
  settled_at id m' src dst (mkCoordinator (World (<[id := m']> s.(sc_db).(db)) []) e').
Proof.
  intros (_&Hm&Hne&Hs&Hd&_) (_&Es&Ed&_) Hr. unfold settled_at. simpl. rewrite lookup_insert_eq, Es, Ed. done.
Qed.

Lemma backfill_loop id limit now n m src dst s :
  settled_at id m src dst s → m.(mg_State) = MigrationBackfill →
  let l := range_pairs m.(mg_RangeStart) m.(mg_RangeEnd) m.(mg_Checkpoint) (docs m.(mg_Source) s.(sc_ext)) in
  Forall (λ kv, kv.1 ≠ "" ∧ importable m.(mg_Destination) (mkDocument kv.1 kv.2)) l →
  (length l < n * Z.to_nat (batch_limit limit)) →
  ∃ m' s', backfill_run id limit now n s = (Ok true, s') ∧ settled_at id m' src dst s' ∧ same_plan m m' ∧
    m'.(mg_State) = MigrationVerify ∧ others_kept m.(mg_Destination) s.(sc_ext) s'.(sc_ext) ∧
    docs m.(mg_Destination) s'.(sc_ext) =
      import_docs (keeps m.(mg_Destination)) (as_docs l) (docs m.(mg_Destination) s.(sc_ext)).
Proof.
  revert m s. induction n as [|n IH]; intros m s Hs Hst l Hl Hn; [lia|].
  assert (0 < batch_limit limit)%Z as HL by (unfold batch_limit; destruct (limit <=? 0)%Z eqn:?; lia).
  set (L := Z.to_nat (batch_limit limit)) in *. assert (Z.of_nat L = batch_limit limit) as HLz by (unfold L; lia).
  destruct (BackfillStep_clean id limit now m src dst s Hs Hst) as (e'&Hb&Hr&Ho&Hd).
  { unfold batch_of. simpl. fold l L. apply Forall_fmap. eapply Forall_impl; [by apply Forall_take|]. by intros kv [_ ?]. }
  cbn [backfill_run]. unfold io_bind at 1. rewrite Hb. clear Hb. unfold batch_of in *. cbn [Done Next Documents] in *.
  fold l L in Hd |- *. fold (as_docs (take L l)) in Hd.
  destruct (_ <? batch_limit limit)%Z eqn:Hdone.
  - assert (take L l = l) as Ht.
    { apply take_ge. rewrite length_take in Hdone. apply Z.ltb_lt in Hdone. rewrite <- HLz in Hdone. clear -Hdone. lia. }
    eexists _, _. split; [done|]. split_and!; [by apply (settled_at_update id m)|done|done|done|].
    simpl. by rewrite Hd, Ht.
  - rewrite length_take in Hdone. apply Z.ltb_ge in Hdone. rewrite <- HLz in Hdone.
    assert (L ≤ length l) as HLl by (clear -Hdone; lia).
    destruct (last (take L l)) as [x|] eqn:Hx.
    2:{ apply last_None in Hx. apply (f_equal length) in Hx. rewrite length_take in Hx. simpl in Hx. lia. }
    cbn [fmap option_fmap option_map default].
    assert (x.1 ≠ "") as Hxn.
    { assert (x ∈ l) as Hin.
      { apply last_Some in Hx as [l' Hl']. rewrite <- (take_drop L l), Hl'. set_solver. }
      rewrite Forall_forall in Hl. by apply Hl in Hin as [? _]. }
    pose proof (range_pairs_after _ _ _ _ _ _ Hx Hxn) as Hafter. fold l in Hafter.
    set (m1 := set_state MigrationBackfill x.1 (UnixMilli now) m).
    assert (docs m.(mg_Source) e' = docs m.(mg_Source) s.(sc_ext)) as Hsrc by (apply Ho, Hs).
    destruct (IH m1 (mkCoordinator (World (<[id := m1]> s.(sc_db).(db)) []) e')) as (m'&s'&Hrun&Hset&Hp&Hv&Ho2&Hd2).
    + by apply (settled_at_update id m).
    + done.
    + simpl. rewrite Hsrc, Hafter. by apply Forall_drop.
    + simpl. rewrite Hsrc, Hafter, length_drop. lia.
    + simpl in *. rewrite Hsrc, Hafter, Hd in Hd2. exists m', s'. split_and!; [done|done| |done| |].
      * unfold same_plan in *. naive_solver.
      * intros id' Hid'. rewrite Ho2 by done. by apply Ho.
      * rewrite Hd2. unfold import_docs, as_docs. rewrite <- foldl_app, <- fmap_app, take_drop. done.
Qed.
End stores.

(** ** Backfill beside writing clients

    [BackfillStep] in two halves, so that a client can write between the export
    and the import of a batch. *)

Section online.
Context {E : Type} (backends : gmap string (ShardBackend E)) {laws : StoreLaws backends}.
Implicit Types (s : state E) (e : E).

Definition backfill_export (id : string) (limit : Z) : io (state E) (result (ShardBackend E * ShardBatch)) :=
  try m <- Get id;
  if bool_decide (m.(mg_State) ≠ MigrationBackfill)
  then io_ret (Err (ErrNew "migration is not in backfill"))
  else
    try src <- lift (backend backends m.(mg_Source));
    try dst <- lift (backend backends m.(mg_Destination));
    try batch <- on_backend (ExportRange src m.(mg_RangeStart) m.(mg_RangeEnd) m.(mg_Checkpoint) (batch_limit limit));
    io_ret (Ok (dst, batch)).

Definition backfill_finish (id : string) (now : Z) (x : ShardBackend E * ShardBatch) : io (state E) (result bool) :=
  let (dst, batch) := x in
  try _ <- (if (0 <? length batch.(Documents))%nat
            then on_backend (Import dst batch.(Documents)) else io_ret (Ok tt));
  if batch.(Done) then
    try _ <- setState id [MigrationBackfill] MigrationVerify batch.(Next) now;
    io_ret (Ok true)
  else
    try _ <- on_db (exec (update_checkpoint id batch.(Next) (UnixMilli now)));
    io_ret (Ok false).

Lemma BackfillStep_halves id limit now s :
  BackfillStep backends id limit now s =
  (try x <- backfill_export id limit; backfill_finish id now x) s.
Proof.
  unfold BackfillStep, backfill_export. fold (batch_limit limit). unfold lift, io_bind, io_ret.
  destruct (Get id s) as [[m|] s1]; [|done]. case_bool_decide; [done|].
  destruct (backend _ (mg_Source m)); [|done]. destruct (backend _ (mg_Destination m)); [|done].
  destruct (on_backend _ s1) as [[batch|] s2]; done.
Qed.

(** What a client's write of [v] ([None] is a deletion) under key [k] to the
    backends [ts] does. *)
Definition wrote (ts : list string) (k : string) (v : option data) (dst : string) e e' : Prop :=
  ready e' ∧ (∀ x, v = Some x → importable dst (mkDocument k x)) ∧
  ∀ id, docs id e' = if decide (id ∈ ts) then partial_alter (λ _, v) k (docs id e) else docs id e.

(** The coordinator's state and the batch on its way. *)
Abbreviation config := (state E * option (ShardBackend E * ShardBatch))%type.

(** One step of migration [id] towards [dst]: half a backfill step, with any
    outcome, or a write to the targets the coordinator names.  While a batch is
    on its way, only a put to a destination that keeps what it has is allowed. *)
Inductive online (id dst : string) : relation config :=
| online_export limit s s' r :
    backfill_export id limit s = (r, s') →
    online id dst (s, None) (s', match r with Ok x => Some x | Err _ => None end)
| online_finish now x s s' r :
    backfill_finish id now x s = (r, s') → online id dst (s, Some x) (s', None)
| online_write k v ts s s' p e' :
    TargetsForWrite k s = (Ok ts, s') → wrote ts k v dst s.(sc_ext) e' →
    p = None ∨ (keeps dst = true ∧ is_Some v) →
    online id dst (s, p) (mkCoordinator s'.(sc_db) e', p).

(** The frontier of a migration: the keys whose documents have been copied. *)
Definition copied (m : ShardMigration) (k : string) : Prop :=
  m.(mg_State) = MigrationVerify ∨ (m.(mg_Checkpoint) ≠ "" ∧ str_le k m.(mg_Checkpoint)).

(** The documents of [kvs], exported earlier, can be imported now. *)
Definition in_flight (m : ShardMigration) (kvs : list (string * data)) (b : ShardBatch) (src dst : gmap string data) : Prop :=
  m.(mg_State) = MigrationBackfill ∧ b.(Documents) = as_docs kvs ∧
  Forall (importable m.(mg_Destination)) b.(Documents) ∧
  ∀ k, within m.(mg_RangeStart) m.(mg_RangeEnd) k = true →
    (∀ v, (k, v) ∈ kvs → src !! k = Some v ∨ (keeps m.(mg_Destination) = true ∧ is_Some (dst !! k))) ∧
    (b.(Done) = true ∨ (b.(Next) ≠ "" ∧ str_le k b.(Next)) →
     (∃ v, (k, v) ∈ kvs) ∨ dst !! k = src !! k).

Definition online_inv (id : string) (m0 : ShardMigration) (c : config) : Prop :=
  ∃ m bsrc bdst, let src := docs m.(mg_Source) c.1.(sc_ext) in let dst := docs m.(mg_Destination) c.1.(sc_ext) in
    c.1.(sc_db).(db) !! id = Some m ∧ same_plan m0 m ∧
    (m.(mg_State) = MigrationBackfill ∨ m.(mg_State) = MigrationVerify) ∧
    m.(mg_Source) ≠ m.(mg_Destination) ∧ backends !! m.(mg_Source) = Some bsrc ∧
    backends !! m.(mg_Destination) = Some bdst ∧ ready c.1.(sc_ext) ∧
    (∀ k, within m.(mg_RangeStart) m.(mg_RangeEnd) k = true →
       (∀ v, src !! k = Some v → importable m.(mg_Destination) (mkDocument k v)) ∧
       (dst !! k = None ∨ dst !! k = src !! k) ∧ (copied m k → dst !! k = src !! k)) ∧
    match c.2 with
    | None => True
    | Some (b, batch) => b = bdst ∧ ∃ kvs, in_flight m kvs batch src dst
    end.

Lemma Get_ext id s r s' : Get id s = (r, s') → s'.(sc_db).(db) = s.(sc_db).(db) ∧ s'.(sc_ext) = s.(sc_ext).
Proof.
  unfold Get, on_db. destruct (query _ _) as [r' w] eqn:Hq. intros [= -> <-]. simpl.
  by rewrite (query_db _ _ _ _ Hq).
Qed.

Lemma online_inv_transfer id m0 s s' :
  s'.(sc_db).(db) = s.(sc_db).(db) → s'.(sc_ext) = s.(sc_ext) →
  online_inv id m0 (s, None) → online_inv id m0 (s', None).
Proof. unfold online_inv. simpl. by intros -> ->. Qed.

Lemma export_preserves id m0 limit s s' r :
  online_inv id m0 (s, None) → backfill_export id limit s = (r, s') →
  online_inv id m0 (s', match r with Ok x => Some x | Err _ => None end).
Proof.
  intros HI. unfold backfill_export, io_bind at 1. destruct (Get id s) as [[m|e] s1] eqn:HG.
  2:{ intros [= <- <-]. apply Get_ext in HG as []. by apply (online_inv_transfer _ _ s). }
  pose proof (Get_ext _ _ _ _ HG) as [Hdb Hext]. apply Get_ok in HG as (Hm&_&_).
  apply (online_inv_transfer _ _ s s1 Hdb Hext) in HI. rewrite <- Hdb in Hm. clear Hdb Hext.
  case_bool_decide as Hst; [intros [= <- <-]; done|].
  destruct HI as (m'&bsrc&bdst&Hm'&Hp&Hs&Hne&Hsrc&Hdst&Hr&Hk&_). cbn [fst] in *.
  rewrite Hm in Hm'. injection Hm' as <-. unfold lift, io_bind, io_ret.
  rewrite (backend_ok _ _ _ Hsrc), (backend_ok _ _ _ Hdst). unfold on_backend.
  assert (0 < batch_limit limit)%Z as HL by (unfold batch_limit; destruct (limit <=? 0)%Z eqn:?; lia).
  rewrite (export_spec _ _ _ _ _ _ _ Hsrc Hr HL). intros [= <- <-].
  exists m, bsrc, bdst. cbn [fst snd sc_db sc_ext]. split_and!; try done.
  eexists. split_and!; [done|reflexivity|..].
  - cbn [Documents batch_of]. unfold as_docs. apply Forall_fmap, Forall_take, Forall_forall. intros [k v] Hin.
    apply elem_of_range_pairs in Hin as [Hv [Hw _]%selected_iff]. by apply (Hk k).
  - intros k Hw. destruct (Hk k Hw) as (_&Ha&Hc). split.
    + intros v Hin%elem_of_take_in. left. by apply elem_of_range_pairs in Hin as [? _].
    + cbn [Done Next batch_of]. intros Hfr. destruct (docs (mg_Source m) (sc_ext s1) !! k) as [v|] eqn:Hv.
      * destruct (range_pairs_upto _ _ m.(mg_Checkpoint) _ (Z.to_nat (batch_limit limit)) k v Hv Hw) as [?|[??]].
        -- destruct Hfr as [Hfr|[??]]; [left; lia|by right].
        -- left. by exists v.
        -- right. apply Hc. right. by split.
      * right. by destruct Ha.
Qed.

(** What a state change does to the table, whatever fails. *)
Lemma setState_db id from to cp now s r s' :
  setState id from to cp now s = (r, s') →
  s'.(sc_ext) = s.(sc_ext) ∧
  (s'.(sc_db).(db) = s.(sc_db).(db) ∨
   ∃ m, s.(sc_db).(db) !! id = Some m ∧ m.(mg_State) ∈ from ∧
     s'.(sc_db).(db) = <[id := set_state to cp (UnixMilli now) m]> s.(sc_db).(db)).
Proof.
  unfold setState, on_db, io_bind, io_ret. destruct (exec _ _) as [q w] eqn:Hx.
  pose proof (exec_db _ _ _ _ Hx) as Hd.
  assert (w.(db) = s.(sc_db).(db) ∨ ∃ m, s.(sc_db).(db) !! id = Some m ∧ m.(mg_State) ∈ from ∧
    w.(db) = <[id := set_state to cp (UnixMilli now) m]> s.(sc_db).(db)) as Hd'.
  { destruct Hd as [?|[n Hn]]; [by left|]. unfold update_state in Hn.
    destruct (_ !! id) as [m|] eqn:Hm; [|left; congruence].
    case_bool_decide; [right; exists m; split_and!; congruence|left; congruence]. }
  destruct q as [n|].
  - cbn [sc_db sc_ext]. destruct (rows_affected n w) as [q' w'] eqn:Hr. apply rows_affected_db in Hr.
    intros [_ <-]%pair_equal_spec. simpl. by rewrite Hr.
  - by intros [= <- <-].
Qed.

(** The second half of a step: the import, then at most one change of the table. *)
Lemma finish_outcome id now b batch w e m e' s' r :
  w.(db) !! id = Some m →
  (if (0 <? length batch.(Documents))%nat then on_backend (Import b batch.(Documents)) else io_ret (Ok tt))
    (mkCoordinator w e) = (Ok tt, mkCoordinator w e') →
  backfill_finish id now (b, batch) (mkCoordinator w e) = (r, s') →
  ∃ m' w', s' = mkCoordinator w' e' ∧ w'.(db) !! id = Some m' ∧ same_plan m m' ∧
    (m' = m ∨ (m'.(mg_State) = MigrationVerify ∧ batch.(Done) = true) ∨
     (m'.(mg_State) = MigrationBackfill ∧ m'.(mg_Checkpoint) = batch.(Next))).
Proof.
  intros Hm Hi. unfold backfill_finish, io_bind at 1. rewrite Hi.
  assert (∀ w' to cp ms, w'.(db) = w.(db) ∨ (∃ m1, w.(db) !! id = Some m1 ∧ w'.(db) = <[id := set_state to cp ms m1]> w.(db)) →
    ∃ m', w'.(db) !! id = Some m' ∧ same_plan m m' ∧ (m' = m ∨ m'.(mg_State) = to ∧ m'.(mg_Checkpoint) = cp)) as Hw.
  { intros w' to cp ms [->|(m1&Hm1&->)].
    - exists m. split_and!; [done|by split_and!|by left].
    - assert (m1 = m) as -> by congruence. exists (set_state to cp ms m). rewrite lookup_insert_eq.
      split_and!; [done|apply set_state_plan|by right]. }
  destruct (Done batch) eqn:HD; unfold io_bind.
  - destruct (setState _ _ _ _ _ _) as [q [w2 e2]] eqn:Hset. intros Hs2.
    assert (s' = mkCoordinator w2 e2) as -> by (destruct q; unfold io_ret in Hs2; congruence).
    apply setState_db in Hset as [Hext Hdb]. cbn [sc_ext sc_db] in *. subst e2.
    destruct (Hw w2 MigrationVerify batch.(Next) (UnixMilli now)) as (m'&?&?&?); [naive_solver|].
    exists m', w2. split_and!; try done. naive_solver.
  - unfold on_db. destruct (exec _ _) as [q w2] eqn:Hx. intros Hs2.
    assert (s' = mkCoordinator w2 e') as -> by (destruct q; simpl in Hs2; unfold io_ret in Hs2; congruence).
    destruct (Hw w2 MigrationBackfill batch.(Next) (UnixMilli now)) as (m'&?&?&?).
    { apply exec_db in Hx as [Hdb|[[] Hx]]; cbn [sc_db] in *; [by left|].
      apply update_checkpoint_step in Hx as [Hdb|(_&m'&Hm'&_&Hdb)]; [by left|right; eauto]. }
    exists m', w2. split_and!; try done. naive_solver.
Qed.

Lemma finish_preserves id m0 now x s s' r :
  online_inv id m0 (s, Some x) → backfill_finish id now x s = (r, s') → online_inv id m0 (s', None).
Proof.
  destruct x as [b batch], s as [w e].
  intros (m&bsrc&bdst&Hm&Hp&_&Hne&Hsrc&Hdst&Hr&Hk&->&kvs&Hbf&Hdocs&Himp&Hfl) Hfin. cbn [fst snd sc_db sc_ext] in *.
  destruct (import_maybe backends _ _ _ _ w Hdst Hr Himp) as (e'&Hi&Hr'&Ho&Hd).
  destruct (finish_outcome _ _ _ _ _ _ _ _ _ _ Hm Hi Hfin) as (m'&w'&->&Hm'&(E1&E2&E3&E4&E5)&Hcase).
  exists m', bsrc, bdst. cbn [fst snd sc_db sc_ext]. rewrite E2, E3, E4, E5.
  split_and!; try done; [unfold same_plan in *; naive_solver congruence|naive_solver|].
  intros k Hw. rewrite (Ho _ Hne), Hd, Hdocs. destruct (Hk k Hw) as (Himpk&Ha&Hc). destruct (Hfl k Hw) as (P1&P2).
  destruct (import_agree (keeps m.(mg_Destination)) kvs _ _ k Ha P1) as [I1 I2].
  split_and!; [done|done|]. intros Hcp. apply I2. unfold copied in *.
  destruct Hcase as [->|[[? ?]|[Hs Hn]]]; [right; auto|auto|]. rewrite Hs, Hn in Hcp. destruct Hcp; [done|auto].
Qed.

Lemma write_preserves id m0 k0 v ts s s' p e' :
  online_inv id m0 (s, p) → TargetsForWrite k0 s = (Ok ts, s') → wrote ts k0 v m0.(mg_Destination) s.(sc_ext) e' →
  p = None ∨ (keeps m0.(mg_Destination) = true ∧ is_Some v) →
  online_inv id m0 (mkCoordinator s'.(sc_db) e', p).
Proof.
  intros (m&bsrc&bdst&Hm&Hp&Hst&Hne&Hsrc&Hdst&Hr&Hk&Hfl) Ht (Hr'&Himp&Hw) Hpv. cbn [fst snd] in *.
  apply TargetsForWrite_ok in Ht as (Hdb&_&_&_&Hts).
  assert (mg_Destination m = mg_Destination m0) as Hd0 by apply Hp. rewrite <- Hd0 in *.
  assert (∀ k, within m.(mg_RangeStart) m.(mg_RangeEnd) k = true → ∀ b, b = m.(mg_Source) ∨ b = m.(mg_Destination) →
    docs b e' !! k = if decide (k = k0) then v else docs b s.(sc_ext) !! k) as Hlook.
  { intros k Hwk b Hb. rewrite Hw. destruct (decide (k = k0)) as [->|Hn].
    - rewrite decide_True; [by rewrite lookup_partial_alter_eq|]. apply Hts. exists id, m. split; [done|].
      apply targets_of_spec. split; [done|]. destruct Hst as [-> | ->]; set_solver.
    - case_decide; [|done]. by rewrite lookup_partial_alter_ne. }
  exists m, bsrc, bdst. cbn [fst snd sc_db sc_ext]. rewrite Hdb. split_and!; try done.
  - intros k Hwk. rewrite !(Hlook k Hwk) by auto. destruct (decide (k = k0)) as [->|Hn]; [|by apply Hk].
    split_and!; [done|by right|done].
  - destruct p as [[b batch]|]; [|done]. destruct Hpv as [?|[Hkeep Hv]]; [done|].
    destruct Hfl as (->&kvs&Hb&Hdocs&Hi&Hf). split; [done|]. exists kvs. split_and!; [done..|].
    intros k Hwk. rewrite !(Hlook k Hwk) by auto. destruct (decide (k = k0)) as [->|Hn]; [|by apply Hf].
    split; [intros; by right|intros; by right].
Qed.
End online.

(** * Theorems *)

(** C23: The migration table follows the state machine whatever calls are made, in
    any order and with any driver failures: every change takes one migration
    along one edge (planned, dual write, backfill, verify, cut-over, complete, or
    rolled back before cut-over), its plan never changes, a migration that was
    cut over is never rolled back, and one that is complete or rolled back never
    changes again. *)
Theorem migration_lifecycle {E} backends (cs : list (call * Z)) (s : state E) :
  let d := s.(sc_db).(db) in
  let d' := (foldl (run_call backends) s cs).(sc_db).(db) in
  rtc mig_step d d' ∧ ∀ id m, d !! id = Some m → ∃ m', d' !! id = Some m' ∧ mig_later m m'.
Proof.
  split; [apply migration_calls_steps|]. intros id m Hm. eapply mig_steps_later; [apply migration_calls_steps|done].
Qed.

(** C24: A backfill of a quiet range ends: when the stores answer, nobody else
    writes, and the range of the source has no empty key and only documents the
    destination takes, one step more than the number of full batches reaches the
    verify state.  Then the destination holds a document for every key of the
    range: in SQL the one it had before, if any, else the source's; in MongoDB the
    source's.  Its other documents, also those of the range that the source does
    not hold, are untouched, and so is every other store. *)
Theorem backfill_completes {E} (backends : gmap string (ShardBackend E)) {laws : StoreLaws backends}
    id limit now m src dst s :
  settled_at backends id m src dst s → m.(mg_State) = MigrationBackfill → m.(mg_Checkpoint) = "" →
  let range := restrict m.(mg_RangeStart) m.(mg_RangeEnd) (docs m.(mg_Source) s.(sc_ext)) in
  (∀ k v, range !! k = Some v → k ≠ "" ∧ importable m.(mg_Destination) (mkDocument k v)) →
  ∃ m' s', backfill_run backends id limit now (S (size range / Z.to_nat (batch_limit limit))) s = (Ok true, s') ∧
    s'.(sc_db).(db) !! id = Some m' ∧ m'.(mg_State) = MigrationVerify ∧ same_plan m m' ∧
    (∀ id', id' ≠ m.(mg_Destination) → docs id' s'.(sc_ext) = docs id' s.(sc_ext)) ∧
    ∀ k, let old := docs m.(mg_Destination) s.(sc_ext) !! k in
      docs m.(mg_Destination) s'.(sc_ext) !! k =
      match range !! k with
      | Some v => Some (if keeps m.(mg_Destination) then default v old else v)
      | None => old
      end.
Proof.
  intros Hs Hst Hcp range Himp.
  assert (∀ k v, (k, v) ∈ range_pairs m.(mg_RangeStart) m.(mg_RangeEnd) "" (docs m.(mg_Source) s.(sc_ext)) ↔
    range !! k = Some v) as Hr by (intros k v; by rewrite range_pairs_all, elem_of_map_to_list).
  assert (0 < batch_limit limit)%Z as HL by (unfold batch_limit; destruct (limit <=? 0)%Z eqn:?; lia).
  set (L := Z.to_nat (batch_limit limit)). assert (0 < L) as HL' by (unfold L; lia).
  destruct (backfill_loop backends id limit now (S (size range / L)) m src dst s Hs Hst) as (m'&s'&Hrun&Hset&Hp&Hv&Ho&Hd).
  - rewrite Hcp. apply Forall_forall. intros [k v] Hin. apply Himp. by apply Hr.
  - rewrite Hcp, range_pairs_all, length_map_to_list. fold range L. pose proof (Nat.mul_succ_div_gt (size range) L). lia.
  - exists m', s'. split_and!; [done|apply Hset|done|done|done|]. intros k. simpl. rewrite Hd, Hcp.
    rewrite import_lookup, range_pairs_lookup; [done|]. rewrite range_pairs_all. apply NoDup_fst_map_to_list.
Qed.

(** C13: A migration is correct while clients write: starting from a backfill
    whose destination holds nothing of the range that the source does not hold
    as well, after any interleaving of halves of backfill steps (with any driver
    failures in the coordinator's database, over stores that answer) and of client
    writes to the targets [TargetsForWrite] names, once the migration reaches the
    verify state both stores hold the same documents in the range.  While no batch
    is between its export and its import, clients may put and delete; in between
    they may only put, and only if the destination keeps what it has (SQL), see
    [mongo_stale_copy_verified] for the other case. *)
Theorem online_backfill {E} (backends : gmap string (ShardBackend E)) {laws : StoreLaws backends}
    id m bsrc bdst s c m' :
  s.(sc_db).(db) !! id = Some m → m.(mg_State) = MigrationBackfill → m.(mg_Checkpoint) = "" →
  m.(mg_Source) ≠ m.(mg_Destination) → backends !! m.(mg_Source) = Some bsrc →
  backends !! m.(mg_Destination) = Some bdst → ready s.(sc_ext) →
  (∀ k, within m.(mg_RangeStart) m.(mg_RangeEnd) k = true →
     (∀ v, docs m.(mg_Source) s.(sc_ext) !! k = Some v → importable m.(mg_Destination) (mkDocument k v)) ∧
     (docs m.(mg_Destination) s.(sc_ext) !! k = None ∨
      docs m.(mg_Destination) s.(sc_ext) !! k = docs m.(mg_Source) s.(sc_ext) !! k)) →
  rtc (online backends id m.(mg_Destination)) (s, None) c →
  c.1.(sc_db).(db) !! id = Some m' → m'.(mg_State) = MigrationVerify →
  restrict m.(mg_RangeStart) m.(mg_RangeEnd) (docs m.(mg_Destination) c.1.(sc_ext)) =
  restrict m.(mg_RangeStart) m.(mg_RangeEnd) (docs m.(mg_Source) c.1.(sc_ext)).
Proof.
  intros Hm Hst Hcp Hne Hsrc Hdst Hr Hk Hrun Hm' Hv.
  assert (online_inv backends id m c) as HI.
  { assert (online_inv backends id m (s, None)) as H0.
    { exists m, bsrc, bdst. cbn [fst snd]. split_and!; try done; [by left|]. intros k Hw.
      destruct (Hk k Hw) as [? ?]. split_and!; [done|done|]. intros [?|[? _]]; congruence. }
    remember (s, None) as c0 eqn:E0. clear E0. induction Hrun as [c|c1 c2 c3 H12 _ IH]; [done|]. apply IH; [done..|].
    destruct H12; [by eapply export_preserves|by eapply finish_preserves|by eapply write_preserves]. }
  destruct HI as (m2&b1&b2&Hm2&(_&E2&E3&E4&E5)&_&_&_&_&_&Hk2&_).
  assert (m2 = m') as -> by congruence. rewrite E2, E3, E4, E5 in Hk2. apply map_eq. intros k. unfold restrict.
  rewrite !map_lookup_filter. destruct (within (mg_RangeStart m) (mg_RangeEnd m) k) eqn:Hw.
  - destruct (Hk2 k Hw) as (_&_&->); [done|by left].
  - destruct (docs _ _ !! k), (docs _ _ !! k); simpl; rewrite ?option_guard_False; simpl; try done; by rewrite Hw.
Qed.

(** [TargetsForWrite] names exactly the backends that must see a write: sorted,
    without repetition, the source of every migration of the key up to
    verification, and its destination from dual write on. *)
Theorem targets_exact {E} key (s : state E) :
  s.(sc_db).(faults) = [] →
  ∃ ts, TargetsForWrite key s = (Ok ts, s) ∧ Sorted str_le ts ∧ NoDup ts ∧
    ∀ id, id ∈ ts ↔ ∃ mid m, s.(sc_db).(db) !! mid = Some m ∧
      within m.(mg_RangeStart) m.(mg_RangeEnd) key = true ∧
      ((id = m.(mg_Source) ∧
        m.(mg_State) ∈ [MigrationPlanned; MigrationDualWrite; MigrationBackfill; MigrationVerify]) ∨
       (id = m.(mg_Destination) ∧
        m.(mg_State) ∈ [MigrationDualWrite; MigrationBackfill; MigrationVerify; MigrationCutover; MigrationComplete])).
Proof.
  destruct s as [[d fs] e]. simpl. intros ->. destruct (TargetsForWrite key _) as [r s'] eqn:Ht.
  assert (∃ ts, r = Ok ts ∧ s' = mkCoordinator (World d []) e) as (ts&->&->).
  { unfold TargetsForWrite, on_db, io_bind, io_ret in Ht. cbn [sc_db] in Ht. rewrite query_clean in Ht. injection Ht as <- <-. eauto. }
  exists ts. apply TargetsForWrite_ok in Ht as (_&_&?&?&Hid). split_and!; [done..|]. intros id. rewrite Hid. simpl.
  by setoid_rewrite targets_of_spec.
Qed.

Section outcomes.
Context {E : Type} (backends : gmap string (ShardBackend E)) {laws : StoreLaws backends}.

Lemma deleting id b e s t w :
  backends !! id = Some b → ready e →
  ∃ e', on_backend (DeleteRange b s t) (mkCoordinator w e) = (Ok tt, mkCoordinator w e') ∧
    docs id e' = delete_range s t (docs id e) ∧ others_kept backends id e e'.
Proof.
  intros Hb Hr. destruct (delete_spec _ _ _ s t Hb Hr) as (e'&Hd&_&?&?). exists e'. unfold on_backend. simpl. by rewrite Hd.
Qed.

Lemma Rollback_run id now m src dst s :
  settled_at backends id m src dst s → m.(mg_State) ∉ [MigrationCutover; MigrationComplete] →
  ∃ e', docs m.(mg_Destination) e' =
      delete_range m.(mg_RangeStart) m.(mg_RangeEnd) (docs m.(mg_Destination) s.(sc_ext)) ∧
    others_kept backends m.(mg_Destination) s.(sc_ext) e' ∧
    Rollback backends id now s =
      setState id [MigrationPlanned; MigrationDualWrite; MigrationBackfill; MigrationVerify]
        MigrationRolledBack m.(mg_Checkpoint) now (mkCoordinator s.(sc_db) e').
Proof.
  destruct s as [[d fs] e]. intros (Hf&Hm&Hne&Hsrc&Hdst&Hr) Hst. simpl in *. subst fs.
  destruct (deleting _ _ _ m.(mg_RangeStart) m.(mg_RangeEnd) (World d []) Hdst Hr) as (e'&Hdel&Hd&Ho).
  exists e'. split_and!; [done|done|]. unfold Rollback, io_bind at 1. rewrite (Get_clean _ _ _ _ Hm).
  rewrite !bool_decide_eq_false_2 by (intros Heq; apply Hst; rewrite Heq; set_solver). simpl.
  unfold lift, io_bind, io_ret. by rewrite (backend_ok _ _ _ Hdst), Hdel.
Qed.

(** Before cut-over a migration can be rolled back: the range of the
    destination is emptied, nothing else in any store changes, and the migration
    is rolled back; after cut-over it is refused and nothing changes. *)
Theorem rollback_exact id now m src dst s :
  settled_at backends id m src dst s → m.(mg_State) ≠ MigrationRolledBack →
  let '(r, s') := Rollback backends id now s in
  if bool_decide (m.(mg_State) ∈ [MigrationCutover; MigrationComplete])
  then r = Err (ErrNew "cannot rollback after cutover") ∧ s' = s
  else r = Ok tt ∧ mg_State <$> s'.(sc_db).(db) !! id = Some MigrationRolledBack ∧
    docs m.(mg_Destination) s'.(sc_ext) =
      delete_range m.(mg_RangeStart) m.(mg_RangeEnd) (docs m.(mg_Destination) s.(sc_ext)) ∧
    ∀ id', id' ≠ m.(mg_Destination) → docs id' s'.(sc_ext) = docs id' s.(sc_ext).
Proof.
  intros Hs Hn. case_bool_decide as Hc.
  - destruct s as [[d fs] e]. destruct Hs as (Hf&Hm&_). simpl in *. subst fs.
    unfold Rollback, io_bind at 1. rewrite (Get_clean _ _ _ _ Hm).
    assert (bool_decide (m.(mg_State) = MigrationCutover) || bool_decide (m.(mg_State) = MigrationComplete) = true) as ->
      by (apply orb_true_iff; rewrite !bool_decide_eq_true; set_solver). done.
  - destruct (Rollback_run id now _ _ _ _ Hs Hc) as (e'&Hd&Ho&->). destruct s as [[d fs] e].
    destruct Hs as (Hf&Hm&_). simpl in *. subst fs. rewrite (setState_clean _ _ _ _ _ _ _ _ Hm).
    rewrite bool_decide_eq_true_2 by (destruct (mg_State m); set_solver). simpl. rewrite lookup_insert_eq. done.
Qed.

(** A second rollback destroys data: called on a migration that is rolled back
    already, [Rollback] reports an invalid transition, but only after it has
    deleted the range of the destination, whatever it holds by now. *)
Theorem rollback_again_deletes id now m src dst s :
  settled_at backends id m src dst s → m.(mg_State) = MigrationRolledBack →
  let '(r, s') := Rollback backends id now s in
  r = Err (ErrNew "invalid migration transition") ∧ s'.(sc_db) = s.(sc_db) ∧
  docs m.(mg_Destination) s'.(sc_ext) =
    delete_range m.(mg_RangeStart) m.(mg_RangeEnd) (docs m.(mg_Destination) s.(sc_ext)).
Proof.
  intros Hs Hst. destruct (Rollback_run id now _ _ _ _ Hs) as (e'&Hd&Ho&->); [rewrite Hst; set_solver|].
  destruct s as [[d fs] e]. destruct Hs as (Hf&Hm&_). simpl in *. subst fs.
  rewrite (setState_clean _ _ _ _ _ _ _ _ Hm), Hst. done.
Qed.

(** [Verify] cuts over exactly when both ranges have the same number of
    documents, without touching a store; if the destination has every key of the
    source range, as after a backfill, success means that it has no other key.
    Otherwise nothing changes. *)
Theorem verify_exact id now m src dst s :
  settled_at backends id m src dst s → m.(mg_State) = MigrationVerify →
  let rsrc := restrict m.(mg_RangeStart) m.(mg_RangeEnd) (docs m.(mg_Source) s.(sc_ext)) in
  let rdst := restrict m.(mg_RangeStart) m.(mg_RangeEnd) (docs m.(mg_Destination) s.(sc_ext)) in
  let '(r, s') := Verify backends id now s in
  if bool_decide (size rsrc = size rdst)
  then r = Ok tt ∧ mg_State <$> s'.(sc_db).(db) !! id = Some MigrationCutover ∧ s'.(sc_ext) = s.(sc_ext) ∧
    (dom rsrc ⊆ dom rdst → dom rsrc = dom rdst)
  else is_ok r = false ∧ s' = s.
Proof.
  destruct s as [[d fs] e]. intros (Hf&Hm&Hne&Hsrc&Hdst&Hr) Hst rsrc rdst. simpl in *. subst fs.
  unfold Verify, io_bind at 1. rewrite (Get_clean _ _ _ _ Hm).
  rewrite bool_decide_eq_false_2 by (intros H; by apply H). unfold lift, io_bind, io_ret.
  rewrite (backend_ok _ _ _ Hsrc), (backend_ok _ _ _ Hdst). unfold on_backend. cbn [sc_ext sc_db].
  rewrite (count_spec _ _ _ _ _ Hsrc Hr). cbn [sc_ext sc_db]. rewrite (count_spec _ _ _ _ _ Hdst Hr). cbn [sc_ext sc_db].
  fold rsrc rdst. case_bool_decide as Hz; case_bool_decide as Hn; try lia; [done|].
  rewrite (setState_clean _ _ _ _ _ _ _ _ Hm), bool_decide_eq_true_2 by (rewrite Hst; set_solver).
  simpl. rewrite lookup_insert_eq. split_and!; [done|done|done|]. intros Hsub.
  apply leibniz_equiv. apply set_subseteq_size_equiv; [done|]. rewrite !size_dom. lia.
Qed.

(** [Complete] after cut-over succeeds, deletes the range of the source if asked
    to, and touches nothing else in any store; in any other state it fails and
    nothing changes. *)
Theorem complete_exact id now m src dst s deleteSource :
  settled_at backends id m src dst s →
  let '(r, s') := Complete backends id deleteSource now s in
  if bool_decide (m.(mg_State) = MigrationCutover)
  then r = Ok tt ∧ mg_State <$> s'.(sc_db).(db) !! id = Some MigrationComplete ∧
    docs m.(mg_Source) s'.(sc_ext) =
      (if deleteSource : bool then delete_range m.(mg_RangeStart) m.(mg_RangeEnd) (docs m.(mg_Source) s.(sc_ext))
       else docs m.(mg_Source) s.(sc_ext)) ∧
    ∀ id', id' ≠ m.(mg_Source) → docs id' s'.(sc_ext) = docs id' s.(sc_ext)
  else is_ok r = false ∧ s' = s.
Proof.
  destruct s as [[d fs] e]. intros (Hf&Hm&Hne&Hsrc&Hdst&Hr). simpl in *. subst fs.
  unfold Complete, io_bind at 1. rewrite (Get_clean _ _ _ _ Hm).
  case_bool_decide as Hn; [by rewrite bool_decide_eq_false_2|]. rewrite bool_decide_eq_true_2 by done.
  destruct (deleting _ _ _ m.(mg_RangeStart) m.(mg_RangeEnd) (World d []) Hsrc Hr) as (e'&Hdel&Hd&Ho).
  unfold io_bind at 1. destruct deleteSource.
  - unfold lift, io_bind, io_ret. rewrite (backend_ok _ _ _ Hsrc), Hdel.
    rewrite (setState_clean _ _ _ _ _ _ _ _ Hm), bool_decide_eq_true_2 by set_solver.
    simpl. rewrite lookup_insert_eq. done.
  - unfold io_ret. rewrite (setState_clean _ _ _ _ _ _ _ _ Hm), bool_decide_eq_true_2 by set_solver.
    simpl. rewrite lookup_insert_eq. done.
Qed.
End outcomes.

(** * Closed instances *)

(** Rows of strings, as JSON objects. *)
#[local] Instance ex_rows : RowCodec string := {|
  Sprint := λ v, v; as_text := λ v, v; null := "";
  marshal_row row := Ok (object (merge_sort key_le (map_to_list (quote <$> row))));
  unmarshal_row raw :=
    if starts_with "{"%char raw
    then Ok (list_to_map ((λ '(k, v), (unquote (literal_body k), unquote (literal_body v))) <$> members raw))
    else Err type_error;
|}.

(** Documents with a key, which is the [_id] as well, and a value. *)
#[local] Instance ex_documents : DocCodec (string * string) := {|
  key_field doc := Some doc.1;
  doc_id doc := Some doc.1;
  with_id i doc := (i, doc.2);
  generate_id c := "";
  MarshalExtJSON doc := Ok (object [("k", quote doc.1); ("v", quote doc.2)]);
  UnmarshalExtJSON raw :=
    match members raw with
    | [(_, k); (_, v)] => Ok (unquote (literal_body k), unquote (literal_body v))
    | _ => Err type_error
    end;
|}.

#[local] Instance ex_ids : KeyIds := {| id_of k := k |}.

Definition ex_row (k v : string) : gmap string string := {["k" := k; "v" := v]}.
Definition ex_table (kvs : list (string * string)) : world (table string) :=
  World (mkTable {["k"; "v"]} (list_to_map ((λ kv, (kv.1, ex_row kv.1 kv.2)) <$> kvs))) [].
Definition ex_cfg : gmap string shard_config :=
  {["a" := ConfigSQL "sqlite" "t" "k" {["k"; "v"]}; "b" := ConfigSQL "sqlite" "t" "k" {["k"; "v"]}; "m" := ConfigMongo "k"]}.
Abbreviation ex_stores := (gmap string (store string (string * string))).
Definition ex_ext : ex_stores :=
  {["a" := SQLStore (ex_table [("k1", "v1"); ("k2", "v2"); ("x", "y")]); "b" := SQLStore (ex_table []);
    "m" := MongoStore (World [] [])]}.
Definition ex_backends : gmap string (ShardBackend ex_stores) := registry_of ex_cfg.
Definition ex_mig (dst : string) (st : MigrationState) : ShardMigration :=
  mkMigration "mig" "a" dst "k" "l" st "" 0.
Definition ex_at (st : MigrationState) : state ex_stores :=
  mkCoordinator (World {["mig" := ex_mig "b" st]} []) ex_ext.

Lemma ex_sql_ok id kvs : sql_ok (mkSQL id "sqlite" "t" "k") (ex_table kvs).(db).
Proof.
  intros k row. simpl. intros Hr%elem_of_list_to_map_2. apply list_elem_of_fmap in Hr as ([k' v]&[= -> ->]&_).
  split; [done|]. unfold ex_row. by rewrite lookup_fmap, lookup_insert_eq.
Qed.

Lemma ex_ready : stores_ready ex_cfg ex_ext.
Proof.
  intros id c Hc. unfold ex_cfg in Hc. repeat (apply lookup_insert_Some in Hc as [[<- <-]|[? Hc]]);
    [exists (ex_table [("k1", "v1"); ("k2", "v2"); ("x", "y")]).(db)|exists (ex_table []).(db)|].
  - split_and!; [reflexivity|apply ex_sql_ok|reflexivity].
  - split_and!; [reflexivity|apply ex_sql_ok|reflexivity].
  - apply lookup_singleton_Some in Hc as [<- <-]. exists []. split; [reflexivity|]. split; constructor.
Qed.

Lemma ex_settled st :
  settled_at ex_backends "mig" (ex_mig "b" st) (make_backend "a" (ConfigSQL "sqlite" "t" "k" {["k"; "v"]}))
    (make_backend "b" (ConfigSQL "sqlite" "t" "k" {["k"; "v"]})) (ex_at st).
Proof. split_and!; [done|done|done|reflexivity|reflexivity|exact ex_ready]. Qed.

Definition ex_text (k v : string) : data := object [("k", quote k); ("v", quote v)].

Lemma ex_range :
  restrict "k" "l" (docs (StoreLaws:=registry_laws ex_cfg) "a" ex_ext) =
  {["k1" := ex_text "k1" "v1"; "k2" := ex_text "k2" "v2"]}.
Proof. vm_compute. reflexivity. Qed.

Lemma ex_importable k v :
  restrict "k" "l" (docs (StoreLaws:=registry_laws ex_cfg) "a" ex_ext) !! k = Some v →
  k ≠ "" ∧ sql_importable (mkSQL "b" "sqlite" "t" "k") {["k"; "v"]} (mkDocument k v).
Proof.
  rewrite ex_range. intros [[<- <-]|[? [<- <-]%lookup_singleton_Some]]%lookup_insert_Some;
    (split; [done|]); [exists (ex_row "k1" "v1")|exists (ex_row "k2" "v2")];
    split_and!; first [vm_compute; reflexivity | by vm_compute; repeat constructor].
Qed.

(** The stores after a client has put a new value under [k1] in both. *)
Definition ex_put : ex_stores :=
  {["a" := SQLStore (ex_table [("k1", "w1"); ("k2", "v2"); ("x", "y")]); "b" := SQLStore (ex_table [("k1", "w1")]);
    "m" := MongoStore (World [] [])]}.

Lemma ex_put_ready : stores_ready ex_cfg ex_put.
Proof.
  intros id c Hc. unfold ex_cfg in Hc. repeat (apply lookup_insert_Some in Hc as [[<- <-]|[? Hc]]);
    [exists (ex_table [("k1", "w1"); ("k2", "v2"); ("x", "y")]).(db)|exists (ex_table [("k1", "w1")]).(db)|].
  - split_and!; [reflexivity|apply ex_sql_ok|reflexivity].
  - split_and!; [reflexivity|apply ex_sql_ok|reflexivity].
  - apply lookup_singleton_Some in Hc as [<- <-]. exists []. split; [reflexivity|]. split; constructor.
Qed.

Lemma ex_wrote : wrote (laws:=registry_laws ex_cfg) ex_backends ["a"; "b"] "k1" (Some (ex_text "k1" "w1")) "b" ex_ext ex_put.
Proof.
  split_and!; [exact ex_put_ready|..].
  - intros x [= <-]. exists (ex_row "k1" "w1").
    split_and!; first [vm_compute; reflexivity | by vm_compute; repeat constructor].
  - intros id. destruct (decide (id = "a")) as [->|Ha]; [vm_compute; reflexivity|].
    destruct (decide (id = "b")) as [->|Hb]; [vm_compute; reflexivity|].
    rewrite decide_False by set_solver. simpl. unfold store_docs, ex_put, ex_ext.
    by rewrite !lookup_insert_ne by done.
Qed.

(** Export of the whole range, a put to an exported key, then the import. *)
Definition ex_batch : ShardBackend ex_stores * ShardBatch :=
  (make_backend "b" (ConfigSQL "sqlite" "t" "k" {["k"; "v"]}),
   mkBatch [mkDocument "k1" (ex_text "k1" "v1"); mkDocument "k2" (ex_text "k2" "v2")] "k2" true).
Definition ex_written : state ex_stores := mkCoordinator (ex_at MigrationBackfill).(sc_db) ex_put.
Definition ex_finished : state ex_stores := (backfill_finish "mig" 0 ex_batch ex_written).2.

Lemma ex_export :
  backfill_export ex_backends "mig" 500 (ex_at MigrationBackfill) = (Ok ex_batch, ex_at MigrationBackfill).
Proof.
  destruct (ex_settled MigrationBackfill) as (_&Hm&_&Hsrc&Hdst&Hr). unfold ex_at in Hm |- *.
  unfold backfill_export, io_bind at 1. rewrite (Get_clean _ _ _ _ Hm). cbn [bool_decide].
  rewrite bool_decide_eq_false_2 by (intros H; by apply H). unfold lift, io_bind, io_ret.
  rewrite (backend_ok _ _ _ Hsrc), (backend_ok _ _ _ Hdst). unfold on_backend. cbn [sc_ext sc_db].
  rewrite (export_spec _ _ _ _ _ _ _ Hsrc Hr) by done. unfold ex_batch. by do 4 f_equal.
Qed.

Lemma ex_online :
  rtc (online (laws:=registry_laws ex_cfg) ex_backends "mig" "b") (ex_at MigrationBackfill, None) (ex_finished, None).
Proof.
  eapply rtc_l.
  { apply (online_export (laws:=registry_laws ex_cfg) ex_backends "mig" "b" 500 _ (ex_at MigrationBackfill) (Ok ex_batch)).
    exact ex_export. }
  eapply rtc_l.
  { eapply (online_write (laws:=registry_laws ex_cfg) ex_backends "mig" "b" "k1" _ ["a"; "b"] _ (ex_at MigrationBackfill));
      [vm_compute; reflexivity|exact ex_wrote|right; by split]. }
  eapply rtc_l; [|apply rtc_refl]. eapply online_finish. unfold ex_finished. apply surjective_pairing.
Qed.

Lemma backfill_completes_witness :
  ∃ s', backfill_run ex_backends "mig" 1 0 3 (ex_at MigrationBackfill) = (Ok true, s').
Proof.
  destruct (backfill_completes (laws:=registry_laws ex_cfg) ex_backends "mig" 1 0 _ _ _ _ (ex_settled MigrationBackfill)
    eq_refl eq_refl ex_importable) as (m'&s'&H&_). exists s'. exact H.
Defined.

Lemma online_backfill_witness :
  restrict "k" "l" (docs (StoreLaws:=registry_laws ex_cfg) "b" ex_finished.(sc_ext)) =
  restrict "k" "l" (docs (StoreLaws:=registry_laws ex_cfg) "a" ex_finished.(sc_ext)).
Proof.
  apply (online_backfill (laws:=registry_laws ex_cfg) ex_backends "mig" (ex_mig "b" MigrationBackfill)
    (make_backend "a" (ConfigSQL "sqlite" "t" "k" {["k"; "v"]})) (make_backend "b" (ConfigSQL "sqlite" "t" "k" {["k"; "v"]}))
    (ex_at MigrationBackfill) (ex_finished, None)
    (mkMigration "mig" "a" "b" "k" "l" MigrationVerify "k2" 0)); try done.
  - exact ex_ready.
  - intros k Hw. split; [|by left]. intros v Hv. apply ex_importable. unfold restrict. by apply map_lookup_filter_Some.
  - exact ex_online.
Defined.

Lemma targets_exact_witness : ∃ ts, TargetsForWrite "k1" (ex_at MigrationVerify) = (Ok ts, ex_at MigrationVerify).
Proof. destruct (targets_exact "k1" (ex_at MigrationVerify) eq_refl) as (ts&H&_). exists ts. exact H. Defined.

Lemma rollback_exact_witness : (Rollback ex_backends "mig" 0 (ex_at MigrationVerify)).1 = Ok tt.
Proof.
  exact (proj1 (rollback_exact (laws:=registry_laws ex_cfg) ex_backends "mig" 0 _ _ _ _ (ex_settled MigrationVerify)
    ltac:(discriminate))).
Defined.

Lemma rollback_again_deletes_witness :
  (Rollback ex_backends "mig" 0 (ex_at MigrationRolledBack)).1 = Err (ErrNew "invalid migration transition").
Proof.
  exact (proj1 (rollback_again_deletes (laws:=registry_laws ex_cfg) ex_backends "mig" 0 _ _ _ _
    (ex_settled MigrationRolledBack) eq_refl)).
Defined.

Lemma verify_exact_witness : is_ok (Verify ex_backends "mig" 0 (ex_at MigrationVerify)).1 = false.
Proof.
  exact (proj1 (verify_exact (laws:=registry_laws ex_cfg) ex_backends "mig" 0 _ _ _ _ (ex_settled MigrationVerify) eq_refl)).
Defined.

Lemma complete_exact_witness : (Complete ex_backends "mig" true 0 (ex_at MigrationCutover)).1 = Ok tt.
Proof.
  exact (proj1 (complete_exact (laws:=registry_laws ex_cfg) ex_backends "mig" 0 _ _ _ _ true (ex_settled MigrationCutover))).
Defined.

(** A MongoDB destination can be cut over with stale data: when a client writes
    a document to both stores between the export and the import of its batch,
    the import replaces the new document by the old one, and [Verify], which
    compares counts only, succeeds. *)
Theorem mongo_stale_copy_verified :
  let s0 := mkCoordinator (World {["mig" := ex_mig "m" MigrationBackfill]} []) ex_ext in
  let written : ex_stores := <["m" := MongoStore (World [("k1", "w1")] [])]> ex_put in
  match backfill_export ex_backends "mig" 500 s0 with
  | (Ok x, s1) =>
      let s2 := (backfill_finish "mig" 0 x (mkCoordinator s1.(sc_db) written)).2 in
      let '(r, s3) := Verify ex_backends "mig" 0 s2 in
      r = Ok tt ∧ mg_State <$> s3.(sc_db).(db) !! "mig" = Some MigrationCutover ∧
      store_docs "a" s3.(sc_ext) !! "k1" = Some (ex_text "k1" "w1") ∧
      store_docs "m" s3.(sc_ext) !! "k1" = Some (ex_text "k1" "v1")
  | _ => False
  end.
Proof. vm_compute. done. Qed.

(** A completed migration keeps its destination as a write target for ever:
    after the range has moved from [a] to [b] and on from [b] to [m], writes
    still go to [b]. *)
Theorem targets_keep_old_destination :
  (TargetsForWrite "k1" (mkCoordinator
     (World {["one" := mkMigration "one" "a" "b" "k" "l" MigrationComplete "" 0;
              "two" := mkMigration "two" "b" "m" "k" "l" MigrationComplete "" 0]} []) ex_ext)).1 = Ok ["b"; "m"].
Proof. vm_compute. reflexivity. Qed.
