(* ===== verification/Startup.v ===== *)
(** * Opening the databases: OpenControlStore, migrate, NewShardCoordinator

    The schema script runs statement by statement, each committed on its own, and
    can stop anywhere.  A database file is the tables that exist in it; the store
    that is opened on it has the tables the script leaves.  The life of a store is
    a step relation over files and open stores: openings that fail or succeed,
    calls, closing and crashing. *)

From Stdlib Require Import ZArith Lia Ascii String Sorted.
From stdpp Require Import base list gmap sets strings relations.
From S2P Require Import Prelude GoRegexp JsonScan JsonText Sha256 Model Json Db Store StoreSteps StoreTheorems Shard.

(** ** Files and connections *)

(** The tables of a database file; [None] is a table that does not exist. *)
Record db_file := mkFile {
  fl_events : option (gmap string event_row);
  fl_events_claim_idx : bool;
  fl_settlements : option (gmap string settlement_row);
  fl_delivery_history : option (list history_row);
  fl_outbox : option (list outbox_row * Z);
  fl_shard_migrations : option (gmap string ShardMigration);
  fl_wal : bool;
}.

Definition empty_file : db_file := mkFile None false None None None None false.

(** The settings of the one connection ([SetMaxOpenConns(1)]); SQLite starts with
    [synchronous=FULL] and foreign keys off. *)
Record connection := mkConnection { cn_synchronous_full : bool; cn_foreign_keys : bool }.
Definition new_connection : connection := mkConnection true false.

(** ** The script *)

Inductive ddl :=
| PragmaWAL | PragmaSynchronousFull | PragmaForeignKeys
| CreateEvents | CreateEventsIndex | CreateSettlements | CreateHistory | CreateOutbox
| CreateShardMigrations.

(** [CREATE TABLE IF NOT EXISTS]: an existing table is left as it is. *)
Definition create {A} (new : A) (t : option A) : option A := Some (default new t).

Definition exec_ddl (s : ddl) (st : db_file * connection) : db_file * connection :=
  let '(f, c) := st in
  let '(mkFile ev ix se hi ou sh wal) := f in
  match s with
  | PragmaWAL => (mkFile ev ix se hi ou sh true, c)
  | PragmaSynchronousFull => (f, mkConnection true c.(cn_foreign_keys))
  | PragmaForeignKeys => (f, mkConnection c.(cn_synchronous_full) true)
  | CreateEvents => (mkFile (create ∅ ev) ix se hi ou sh wal, c)
  | CreateEventsIndex => (mkFile ev true se hi ou sh wal, c)
  | CreateSettlements => (mkFile ev ix (create ∅ se) hi ou sh wal, c)
  | CreateHistory => (mkFile ev ix se (create [] hi) ou sh wal, c)
  | CreateOutbox => (mkFile ev ix se hi (create ([], 0%Z) ou) sh wal, c)
  | CreateShardMigrations => (mkFile ev ix se hi ou (create ∅ sh) wal, c)
  end.

(** A script of several statements in one [ExecContext]; [stop] is where the
    driver failed, with its error. *)
Definition exec_script (script : list ddl) (stop : option (nat * error)) : io (db_file * connection) (result ()) := λ st,
  match stop with
  | None => (Ok tt, foldl (λ st s, exec_ddl s st) st script)
  | Some (n, e) => (Err e, foldl (λ st s, exec_ddl s st) st (take n script))
  end.

Definition migrate_script : list ddl :=
  [PragmaWAL; PragmaSynchronousFull; PragmaForeignKeys; CreateEvents; CreateEventsIndex; CreateSettlements;
   CreateHistory; CreateOutbox].
Definition migrate (stop : option (nat * error)) : io (db_file * connection) (result ()) := exec_script migrate_script stop.

(** The control tables of a file. *)
Definition control_tables (f : db_file) : option control_db :=
  ev ← f.(fl_events); se ← f.(fl_settlements); hi ← f.(fl_delivery_history); ou ← f.(fl_outbox);
  Some (ControlDB ev se hi ou.1 ou.2).

(** An open store: the file, the connection. *)
Record ControlStore_handle := mkHandle { h_file : db_file; h_conn : connection }.

(** [OpenControlStore]; [open] is the outcome of [sql.Open].  A failed migration
    closes the database again. *)
Definition OpenControlStore (open : result ()) (stop : option (nat * error)) : io db_file (result ControlStore_handle) := λ f,
  match open with
  | Err e => (Err e, f)
  | Ok _ =>
      match migrate stop (f, new_connection) with
      | (Err e, (f', _)) => (Err e, f')
      | (Ok _, (f', c)) => (Ok (mkHandle f' c), f')
      end
  end.

(** [NewShardCoordinator]: the coordinator is returned beside the error. *)
Definition NewShardCoordinator (stop : option (nat * error)) : io (db_file * connection) (result ()) :=
  exec_script [CreateShardMigrations] stop.

(** ** The life of a store *)

(** The tables a file stands for: what does not exist is empty. *)
Definition tables_of (f : db_file) : control_db :=
  ControlDB (default ∅ f.(fl_events)) (default ∅ f.(fl_settlements)) (default [] f.(fl_delivery_history))
    (default ([], 0%Z) f.(fl_outbox)).1 (default ([], 0%Z) f.(fl_outbox)).2.

(** The file with the control tables of an open store written to it. *)
Definition save (d : control_db) (f : db_file) : db_file :=
  mkFile (Some d.(events)) f.(fl_events_claim_idx) (Some d.(settlements)) (Some d.(delivery_history))
    (Some (d.(outbox), d.(outbox_seq))) f.(fl_shard_migrations) f.(fl_wal).

Inductive store_state := Closed (f : db_file) | Opened (f : db_file) (d : control_db).

(** Closing and crashing leave the same file: every statement is on disk when it
    returns ([synchronous=FULL]), a transaction is rolled back.  A crash inside a
    call leaves what that call leaves when the driver fails at that point. *)
Inductive life : store_state → store_state → Prop :=
| life_open_fails f open stop e f' : OpenControlStore open stop f = (Err e, f') → life (Closed f) (Closed f')
| life_open f h f' d :
    OpenControlStore (Ok tt) None f = (Ok h, f') → control_tables h.(h_file) = Some d → life (Closed f) (Opened f' d)
| life_call f c d fs : life (Opened f d) (Opened f (run_call c (World d fs)).(db))
| life_close f d : life (Opened f d) (Closed (save d f)).

Definition tables (s : store_state) : control_db :=
  match s with Closed f => tables_of f | Opened _ d => d end.

(** * Lemmas *)

Lemma exec_ddl_tables s st : tables_of (exec_ddl s st).1 = tables_of st.1.
Proof. destruct st as [[[] ? [] [] [[]|] ? ?] c], s; reflexivity. Qed.

Lemma exec_ddls_tables l st : tables_of (foldl (λ st s, exec_ddl s st) st l).1 = tables_of st.1.
Proof. revert st. induction l as [|s l IH]; intros st; simpl; [done|]. by rewrite IH, exec_ddl_tables. Qed.

Lemma script_tables script stop f c : tables_of (exec_script script stop (f, c)).2.1 = tables_of f.
Proof. destruct stop as [[n e]|]; apply exec_ddls_tables. Qed.

Lemma migrate_total f c : ∃ f', migrate None (f, c) = (Ok tt, (f', mkConnection true true)) ∧
  control_tables f' = Some (tables_of f) ∧ f'.(fl_events_claim_idx) = true ∧ f'.(fl_wal) = true ∧
  f'.(fl_shard_migrations) = f.(fl_shard_migrations).
Proof. destruct f as [[] ? [] [] [[]|] ? ?]; eexists; by split. Qed.

Lemma open_tables open stop f r f' : OpenControlStore open stop f = (r, f') → tables_of f' = tables_of f.
Proof.
  unfold OpenControlStore. destruct open; [|by intros [= <- <-]].
  pose proof (script_tables migrate_script stop f new_connection) as Ht. fold (migrate stop) in Ht.
  destruct (migrate stop _) as [[[]|] [f1 c]]; intros [= <- <-]; done.
Qed.

Lemma open_control open stop f h f' :
  OpenControlStore open stop f = (Ok h, f') → control_tables h.(h_file) = Some (tables_of f).
Proof.
  unfold OpenControlStore. destruct open; [|done]. destruct stop as [[n e]|].
  { unfold migrate, exec_script. by destruct (foldl _ _ _). }
  destruct (migrate_total f new_connection) as (f1&Hm&Ht&_). rewrite Hm. by intros [= <- <-].
Qed.

(** Every step of a store's life is a sequence of steps of the store. *)
Lemma life_steps s s' : life s s' → steps (tables s) (tables s').
Proof.
  destruct 1 as [f open stop e f' Ho|f h f' d Ho Hd|f c d fs|f d]; simpl.
  - by rewrite (open_tables _ _ _ _ _ Ho).
  - apply open_control in Ho. rewrite Ho in Hd. by injection Hd as <-.
  - apply (run_call_steps c (World d fs)).
  - destruct d; done.
Qed.

Lemma lives_steps s s' : rtc life s s' → steps (tables s) (tables s').
Proof. induction 1 as [|s1 s2 s3 H _ IH]; [done|]. etrans; [by apply life_steps|done]. Qed.

(** * Theorems *)

(** C10: What was acknowledged survives: an event whose publication reported success
    is in the store after any further calls, driver failures, crashes, restarts
    and openings that failed half way, with the same content; the tables are well
    formed throughout; and whatever state the file was left in, an opening the
    driver does not fail has all tables, with what was in them, and the
    connection settings of [migrate]. *)
Theorem acknowledged_survives f d env now fs w' s :
  rtc life (Closed empty_file) (Opened f d) → wf_text env = true →
  ControlStore.Publish env now (World d fs) = (Ok (env, true), w') → rtc life (Opened f w'.(db)) s →
  Inv (tables s) ∧
  (∃ r, (tables s).(events) !! env.(env_ID) = Some r ∧ json_Unmarshal r.(ev_envelope) = Ok (normalize env)) ∧
  (∀ f', s = Closed f' → ∃ h f'', OpenControlStore (Ok tt) None f' = (Ok h, f'') ∧
     control_tables h.(h_file) = Some (tables s) ∧ h.(h_conn) = mkConnection true true).
Proof.
  intros H0 Hwf Hp Hs. apply lives_steps in H0. apply lives_steps in Hs. simpl in H0, Hs.
  pose proof (Publish_moves env now (World d fs)) as Hst. rewrite Hp in Hst.
  assert (Inv (tables s)) as HI by
    (eapply inv_steps; [apply inv_empty|etrans; [exact H0|etrans; [exact Hst|exact Hs]]]).
  apply Publish_created in Hp as (_&raw&_&Hm&Hev). split_and!; [done|..].
  - destruct (steps_row_mono _ _ env.(env_ID) _ Hs ltac:(rewrite Hev; apply lookup_insert_eq)) as (r&Hr&_&_&He).
    exists r. split; [done|]. rewrite He. by apply codec_roundtrip.
  - intros f' ->. destruct (migrate_total f' new_connection) as (f''&Hmig&Ht&_).
    exists (mkHandle f'' (mkConnection true true)), f''. unfold OpenControlStore. by rewrite Hmig.
Qed.

(** A claim is fenced across restarts: a frame that carries a token older than
    the one the event has been granted under since, in this or any later life of
    the store, settles nothing. *)
Theorem restart_fenced f d id r s f' d' fr now fs res w' :
  d.(events) !! id = Some r → rtc life (Opened f d) s → s = Opened f' d' →
  fr.(fr_EventID) = id → (fr.(fr_FencingToken) < r.(ev_fencing_token))%Z →
  ControlStore.Settle fr now (World d' fs) = (res, w') → is_ok res = false ∧ w'.(db) = d'.
Proof.
  intros Hr Hs -> Hid Hlt. apply lives_steps in Hs. simpl in Hs.
  destruct (steps_row_mono _ _ _ _ Hs Hr) as (r'&Hr'&Hle&_).
  apply (Settle_none fr now (World d' fs)). intros r2 Hr2. simpl in Hr2. rewrite Hid in Hr2.
  apply holds_lease_token. simplify_eq. lia.
Qed.

(** The migrations of the shard coordinator are kept by both scripts. *)
Theorem coordinator_tables stop f c :
  let '(r, (f', _)) := NewShardCoordinator stop (f, c) in
  tables_of f' = tables_of f ∧
  default ∅ f'.(fl_shard_migrations) = default ∅ f.(fl_shard_migrations) ∧
  (is_ok r = true → is_Some f'.(fl_shard_migrations)).
Proof.
  unfold NewShardCoordinator. pose proof (script_tables [CreateShardMigrations] stop f c) as Ht.
  destruct stop as [[[|[|n]] e]|], f as [? ? ? ? ? [] ?]; (split; [exact Ht|]); (split; [reflexivity|]); intros Hr;
    first [discriminate Hr | by eexists].
Qed.

(** * Closed instances *)

Definition ex_opened : control_db := (ControlStore.Publish ex_envelope Second (World empty_db [])).2.(db).

Lemma ex_first_open : ∃ f, life (Closed empty_file) (Opened f empty_db).
Proof.
  eexists. eapply (life_open _ _ _ empty_db); [reflexivity|]. reflexivity.
Qed.

Lemma acknowledged_survives_witness :
  ∃ f r, (tables_of f).(events) !! env_ID ex_envelope = Some r ∧ json_Unmarshal r.(ev_envelope) = Ok (normalize ex_envelope).
Proof.
  destruct ex_first_open as [f Hf].
  destruct (acknowledged_survives f empty_db ex_envelope Second [] (ControlStore.Publish ex_envelope Second (World empty_db [])).2
    (Closed (save ex_opened f))) as (_&(r&Hr&Hu)&_).
  - apply rtc_once. exact Hf.
  - vm_compute; reflexivity.
  - vm_compute; reflexivity.
  - apply rtc_once. apply life_close.
  - exists (save ex_opened f), r. split; [exact Hr|exact Hu].
Defined.
