(* ===== verification/Cluster.v ===== *)
(** * Cluster membership and placement: cluster_raft.go

    The replicated state machine ([clusterFSM]) with its JSON commands and
    snapshots, the operations of [RaftCluster] over a Raft node, and rendezvous
    placement.  The Raft library is not part of the repository: it is the record
    [RaftNode] of what the code calls, with the laws [RaftLaws] the theorems use.
    [sort.Slice] is not stable; it is the parameter [sort_Slice] with the law that
    it returns a sorted permutation. *)

From Stdlib Require Import ZArith NArith Lia Ascii String Sorted.
From stdpp Require Import base list gmap sets strings sorting.
From S2P Require Import Prelude GoRegexp JsonScan Utf8 JsonText JsonRoundtrip JsonValues Model Json.

(** ** Data *)

Record ClusterNode := mkNode {
  cn_ID : string; cn_Address : string; cn_Healthy : bool; cn_LastHeartbeatMS : Z }.
Record clusterState := mkClusterState { cs_Epoch : Z; cs_Nodes : gmap string ClusterNode }.
Record clusterCommand := mkCommand { cmd_Op : string; cmd_Node : ClusterNode }.

#[global] Instance ClusterNode_eq_dec : EqDecision ClusterNode.
Proof. solve_decision. Defined.

(** ** JSON *)

Definition marshal_node (n : ClusterNode) : bytes :=
  object [("id", quote n.(cn_ID)); ("address", quote n.(cn_Address));
          ("healthy", format_bool n.(cn_Healthy)); ("last_heartbeat_ms", format_int n.(cn_LastHeartbeatMS))].
Definition marshal_state (s : clusterState) : bytes :=
  object [("epoch", format_int s.(cs_Epoch)); ("nodes", format_map marshal_node s.(cs_Nodes))].
Definition marshal_command (c : clusterCommand) : bytes :=
  object [("op", quote c.(cmd_Op)); ("node", marshal_node c.(cmd_Node))].

Definition zero_node : ClusterNode := mkNode "" "" false 0.

Definition node_fields : fields ClusterNode :=
  [("id", λ v '(mkNode a b c d), try x := string_into v a in Ok (mkNode x b c d));
   ("address", λ v '(mkNode a b c d), try x := string_into v b in Ok (mkNode a x c d));
   ("healthy", λ v '(mkNode a b c d), try x := bool_into v c in Ok (mkNode a b x d));
   ("last_heartbeat_ms", λ v '(mkNode a b c d), try x := int64_into v d in Ok (mkNode a b c x))].
Definition state_fields : fields clusterState :=
  [("epoch", λ v '(mkClusterState a b), try x := uint64_into v a in Ok (mkClusterState x b));
   ("nodes", λ v '(mkClusterState a b),
      try x := map_into (λ v, struct_into false node_fields v zero_node) v b in Ok (mkClusterState a x))].
Definition command_fields : fields clusterCommand :=
  [("op", λ v '(mkCommand a b), try x := string_into v a in Ok (mkCommand x b));
   ("node", λ v '(mkCommand a b), try x := struct_into false node_fields v b in Ok (mkCommand a x))].

(** ** The replicated state machine *)

Module clusterFSM.
Definition newClusterFSM : clusterState := mkClusterState 0 ∅.

(** The two commands. *)
Definition upsert (n : ClusterNode) (s : clusterState) : clusterState :=
  mkClusterState (uint64 (s.(cs_Epoch) + 1)) (<[n.(cn_ID) := n]> s.(cs_Nodes)).
Definition remove (id : string) (s : clusterState) : clusterState :=
  mkClusterState (uint64 (s.(cs_Epoch) + 1)) (delete id s.(cs_Nodes)).

(** [Apply] of a log entry. *)
Definition Apply (data : bytes) : io clusterState (result ()) := λ s,
  match unmarshal_struct false command_fields (mkCommand "" zero_node) data with
  | Err e => (Err e, s)
  | Ok cmd =>
      if decide (cmd.(cmd_Op) = "upsert") then (Ok tt, upsert cmd.(cmd_Node) s)
      else if decide (cmd.(cmd_Op) = "delete") then (Ok tt, remove cmd.(cmd_Node).(cn_ID) s)
      else (Err (ErrFmt "unknown cluster op %q" [cmd.(cmd_Op)]), s)
  end.

Definition Snapshot (s : clusterState) : bytes := marshal_state s.

(** [Persist]; the outcomes of the sink's [Write] and [Close]. *)
Definition Persist (write close : result ()) : result () :=
  match write with Err e => Err e | Ok _ => close end.

Definition Restore (stream : bytes) : io clusterState (result ()) := λ s,
  match Decode false state_fields (mkClusterState 0 ∅) stream with
  | Err e => (Err e, s)
  | Ok s' => (Ok tt, s')
  end.

(** Applying a log. *)
Definition apply_log (log : list bytes) (s : clusterState) : clusterState :=
  foldl (λ s d, (Apply d s).2) s log.
End clusterFSM.

(** ** Sorting *)

(** [sort.Slice] with a strict order given by [less]. *)
Class SortSlice := {
  sort_Slice {A} (less : A → A → bool) (l : list A) : list A;
  sort_Slice_perm {A} (less : A → A → bool) l : sort_Slice less l ≡ₚ l;
  sort_Slice_sorted {A} (less : A → A → bool) l :
    (∀ x y z, less x y = true → less y z = true → less x z = true) →
    (∀ x y z, less x y = false → less y z = false → less x z = false) →
    (∀ x, less x x = false) →
    StronglySorted (λ x y, less y x = false) (sort_Slice less l);
}.

(** ** Hashing *)

Fixpoint fnv64_from (h : Z) (s : bytes) : Z :=
  match s with
  | [] => h
  | c :: s' => fnv64_from (uint64 (Z.lxor h (Z.of_N (N_of_ascii c)) * 1099511628211)) s'
  end.
Definition fnv64 (s : string) : Z := fnv64_from 14695981039346656037 (to_bytes s).
Definition rendezvousScore (key node : string) : Z := fnv64 (key ++ String "000" node)%string.

(** ** Placement *)

Record ReplicaPlacement := mkPlacement { rp_Epoch : Z; rp_Shard : Z; rp_Nodes : list ClusterNode }.

Section placement.
Context `{SortSlice}.

(** [State]; [order] is the iteration order of the map. *)
Definition State (order : list ClusterNode) (s : clusterState) : Z * list ClusterNode :=
  (s.(cs_Epoch), sort_Slice (λ x y, String.ltb x.(cn_ID) y.(cn_ID)) order).

Definition Placement (order : list ClusterNode) (key : string) (shardCount replication : Z) (s : clusterState)
  : result ReplicaPlacement :=
  if (shardCount =? 0)%Z || (replication <=? 0)%Z then Err (ErrNew "invalid shard/replication values")
  else
    let (epoch, nodes) := State order s in
    let healthy := filter (λ n, n.(cn_Healthy) = true) nodes in
    if (Z.of_nat (length healthy) <? replication)%Z then Err (ErrNew "not enough healthy nodes")
    else
      let scores := (λ n, (n, rendezvousScore key n.(cn_ID))) <$> healthy in
      let sorted := sort_Slice (λ x y, (y.2 <? x.2)%Z) scores in
      Ok (mkPlacement epoch (uint32 (fnv64 key `mod` shardCount)) (take (Z.to_nat replication) sorted).*1).
End placement.

(** ** The cluster over a Raft node *)

Record server := mkServerAddr { srv_ID : string; srv_Address : string }.

#[global] Instance server_eq_dec : EqDecision server.
Proof. solve_decision. Defined.

(** What [RaftCluster] uses of [*raft.Raft], on the state [R] of the Raft group. *)
Record RaftNode (R : Type) := mkRaft {
  raft_IsLeader : R → bool;
  raft_GetConfiguration : io R (result (list server));
  raft_RemoveServer : string → io R (result ());
  raft_AddVoter : string → string → io R (result ());
  raft_Apply : bytes → io R (result ());
}.
Arguments raft_IsLeader {R} _ _.
Arguments raft_GetConfiguration {R} _.
Arguments raft_RemoveServer {R} _ _.
Arguments raft_AddVoter {R} _ _ _.
Arguments raft_Apply {R} _ _.

Module RaftCluster.
Section cluster.
Context {R : Type} (raft : RaftNode R) (fsm : R → clusterState).

Definition UpsertNode (node : ClusterNode) : io R (result ()) := λ r,
  if raft_IsLeader raft r then raft_Apply raft (marshal_command (mkCommand "upsert" node)) r
  else (Err (ErrNew "upsert must be sent to leader"), r).

Definition Heartbeat (id address : string) (now : Z) : io R (result ()) :=
  UpsertNode (mkNode id address true (UnixMilli now)).

(** The loop of [Join] over the configuration: [Ok true] when the server is there
    already. *)
Fixpoint displace (id address : string) (servers : list server) : io R (result bool) :=
  match servers with
  | [] => io_ret (Ok false)
  | srv :: servers' =>
      if bool_decide (srv.(srv_ID) = id) || bool_decide (srv.(srv_Address) = address) then
        if bool_decide (srv.(srv_ID) = id) && bool_decide (srv.(srv_Address) = address) then io_ret (Ok true)
        else try _ <- raft_RemoveServer raft srv.(srv_ID); displace id address servers'
      else displace id address servers'
  end.

Definition Join (id address : string) (now : Z) : io R (result ()) := λ r,
  if raft_IsLeader raft r then
    (try servers <- raft_GetConfiguration raft;
     try present <- displace id address servers;
     if (present : bool) then io_ret (Ok tt)
     else
       try _ <- raft_AddVoter raft id address;
       UpsertNode (mkNode id address true (UnixMilli now))) r
  else (Err (ErrNew "join must be sent to leader"), r).

Definition Remove (id : string) : io R (result ()) := λ r,
  if raft_IsLeader raft r then
    (try _ <- raft_RemoveServer raft id;
     raft_Apply raft (marshal_command (mkCommand "delete" (mkNode id "" false 0)))) r
  else (Err (ErrNew "remove must be sent to leader"), r).

Definition stale (cutoff : Z) (n : ClusterNode) : bool := n.(cn_Healthy) && (n.(cn_LastHeartbeatMS) <? cutoff)%Z.
Definition mark_unhealthy (n : ClusterNode) : ClusterNode :=
  mkNode n.(cn_ID) n.(cn_Address) false n.(cn_LastHeartbeatMS).

(** The loop of [ReapStale] over the copied nodes. *)
Fixpoint reap (cutoff : Z) (nodes : list ClusterNode) : io R (result ()) :=
  match nodes with
  | [] => io_ret (Ok tt)
  | n :: nodes' =>
      if stale cutoff n then try _ <- UpsertNode (mark_unhealthy n); reap cutoff nodes'
      else reap cutoff nodes'
  end.

(** [ReapStale]; [order] is the iteration order of the copied map. *)
Definition ReapStale (order : clusterState → list ClusterNode) (maxAge now : Z) : io R (result ()) := λ r,
  if raft_IsLeader raft r
  then reap (UnixMilli (now + int64 (- maxAge))) (order (fsm r)) r
  else (Err (ErrNew "reap must run on leader"), r).
End cluster.

(** [OpenRaftCluster]; the arguments are the outcomes of its calls, in order:
    creating the directory, the two stores, the snapshot store, the transport, the
    Raft node, the look for existing state, and the bootstrap.  Whether the node
    was bootstrapped, with the state machine it starts with. *)
Definition OpenRaftCluster (nodeID bindAddr dataDir : string) (bootstrap : bool)
  (mkdir logStore stableStore snapshots transport newRaft : result ()) (existing : result bool) (boot : result ())
  : result (bool * clusterState) :=
  if bool_decide (nodeID = "") || bool_decide (bindAddr = "") || bool_decide (dataDir = "")
  then Err (ErrNew "nodeID, bindAddr and dataDir are required")
  else
    try _ := mkdir in try _ := logStore in try _ := stableStore in try _ := snapshots in try _ := transport in
    let fsm := clusterFSM.newClusterFSM in
    try _ := newRaft in
    try hasState := existing in
    if bootstrap && negb hasState then try _ := boot in Ok (true, fsm) else Ok (false, fsm).
End RaftCluster.

(** ** Replication of a shard operation *)

Record ReplicaApply := mkReplicaApply { ra_Shard : Z; ra_Key : string; ra_FencingToken : Z; ra_Payload : bytes }.

Definition marshal_replica (a : ReplicaApply) : result bytes :=
  try p := marshal_raw a.(ra_Payload) in
  Ok (object [("shard", format_int a.(ra_Shard)); ("key", quote a.(ra_Key));
              ("fencing_token", format_int a.(ra_FencingToken)); ("payload", p)]).

(** [%d]. *)
Definition decimal (z : Z) : string := of_bytes (format_int z).

(** The envelope [Replicate] publishes; [now] and [now'] are its clock readings. *)
Definition replica_envelope (a : ReplicaApply) (correlation : string) (now now' : Z) (raw : bytes) : Envelope :=
  mkEnvelope ("replica-" ++ decimal (int64 now) ++ "-" ++ decimal a.(ra_Shard)) "System.Replica.apply.request"
    correlation correlation
    ("replica:" ++ decimal a.(ra_Shard) ++ ":" ++ a.(ra_Key) ++ ":" ++ decimal a.(ra_FencingToken))
    "System.Replica.apply.request@1" raw GuaranteeProcessed (UnixMilli now') None.

Definition Replicate {W} (publish : Envelope → io W (result ())) (a : ReplicaApply) (correlation : string) (now now' : Z)
  : io W (result ()) :=
  match marshal_replica a with
  | Err e => io_ret (Err e)
  | Ok raw => publish (replica_envelope a correlation now now' raw)
  end.

(** ** What a Raft group promises

    [raft_ok r]: this node, [self], leads a group that commits what it is given;
    [config r] is the configuration, without repeated identities or addresses. *)
Class RaftLaws {R} (raft : RaftNode R) (fsm : R → clusterState) := {
  self : string;
  raft_ok : R → Prop;
  config : R → list server;
  ok_leader r : raft_ok r → raft_IsLeader raft r = true;
  ok_config r : raft_ok r →
    raft_GetConfiguration raft r = (Ok (config r), r) ∧ NoDup (srv_ID <$> config r) ∧ NoDup (srv_Address <$> config r);
  ok_apply r data : raft_ok r → ∃ r', raft_Apply raft data r = (Ok tt, r') ∧ raft_ok r' ∧
    config r' = config r ∧ fsm r' = (clusterFSM.Apply data (fsm r)).2;
  ok_remove r id : raft_ok r → id ≠ self → ∃ r', raft_RemoveServer raft id r = (Ok tt, r') ∧ raft_ok r' ∧
    config r' = filter (λ s, s.(srv_ID) ≠ id) (config r) ∧ fsm r' = fsm r;
  ok_add r id address : raft_ok r → id ∉ srv_ID <$> config r → address ∉ srv_Address <$> config r →
    ∃ r', raft_AddVoter raft id address r = (Ok tt, r') ∧ raft_ok r' ∧
    config r' = config r ++ [mkServerAddr id address] ∧ fsm r' = fsm r;
}.
