(* ===== verification/ClusterTheorems.v ===== *)
(** * Theorems on the cluster state machine, membership and placement *)

From Stdlib Require Import ZArith NArith Lia Ascii String Sorted.
From stdpp Require Import base list gmap sets strings pretty sorting.
From S2P Require Import Prelude GoRegexp JsonScan Utf8 JsonText JsonRoundtrip JsonValues Model Json Cluster.
Import clusterFSM.

(** * Lemmas *)

(** ** JSON of nodes, states and commands *)

Definition wf_node (n : ClusterNode) : Prop :=
  utf8_string n.(cn_ID) = true ∧ utf8_string n.(cn_Address) = true ∧ int64_range n.(cn_LastHeartbeatMS).
Definition wf_state (s : clusterState) : Prop :=
  uint64_range s.(cs_Epoch) ∧ map_Forall (λ k n, utf8_string k = true ∧ wf_node n) s.(cs_Nodes).

#[local] Arguments string_into : simpl never.
#[local] Arguments int64_into : simpl never.
#[local] Arguments uint64_into : simpl never.
#[local] Arguments bool_into : simpl never.
#[local] Arguments struct_into : simpl never.
#[local] Arguments map_into : simpl never.
#[local] Arguments object : simpl never.
#[local] Arguments quote : simpl never.
#[local] Arguments format_int : simpl never.
#[local] Arguments format_bool : simpl never.
#[local] Arguments format_map : simpl never.

Ltac cluster_values :=
  repeat first
    [ apply Forall_nil_2 | apply Forall_cons_2 | apply quote_value_alone | apply quote_value_in
    | apply format_int_value | apply format_bool_value ].

Ltac cluster_read :=
  simpl; repeat (first
    [ rewrite string_into_quote by done | rewrite unquote_quote by done | rewrite bool_into_format
    | rewrite int64_into_format by done | rewrite uint64_into_format by done ]; simpl).

Lemma node_value ps n :
  (N.of_nat (length ps) + 1 < maxNestingDepth)%N → value_alone (marshal_node n) ∧ value_in ps (marshal_node n).
Proof.
  intros Hps. split; [apply object_value_alone|apply object_value_in; [done|]]; cluster_values.
Qed.

Lemma node_roundtrip n acc : wf_node n → struct_into false node_fields (marshal_node n) acc = Ok n.
Proof.
  intros (Hi&Ha&Hh). apply struct_into_object; [cluster_values|by repeat constructor|].
  destruct n, acc; simpl in *. by cluster_read.
Qed.

Lemma nodes_value ps m :
  (N.of_nat (length ps) + 2 < maxNestingDepth)%N →
  value_alone (format_map marshal_node m) ∧ value_in ps (format_map marshal_node m).
Proof.
  intros Hps. apply format_map_value; [lia|]. intros k n _. split; apply node_value; simpl; lia.
Qed.

Lemma state_values s :
  Forall value_alone [("epoch", format_int s.(cs_Epoch)); ("nodes", format_map marshal_node s.(cs_Nodes))].*2 ∧
  Forall (value_in []) [("epoch", format_int s.(cs_Epoch)); ("nodes", format_map marshal_node s.(cs_Nodes))].*2.
Proof. split; cluster_values; by apply (nodes_value []). Qed.

(** Reading a snapshot gives back the state. *)
Lemma state_roundtrip s :
  wf_state s → Decode false state_fields (mkClusterState 0 ∅) (marshal_state s) = Ok s.
Proof.
  intros [He Hn]. destruct (state_values s) as [Hv Hin]. unfold Decode, marshal_state.
  pose proof (object_value_alone _ Hin) as Ho.
  pose proof (value_alone_no_space _ [] Ho) as Hs. pose proof (extent_alone _ [] Ho (or_introl eq_refl)) as Hx.
  rewrite app_nil_r in Hs, Hx. rewrite Hs, Hx. simpl fst. apply unmarshal_object; [done|done|by repeat constructor|].
  destruct s as [e m]; simpl in *. cluster_read.
  rewrite map_into_format; [done|]. eapply map_Forall_impl; [exact Hn|]. intros k n [Hk Hwf].
  split_and!; [done|by apply (node_value [])|by apply node_roundtrip].
Qed.

Lemma command_roundtrip c :
  utf8_string c.(cmd_Op) = true → wf_node c.(cmd_Node) →
  unmarshal_struct false command_fields (mkCommand "" zero_node) (marshal_command c) = Ok c.
Proof.
  intros Ho Hn. apply unmarshal_object; [..|by repeat constructor|].
  - cluster_values. by apply (node_value []).
  - cluster_values. by apply (node_value []).
  - destruct c; simpl in *. cluster_read. by rewrite node_roundtrip.
Qed.

Lemma Apply_upsert n s : wf_node n → Apply (marshal_command (mkCommand "upsert" n)) s = (Ok tt, upsert n s).
Proof. intros Hn. unfold Apply. by rewrite command_roundtrip. Qed.

Lemma Apply_delete id s :
  utf8_string id = true → Apply (marshal_command (mkCommand "delete" (mkNode id "" false 0))) s = (Ok tt, remove id s).
Proof. intros Hn. unfold Apply. by rewrite command_roundtrip. Qed.

(** ** The state machine keeps its states well formed *)

(** Nodes are stored under their own identity. *)
Definition keyed (s : clusterState) : Prop := map_Forall (λ k n, n.(cn_ID) = k) s.(cs_Nodes).

Lemma node_read_wf raw acc n : wf_node acc → struct_into false node_fields raw acc = Ok n → wf_node n.
Proof.
  intros Ha. apply struct_into_inv; [done|]. intros name set Hin v [a b c d] z (H1&H2&H3) Hz. simpl in *.
  unfold node_fields in Hin. rewrite !elem_of_cons in Hin. destruct_or! Hin; simplify_eq/=; try by apply not_elem_of_nil in Hin.
  - destruct (string_into v a) eqn:E; simplify_eq. apply string_into_utf8 in E; [by split_and!|done].
  - destruct (string_into v b) eqn:E; simplify_eq. apply string_into_utf8 in E; [by split_and!|done].
  - destruct (bool_into v c) eqn:E; simplify_eq. by split_and!.
  - destruct (int64_into v d) eqn:E; simplify_eq. apply int64_into_range in E; [by split_and!|done].
Qed.

Lemma zero_node_wf : wf_node zero_node.
Proof. by split_and!. Qed.

Lemma command_read_wf raw c :
  unmarshal_struct false command_fields (mkCommand "" zero_node) raw = Ok c → wf_node c.(cmd_Node).
Proof.
  apply (unmarshal_struct_inv _ _ (λ c, wf_node c.(cmd_Node))); [apply zero_node_wf|].
  intros name set Hin v [o n] z Hn Hz. unfold command_fields in Hin. rewrite !elem_of_cons in Hin. simpl in Hn.
  destruct_or! Hin; simplify_eq/=; try by apply not_elem_of_nil in Hin.
  - destruct (string_into v o) eqn:E; by simplify_eq.
  - destruct (struct_into _ _ v n) eqn:E; simplify_eq. by eapply node_read_wf.
Qed.

Lemma Apply_cases data s :
  (∃ n, wf_node n ∧ Apply data s = (Ok tt, upsert n s)) ∨ (∃ id, Apply data s = (Ok tt, remove id s)) ∨
  (∃ e, Apply data s = (Err e, s)).
Proof.
  unfold Apply. destruct (unmarshal_struct _ _ _ _) as [c|e] eqn:E; [|right; right; eauto].
  apply command_read_wf in E. repeat case_decide; eauto 10.
Qed.

Lemma Apply_wf data s : wf_state s ∧ keyed s → wf_state (Apply data s).2 ∧ keyed (Apply data s).2.
Proof.
  intros [[He Hn] Hk]. destruct (Apply_cases data s) as [(n&Hw&->)|[(id&->)|(e&->)]]; simpl; [..|by split_and!].
  - split; [split; [apply uint64_bounds|]|]; apply map_Forall_insert_2; try done. split; [apply Hw|done].
  - split; [split; [apply uint64_bounds|]|]; by apply map_Forall_delete.
Qed.

Lemma apply_log_wf log s : wf_state s ∧ keyed s → wf_state (apply_log log s) ∧ keyed (apply_log log s).
Proof. unfold apply_log. revert s. induction log as [|d log IH]; intros s Hs; [done|]. simpl. by apply IH, Apply_wf. Qed.

Lemma newClusterFSM_wf : wf_state newClusterFSM ∧ keyed newClusterFSM.
Proof. split; [split; [done|]|]; apply map_Forall_empty. Qed.

(** ** The largest elements of a list *)

Section top.
Context {A : Type} (f : A → Z).

(** In a list sorted by falling [f] without equal values, the first [k] elements
    are those with fewer than [k] greater ones. *)
Lemma elem_of_top k l x :
  StronglySorted (λ x y, (f y ≤ f x)%Z) l → NoDup (f <$> l) →
  x ∈ take k l ↔ x ∈ l ∧ length (filter (λ y, (f x < f y)%Z) l) < k.
Proof.
  intros Hs. revert k. induction Hs as [|a l Hs IH Ha]; intros k Hnd; [by rewrite take_nil; set_solver|].
  apply NoDup_cons in Hnd as [Hn Hnd]. rewrite Forall_forall in Ha.
  assert (∀ y, y ∈ l → (f y < f a)%Z) as Hlt.
  { intros y Hy. specialize (Ha y Hy). destruct (decide (f y = f a)) as [E|]; [|lia]. destruct Hn. rewrite <- E.
    by apply list_elem_of_fmap_2. }
  destruct k as [|k]; [simpl; split; [set_solver|lia]|]. cbn [take]. rewrite !elem_of_cons, (IH k Hnd), filter_cons.
  split.
  - intros [->|[Hx Hk]].
    + split; [by left|]. case_decide; [lia|]. assert (filter (λ y, (f a < f y)%Z) l = []) as ->; [|simpl; lia].
      apply elem_of_nil_inv. intros y [Hy Hin]%list_elem_of_filter. specialize (Hlt y Hin). lia.
    + split; [by right|]. case_decide; simpl; lia.
  - intros [[->|Hx] Hk]; [by left|]. right. split; [done|]. rewrite decide_True in Hk by auto. simpl in Hk. lia.
Qed.
End top.

(** ** Placement *)

(** The orders in which a range may visit the nodes. *)
Definition visits (order : list ClusterNode) (s : clusterState) : Prop := order ≡ₚ (map_to_list s.(cs_Nodes)).*2.

(** A healthy member of the cluster. *)
Definition healthy_in (s : clusterState) (n : ClusterNode) : Prop :=
  s.(cs_Nodes) !! n.(cn_ID) = Some n ∧ n.(cn_Healthy) = true.
Definition score (key : string) (n : ClusterNode) : Z := rendezvousScore key n.(cn_ID).

Lemma keyed_NoDup s : keyed s → NoDup (cn_ID <$> (map_to_list s.(cs_Nodes)).*2).
Proof.
  intros Hk. rewrite <- list_fmap_compose.
  rewrite (list_fmap_ext _ fst); [apply NoDup_fst_map_to_list|].
  intros i [k n] Hi. simpl. apply list_elem_of_lookup_2, elem_of_map_to_list in Hi. by apply Hk.
Qed.

Lemma visits_elem order s n : visits order s → keyed s → n ∈ order ↔ s.(cs_Nodes) !! n.(cn_ID) = Some n.
Proof.
  intros Hv Hk. rewrite Hv, list_elem_of_fmap. split.
  - intros ([k n']&->&Hn%elem_of_map_to_list). simpl. by rewrite (Hk _ _ Hn).
  - intros Hn. exists (n.(cn_ID), n). by rewrite elem_of_map_to_list.
Qed.

Section placement.
Context `{SortSlice}.

(** The candidates of a placement, best first. *)
Definition ranked (order : list ClusterNode) (key : string) (s : clusterState) : list ClusterNode :=
  (sort_Slice (λ x y, (y.2 <? x.2)%Z)
     ((λ n, (n, rendezvousScore key n.(cn_ID))) <$> filter (λ n, n.(cn_Healthy) = true) (State order s).2)).*1.

Lemma ranked_perm order key s : ranked order key s ≡ₚ filter (λ n, n.(cn_Healthy) = true) order.
Proof.
  unfold ranked, State. rewrite sort_Slice_perm, <- list_fmap_compose. simpl.
  rewrite (list_fmap_ext _ id) by done. by rewrite list_fmap_id, sort_Slice_perm.
Qed.

Lemma elem_of_ranked order key s n :
  visits order s → keyed s → n ∈ ranked order key s ↔ healthy_in s n.
Proof.
  intros Hv Hk. rewrite ranked_perm, list_elem_of_filter, (visits_elem _ _ _ Hv Hk). unfold healthy_in. tauto.
Qed.

Lemma ranked_NoDup order key s : visits order s → keyed s → NoDup (ranked order key s).
Proof.
  intros Hv Hk. rewrite ranked_perm. eapply sublist_NoDup; [|apply sublist_filter]. apply (NoDup_fmap_1 cn_ID).
  rewrite Hv. by apply keyed_NoDup.
Qed.

Lemma ranked_sorted order key s : StronglySorted (λ x y, (score key y ≤ score key x)%Z) (ranked order key s).
Proof.
  unfold ranked. set (l := _ <$> filter _ _).
  assert (Forall (λ x, x.2 = score key x.1) (sort_Slice (λ x y, (y.2 <? x.2)%Z) l)) as Hf.
  { rewrite sort_Slice_perm. unfold l. by apply Forall_fmap, Forall_true. }
  assert (StronglySorted (λ x y, (x.2 <? y.2)%Z = false) (sort_Slice (λ x y, (y.2 <? x.2)%Z) l)) as Hs.
  { apply (sort_Slice_sorted (λ x y : ClusterNode * Z, (y.2 <? x.2)%Z)); intros; lia. }
  induction Hs as [|x l' _ IH Hx]; [constructor|]. apply Forall_cons in Hf as [Hf1 Hf].
  constructor; [by apply IH|]. apply Forall_fmap. rewrite Forall_forall in Hx, Hf |- *. intros y Hy. simpl.
  rewrite <- Hf1, <- (Hf y Hy). specialize (Hx y Hy). lia.
Qed.

Lemma Placement_ok order key shardCount replication s p :
  Placement order key shardCount replication s = Ok p ↔
  shardCount ≠ 0%Z ∧ (0 < replication ≤ Z.of_nat (length (ranked order key s)))%Z ∧
  p = mkPlacement s.(cs_Epoch) (uint32 (fnv64 key `mod` shardCount)) (take (Z.to_nat replication) (ranked order key s)).
Proof.
  unfold Placement. assert (length (ranked order key s) =
    length (filter (λ n, n.(cn_Healthy) = true) (State order s).2)) as Hl.
  { unfold ranked. by rewrite length_fmap, sort_Slice_perm, length_fmap. }
  rewrite Hl. unfold State in *. simpl in *. unfold ranked, State. simpl. rewrite <- fmap_take.
  destruct ((shardCount =? 0)%Z || (replication <=? 0)%Z) eqn:Hb; [split; [done|lia]|].
  destruct (_ <? replication)%Z eqn:Hr; [split; [done|lia]|]. split; [intros [= <-]; split_and!; lia || done|].
  by intros (_&_&->).
Qed.
End placement.

(** ** Membership *)

Lemma filter_ext_in {A} (P Q : A → Prop) `{!∀ x, Decision (P x)} `{!∀ x, Decision (Q x)} (l : list A) :
  (∀ x, x ∈ l → P x ↔ Q x) → filter P l = filter Q l.
Proof.
  induction l as [|x l IH]; intros Hl; [done|]. rewrite !filter_cons, IH by set_solver.
  assert (P x ↔ Q x) by set_solver. repeat case_decide; tauto.
Qed.

Section membership.
Context {R : Type} (raft : RaftNode R) (fsm : R → clusterState) {laws : RaftLaws raft fsm}.
Import RaftCluster.

Lemma UpsertNode_run n r :
  raft_ok r → wf_node n → ∃ r', UpsertNode raft n r = (Ok tt, r') ∧ raft_ok r' ∧ config r' = config r ∧
    fsm r' = upsert n (fsm r).
Proof.
  intros Hr Hn. unfold UpsertNode. rewrite (ok_leader _ Hr).
  destruct (ok_apply r (marshal_command (mkCommand "upsert" n)) Hr) as (r'&?&?&?&Hf). exists r'.
  rewrite Apply_upsert in Hf by done. done.
Qed.

(** Whether a server is in the way of [id] at [address]. *)
Definition conflicts (id address : string) (s : server) : Prop := s.(srv_ID) = id ∨ s.(srv_Address) = address.
#[global] Instance conflicts_dec id address s : Decision (conflicts id address s).
Proof. unfold conflicts. apply _. Defined.

Lemma displace_run id address servers r :
  raft_ok r → (∀ s, s ∈ servers → conflicts id address s → s.(srv_ID) ≠ self) →
  mkServerAddr id address ∉ servers →
  ∃ r', displace raft id address servers r = (Ok false, r') ∧ raft_ok r' ∧ fsm r' = fsm r ∧
    config r' = filter (λ s, s.(srv_ID) ∉ srv_ID <$> filter (conflicts id address) servers) (config r).
Proof.
  revert r. induction servers as [|srv servers IH]; intros r Hr Hself Hnot.
  { exists r. split_and!; [done..|]. symmetry. apply filter_all, Forall_forall. intros s _.
    apply not_elem_of_nil. }
  assert ((mkServerAddr id address ∉ servers) ∧ ¬ (srv.(srv_ID) = id ∧ srv.(srv_Address) = address)) as [Hn Hsrv].
  { split; [set_solver|]. intros [<- <-]. apply Hnot. destruct srv. by left. }
  cbn [displace]. rewrite filter_cons. destruct (decide (conflicts id address srv)) as [Hc|Hc].
  - assert (bool_decide (srv.(srv_ID) = id) || bool_decide (srv.(srv_Address) = address) = true) as ->
      by (apply orb_true_iff; by rewrite !bool_decide_eq_true).
    assert (bool_decide (srv.(srv_ID) = id) && bool_decide (srv.(srv_Address) = address) = false) as ->.
    { apply not_true_iff_false. by rewrite andb_true_iff, !bool_decide_eq_true. }
    destruct (ok_remove r srv.(srv_ID) Hr) as (r1&H1&Hr1&Hc1&Hf1); [apply Hself; [by left|done]|].
    unfold io_bind. rewrite H1. destruct (IH r1) as (r2&->&Hr2&Hf2&Hc2); [done|set_solver|done|].
    exists r2. split_and!; [done|done|congruence|]. rewrite Hc2, Hc1, list_filter_filter.
    apply filter_ext_in. intros s _. rewrite fmap_cons, not_elem_of_cons. tauto.
  - assert (bool_decide (srv.(srv_ID) = id) || bool_decide (srv.(srv_Address) = address) = false) as ->.
    { apply not_true_iff_false. by rewrite orb_true_iff, !bool_decide_eq_true. }
    apply IH; [done|set_solver|done].
Qed.

Lemma displace_present id address servers r :
  mkServerAddr id address ∈ servers → NoDup (srv_ID <$> servers) → NoDup (srv_Address <$> servers) →
  displace raft id address servers r = (Ok true, r).
Proof.
  induction servers as [|srv servers IH]; [set_solver|]. intros Hin [Hi Hi']%NoDup_cons [Ha Ha']%NoDup_cons.
  cbn [displace]. apply elem_of_cons in Hin as [<-|Hin].
  - simpl. by rewrite !bool_decide_eq_true_2.
  - assert (srv.(srv_ID) ≠ id) as Hne1.
    { intros <-. apply Hi. apply list_elem_of_fmap. by exists (mkServerAddr srv.(srv_ID) address). }
    assert (srv.(srv_Address) ≠ address) as Hne2.
    { intros <-. apply Ha. apply list_elem_of_fmap. by exists (mkServerAddr id srv.(srv_Address)). }
    rewrite !bool_decide_eq_false_2 by done. simpl. by apply IH.
Qed.

Lemma reap_run cutoff nodes r :
  raft_ok r → Forall wf_node nodes →
  ∃ r', reap raft cutoff nodes r = (Ok tt, r') ∧ raft_ok r' ∧ config r' = config r ∧
    fsm r' = foldl (λ s n, upsert n s) (fsm r)
      (mark_unhealthy <$> filter (λ n, stale cutoff n = true) nodes).
Proof.
  intros Hr Hn. revert r Hr. induction Hn as [|n nodes Hn _ IH]; intros r Hr; [by exists r|].
  cbn [reap]. rewrite filter_cons. destruct (stale cutoff n) eqn:Hs; [rewrite decide_True by done|by apply IH].
  destruct (UpsertNode_run (mark_unhealthy n) r Hr Hn) as (r1&H1&Hr1&Hc1&Hf1).
  destruct (IH r1 Hr1) as (r2&H2&Hr2&Hc2&Hf2). exists r2. unfold io_bind. rewrite H1, H2.
  split_and!; [done|done|congruence|]. by rewrite Hf2, Hf1.
Qed.
End membership.

Lemma upserts_lookup l s :
  NoDup (cn_ID <$> l) →
  (∀ n, n ∈ l → (foldl (λ s n, upsert n s) s l).(cs_Nodes) !! n.(cn_ID) = Some n) ∧
  (∀ k, k ∉ cn_ID <$> l → (foldl (λ s n, upsert n s) s l).(cs_Nodes) !! k = s.(cs_Nodes) !! k).
Proof.
  revert s. induction l as [|n l IH]; intros s; [set_solver|]. intros [Hn Hnd]%NoDup_cons. simpl.
  destruct (IH (upsert n s) Hnd) as [H1 H2]. split.
  - intros n' [->|Hin]%elem_of_cons; [|auto]. rewrite H2 by done. simpl. apply lookup_insert_eq.
  - intros k [Hk1 Hk2]%not_elem_of_cons. rewrite H2 by done. simpl. by rewrite lookup_insert_ne.
Qed.

Lemma upserts_epoch l s :
  uint64_range s.(cs_Epoch) →
  (foldl (λ s n, upsert n s) s l).(cs_Epoch) = uint64 (s.(cs_Epoch) + Z.of_nat (length l)).
Proof.
  revert s. induction l as [|n l IH]; intros s Hs; simpl foldl.
  - simpl. by rewrite Z.add_0_r, uint64_id.
  - rewrite IH by apply uint64_bounds. simpl. unfold uint64. rewrite Zplus_mod_idemp_l. f_equal. lia.
Qed.

(** * Theorems *)

(** Whatever bytes the log holds, the state machine stays well typed: from a
    well-typed state every log, malformed and unknown commands included, leads to
    a state whose epoch is a uint64, whose nodes have UTF-8 texts and int64
    heartbeats and are stored under their own identity; and the snapshot of that
    state is a text that [Restore] reads. *)
Theorem cluster_state_typed log s :
  wf_state s ∧ keyed s →
  wf_state (apply_log log s) ∧ keyed (apply_log log s) ∧
  ∀ t, is_ok (Restore (Snapshot (apply_log log s)) t).1 = true.
Proof.
  intros [Hs Hk]%(apply_log_wf log). split_and!; [done..|]. intros t. unfold Restore, Snapshot.
  by rewrite (state_roundtrip _ Hs).
Qed.

(** C20: Replicas agree whether they replay the whole log or start from a snapshot:
    for any log, with commands in it that are malformed or unknown, restoring
    the snapshot of the state it leads to, over any state, gives that state
    back, and applying the rest of the log leads to the state of the whole log.
    On the way every node is stored under its own identity. *)
Theorem snapshot_replay log1 log2 s0 :
  let s := apply_log log1 newClusterFSM in
  Restore (Snapshot s) s0 = (Ok tt, s) ∧
  apply_log log2 (Restore (Snapshot s) s0).2 = apply_log (log1 ++ log2) newClusterFSM ∧ keyed s.
Proof.
  intros s. destruct (apply_log_wf log1 _ newClusterFSM_wf) as [Hwf Hk].
  assert (Restore (Snapshot s) s0 = (Ok tt, s)) as Hr by (unfold Restore, Snapshot; by rewrite state_roundtrip).
  split_and!; [done| |done]. rewrite Hr. unfold s, apply_log. by rewrite foldl_app.
Qed.

(** C27: A placement is right: it is given exactly when the shard count is not zero,
    the replication is positive and there are that many healthy nodes; it then
    carries the epoch of the state, has that many different healthy nodes, best
    score first, none of the other healthy nodes scores higher than any of them,
    and its shard is the hash of the key modulo the shard count. *)
Theorem placement_correct `{SortSlice} order key shardCount replication s :
  visits order s → keyed s → (0 ≤ shardCount < two32)%Z →
  match Placement order key shardCount replication s with
  | Ok p => (0 < shardCount)%Z ∧ (0 < replication ≤ Z.of_nat (length (filter (λ n, n.(cn_Healthy) = true) order)))%Z ∧
      p.(rp_Epoch) = s.(cs_Epoch) ∧ p.(rp_Shard) = (fnv64 key `mod` shardCount)%Z ∧
      Z.of_nat (length p.(rp_Nodes)) = replication ∧
      NoDup p.(rp_Nodes) ∧ StronglySorted (λ x y, (score key y ≤ score key x)%Z) p.(rp_Nodes) ∧
      ∀ n, n ∈ p.(rp_Nodes) → healthy_in s n ∧
        ∀ m, healthy_in s m → m ∉ p.(rp_Nodes) → (score key m ≤ score key n)%Z
  | Err _ => shardCount = 0%Z ∨ (replication ≤ 0)%Z ∨
      (Z.of_nat (length (filter (λ n, n.(cn_Healthy) = true) order)) < replication)%Z
  end.
Proof.
  intros Hv Hk Hc. destruct (Placement _ _ _ _ _) as [p|e] eqn:Hp.
  - apply Placement_ok in Hp as (Hne&Hr&->). simpl. set (l := ranked order key s) in *. set (k := Z.to_nat replication).
    pose proof (ranked_sorted order key s) as Hs. fold l in Hs. rewrite <- (take_drop k l) in Hs.
    pose proof (ranked_NoDup order key s Hv Hk) as Hnd. fold l in Hnd.
    apply StronglySorted_app in Hs as (Hsep&Hs&_). split_and!.
    + lia.
    + lia.
    + rewrite <- (ranked_perm order key s). fold l. lia.
    + done.
    + unfold uint32. apply Z.mod_small. pose proof (Z.mod_pos_bound (fnv64 key) shardCount). lia.
    + rewrite length_take. lia.
    + eapply sublist_NoDup; [exact Hnd|apply sublist_take].
    + done.
    + intros n Hn. split.
      { apply (elem_of_ranked order key s n Hv Hk). fold l. rewrite <- (take_drop k l). apply elem_of_app. by left. }
      intros m Hm Hnot. apply Hsep; [done|].
      apply (elem_of_ranked order key s m Hv Hk) in Hm. fold l in Hm. rewrite <- (take_drop k l) in Hm.
      by apply elem_of_app in Hm as [?|?].
  - destruct (decide (shardCount = 0%Z)); [by left|]. destruct (decide (replication ≤ 0)%Z); [by right; left|].
    right; right. rewrite <- (ranked_perm order key s).
    destruct (decide (Z.of_nat (length (ranked order key s)) < replication)%Z) as [|Hge]; [done|].
    assert (∃ p, Placement order key shardCount replication s = Ok p) as [p Hok]; [|congruence].
    eexists. apply Placement_ok. split_and!; [done|lia|lia|reflexivity].
Qed.

(** Placement moves as little as possible: when nodes leave or become
    unhealthy, a node that held a replica of a key and is still healthy still
    holds it, provided no two healthy nodes have the same score for the key. *)
Theorem placement_stable `{SortSlice} order order' key shardCount replication s s' p p' :
  visits order s → keyed s → visits order' s' → keyed s' →
  (∀ n, healthy_in s' n → healthy_in s n) →
  (∀ n m, healthy_in s n → healthy_in s m → score key n = score key m → n = m) →
  Placement order key shardCount replication s = Ok p →
  Placement order' key shardCount replication s' = Ok p' →
  ∀ n, n ∈ p.(rp_Nodes) → healthy_in s' n → n ∈ p'.(rp_Nodes).
Proof.
  intros Hv Hk Hv' Hk' Hsub Hinj (_&_&->)%Placement_ok (_&_&->)%Placement_ok n Hn Hn'. simpl in *.
  assert (∀ o t, visits o t → keyed t → (∀ n, healthy_in t n → healthy_in s n) → NoDup (score key <$> ranked o key t)) as Hnd.
  { intros o t Ho Ht Hs. apply NoDup_fmap_2_strong; [|by apply ranked_NoDup].
    intros x y Hx Hy. apply (elem_of_ranked o key t) in Hx, Hy; [|done..]. auto. }
  apply (elem_of_top (score key)) in Hn as [_ Hlen]; [|apply ranked_sorted|by apply Hnd].
  apply (elem_of_top (score key)); [apply ranked_sorted|by apply Hnd|].
  split; [by apply elem_of_ranked|]. eapply Nat.le_lt_trans; [|exact Hlen].
  apply submseteq_length, NoDup_submseteq; [by apply NoDup_filter, ranked_NoDup|].
  intros x [Hx Hin]%list_elem_of_filter. apply list_elem_of_filter. split; [done|].
  apply (elem_of_ranked _ _ _ _ Hv' Hk') in Hin. by apply elem_of_ranked; [..|apply Hsub].
Qed.

Section membership_theorems.
Context {R : Type} (raft : RaftNode R) (fsm : R → clusterState) {laws : RaftLaws raft fsm}.
Import RaftCluster.

(** [Join] on the leader leaves exactly one server for the identity and the
    address: the servers that had either of them are removed, the new one is
    added, and the state machine has the node as healthy with the time of the
    call; if the server is in the configuration already, nothing changes. *)
Theorem join_exact id address now r :
  raft_ok r → utf8_string id = true → utf8_string address = true →
  (∀ s, s ∈ config r → conflicts id address s → s.(srv_ID) ≠ self) →
  ∃ r', Join raft id address now r = (Ok tt, r') ∧
    if decide (mkServerAddr id address ∈ config r) then r' = r
    else config r' = filter (λ s, ¬ conflicts id address s) (config r) ++ [mkServerAddr id address] ∧
      fsm r' = upsert (mkNode id address true (UnixMilli now)) (fsm r).
Proof.
  intros Hr Hi Ha Hself. unfold Join. rewrite (ok_leader _ Hr). destruct (ok_config _ Hr) as (Hc&Hnd&Hnda).
  unfold io_bind. rewrite Hc. case_decide as Hin.
  { exists r. by rewrite displace_present. }
  destruct (displace_run raft fsm id address (config r) r) as (r1&->&Hr1&Hf1&Hc1); [done..|].
  assert (config r1 = filter (λ s, ¬ conflicts id address s) (config r)) as Hc1'.
  { rewrite Hc1. apply filter_ext_in. intros s Hs. split.
    - intros Hn Hcf. apply Hn, list_elem_of_fmap_2, list_elem_of_filter. done.
    - intros Hn (s'&He&[Hcf Hs']%list_elem_of_filter)%list_elem_of_fmap. apply Hn.
      assert (s = s') as ->; [|done]. apply list_elem_of_lookup in Hs as [i Hsi], Hs' as [j Hsj].
      assert (i = j) as ->; [|congruence]. eapply NoDup_lookup; [exact Hnd|..]; rewrite list_lookup_fmap.
      + by rewrite Hsi.
      + by rewrite Hsj, He. }
  assert (∀ s, s ∈ config r1 → s.(srv_ID) ≠ id ∧ s.(srv_Address) ≠ address) as Hfree.
  { intros s. rewrite Hc1'. intros [Hs _]%list_elem_of_filter. unfold conflicts in Hs. tauto. }
  destruct (ok_add r1 id address Hr1) as (r2&->&Hr2&Hc2&Hf2).
  { intros (s&->&Hs)%list_elem_of_fmap. by apply (proj1 (Hfree s Hs)). }
  { intros (s&->&Hs)%list_elem_of_fmap. by apply (proj2 (Hfree s Hs)). }
  destruct (UpsertNode_run raft fsm (mkNode id address true (UnixMilli now)) r2) as (r3&->&Hr3&Hc3&Hf3);
    [done|split_and!; [done|done|apply int64_bounds]|].
  exists r3. split_and!; [done|by rewrite Hc3, Hc2, Hc1'|by rewrite Hf3, Hf2, Hf1].
Qed.

(** [ReapStale] marks exactly the healthy nodes whose last heartbeat is older
    than the limit, whatever order it visits them in; the others, and everything
    else about the marked ones, stay, and the epoch counts the marked nodes. *)
Theorem reap_exact order maxAge now r :
  raft_ok r → wf_state (fsm r) → keyed (fsm r) → visits (order (fsm r)) (fsm r) →
  let cutoff := UnixMilli (now + int64 (- maxAge)) in
  ∃ r', ReapStale raft fsm order maxAge now r = (Ok tt, r') ∧ config r' = config r ∧
    (fsm r').(cs_Nodes) = (λ n, if stale cutoff n then mark_unhealthy n else n) <$> (fsm r).(cs_Nodes) ∧
    (fsm r').(cs_Epoch) = uint64 ((fsm r).(cs_Epoch) +
      Z.of_nat (length (filter (λ n, stale cutoff n = true) (order (fsm r))))).
Proof.
  intros Hr [He Hw] Hk Hv cutoff. unfold ReapStale. rewrite (ok_leader _ Hr). fold cutoff.
  assert (∀ n, n ∈ order (fsm r) ↔ (fsm r).(cs_Nodes) !! n.(cn_ID) = Some n) as Hin
    by (intros n; by apply visits_elem).
  destruct (reap_run raft fsm cutoff (order (fsm r)) r Hr) as (r'&->&_&Hc&Hf).
  { apply Forall_forall. intros n Hn%Hin. by apply (Hw _ _ Hn). }
  exists r'. split_and!; [done|done| |rewrite Hf, upserts_epoch by done; by rewrite length_fmap].
  set (l := mark_unhealthy <$> filter (λ n, stale cutoff n = true) (order (fsm r))) in *.
  assert (∀ n', n' ∈ l ↔ ∃ n, n' = mark_unhealthy n ∧ stale cutoff n = true ∧ (fsm r).(cs_Nodes) !! n.(cn_ID) = Some n) as Hl.
  { intros n'. unfold l. rewrite list_elem_of_fmap. setoid_rewrite list_elem_of_filter. by setoid_rewrite Hin. }
  destruct (upserts_lookup l (fsm r)) as [H1 H2].
  { unfold l. rewrite <- list_fmap_compose. eapply sublist_NoDup; [|apply fmap_sublist, sublist_filter].
    rewrite (list_fmap_ext _ cn_ID) by done. rewrite Hv. by apply keyed_NoDup. }
  rewrite Hf. apply map_eq. intros k. rewrite lookup_fmap. destruct ((fsm r).(cs_Nodes) !! k) as [n|] eqn:Hn; simpl.
  - pose proof (Hk _ _ Hn) as Hid. destruct (stale cutoff n) eqn:Hs.
    + rewrite <- Hid. change (cn_ID n) with (cn_ID (mark_unhealthy n)). apply H1, Hl. exists n. by rewrite Hid.
    + rewrite H2, Hn; [done|]. intros (n'&->&(m&->&Hm&Hmn)%Hl)%list_elem_of_fmap. simpl in Hn. congruence.
  - rewrite H2, Hn; [done|]. intros (n'&->&(m&->&Hm&Hmn)%Hl)%list_elem_of_fmap. simpl in Hn. congruence.
Qed.
End membership_theorems.

(** Reaping can undo a heartbeat: [ReapStale] decides on a copy of the state
    and writes back whole nodes, so that a heartbeat committed between the copy
    and the write is lost: the node ends up unhealthy, with its old time stamp. *)
Theorem reap_overwrites_heartbeat s n address now cutoff :
  wf_node n → utf8_string address = true → s.(cs_Nodes) !! n.(cn_ID) = Some n →
  RaftCluster.stale cutoff n = true → (cutoff ≤ UnixMilli now)%Z →
  let heartbeat := marshal_command (mkCommand "upsert" (mkNode n.(cn_ID) address true (UnixMilli now))) in
  let written := marshal_command (mkCommand "upsert" (RaftCluster.mark_unhealthy n)) in
  (apply_log [heartbeat] s).(cs_Nodes) !! n.(cn_ID) = Some (mkNode n.(cn_ID) address true (UnixMilli now)) ∧
  (apply_log [heartbeat; written] s).(cs_Nodes) !! n.(cn_ID) = Some (RaftCluster.mark_unhealthy n).
Proof.
  intros (Hi&Ha&Hh) Had Hn Hs Hc. unfold apply_log. cbn [foldl].
  assert (wf_node (mkNode n.(cn_ID) address true (UnixMilli now))) by (split_and!; [done|done|apply int64_bounds]).
  assert (wf_node (RaftCluster.mark_unhealthy n)) by by split_and!.
  rewrite !Apply_upsert by done. cbn. by rewrite !lookup_insert_eq.
Qed.

(** * Closed instances *)

Definition not_less {A} (less : A → A → bool) (x y : A) : Prop := less y x = false.
#[local] Instance not_less_dec {A} (less : A → A → bool) : RelDecision (not_less less) := λ x y, decide (less y x = false).

#[local] Program Instance ex_sort : SortSlice := {| sort_Slice A less l := merge_sort (not_less less) l |}.
Next Obligation. intros. apply merge_sort_Permutation. Qed.
Next Obligation.
  intros A less l Ht Hn Hi.
  assert (Transitive (not_less less)) by (intros x y z Hyx Hzy; by apply (Hn z y x)).
  assert (Total (not_less less)).
  { intros x y. unfold not_less. destruct (less y x) eqn:E; [|by left]. right. destruct (less x y) eqn:E'; [|done].
    specialize (Hi y). by rewrite (Ht _ _ _ E E') in Hi. }
  apply (StronglySorted_merge_sort (not_less less)); apply _.
Qed.

(** A Raft group of servers that commits at once. *)
Definition ex_group : Type := list server * clusterState.
Definition ex_raft : RaftNode ex_group := {|
  raft_IsLeader _ := true;
  raft_GetConfiguration r := (Ok r.1, r);
  raft_RemoveServer id r := (Ok tt, (filter (λ s, s.(srv_ID) ≠ id) r.1, r.2));
  raft_AddVoter id address r := (Ok tt, (r.1 ++ [mkServerAddr id address], r.2));
  raft_Apply data r := (Ok tt, (r.1, (Apply data r.2).2));
|}.
#[local] Program Instance ex_raft_laws : RaftLaws ex_raft snd := {|
  self := "n1"; raft_ok r := NoDup (srv_ID <$> r.1) ∧ NoDup (srv_Address <$> r.1); config := fst;
|}.
Next Obligation. done. Qed.
Next Obligation. by intros [c s]. Qed.
Next Obligation. intros [c s] data Hr. by eexists. Qed.
Next Obligation.
  intros [c s] id [H1 H2] _. eexists. split_and!; [done| | |done|done];
    (eapply sublist_NoDup; [|apply fmap_sublist, sublist_filter]; done).
Qed.
Next Obligation.
  intros [c s] id address [H1 H2] Hi Ha. eexists. split_and!; [done| | |done|done]; simpl;
    rewrite fmap_app; apply NoDup_app; (split_and!; [done| |apply NoDup_singleton]);
    by intros x Hx ->%list_elem_of_singleton.
Qed.

Definition ex_node (id : string) (ms : Z) : ClusterNode := mkNode id (id ++ ":7000") true ms.
Definition ex_cluster : clusterState :=
  upsert (ex_node "n3" 3000) (upsert (ex_node "n2" 2000) (upsert (ex_node "n1" 1000) newClusterFSM)).
Definition ex_reduced : clusterState := remove "n2" ex_cluster.
Definition ex_order (s : clusterState) : list ClusterNode := (map_to_list s.(cs_Nodes)).*2.

Lemma ex_keyed : wf_state ex_cluster ∧ keyed ex_cluster.
Proof.
  split; [split; [done|]|]; repeat (apply map_Forall_insert_2; [first [done | by split_and!]|]); apply map_Forall_empty.
Qed.
Lemma ex_reduced_keyed : keyed ex_reduced.
Proof. apply map_Forall_delete, ex_keyed. Qed.
Lemma ex_visits s : visits (ex_order s) s.
Proof. unfold visits, ex_order. reflexivity. Qed.

Lemma ex_healthy n :
  healthy_in ex_cluster n → n ∈ [ex_node "n1" 1000; ex_node "n2" 2000; ex_node "n3" 3000].
Proof.
  intros [H _]. unfold ex_cluster, upsert in H. cbn [cs_Nodes] in H.
  repeat (apply lookup_insert_Some in H as [[_ <-]|[_ H]]; [set_solver|]). done.
Qed.

Lemma placement_correct_witness :
  is_ok (Placement (ex_order ex_cluster) "order-1" 16 2 ex_cluster) = true ∧
  match Placement (ex_order ex_cluster) "order-1" 16 2 ex_cluster with
  | Ok p => Z.of_nat (length p.(rp_Nodes)) = 2%Z
  | Err _ => False
  end.
Proof.
  pose proof (placement_correct (ex_order ex_cluster) "order-1" 16 2 ex_cluster (ex_visits _) (proj2 ex_keyed)
    ltac:(unfold two32; lia)) as H.
  assert (is_ok (Placement (ex_order ex_cluster) "order-1" 16 2 ex_cluster) = true) as Hok by (vm_compute; reflexivity).
  split; [exact Hok|]. destruct (Placement _ _ _ _ _) as [p|]; [|discriminate Hok]. apply H.
Defined.

Definition ex_placed (s : clusterState) : ReplicaPlacement :=
  match Placement (ex_order s) "order-1" 16 2 s with Ok p => p | Err _ => mkPlacement 0 0 [] end.

Lemma placement_stable_witness : ex_node "n1" 1000 ∈ (ex_placed ex_reduced).(rp_Nodes).
Proof.
  apply (placement_stable (ex_order ex_cluster) (ex_order ex_reduced) "order-1" 16 2 ex_cluster ex_reduced (ex_placed ex_cluster)).
  - apply ex_visits.
  - apply ex_keyed.
  - apply ex_visits.
  - apply ex_reduced_keyed.
  - intros n [H Hh]. unfold ex_reduced, remove in H. cbn [cs_Nodes] in H. apply lookup_delete_Some in H as [_ H]. by split.
  - intros n m Hn%ex_healthy Hm%ex_healthy. rewrite !elem_of_cons in Hn, Hm.
    destruct Hn as [->|[->|[->|[]%not_elem_of_nil]]]; destruct Hm as [->|[->|[->|[]%not_elem_of_nil]]];
      first [intros _; reflexivity | vm_compute; discriminate].
  - vm_compute. reflexivity.
  - vm_compute. reflexivity.
  - vm_compute. constructor.
  - split; vm_compute; reflexivity.
Defined.

Lemma join_exact_witness :
  ∃ r', RaftCluster.Join ex_raft "n4" "n4:7000" 5000000000 ([mkServerAddr "n1" "n1:7000"], ex_cluster) = (Ok tt, r').
Proof.
  destruct (join_exact ex_raft snd "n4" "n4:7000" 5000000000 ([mkServerAddr "n1" "n1:7000"], ex_cluster)) as (r'&H&_).
  - split; apply NoDup_singleton.
  - reflexivity.
  - reflexivity.
  - intros s Hs [He|He]; apply list_elem_of_singleton in Hs as ->; discriminate He.
  - exists r'. exact H.
Defined.

Lemma reap_exact_witness :
  ∃ r', RaftCluster.ReapStale ex_raft snd ex_order Second (3 * Second) ([mkServerAddr "n1" "n1:7000"], ex_cluster) = (Ok tt, r').
Proof.
  destruct (reap_exact ex_raft snd ex_order Second (3 * Second) ([mkServerAddr "n1" "n1:7000"], ex_cluster)) as (r'&H&_).
  - split; apply NoDup_singleton.
  - apply ex_keyed.
  - apply ex_keyed.
  - apply ex_visits.
  - exists r'. exact H.
Defined.

Lemma reap_overwrites_heartbeat_witness :
  (apply_log [marshal_command (mkCommand "upsert" (mkNode "n1" "n1:7000" true 5000))] ex_cluster).(cs_Nodes) !! "n1" =
    Some (mkNode "n1" "n1:7000" true 5000).
Proof.
  exact (proj1 (reap_overwrites_heartbeat ex_cluster (ex_node "n1" 1000) "n1:7000" 5000000000 2000
    ltac:(by split_and!) eq_refl eq_refl eq_refl ltac:(vm_compute; discriminate))).
Defined.

Lemma cluster_state_typed_witness :
  keyed (apply_log [to_bytes "{"; marshal_command (mkCommand "upsert" (ex_node "n9" 7))] ex_cluster) ∧
  size (apply_log [to_bytes "{"; marshal_command (mkCommand "upsert" (ex_node "n9" 7))] ex_cluster).(cs_Nodes) = 4.
Proof.
  split; [|vm_compute; reflexivity].
  exact (proj1 (proj2 (cluster_state_typed [to_bytes "{"; marshal_command (mkCommand "upsert" (ex_node "n9" 7))] ex_cluster ex_keyed))).
Defined.
