(* ===== verification/Replication.v ===== *)
(** * Replication: [Replicate] of cluster_raft.go into the stores of the replicas

    A replica receives what [Replicate] publishes through the handler
    [BindTransport] subscribes.  An application of a shard operation is identified
    by its shard, key and fencing token; retries differ in the id and the times of
    their envelopes. *)

From Stdlib Require Import ZArith NArith Lia Ascii String DecimalString.
From stdpp Require Import base list gmap sets strings.
From S2P Require Import Prelude GoRegexp JsonScan Utf8 JsonText JsonRoundtrip JsonValues Sha256 Model Json Db Store StoreSteps.
From S2P Require Import StoreTheorems Transport Server ServerTheorems Cluster.
Import Sql.

(** One call of [Replicate] and the clock of the replica that receives it. *)
Record replication := mkReplication {
  rn_apply : ReplicaApply; rn_correlation : string; rn_now : Z; rn_now' : Z; rn_at : Z }.

Definition operation (x : replication) : Z * string * Z :=
  (x.(rn_apply).(ra_Shard), x.(rn_apply).(ra_Key), x.(rn_apply).(ra_FencingToken)).

(** The envelope of the call, as the replica gets it. *)
Definition envelope_of (x : replication) : Envelope :=
  replica_envelope x.(rn_apply) x.(rn_correlation) x.(rn_now) x.(rn_now') (value_or [] (marshal_replica x.(rn_apply))).

Section replicas.
Context {E : Type}.

Definition replicate_one (x : replication) : io (Server.state E) (result ()) :=
  Replicate (Server.bound_handler x.(rn_at)) x.(rn_apply) x.(rn_correlation) x.(rn_now) x.(rn_now').
End replicas.


(** The row a call leaves when it is the first. *)
Definition replica_row (x : replication) : event_row :=
  let env := envelope_of x in
  EventRow env.(env_IdempotencyKey) env.(env_Event) (value_or [] (json_Marshal env)) DeliveryPublished None None 0 0
    env.(env_CreatedAtMS) (UnixMilli x.(rn_at)).
Definition replica_table (xs : list replication) : gmap string event_row :=
  list_to_map ((λ x, ((envelope_of x).(env_ID), replica_row x)) <$> xs).

(** The call publishes something a store takes and can give back. *)
Definition deliverable (x : replication) : bool :=
  is_ok (marshal_replica x.(rn_apply)) && is_ok (Validate (envelope_of x)) && wf_text (envelope_of x).

(** * Lemmas *)

Lemma decimal_no_colon z : ":"%char ∉ to_bytes (decimal z).
Proof.
  unfold decimal, format_int, to_bytes, of_bytes. rewrite list_ascii_of_string_of_list_ascii.
  assert (∀ d, ":"%char ∉ list_ascii_of_string (NilEmpty.string_of_uint d)) as He.
  { intros d. induction d; cbn; rewrite ?not_elem_of_cons; try done; apply not_elem_of_nil. }
  assert (∀ d, ":"%char ∉ list_ascii_of_string (NilZero.string_of_uint d)) as H0.
  { intros d. unfold NilZero.string_of_uint. destruct d; try apply He; cbn; rewrite not_elem_of_cons; split; [done|apply not_elem_of_nil]. }
  destruct (Z.to_int z) as [d|d]; cbn; [apply H0|]. rewrite not_elem_of_cons. done.
Qed.

Lemma decimal_inj z1 z2 : decimal z1 = decimal z2 → z1 = z2.
Proof.
  unfold decimal. intros H. pose proof (int_of_format z1) as H1. rewrite H, int_of_format in H1. by injection H1.
Qed.

(** Splitting at the first and at the last separator. *)
Lemma split_first (c : ascii) l1 l2 k1 k2 : c ∉ l1 → c ∉ l2 → l1 ++ c :: k1 = l2 ++ c :: k2 → l1 = l2 ∧ k1 = k2.
Proof.
  revert l2. induction l1 as [|a l1 IH]; intros [|b l2] H1 H2 Heq; simplify_eq/=; try done.
  - by rewrite not_elem_of_cons in H2; destruct H2.
  - by rewrite not_elem_of_cons in H1; destruct H1.
  - rewrite not_elem_of_cons in H1, H2. destruct (IH l2) as [-> ->]; [apply H1|apply H2|done|done].
Qed.

Lemma split_last (c : ascii) l1 l2 k1 k2 : c ∉ k1 → c ∉ k2 → l1 ++ c :: k1 = l2 ++ c :: k2 → l1 = l2 ∧ k1 = k2.
Proof.
  intros H1 H2 Heq. apply (f_equal reverse) in Heq. rewrite !reverse_app, !reverse_cons, <- !app_assoc in Heq. simpl in Heq.
  apply split_first in Heq as [Hk Hl]; [|by rewrite elem_of_reverse..].
  split; by apply (inj reverse).
Qed.

(** The idempotency key says exactly which operation it is. *)
Lemma replica_key_inj x y :
  (envelope_of x).(env_IdempotencyKey) = (envelope_of y).(env_IdempotencyKey) ↔ operation x = operation y.
Proof.
  unfold envelope_of, replica_envelope, operation. cbn [env_IdempotencyKey]. split; [|by intros [= -> -> ->]].
  intros H. apply (f_equal to_bytes) in H. rewrite !to_bytes_app in H. cbn [to_bytes list_ascii_of_string app] in H.
  injection H as H. apply split_first in H as [Hs H]; [|apply decimal_no_colon..].
  apply split_last in H as [Hk Ht]; [|apply decimal_no_colon..].
  assert (∀ s t, to_bytes s = to_bytes t → s = t) as Hinj.
  { intros s t Hst. apply (f_equal of_bytes) in Hst. unfold to_bytes, of_bytes in Hst. by rewrite !string_of_list_ascii_of_string in Hst. }
  apply Hinj, decimal_inj in Hs. apply Hinj in Hk. apply Hinj, decimal_inj in Ht. by rewrite Hs, Hk, Ht.
Qed.

Lemma replica_table_inv xs id r :
  replica_table xs !! id = Some r → ∃ x, x ∈ xs ∧ id = (envelope_of x).(env_ID) ∧ r = replica_row x.
Proof. intros H%elem_of_list_to_map_2. apply list_elem_of_fmap in H as (x&[= -> ->]&Hx). by exists x. Qed.

Lemma replica_table_elem xs x :
  NoDup (env_ID ∘ envelope_of <$> xs) → x ∈ xs → replica_table xs !! (envelope_of x).(env_ID) = Some (replica_row x).
Proof.
  intros Hnd Hx. apply elem_of_list_to_map_1; [by rewrite <- list_fmap_compose|].
  apply list_elem_of_fmap. by exists x.
Qed.


Lemma deliverable_ok x :
  deliverable x = true → ∃ raw, Validate (envelope_of x) = Ok tt ∧ json_Marshal (envelope_of x) = Ok raw ∧
    is_ok (json_Unmarshal raw) = true ∧
    ∀ E, replicate_one (E:=E) x = Server.bound_handler x.(rn_at) (envelope_of x).
Proof.
  unfold deliverable, replicate_one, Replicate, envelope_of. intros Hd. bool_prop. destruct (marshal_replica _) as [p|]; [|done]. simpl value_or in *.
  destruct (Validate _) as [[]|] eqn:Hv; [|done].
  pose proof (codec_total _ (proj2 (proj2 (proj2 (proj2 (proj2 (proj2 (proj1 (Validate_ok _) Hv)))))))) as Hm.
  destruct (json_Marshal _) as [raw|] eqn:Hraw; [|done]. exists raw. split_and!; try done.
  by erewrite codec_roundtrip.
Qed.


Section run.
Context {E : Type}.

(** One call on a store that holds what came before: a retry and a new operation
    succeed, a new operation whose id is taken fails. *)
Definition clash (before : list replication) (x : replication) : Prop :=
  (operation x ∉ operation <$> before) ∧ ((envelope_of x).(env_ID) ∈ env_ID ∘ envelope_of <$> before).
#[global] Instance clash_dec before x : Decision (clash before x) := _.





End run.

(** *** First calls *)



(** * Theorems *)


(** The id of a replication is its clock reading and its shard: of two calls for
    different keys of a shard at the same reading, the second is refused by a
    replica that has the first, and is not stored. *)
Theorem replica_id_collision {E} x y d hub (e : E) :
  deliverable x = true → deliverable y = true → d.(events) = replica_table [x] → operation y ≠ operation x →
  y.(rn_now) = x.(rn_now) → y.(rn_apply).(ra_Shard) = x.(rn_apply).(ra_Shard) →
  ∃ err, replicate_one y (Server.mkServer (World d []) hub e) = (Err err, Server.mkServer (World d []) hub e).
Proof.
  intros Hx Hy Hd Hop Hnow Hsh. destruct (deliverable_ok y Hy) as (raw&Hv&Hm&_&Hone). rewrite Hone.
  assert ((envelope_of y).(env_ID) = (envelope_of x).(env_ID)) as Hid.
  { unfold envelope_of, replica_envelope. simpl. by rewrite Hnow, Hsh. }
  assert (d.(events) !! (envelope_of y).(env_ID) = Some (replica_row x)) as Hrow.
  { rewrite Hd, Hid. apply replica_table_elem; [apply NoDup_singleton|by constructor]. }
  assert (by_key (envelope_of y).(env_IdempotencyKey) d = None) as Hk.
  { apply by_key_None. rewrite Hd. intros id r (z&Hz&_&->)%replica_table_inv Hkey. apply list_elem_of_singleton in Hz as ->.
    apply Hop. symmetry. by apply replica_key_inj. }
  unfold Server.bound_handler, io_bind, io_ret, Server.on_store. cbn [Server.sv_store Server.sv_hub Server.sv_ext].
  rewrite (publish_id_conflict d _ raw _ (replica_row x)) by done. by eexists.
Qed.

(** * Closed instances: an operation, its retry with another payload, and the same
    key with a newer token. *)

Definition ex_replica (token now : Z) (payload : string) : replication :=
  mkReplication (mkReplicaApply 3 "users:7" token (to_bytes payload)) "corr" now now (now + Second).


Lemma replica_id_collision_witness :
  let d := ControlDB (replica_table [ex_replica 1 (5 * Second) "{}"]) ∅ [] [] 0 in
  ∃ err, replicate_one (ex_replica 2 (5 * Second) "{}") (Server.mkServer (World d []) Hub.NewHub 0) =
    (Err err, Server.mkServer (World d []) Hub.NewHub 0).
Proof.
  intros d. apply (replica_id_collision (ex_replica 1 (5 * Second) "{}") (ex_replica 2 (5 * Second) "{}") d Hub.NewHub 0);
    [vm_compute; reflexivity|vm_compute; reflexivity|reflexivity|discriminate|reflexivity|reflexivity].
Defined.
