(* ===== verification/Dpop.v ===== *)
(** * DPoP proofs of HTTP requests: dpop.go

    [DPoPVerifier.Verify] over the JOSE library, which is not part of the
    repository: [Jose] is what the code calls of it, [JoseLaws] what a client's
    use of it guarantees.  Instants are in nanoseconds; [iat] is in seconds. *)

From Stdlib Require Import ZArith NArith Lia Ascii String.
From stdpp Require Import base list gmap sets strings.
From S2P Require Import Prelude GoRegexp JsonScan Utf8 JsonText JsonRoundtrip JsonValues Sha256 Model Json Crypto CryptoTheorems.

(** ** go-jose *)

(** A protected header: the embedded key, and [fmt.Sprint] of the [typ] member
    if there is one. *)
Record jwsHeader (JWK : Type) := mkJwsHeader { hdr_JSONWebKey : option JWK; hdr_typ : option string }.
Arguments mkJwsHeader {JWK} _ _.
Arguments hdr_JSONWebKey {JWK} _.
Arguments hdr_typ {JWK} _.

Class Jose := {
  JWK : Type;
  JWS : Type;
  ParseSigned : string → list string → result JWS;
  Signatures : JWS → list (jwsHeader JWK);
  jws_Verify : JWS → JWK → result bytes;
  jwk_Valid : JWK → bool;
  jwk_IsPublic : JWK → bool;
  jwk_Marshal : JWK → result bytes;
}.

(** ** Text *)

(** [strings.EqualFold] where one side is ASCII, as methods and media types are. *)
Definition EqualFold (s t : string) : bool :=
  bool_decide (fold_name (to_bytes s) = fold_name (to_bytes t)).

(** [base64.RawURLEncoding]: the URL alphabet, no padding. *)
Definition url_char (c : ascii) : ascii :=
  if is_char "+" c then "-"%char else if is_char "/" c then "_"%char else c.
Definition RawURLEncoding (b : bytes) : string :=
  of_bytes (url_char <$> filter (λ c, c ≠ "="%char) (b64_encode b)).

(** ** Claims *)

Record dpopClaims := mkClaims {
  dc_JTI : string; dc_HTM : string; dc_HTU : string; dc_IAT : Z; dc_ATH : string; dc_Nonce : string }.

Definition zero_claims : dpopClaims := mkClaims "" "" "" 0 "" "".

Definition claims_fields : fields dpopClaims :=
  [("jti", λ v '(mkClaims a b c d e f), try x := string_into v a in Ok (mkClaims x b c d e f));
   ("htm", λ v '(mkClaims a b c d e f), try x := string_into v b in Ok (mkClaims a x c d e f));
   ("htu", λ v '(mkClaims a b c d e f), try x := string_into v c in Ok (mkClaims a b x d e f));
   ("iat", λ v '(mkClaims a b c d e f), try x := int64_into v d in Ok (mkClaims a b c x e f));
   ("ath", λ v '(mkClaims a b c d e f), try x := string_into v e in Ok (mkClaims a b c d x f));
   ("nonce", λ v '(mkClaims a b c d e f), try x := string_into v f in Ok (mkClaims a b c d e x))].

(** ** The verifier *)

Module DPoPVerifier.
Record state := mkVerifier { seen : gmap string Z; MaxSkew : Z }.

Definition NewDPoPVerifier : state := mkVerifier ∅ (5 * Minute).

Section verifier.
Context {jose : Jose}.

(** From the token to the embedded key and the claims it signs. *)
Definition open_proof (token : string) : result (JWK * dpopClaims) :=
  try obj := ParseSigned token ["ES256"; "EdDSA"] in
  match Signatures obj with
  | [header] =>
    match header.(hdr_JSONWebKey) with
    | None => Err (ErrNew "DPoP requires an embedded public JWK")
    | Some key =>
      if negb (jwk_Valid key) || negb (jwk_IsPublic key)
      then Err (ErrNew "DPoP requires an embedded public JWK")
      else if match header.(hdr_typ) with Some typ => negb (EqualFold typ "dpop+jwt") | None => false end
      then Err (ErrNew "invalid DPoP typ")
      else match jws_Verify obj key with
      | Err e => Err (ErrFmt "DPoP signature: %w" [])
      | Ok payload =>
        try claims := unmarshal_struct false claims_fields zero_claims payload in
        Ok (key, claims)
      end
    end
  | _ => Err (ErrNew "DPoP must contain exactly one signature")
  end.

(** [skew := v.MaxSkew; if skew <= 0 { skew = 5*time.Minute }]. *)
Definition window (maxSkew : Z) : Z := if (maxSkew <=? 0)%Z then 5 * Minute else maxSkew.

Definition access_hash (accessToken : string) : string := RawURLEncoding (Sum256 (to_bytes accessToken)).

(** The checks of the claims against the request. *)
Definition check_claims (claims : dpopClaims) (method target accessToken : string) (now skew : Z) : result () :=
  if bool_decide (claims.(dc_JTI) = "") || bool_decide (claims.(dc_HTM) = "")
     || bool_decide (claims.(dc_HTU) = "") || (claims.(dc_IAT) =? 0)%Z
  then Err (ErrNew "incomplete DPoP claims")
  else if negb (EqualFold claims.(dc_HTM) method) || negb (bool_decide (claims.(dc_HTU) = target))
  then Err (ErrNew "DPoP request binding mismatch")
  else
    let issued := of_Unix claims.(dc_IAT) in
    if (skew <? Sub now issued)%Z || (skew <? Sub issued now)%Z
    then Err (ErrNew "DPoP proof outside freshness window")
    else if negb (bool_decide (accessToken = "")) && negb (bool_decide (claims.(dc_ATH) = access_hash accessToken))
    then Err (ErrNew "DPoP ath mismatch")
    else Ok tt.

Definition replay_key (jwkRaw : bytes) (jti : string) : string :=
  (RawURLEncoding (Sum256 jwkRaw) ++ ":" ++ jti)%string.

(** What happens under the mutex: sweep, look up, remember. *)
Definition remember (key : string) (iat now : Z) (v : state) : result () * state :=
  let cutoff := Unix (now + int64 (-2 * window v.(MaxSkew))) in
  let swept := sweep cutoff v.(seen) in
  match swept !! key with
  | Some _ => (Err (ErrNew "replayed DPoP proof"), mkVerifier swept v.(MaxSkew))
  | None => (Ok tt, mkVerifier (<[key := iat]> swept) v.(MaxSkew))
  end.

Definition Verify (token method target accessToken : string) (now : Z) : io state (result ()) := λ v,
  match open_proof token with
  | Err e => (Err e, v)
  | Ok (key, claims) =>
    match check_claims claims method target accessToken now (window v.(MaxSkew)) with
    | Err e => (Err e, v)
    | Ok _ =>
      match jwk_Marshal key with
      | Err e => (Err e, v)
      | Ok jwkRaw => remember (replay_key jwkRaw claims.(dc_JTI)) claims.(dc_IAT) now v
      end
    end
  end.
End verifier.
End DPoPVerifier.

(** ** A client

    [sign_jwt k typ payload] is the compact serialisation a client library makes
    with the private key [k] whose public half [public k] it embeds. *)
Class JoseLaws (jose : Jose) := {
  Private : Type;
  public : Private → JWK;
  sign_jwt : Private → string → bytes → string;
  public_valid k : jwk_Valid (public k) = true ∧ jwk_IsPublic (public k) = true;
  public_marshal k : is_ok (jwk_Marshal (public k)) = true;
  sign_parse k typ payload :
    ∃ obj, ParseSigned (sign_jwt k typ payload) ["ES256"; "EdDSA"] = Ok obj ∧
      Signatures obj = [mkJwsHeader (Some (public k)) (Some typ)] ∧
      jws_Verify obj (public k) = Ok payload;
}.

(** The claims a client writes; [ath] and [nonce] are left out when empty. *)
Definition marshal_claims (c : dpopClaims) : bytes :=
  object ([("jti", quote c.(dc_JTI)); ("htm", quote c.(dc_HTM)); ("htu", quote c.(dc_HTU));
           ("iat", format_int c.(dc_IAT))] ++
          (if decide (c.(dc_ATH) = "") then [] else [("ath", quote c.(dc_ATH))]) ++
          (if decide (c.(dc_Nonce) = "") then [] else [("nonce", quote c.(dc_Nonce))])).

Section client.
Context {jose : Jose} {laws : JoseLaws jose}.

(** The proof a client sends with a request. *)
Definition client_proof (k : Private) (jti method target accessToken : string) (now : Z) : string :=
  sign_jwt k "dpop+jwt" (marshal_claims
    (mkClaims jti method target (Unix now)
      (if decide (accessToken = "") then "" else DPoPVerifier.access_hash accessToken) "")).
End client.
