(* ===== verification/DpopTheorems.v ===== *)
(** * DPoP: what an accepted proof shows, and that it is accepted once *)

From Stdlib Require Import ZArith NArith Lia Ascii String.
From stdpp Require Import base list gmap sets strings.
From S2P Require Import Prelude GoRegexp JsonScan Utf8 JsonText JsonRoundtrip JsonValues Sha256 Model Json Crypto CryptoTheorems Dpop.
Import DPoPVerifier.

(** ** Lemmas *)

Lemma Sub_bounds t u skew :
  (0 ≤ skew < two63 - 1)%Z →
  (skew <? Sub t u)%Z = false ∧ (skew <? Sub u t)%Z = false ↔ (- skew ≤ t - u ≤ skew)%Z.
Proof. unfold Sub, two63. rewrite !Z.ltb_ge. lia. Qed.

Lemma window_range v : (MaxSkew v < two63 - 1)%Z → (0 ≤ window (MaxSkew v) < two63 - 1)%Z.
Proof.
  unfold window. destruct (Z.leb_spec (MaxSkew v) 0); unfold two63, Minute, Second in *; lia.
Qed.

Section checks.
Context {jose : Jose}.

Lemma open_proof_ok token key claims :
  open_proof token = Ok (key, claims) ↔
  ∃ obj typ payload,
    ParseSigned token ["ES256"; "EdDSA"] = Ok obj ∧
    Signatures obj = [mkJwsHeader (Some key) typ] ∧ jwk_Valid key = true ∧ jwk_IsPublic key = true ∧
    (∀ t, typ = Some t → EqualFold t "dpop+jwt" = true) ∧
    jws_Verify obj key = Ok payload ∧ unmarshal_struct false claims_fields zero_claims payload = Ok claims.
Proof.
  unfold open_proof. split.
  - destruct (ParseSigned _ _) as [obj|]; [|done].
    destruct (Signatures obj) as [|[k typ] [|]] eqn:Hs; [done| |done]. simpl.
    destruct k as [k|]; [|done]. destruct (_ || _) eqn:Hk; [done|]. bool_prop.
    intros Hr. exists obj, typ. destruct typ as [t|]; [destruct (EqualFold t _) eqn:Ht; [|done]|]; simpl in Hr;
      (destruct (jws_Verify obj k) as [payload|] eqn:Hver; [|done]); exists payload;
      (destruct (unmarshal_struct _ _ _ _) eqn:Hu; [|done]); injection Hr as -> ->; split_and!; try done.
    by intros ? [= <-].
  - intros (obj&typ&payload&->&->&Hv&Hp&Ht&Hver&Hu). simpl. rewrite Hv, Hp. simpl.
    destruct typ as [t|]; [rewrite (Ht t eq_refl)|]; simpl; by rewrite Hver, Hu.
Qed.

Lemma check_claims_ok c method target access now skew :
  (0 ≤ skew < two63 - 1)%Z →
  check_claims c method target access now skew = Ok tt ↔
  c.(dc_JTI) ≠ "" ∧ c.(dc_HTM) ≠ "" ∧ c.(dc_HTU) ≠ "" ∧ c.(dc_IAT) ≠ 0%Z ∧
  EqualFold c.(dc_HTM) method = true ∧ c.(dc_HTU) = target ∧
  (- skew ≤ now - of_Unix c.(dc_IAT) ≤ skew)%Z ∧ (access ≠ "" → c.(dc_ATH) = access_hash access).
Proof.
  intros Hs. unfold check_claims. rewrite <- (Sub_bounds _ _ _ Hs). split.
  - destruct (_ || (_ =? 0)%Z) eqn:E1; [done|]. destruct (_ || negb (bool_decide (_ = target))) eqn:E2; [done|].
    destruct (_ || (skew <? _)%Z) eqn:E3; [intros [=]|]. destruct (_ && _) eqn:E4; [done|].
    apply orb_false_iff in E1 as [E1 EI%Z.eqb_neq], E3 as [E3 E3']. intros _. split_and!; try first [done|by bool_prop].
    intros Ha. rewrite bool_decide_eq_false_2 in E4 by done. simpl in E4. by bool_prop.
  - intros (HJ&HM&HU&HI&HE&HT&[HF HF']&HA).
    rewrite (bool_decide_eq_false_2 _ HJ), (bool_decide_eq_false_2 _ HM), (bool_decide_eq_false_2 _ HU), HE, HF, HF'.
    apply Z.eqb_neq in HI as ->. rewrite (bool_decide_eq_true_2 _ HT). simpl.
    destruct (decide (access = "")) as [->|Ha]; [done|].
    by rewrite (bool_decide_eq_false_2 (access = "") Ha), (bool_decide_eq_true_2 _ (HA Ha)).
Qed.

(** ** The replay cache *)

(** What the cache identifies a proof by, and the time it claims. *)
Definition proof_id (token : string) : option (bytes * string * Z) :=
  match open_proof token with
  | Ok (key, c) => match jwk_Marshal key with Ok raw => Some (raw, c.(dc_JTI), c.(dc_IAT)) | Err _ => None end
  | Err _ => None
  end.

Lemma cutoff_seconds now skew iat :
  (0 ≤ skew < two62)%Z → int64_range now →
  ¬ (Unix (now + int64 (-2 * skew)) ≤ iat)%Z → (of_Unix iat + 2 * skew < now)%Z.
Proof.
  intros Hs Hn. rewrite int64_id by (unfold int64_range, two62, two63 in *; lia).
  unfold Unix. rewrite int64_id.
  - intros H%Z.nle_gt. unfold of_Unix, Second in *.
    pose proof (Z.mul_div_le (now + -2 * skew) 1000000000 ltac:(lia)). lia.
  - unfold int64_range, two62, two63, Second in *. split.
    + apply Z.div_le_lower_bound; lia.
    + apply Z.div_lt_upper_bound; lia.
Qed.

(** A proof is spent when the cache holds it, or it is stale by [now2]. *)
Definition dpop_spent (id : bytes * string * Z) (now2 : Z) (v : state) : Prop :=
  let '(raw, jti, iat) := id in
  v.(seen) !! replay_key raw jti = Some iat ∨ (of_Unix iat + window v.(MaxSkew) < now2)%Z.

Lemma remember_MaxSkew key iat now v : (remember key iat now v).2.(MaxSkew) = v.(MaxSkew).
Proof. unfold remember. by destruct (_ !! _). Qed.

Lemma Verify_MaxSkew token method target access now v :
  (Verify token method target access now v).2.(MaxSkew) = v.(MaxSkew).
Proof.
  unfold Verify. destruct (open_proof token) as [[k c]|]; [|done]. destruct (check_claims _ _ _ _ _ _); [|done].
  destruct (jwk_Marshal k); [|done]. apply remember_MaxSkew.
Qed.

Lemma remember_spent id now2 key iat now v :
  (window v.(MaxSkew) < two62)%Z → (0 < window v.(MaxSkew))%Z → int64_range now →
  (now - window v.(MaxSkew) ≤ now2)%Z →
  dpop_spent id now2 v → dpop_spent id now2 (remember key iat now v).2.
Proof.
  destruct id as [[raw jti] t]. unfold dpop_spent. rewrite remember_MaxSkew.
  intros Hs Hp Hn Hc [Hin|Hold]; [|by right]. unfold remember. set (cut := Unix _).
  destruct (decide (cut ≤ t)%Z) as [Hle|Hle].
  - left. assert (sweep cut (seen v) !! replay_key raw jti = Some t) as Hk by (by apply map_lookup_filter_Some).
    destruct (sweep cut (seen v) !! key) eqn:E; simpl; [done|].
    rewrite lookup_insert_ne; [done|]. intros ->. congruence.
  - right. apply cutoff_seconds in Hle; [lia|lia|done].
Qed.

(** A request as the verifier sees it. *)
Record request := mkRequest { rq_token : string; rq_method : string; rq_target : string; rq_access : string; rq_now : Z }.
Definition verify (r : request) : io state (result ()) :=
  Verify r.(rq_token) r.(rq_method) r.(rq_target) r.(rq_access) r.(rq_now).
Definition verify_all (rs : list request) (v : state) : state := foldl (λ v r, (verify r v).2) v rs.

Lemma verify_spent id now2 r v :
  (0 < window v.(MaxSkew) < two62)%Z → int64_range r.(rq_now) → (r.(rq_now) - window v.(MaxSkew) ≤ now2)%Z →
  dpop_spent id now2 v → dpop_spent id now2 (verify r v).2.
Proof.
  intros Hw Hn Hc Hs. unfold verify, Verify. destruct (open_proof _) as [[k c]|]; [|done].
  destruct (check_claims _ _ _ _ _ _); [|done]. destruct (jwk_Marshal k); [|done].
  by apply remember_spent; [destruct Hw..|done|done|done].
Qed.

Lemma verify_all_spent id now2 rs v :
  (0 < window v.(MaxSkew) < two62)%Z →
  Forall (λ r, int64_range r.(rq_now) ∧ (r.(rq_now) - window v.(MaxSkew) ≤ now2)%Z) rs →
  dpop_spent id now2 v → dpop_spent id now2 (verify_all rs v) ∧ (verify_all rs v).(MaxSkew) = v.(MaxSkew).
Proof.
  intros Hw Hrs. revert v Hw Hrs. induction rs as [|r rs IH]; intros v Hw Hrs Hs; [done|].
  apply Forall_cons in Hrs as [[Hn Hc] Hrs]. simpl.
  assert ((verify r v).2.(MaxSkew) = v.(MaxSkew)) as Hm by apply Verify_MaxSkew.
  rewrite <- Hm. apply IH; [by rewrite Hm|by rewrite Hm|by apply verify_spent].
Qed.

Lemma dpop_spent_refused id r v :
  (0 < window v.(MaxSkew) < two62)%Z → int64_range r.(rq_now) → proof_id r.(rq_token) = Some id →
  dpop_spent id r.(rq_now) v → is_ok (verify r v).1 = false.
Proof.
  intros Hw Hn Hid Hs. unfold verify, Verify, proof_id in *. destruct (open_proof _) as [[k c]|]; [|done].
  destruct (check_claims _ _ _ _ _ _) as [[]|] eqn:Hc; [|done].
  apply check_claims_ok in Hc as (_&_&_&_&_&_&Hf&_); [|unfold two62, two63 in *; lia].
  destruct (jwk_Marshal k) as [raw|]; [|done]. injection Hid as <-. simpl in Hs.
  destruct Hs as [Hin|Hold]; [|lia]. unfold remember. set (cut := Unix _).
  destruct (decide (cut ≤ dc_IAT c)%Z) as [Hle|Hle].
  - replace (sweep cut (seen v) !! _) with (Some (dc_IAT c)); [done|]. symmetry. by apply map_lookup_filter_Some.
  - apply cutoff_seconds in Hle; [lia|lia|done].
Qed.
End checks.

(** ** What a client writes *)

Lemma claims_roundtrip c :
  utf8_string c.(dc_JTI) = true → utf8_string c.(dc_HTM) = true → utf8_string c.(dc_HTU) = true →
  utf8_string c.(dc_ATH) = true → utf8_string c.(dc_Nonce) = true → int64_range c.(dc_IAT) →
  unmarshal_struct false claims_fields zero_claims (marshal_claims c) = Ok c.
Proof.
  intros H1 H2 H3 H4 H5 H6. destruct c as [a b c d e f]. simpl in *. unfold marshal_claims. simpl.
  destruct (decide (e = "")) as [->|]; destruct (decide (f = "")) as [->|];
    (apply unmarshal_object; [solve_values|solve_values|by repeat constructor|by read_fields]).
Qed.

Lemma RawURLEncoding_utf8 b : utf8_string (RawURLEncoding b) = true.
Proof.
  unfold utf8_string, RawURLEncoding, of_bytes. rewrite list_ascii_of_string_of_list_ascii.
  pose proof (b64_encode_safe b) as H. induction H as [|c l Hc _ IH]; [done|].
  rewrite filter_cons. destruct (decide _); [|exact IH]. simpl fmap. rewrite utf8_valid_eq. unfold rune_len.
  assert ((N_of_ascii (url_char c) <? 128)%N = true) as ->; [|exact IH].
  apply b64_safe_plain in Hc as [Hc _]. unfold url_char. apply N.ltb_lt.
  destruct (is_char "+" c); [done|]. by destruct (is_char "/" c).
Qed.

Lemma Unix_range now : int64_range (Unix now).
Proof. apply int64_bounds. Qed.

Lemma Unix_floor now : int64_range now → (of_Unix (Unix now) ≤ now < of_Unix (Unix now) + Second)%Z.
Proof.
  intros Hn. unfold Unix, of_Unix. rewrite int64_id.
  - unfold Second. pose proof (Z.div_mod now 1000000000 ltac:(lia)).
    pose proof (Z.mod_pos_bound now 1000000000 ltac:(lia)). lia.
  - unfold int64_range, two63, Second in *. split; [apply Z.div_le_lower_bound|apply Z.div_lt_upper_bound]; lia.
Qed.

(** * Theorems *)

Section theorems.
Context {jose : Jose}.

(** An accepted DPoP proof carries exactly one signature, by an embedded valid
    public key, that verifies over its claims; the claims name this method (up to
    case) and this target, were issued within the window around now, and bind the
    access token by its SHA-256 when there is one; no proof with this key and
    this identifier was remembered inside the sweep horizon, and it is remembered
    now.  A rejected proof is never remembered. *)
Theorem dpop_accept_sound token method target access now v r v' :
  (v.(MaxSkew) < two63 - 1)%Z → Verify token method target access now v = (r, v') →
  match r with
  | Ok _ => ∃ obj key typ payload claims raw,
      ParseSigned token ["ES256"; "EdDSA"] = Ok obj ∧ Signatures obj = [mkJwsHeader (Some key) typ] ∧
      jwk_Valid key = true ∧ jwk_IsPublic key = true ∧ (∀ t, typ = Some t → EqualFold t "dpop+jwt" = true) ∧
      jws_Verify obj key = Ok payload ∧ unmarshal_struct false claims_fields zero_claims payload = Ok claims ∧
      claims.(dc_JTI) ≠ "" ∧ EqualFold claims.(dc_HTM) method = true ∧ claims.(dc_HTU) = target ∧
      (- window v.(MaxSkew) ≤ now - of_Unix claims.(dc_IAT) ≤ window v.(MaxSkew))%Z ∧
      (access ≠ "" → claims.(dc_ATH) = access_hash access) ∧
      jwk_Marshal key = Ok raw ∧
      (∀ at_, v.(seen) !! replay_key raw claims.(dc_JTI) = Some at_ →
         (at_ < Unix (now + int64 (-2 * window v.(MaxSkew))))%Z) ∧
      v'.(seen) !! replay_key raw claims.(dc_JTI) = Some claims.(dc_IAT)
  | Err _ => v'.(seen) ⊆ v.(seen)
  end.
Proof.
  intros Hw. unfold Verify. destruct (open_proof token) as [[key claims]|] eqn:Ho; [|by intros [= <- <-]].
  destruct (check_claims _ _ _ _ _ _) as [[]|] eqn:Hc; [|by intros [= <- <-]].
  destruct (jwk_Marshal key) as [raw|] eqn:Hj; [|by intros [= <- <-]].
  apply open_proof_ok in Ho as (obj&typ&payload&?&?&?&?&?&?&?).
  apply check_claims_ok in Hc as (?&?&?&?&?&?&?&?).
  2: by apply window_range.
  unfold remember. destruct (sweep _ _ !! _) eqn:E; intros [= <- <-]; [apply map_filter_subseteq|].
  exists obj, key, typ, payload, claims, raw. split_and!; try done; try lia.
  - by apply sweep_None.
  - apply lookup_insert_eq.
Qed.

(** A DPoP proof is accepted at most once: after an acceptance, and whatever
    other requests were verified since, every token with the same embedded key,
    identifier and issue time (the signature bytes and the request do not matter)
    is refused, even if the clock has been set back by up to the window. *)
Theorem dpop_replay_rejected r1 v v' rs r2 :
  (0 < window v.(MaxSkew) < two62)%Z → verify r1 v = (Ok tt, v') →
  Forall (λ r, int64_range r.(rq_now) ∧ (r.(rq_now) - window v.(MaxSkew) ≤ r2.(rq_now))%Z) rs →
  int64_range r2.(rq_now) → proof_id r2.(rq_token) = proof_id r1.(rq_token) →
  is_ok (verify r2 (verify_all rs v')).1 = false.
Proof.
  intros Hw H1 Hrs Hn Hid.
  assert (MaxSkew v' = MaxSkew v) as Hm.
  { change v' with ((Ok tt : result (), v').2). rewrite <- H1. apply Verify_MaxSkew. }
  assert (∃ id, proof_id r1.(rq_token) = Some id ∧ dpop_spent id r2.(rq_now) v') as (id&Hid1&Hs).
  { unfold verify, Verify, proof_id in *. destruct (open_proof _) as [[key c]|]; [|done].
    destruct (check_claims _ _ _ _ _ _); [|done]. destruct (jwk_Marshal key) as [raw|]; [|done].
    eexists; split; [done|]. left. unfold remember in H1. destruct (sweep _ _ !! _); [done|].
    injection H1 as <-. apply lookup_insert_eq. }
  destruct (verify_all_spent id r2.(rq_now) rs v') as [Hs' Hm']; [by rewrite Hm|by rewrite Hm|done|].
  apply (dpop_spent_refused id); [by rewrite Hm', Hm|done|congruence|done].
Qed.

(** A proof just made is accepted: whatever key pair the client has, the proof
    it makes for a request passes when the clocks differ by no more than the
    window less a second and the identifier is unused.  (Nothing ties the key to
    a client or to the access token: any key pair will do.) *)
Theorem dpop_client_accepted {laws : JoseLaws jose} (k : Private) jti method target access now now' v :
  (v.(MaxSkew) < two63 - 1)%Z → int64_range now → Unix now ≠ 0%Z →
  jti ≠ "" → method ≠ "" → target ≠ "" →
  utf8_string jti = true → utf8_string method = true → utf8_string target = true →
  (- window v.(MaxSkew) ≤ now' - now ≤ window v.(MaxSkew) - Second)%Z →
  (∀ raw, jwk_Marshal (public k) = Ok raw → v.(seen) !! replay_key raw jti = None) →
  (Verify (client_proof k jti method target access now) method target access now' v).1 = Ok tt.
Proof.
  intros Hw Hn Hnz Hj Hm Ht Uj Um Ut Hclock Hnew. set (claims := mkClaims jti method target (Unix now)
    (if decide (access = "") then "" else access_hash access) "").
  assert (open_proof (client_proof k jti method target access now) = Ok (public k, claims)) as Ho.
  { destruct (sign_parse k "dpop+jwt" (marshal_claims claims)) as (obj&Hp&Hs&Hv). destruct (public_valid k).
    apply open_proof_ok. exists obj, (Some "dpop+jwt"), (marshal_claims claims). split_and!; try done.
    - by intros t [= <-].
    - apply claims_roundtrip; try done; [|apply Unix_range]. simpl. destruct (decide _); [done|].
      apply RawURLEncoding_utf8. }
  unfold Verify. rewrite Ho, (proj2 (check_claims_ok _ _ _ _ _ _ (window_range v Hw))).
  - pose proof (public_marshal k) as Hk. destruct (jwk_Marshal (public k)) as [raw|]; [|done].
    unfold remember. replace (sweep _ _ !! _) with (@None Z); [done|]. symmetry.
    apply map_lookup_filter_None. left. by apply Hnew.
  - pose proof (Unix_floor now Hn). simpl. split_and!; try done; [|lia..|].
    + by apply bool_decide_eq_true_2.
    + intros Ha. by rewrite decide_False.
Qed.
End theorems.

(** * Examples

    A transparent JOSE: a token is its key, the length of its type in unary, its
    type and its payload. *)

Fixpoint leading (c : ascii) (l : bytes) : nat :=
  match l with d :: l' => if decide (c = d) then S (leading c l') else 0 | [] => 0 end.

Definition toy_parse (token : string) : result (ascii * string * bytes) :=
  match to_bytes token with
  | k :: l =>
      match drop (leading "a" l) l with
      | "b"%char :: l' => Ok (k, of_bytes (take (leading "a" l) l'), drop (leading "a" l) l')
      | _ => Err (ErrExternal 1)
      end
  | [] => Err (ErrExternal 1)
  end.

#[global] Instance toy_jose : Jose := {|
  JWK := ascii; JWS := ascii * string * bytes;
  ParseSigned token _ := toy_parse token;
  Signatures '(k, typ, _) := [mkJwsHeader (Some k) (Some typ)];
  jws_Verify '(k, _, payload) key := if decide (k = key) then Ok payload else Err (ErrExternal 2);
  jwk_Valid _ := true; jwk_IsPublic _ := true; jwk_Marshal k := Ok [k];
|}.

Lemma leading_replicate n c d l : c ≠ d → leading c (replicate n c ++ d :: l) = n.
Proof. intros Hcd. induction n as [|n IH]; simpl; [by rewrite decide_False|]. by rewrite decide_True, IH. Qed.

#[global] Instance toy_jose_laws : JoseLaws toy_jose.
Proof.
  refine {| Private := ascii; public := (λ k, k) : ascii → JWK; sign_jwt k typ payload :=
    of_bytes (k :: replicate (length (to_bytes typ)) "a"%char ++ "b"%char :: to_bytes typ ++ payload) |}; try done.
  intros k typ payload. exists (k, typ, payload). split_and!; simpl; [|done|by rewrite decide_True].
  unfold toy_parse, to_bytes, of_bytes. rewrite list_ascii_of_string_of_list_ascii.
  rewrite leading_replicate by done. rewrite drop_app_length' by (by rewrite length_replicate).
  rewrite take_app_length, drop_app_length. by rewrite string_of_list_ascii_of_string.
Defined.

Definition ex_target : string := "https://ubiq:8443/v1/control/settle".
Definition ex_dpop_now : Z := 1700000000 * Second.
Definition ex_request (jti : string) (made now : Z) : request :=
  mkRequest (client_proof "k"%char jti "POST" ex_target "token" made) "post" ex_target "token" now.

Definition ex_first : request := ex_request "j1" ex_dpop_now ex_dpop_now.
Definition ex_other : request := ex_request "j2" (ex_dpop_now + Second) (ex_dpop_now + Second).
Definition ex_again : request := ex_request "j1" ex_dpop_now (ex_dpop_now + 2 * Second).
Definition ex_verifier : state := (verify ex_first NewDPoPVerifier).2.

Lemma dpop_accept_sound_witness :
  verify ex_first NewDPoPVerifier = (Ok tt, ex_verifier) ∧
  ∃ claims, claims.(dc_HTU) = ex_target ∧ claims.(dc_ATH) = access_hash "token".
Proof.
  assert (verify ex_first NewDPoPVerifier = (Ok tt, ex_verifier)) as H by (vm_compute; reflexivity).
  split; [exact H|].
  pose proof (dpop_accept_sound ex_first.(rq_token) "post" ex_target "token" ex_dpop_now NewDPoPVerifier (Ok tt) ex_verifier
    ltac:(vm_compute; reflexivity) H) as (_&_&_&_&claims&_&_&_&_&_&_&_&_&_&_&Ht&_&Ha&_).
  exists claims. split; [exact Ht|]. apply Ha. discriminate.
Defined.

Lemma dpop_replay_rejected_witness :
  is_ok (verify ex_again (verify_all [ex_other] ex_verifier)).1 = false.
Proof.
  refine (dpop_replay_rejected ex_first NewDPoPVerifier ex_verifier [ex_other] ex_again _ _ _ _ _).
  - split; vm_compute; reflexivity.
  - vm_compute; reflexivity.
  - apply Forall_singleton. split; [split|]; vm_compute; congruence.
  - split; vm_compute; congruence.
  - vm_compute. reflexivity.
Defined.

Lemma dpop_client_accepted_witness :
  (Verify (client_proof "k"%char "j1" "POST" ex_target "token" ex_dpop_now) "POST" ex_target "token"
    (ex_dpop_now + Minute)%Z NewDPoPVerifier).1 = Ok tt.
Proof.
  refine (dpop_client_accepted "k"%char "j1" "POST" ex_target "token" ex_dpop_now (ex_dpop_now + Minute)%Z NewDPoPVerifier
    _ _ _ _ _ _ _ _ _ _ _); try (intros raw _; apply lookup_empty); try split; vm_compute; congruence.
Defined.
