(* ===== verification/Quic.v ===== *)
(** * The QUIC adapter: quic.go

    One envelope per stream: what [Publish] writes to the stream it opens, and
    what the accepting side makes of the bytes of a stream.  Connections and
    streams belong to a library; their outcomes (dialing, opening, writing,
    accepting) are arguments.  The handler table and [dispatch] are those of
    [Transport.Handlers]. *)

From Stdlib Require Import ZArith NArith Lia Ascii String.
From stdpp Require Import base list gmap sets strings.
From S2P Require Import Prelude GoRegexp JsonScan Utf8 JsonText JsonRoundtrip JsonValues Sha256 Model Json Transport Tcp.

Module QUICTransport.
Record QUICConfig := mkQUICConfig {
  Name : string; PeerAddr : string; ListenAddr : string; ClientTLS : option tlsConfig; ServerTLS : option tlsConfig }.

Record state (H : Type) := mkQUIC { cfg : QUICConfig; listener : bool; handlers : Handlers.table H }.
Arguments mkQUIC {H} _ _ _.
Arguments cfg {H} _.
Arguments listener {H} _.
Arguments handlers {H} _.

Section quic.
Context {H : Type}.

(** [NewQUICTransport]; [listen] is the outcome of [quic.ListenAddr]. *)
Definition NewQUICTransport (c : QUICConfig) (listen : result ()) : result (state H) :=
  if bool_decide (c.(Name) = "") then Err (ErrNew "quic name required")
  else if bool_decide (c.(ClientTLS) = None) && negb (bool_decide (c.(PeerAddr) = ""))
  then Err (ErrNew "QUIC client TLS required")
  else if negb (bool_decide (c.(ListenAddr) = "")) then
    if bool_decide (c.(ServerTLS) = None) then Err (ErrNew "QUIC server TLS required")
    else try _ := listen in Ok (mkQUIC c true ∅)
  else Ok (mkQUIC c false ∅).

(** [json.NewEncoder(stream).Encode]: the text and a line end, in one write. *)
Definition Encode (env : Envelope) : result bytes := try raw := json_Marshal env in Ok (raw ++ ["010"%char]).

(** [Publish]; the state is the bytes written to the stream. *)
Definition Publish (c : QUICConfig) (env : Envelope) (dial open : result ()) (w : write) (close : result ())
  : io bytes (result ()) :=
  if bool_decide (c.(PeerAddr) = "") then io_ret (Err (ErrNew "QUIC peer address not configured"))
  else match Validate env with
  | Err e => io_ret (Err e)
  | Ok _ =>
    match dial, open with
    | Err e, _ => io_ret (Err e)
    | Ok _, Err e => io_ret (Err e)
    | Ok _, Ok _ =>
      match Encode env with
      | Err e => io_ret (Err e)
      | Ok text => λ stream,
          (match w with Some (_, e) => Err e | None => close end, stream ++ written w text)
      end
    end
  end.

(** [Subscribe]: the index the subscription keeps. *)
Definition Subscribe (event : string) (h : H) : io (state H) (result nat) := λ q,
  if q.(listener) then
    let '(idx, t) := Handlers.Subscribe event h q.(handlers) in (Ok idx, mkQUIC q.(cfg) true t)
  else (Err (ErrNew "QUIC listener not configured"), q).

(** The loops of [acceptLoop] and [handleConn]: what was accepted up to the first
    error, each handled by a goroutine of its own. *)
Fixpoint accept {A} (outcomes : list (result A)) : list A :=
  match outcomes with
  | Ok a :: outcomes' => a :: accept outcomes'
  | _ => []
  end.

(** The goroutine of a stream: the envelope it dispatches, if any. *)
Definition handle_stream (stream : bytes) : option Envelope :=
  match Decode false (envelope_fields false) zero_envelope stream with
  | Err _ => None
  | Ok env => match Validate env with Err _ => None | Ok _ => Some env end
  end.

(** The envelopes a connection dispatches, one goroutine per stream: in any
    order. *)
Definition handleConn (streams : list (result bytes)) : list Envelope := omap handle_stream (accept streams).

(** [Close]; [close] is the outcome of closing the listener. *)
Definition Close (q : state H) (close : result ()) : result () := if q.(listener) then close else Ok tt.
End quic.
End QUICTransport.

(** * Theorems *)

Import QUICTransport.

Lemma handle_stream_cut env raw n :
  wf_text env = true → Validate env = Ok tt → json_Marshal env = Ok raw →
  handle_stream (take n (raw ++ ["010"%char])) = if (length raw <=? n)%nat then Some (normalize env) else None.
Proof.
  intros Hwf Hv Hm. destruct (marshal_object _ _ Hwf Hm) as [Ha [rest Hrest]]. unfold handle_stream.
  destruct (Nat.leb_spec (length raw) n) as [Hn|Hn].
  - rewrite take_app_ge by done. rewrite (Decode_line _ _ raw); [|done|].
    2: { destruct (n - length raw); simpl; [by left|right; eauto]. }
    pose proof (codec_roundtrip env raw Hwf Hm) as Hu. unfold json_Unmarshal, json_codec, unmarshal_envelope in Hu.
    by rewrite Hu, Validate_normalize, Hv.
  - rewrite take_app_le by lia.
    by rewrite (Decode_cut _ _ raw rest (take n raw) (drop n raw)); [|done|done|by rewrite take_drop|
      intros E; apply (f_equal length) in E; rewrite length_drop in E; simpl in E; lia].
Qed.

(** C32: A QUIC publication is received whole or not at all: whatever part of the
    stream arrives (the connection is closed as soon as the stream is), the
    accepting side dispatches the published envelope (payload compacted) exactly
    when the whole text arrived, and otherwise nothing; a [Publish] that reports
    success has written the whole text. *)
Theorem quic_publish_receive c env dial open w close r text n :
  wf_text env = true → Publish c env dial open w close [] = (r, text) →
  ∃ raw, text `prefix_of` raw ++ ["010"%char] ∧ (r = Ok tt → text = raw ++ ["010"%char]) ∧
    handle_stream (take n text) =
      if (length raw <=? n)%nat && (length raw <=? length text)%nat then Some (normalize env) else None.
Proof.
  intros Hwf. unfold Publish, io_ret.
  assert (∀ e, (Err e, []) = (r, text) → ∃ raw, text `prefix_of` raw ++ ["010"%char] ∧
    (r = Ok tt → text = raw ++ ["010"%char]) ∧ handle_stream (take n text) =
      if (length raw <=? n)%nat && (length raw <=? length text)%nat then Some (normalize env) else None) as Hnone.
  { intros e [= <- <-]. exists ["010"%char]. split_and!; [apply prefix_nil|done|].
    rewrite take_nil, andb_false_r. reflexivity. }
  destruct (bool_decide _); [apply Hnone|]. destruct (Validate env) as [[]|] eqn:Hv; [|apply Hnone].
  destruct dial, open; try apply Hnone. unfold Encode.
  destruct (json_Marshal env) as [raw|] eqn:Hm; [|apply Hnone]. intros [<- <-]%pair_equal_spec. exists raw.
  rewrite app_nil_l. split_and!.
  - destruct w as [[k e]|]; [apply prefix_take|done].
  - by destruct w as [[k e]|].
  - assert (∃ k, written w (raw ++ ["010"%char]) = take k (raw ++ ["010"%char])) as [k Hk].
    { destruct w as [[k e]|]; [by exists k|]. exists (length (raw ++ ["010"%char])). by rewrite firstn_all. }
    rewrite Hk, take_take, (handle_stream_cut _ _ _ Hwf Hv Hm), length_take, length_app. simpl.
    destruct (Nat.leb_spec (length raw) (n `min` k)), (Nat.leb_spec (length raw) n),
      (Nat.leb_spec (length raw) (k `min` (length raw + 1))); done || lia.
Qed.

(** Whatever streams a connection carries, every envelope dispatched has passed
    [Validate], and there is at most one per stream. *)
Theorem quic_receive_safe streams :
  Forall (λ env, Validate env = Ok tt) (handleConn streams) ∧ length (handleConn streams) ≤ length streams.
Proof.
  unfold handleConn. induction streams as [|[s|e] streams [IH1 IH2]]; [done| |by split; [|apply Nat.le_0_l]].
  cbn [accept length]. cbn [omap list_omap]. destruct (handle_stream s) as [env|] eqn:E; cbn [length]; [|split; [done|lia]].
  split; [|lia]. constructor; [|done].
  unfold handle_stream in E. destruct (Decode _ _ _ _) as [e|]; [|done]. destruct (Validate e) as [[]|] eqn:Hv; [|done].
  by injection E as <-.
Qed.

(** QUIC is never used without TLS: a transport that can dial has a client
    configuration, one that listens has a server configuration. *)
Theorem quic_requires_tls {H} c listen (q : state H) :
  NewQUICTransport c listen = Ok q →
  q.(cfg) = c ∧ (c.(PeerAddr) ≠ "" → is_Some c.(ClientTLS)) ∧ (q.(listener) = true ↔ c.(ListenAddr) ≠ "") ∧
  (q.(listener) = true → is_Some c.(ServerTLS)) ∧ q.(handlers) = ∅.
Proof.
  unfold NewQUICTransport. destruct (bool_decide (Name c = "")) eqn:E1; [done|].
  destruct (bool_decide (ClientTLS c = None) && _) eqn:E2; [done|].
  assert (PeerAddr c ≠ "" → is_Some (ClientTLS c)) as Hc.
  { intros Hp. rewrite (bool_decide_eq_false_2 _ Hp), andb_true_r in E2. apply bool_decide_eq_false in E2.
    by apply not_eq_None_Some. }
  destruct (bool_decide (ListenAddr c = "")) eqn:E3; simpl; bool_prop.
  - intros [= <-]. simpl. naive_solver.
  - destruct (bool_decide (ServerTLS c = None)) eqn:E4; [done|]. bool_prop. destruct listen; [|done].
    intros [= <-]. simpl. split_and!; try done. intros _. by apply not_eq_None_Some.
Qed.

(** * Closed instances *)

Definition ex_tls : tlsConfig := mkTLS 772 ["cert.pem"] [] false ["ca.pem"] ["ubiq/1"].
Definition ex_quic : QUICConfig := mkQUICConfig "quic" "peer:4433" "" (Some ex_tls) None.

Lemma quic_publish_receive_witness :
  handle_stream (ex_wire ++ ["010"%char]) = Some (normalize ex_envelope) ∧
  handle_stream (take 10 (ex_wire ++ ["010"%char])) = None.
Proof.
  assert (Publish ex_quic ex_envelope (Ok tt) (Ok tt) None (Ok tt) [] = (Ok tt, ex_wire ++ ["010"%char])) as H
    by (vm_compute; reflexivity).
  destruct (quic_publish_receive ex_quic ex_envelope (Ok tt) (Ok tt) None (Ok tt) (Ok tt) (ex_wire ++ ["010"%char])
    (length (ex_wire ++ ["010"%char])) ltac:(vm_compute; reflexivity) H) as (raw&_&Ht&Hh).
  apply app_inj_2 in Ht as [<- _]; [|done|done]. rewrite firstn_all in Hh. rewrite Hh.
  destruct (quic_publish_receive ex_quic ex_envelope (Ok tt) (Ok tt) None (Ok tt) (Ok tt) (ex_wire ++ ["010"%char])
    10 ltac:(vm_compute; reflexivity) H) as (raw&_&Ht&Hh').
  apply app_inj_2 in Ht as [<- _]; [|done|done]. rewrite Hh'. split; vm_compute; reflexivity.
Defined.

Lemma quic_requires_tls_witness :
  is_Some ex_quic.(ClientTLS) ∧ ∃ q : state nat, NewQUICTransport ex_quic (Ok tt) = Ok q.
Proof.
  split; [|by eexists]. apply (quic_requires_tls ex_quic (Ok tt) (mkQUIC ex_quic false ∅ : state nat)); done.
Defined.
