(* ===== verification/Federation.v ===== *)
(** * Two daemons and the link between them

    One daemon accepts events and forwards them through a signed transport, with
    the outbox behind it; another receives from that transport and stores what it
    verifies.  The transport between them is an interface ([Link]): what sending
    reports, and what has arrived at the far side.  The two are independent: a TCP
    write without an error, or a publication to a broker without confirms, says
    nothing about the arrival, and what was reported as an error may have arrived.
    TCP and the broker adapters implement the interface.  The system is a step
    relation in which posts, maintenance, workers and deliveries interleave, and
    messages arrive in any order, late, repeatedly or never. *)

From Stdlib Require Import ZArith Lia Ascii String Sorted.
From stdpp Require Import base list gmap sets strings relations.
From S2P Require Import Prelude GoRegexp JsonScan Utf8 JsonText JsonRoundtrip JsonValues Sha256 Model Json Db Store StoreSteps.
From S2P Require Import StoreTheorems Crypto CryptoExample CryptoTheorems Transport Secure Tcp Brokers Server ServerTheorems Quic.
Import Sql.

(** ** Links *)

(** A transport between two processes: sending, with the states its libraries
    can be in and the envelopes it is made for, and what has arrived. *)
Class Link (W : Type) := {
  link_ok : W → Prop;
  link_fits : Envelope → Prop;
  link_send : Envelope → io W (result ());
  link_arrived : W → list Envelope;
}.

(** Whatever sending reports, the message arrives, in its wire form, or does not,
    and nothing else does. *)
Class LinkLaws (W : Type) `{Link W} : Prop := {
  link_delivers env w r w' :
    link_ok w → wf_text env = true → Validate env = Ok tt → link_fits env → link_send env w = (r, w') →
    link_ok w' ∧ (link_arrived w' = link_arrived w ++ [normalize env] ∨ link_arrived w' = link_arrived w);
}.

(** ** TCP: a connection per publication *)

(** The outcomes of dialling and of the two writes; what a write does can depend
    on what is written.  Of what the connection took, the first [to_reached] bytes
    get to the peer. *)
Record tcp_outcome := mkTcpOutcome {
  to_dial : result (); to_header : bytes → write; to_body : bytes → write; to_reached : nat }.
(** The bytes that reached the peer, by connection. *)
Record tcp_wire := mkTcpWire { tw_conns : list bytes; tw_next : nat }.

Section tcp.
Context (max : Z) (peerAddr : string) (outcome : nat → tcp_outcome).

Definition tcp_send (env : Envelope) : io tcp_wire (result ()) := λ w,
  let o := outcome w.(tw_next) in
  let raw := value_or [] (encodeEnvelope env) in
  let '(r, conn) := Tcp.Publish max peerAddr env o.(to_dial)
    (o.(to_header) (PutUint32 (uint32 (Z.of_nat (length raw))))) (o.(to_body) raw) [] in
  (r, mkTcpWire (w.(tw_conns) ++ [take o.(to_reached) conn]) (S w.(tw_next))).

Definition tcp_link : Link tcp_wire := {|
  link_ok _ := True;
  link_fits env := ∀ raw, encodeEnvelope env = Ok raw → (0 < Z.of_nat (length raw) < two32)%Z;
  link_send := tcp_send;
  link_arrived w := w.(tw_conns) ≫= receive max;
|}.

Lemma tcp_link_laws : @LinkLaws _ tcp_link.
Proof.
  split. intros env [conns n] r w' _ Hwf Hv Hfits Hs. simpl in *. split; [done|].
  unfold tcp_send in Hs. cbn [tw_next tw_conns] in Hs.
  destruct (Tcp.Publish _ _ _ _ _ _ []) as [r' conn] eqn:Hp. injection Hs as <- <-. cbn [tw_conns].
  rewrite bind_app. cbn [mbind list_bind]. rewrite app_nil_r.
  destruct (tcp_publish_receive _ _ _ _ _ _ _ _ (take (to_reached (outcome n)) conn) Hwf Hfits Hp) as [[->| ->] _];
    [apply prefix_take|by left|right; by rewrite app_nil_r].
Qed.
End tcp.

(** ** Brokers: a log of messages by topic *)

Record broker_wire := mkBrokerWire { bw_log : list (string * bytes); bw_next : nat }.

Section broker.
Context (a : adapter).
(** Whether the broker hands a message of a topic to a subscription. *)
Context (routes : string → string → bool).
(** Of each message: what the client library reports, and whether the broker has
    it. *)
Context (outcome : nat → result () * bool).

Definition broker_send (topic : string) (body : bytes) : io broker_wire (result ()) := λ w,
  let '(r, kept) := outcome w.(bw_next) in
  (r, mkBrokerWire (w.(bw_log) ++ (if kept then [(topic, body)] else [])) (S w.(bw_next))).

(** What the consumer, subscribed to every event as the daemon does it, hands to
    its handler of the messages routed to it. *)
Definition collect (env : Envelope) : io (list Envelope) (result ()) := λ l, (Ok tt, l ++ [env]).
Definition consumed (log : list (string * bytes)) : list Envelope :=
  log ≫= λ '(topic, body), if routes (ad_listens a "*") topic then (ad_deliver a _ collect "*" body []).2 else [].

Definition broker_link : Link broker_wire := {|
  link_ok _ := True;
  link_fits _ := True;
  link_send := ad_message a _ broker_send;
  link_arrived w := consumed w.(bw_log);
|}.

Lemma broker_link_laws : broker_adapter a → @LinkLaws _ broker_link.
Proof.
  intros Ha. split. intros env [log n] r w' _ Hwf Hv _ Hs. split; [done|]. simpl in *.
  destruct (broker_roundtrip a env broker_send collect "*" (mkBrokerWire log n) [] Ha Hwf Hv ltac:(by right)) as (body&Hm&Hd).
  rewrite Hm in Hs. unfold broker_send in Hs. cbn [bw_next bw_log] in Hs.
  destruct (outcome n) as [r' kept]. injection Hs as <- <-. cbn [bw_log].
  unfold consumed. rewrite bind_app. destruct kept; [|right; by rewrite app_nil_r].
  cbn [mbind list_bind]. destruct (routes _ _); [left|right; by rewrite app_nil_r]. by rewrite Hd.
Qed.
End broker.

(** ** The system *)

(** The calls of workers and of maintenance on a store: none stores an event or
    touches the outbox. *)
Definition worker_call (c : call) : Prop :=
  match c with
  | CallClaim _ _ _ | CallReceived _ _ | CallSettle _ _ | CallRequeue _ | CallState _ => True
  | _ => False
  end.

(** The state of the sending side outside its store: how often it has signed, the
    link, and, for the record only, the messages that the link took and reported no
    error for, in their wire form. *)
Record outlet (W : Type) := mkOutlet { signed : nat; wire : W; handed : list Envelope }.
Arguments mkOutlet {W} _ _ _.
Arguments signed {W} _.
Arguments wire {W} _.
Arguments handed {W} _.

Section system.
Context {prims : Primitives} {W EB : Type} `{Link W}.
(** The sender's provider and configuration, the receiver's, the name both give
    the transport, and the clock and nonce of each signature. *)
Context (p : CryptoProvider) (cA cB : SecureTransport.config) (tr : string) (t : Transport).
Context (reading : nat → Z * result bytes).

(** The registered transport of the sender: [SecureTransport.Publish] over the
    link. *)
Definition forward (_ : Transport) (env : Envelope) : io (outlet W) (result ()) := λ o,
  let '(now, nonce) := reading o.(signed) in
  let '(r, w) := SecureTransport.Publish link_send cA p env now nonce o.(wire) in
  (r, mkOutlet (S o.(signed)) w (o.(handed) ++
        match SecureTransport.sign cA p env now nonce with
        | Ok m => if is_ok r then [normalize m] else []
        | Err _ => []
        end)).

Definition registry : Registry.state := {[tr := t]}.

(** The receiver: the verifying handler around the handler of [BindTransport];
    [now] is the clock of the verification, [now2] of the store. *)
Definition accept_message (now now2 : Z) (m : Envelope) : io (CryptoProvider * Server.state EB) (result ()) :=
  SecureTransport.handle (λ (_ : ()) env, Server.bound_handler now2 env) cB tt now m.

Record system := mkSystem { sA : Server.state (outlet W); sB : CryptoProvider * Server.state EB }.

Abbreviation dbA s := (s.(sA).(Server.sv_store).(db)).
Abbreviation dbB s := (s.(sB).2.(Server.sv_store).(db)).
Abbreviation arrived s := (link_arrived s.(sA).(Server.sv_ext).(wire)).

(** An envelope the link carries once signed. *)
Definition sendable (env : Envelope) : Prop := ∀ now nonce m,
  SecureTransport.sign cA p env now nonce = Ok m → link_fits m.

Definition with_db {E} (d : control_db) (s : Server.state E) : Server.state E :=
  Server.mkServer (World d []) s.(Server.sv_hub) s.(Server.sv_ext).

(** Posts and maintenance of the sender, with a store that answers; workers of
    either side, whatever fails; deliveries of messages that have arrived, any
    number of times, with a receiver whose store can fail ([fs]). *)
Inductive sys_step : system → system → Prop :=
| sys_post env now now' s :
    Validate env = Ok tt → wf_text env = true → sendable env → sendable (normalize env) →
    sys_step s (mkSystem (Server.ingest registry forward tr env "" now now' s.(sA)).2 s.(sB))
| sys_tick now s :
    sys_step s (mkSystem (Server.tick registry forward now s.(sA)).2 s.(sB))
| sys_work_A c fs s :
    worker_call c → sys_step s (mkSystem (with_db (run_call c (World (dbA s) fs)).(db) s.(sA)) s.(sB))
| sys_deliver m now now2 s :
    m ∈ arrived s → sys_step s (mkSystem s.(sA) (accept_message now now2 m s.(sB)).2)
| sys_work_B c fs s :
    worker_call c →
    sys_step s (mkSystem s.(sA) (s.(sB).1, with_db (run_call c (World (dbB s) fs)).(db) s.(sB).2))
| sys_faults_B fs s :
    sys_step s (mkSystem s.(sA) (s.(sB).1, Server.mkServer (World (dbB s) fs) s.(sB).2.(Server.sv_hub) s.(sB).2.(Server.sv_ext))).

(** Both stores empty, nothing on the link. *)
Definition sys_init (s : system) : Prop :=
  s.(sA).(Server.sv_store) = World empty_db [] ∧ link_ok s.(sA).(Server.sv_ext).(wire) ∧ arrived s = [] ∧
  s.(sA).(Server.sv_ext).(handed) = [] ∧ dbB s = empty_db.

(** A record of the outbox that still holds an event for the link. *)
Definition queued (d : control_db) (id : string) (raw : bytes) : Prop :=
  ∃ o, o ∈ d.(outbox) ∧ o.(ob_delivered_at_ms) = None ∧ o.(ob_event_id) = id ∧ o.(ob_payload) = raw ∧ o.(ob_transport) = tr.

(** ** The sender *)

Definition good (env : Envelope) : Prop :=
  Validate env = Ok tt ∧ wf_text env = true ∧ sendable env ∧ sendable (normalize env).

(** A message on the link: the wire form of a stored event, signed with one of
    the readings. *)
Definition on_wire (d : control_db) (m : Envelope) : Prop :=
  ∃ env r k now nonce sg, d.(events) !! env.(env_ID) = Some r ∧ json_Marshal env = Ok r.(ev_envelope) ∧ good env ∧
    reading k = (now, Ok nonce) ∧ SecureTransport.sign cA p env now (Ok nonce) = Ok sg ∧ m = normalize sg.

Definition bare (env : Envelope) : Envelope := set_Security None env.

(** The columns of an event that never change. *)
Definition content (r : event_row) : string * bytes := (r.(ev_idempotency_key), r.(ev_envelope)).

Record sender_inv (d : control_db) (o : outlet W) : Prop := {
  si_inv : Inv d;
  si_link : link_ok o.(wire);
  si_events : ∀ id r, d.(events) !! id = Some r → ∃ env, good env ∧ env.(env_ID) = id ∧
    json_Marshal env = Ok r.(ev_envelope) ∧ r.(ev_idempotency_key) = env.(env_IdempotencyKey) ∧
    ((∃ m, m ∈ o.(handed) ∧ bare m = bare (normalize env)) ∨ queued d id r.(ev_envelope));
  si_outbox : ∀ x, x ∈ d.(outbox) → x.(ob_delivered_at_ms) = None →
    ∃ r, d.(events) !! x.(ob_event_id) = Some r ∧ x.(ob_payload) = r.(ev_envelope) ∧ x.(ob_transport) = tr;
  si_wire : ∀ m, m ∈ link_arrived o.(wire) ∨ m ∈ o.(handed) → on_wire d m;
}.

Context {llaws : LinkLaws W}.
Hypothesis Hkey : utf8_string p.(keyID) = true.
Hypothesis Hname : utf8_string cA.(SecureTransport.inner_name) = true.

Lemma good_normalize env : good env → good (normalize env).
Proof.
  intros (Hv&Hwf&H1&H2). unfold good. rewrite normalize_idemp, Validate_normalize. split_and!; try done.
  by apply wf_text_normalize.
Qed.

Lemma bare_signed env now nb sg : SecureTransport.sign cA p env now nb = Ok sg → bare (normalize sg) = bare (normalize env).
Proof. by intros (pr&nonce&_&_&->&_)%sign_inv. Qed.

Lemma on_wire_mono d d' m :
  (∀ id r, d.(events) !! id = Some r → ∃ r', d'.(events) !! id = Some r' ∧ content r' = content r) →
  on_wire d m → on_wire d' m.
Proof.
  intros Hmono (env&r&k&now&nonce&sg&Hr&Hm&Hg&Hk&Hs&->). destruct (Hmono _ _ Hr) as (r'&Hr'&He).
  injection He as _ He. exists env, r', k, now, nonce, sg. by rewrite He.
Qed.

(** Changes that keep the events and the outbox. *)
Definition kept : relation control_db := λ d d',
  d'.(outbox) = d.(outbox) ∧ ∀ id, content <$> d'.(events) !! id = content <$> d.(events) !! id.
#[local] Instance kept_preorder : PreOrder kept.
Proof.
  split; [done|]. intros d1 d2 d3 [Ho1 He1] [Ho2 He2]. split; [by rewrite Ho2|]. intros id. by rewrite He2.
Qed.

Lemma sender_inv_kept d d' o : Inv d' → kept d d' → sender_inv d o → sender_inv d' o.
Proof.
  intros HI [Ho He] [_ Hl Hev Hob Hw].
  assert (∀ id r, d.(events) !! id = Some r → ∃ r', d'.(events) !! id = Some r' ∧ content r' = content r) as Hmono.
  { intros id r Hr. specialize (He id). rewrite Hr in He. simpl in He. by apply fmap_Some in He as (r'&?&?); eauto. }
  split; [done|done|..].
  - intros id r' Hr'. specialize (He id). rewrite Hr' in He. simpl in He. symmetry in He.
    apply fmap_Some in He as (r&Hr&E). injection E as Ek Ee. rewrite Ek, Ee. destruct (Hev _ _ Hr) as (env&Hg&Hid&Hm&Hor).
    exists env. unfold queued. rewrite Ho. done.
  - rewrite Ho. intros x Hin Hd. destruct (Hob _ Hin Hd) as (r&Hr&Hp&Ht). destruct (Hmono _ _ Hr) as (r'&Hr'&E).
    injection E as _ E. exists r'. by rewrite E.
  - intros m Hm. by eapply on_wire_mono, Hw.
Qed.

Lemma kept_history h : moves kept (exec (insert_history h)).
Proof. apply moves_exec; [apply _|]. by intros d a d' [= <- <-]. Qed.

Lemma kept_insert d id r r' :
  d.(events) !! id = Some r → content r' = content r → kept d (with_events (<[id := r']> d.(events)) d).
Proof.
  intros Hr He. split; [done|]. intros id'. simpl. destruct (decide (id' = id)) as [->|Hne].
  - by rewrite lookup_insert_eq, Hr; simpl; rewrite He.
  - by rewrite lookup_insert_ne.
Qed.

Lemma kept_claim worker lease now : moves kept (ControlStore.Claim worker lease now).
Proof.
  unfold ControlStore.Claim. io_moves; auto using kept_history.
  apply moves_exec; [apply _|]. intros d r d' (id&r0&_&Hr&_&->&->)%claim_update_inv. by eapply kept_insert.
Qed.

Lemma kept_held states upd f now :
  (∀ r, content (upd r) = content r) → moves kept (exec (update_held states upd f now)).
Proof.
  intros Hu. apply moves_exec; [apply _|].
  intros d n d' [(_&->&_)|(_&r&Hr&_&->)]%update_held_inv; [done|]. by eapply kept_insert.
Qed.

Lemma kept_received f now : moves kept (ControlStore.MarkReceived f now).
Proof. unfold ControlStore.MarkReceived. io_moves; auto using kept_history, kept_held. Qed.

Lemma kept_settle f now : moves kept (ControlStore.Settle f now).
Proof.
  unfold ControlStore.Settle. case_decide; [io_moves|]. destruct (Frame_Validate f); [|io_moves].
  apply moves_transaction; [apply _|]. intros w [] w' (r&Hr&_&He&_&_&Ho&_)%settle_body_ok%settle_effect_inv.
  split; [done|]. rewrite He. eapply (kept_insert (db w)); [done|]. done.
Qed.

Lemma kept_requeue now : moves kept (ControlStore.RequeueExpired now).
Proof.
  unfold ControlStore.RequeueExpired. io_moves. apply moves_exec; [apply _|]. intros d a d' [= <- <-].
  split; [done|]. intros id. simpl. rewrite lookup_fmap. destruct (events d !! id) as [r|]; [|done].
  simpl. unfold expire_row. by destruct (lease_over _ _).
Qed.

Lemma worker_call_kept c w : worker_call c → kept w.(db) (run_call c w).(db).
Proof.
  destruct c; simpl; try done; intros _;
    [apply kept_claim|apply kept_received|apply kept_settle|apply kept_requeue|apply (moves_query kept)].
Qed.

(** A message signed for an envelope. *)
Definition signed_for (env m : Envelope) : Prop := ∃ k now nonce sg,
  reading k = (now, Ok nonce) ∧ SecureTransport.sign cA p env now (Ok nonce) = Ok sg ∧ m = normalize sg.

Lemma signed_bare env m : signed_for env m → bare m = bare (normalize env).
Proof. intros (k&now&nonce&sg&_&Hs&->). by eapply bare_signed. Qed.

Lemma on_wire_signed d env r m :
  d.(events) !! env.(env_ID) = Some r → json_Marshal env = Ok r.(ev_envelope) → good env → signed_for env m → on_wire d m.
Proof. intros Hr Hm Hg (k&now&nonce&sg&Hk&Hs&->). by exists env, r, k, now, nonce, sg. Qed.

Lemma forward_signed tt' env o r o' :
  good env → link_ok o.(wire) → forward tt' env o = (r, o') →
  link_ok o'.(wire) ∧ ∃ ms hs, link_arrived o'.(wire) = link_arrived o.(wire) ++ ms ∧ o'.(handed) = o.(handed) ++ hs ∧
    (∀ m, m ∈ ms ∨ m ∈ hs → signed_for env m) ∧ (is_ok r = true → hs ≠ []).
Proof using Hkey Hname llaws.
  intros (Hv&Hwf&Hf&_) Hok. unfold forward. destruct (reading (signed o)) as [now nb] eqn:Hr.
  unfold SecureTransport.Publish. destruct (SecureTransport.sign cA p env now nb) as [sg|] eqn:Hs.
  - destruct (link_send sg (wire o)) as [r' w'] eqn:Hsend. intros [= <- <-]. cbn [wire handed].
    destruct (sign_text _ _ _ _ _ _ Hv Hwf Hkey Hname Hs) as [Hv' Hwf'].
    destruct (link_delivers _ _ _ _ Hok Hwf' Hv' (Hf _ _ _ Hs) Hsend) as [Hok' Ha]. split; [done|].
    assert (signed_for env (normalize sg)) as Hsig.
    { pose proof (sign_inv _ _ _ _ _ _ Hs) as (_&nonce&->&_). by exists (signed o), now, nonce, sg. }
    exists (if decide (link_arrived w' = link_arrived (wire o)) then [] else [normalize sg]), (if is_ok r' then [normalize sg] else []).
    split_and!; [|done| |by intros ->].
    + case_decide; [by rewrite app_nil_r|]. by destruct Ha.
    + intros m [Hm|Hm]; [case_decide|destruct (is_ok r')]; set_solver.
  - unfold io_ret. intros [= <- <-]. cbn [wire handed is_ok]. split; [done|]. exists [], [].
    rewrite !app_nil_r. split_and!; [done|done|set_solver|done].
Qed.

(** A new event, stored, and handed to the link or in the outbox. *)
Lemma sender_inv_new d o env raw now d' o' os ms hs :
  sender_inv d o → good env → json_Marshal env = Ok raw → d.(events) !! env.(env_ID) = None →
  Inv d' → d'.(events) = (stored_db env raw now d).(events) → d'.(outbox) = d.(outbox) ++ os →
  (∀ x, x ∈ os → x.(ob_event_id) = env.(env_ID) ∧ x.(ob_payload) = raw ∧ x.(ob_transport) = tr) →
  link_ok o'.(wire) → link_arrived o'.(wire) = link_arrived o.(wire) ++ ms → o'.(handed) = o.(handed) ++ hs →
  (∀ m, m ∈ ms ∨ m ∈ hs → signed_for env m) → hs ≠ [] ∨ queued d' env.(env_ID) raw →
  sender_inv d' o'.
Proof.
  intros [_ _ Hev Hob Hw] Hg Hm Hn HI He Ho Hos Hl Ha Hh Hms Hone. simpl in He.
  set (row := EventRow _ _ raw _ _ _ _ _ _ _) in He.
  assert (∀ id r, d.(events) !! id = Some r → d'.(events) !! id = Some r) as Hmono.
  { intros id r Hr. rewrite He, lookup_insert_ne; [done|congruence]. }
  split; [done|done|..].
  - intros id r Hr. rewrite He in Hr. apply lookup_insert_Some in Hr as [[<- <-]|[_ Hr]].
    + exists env. split_and!; [done..|]. destruct Hone as [Hne|Hq]; [left|by right].
      destruct hs as [|m hs]; [done|]. exists m. split; [rewrite Hh; set_solver|]. apply signed_bare, Hms. right. by left.
    + destruct (Hev _ _ Hr) as (env'&Hg'&Hid&Hm'&Hke&[(m&Hin&Hb)|(x&Hin&?)]); exists env'; split_and!; try done.
      * left. exists m. split; [|done]. rewrite Hh. apply elem_of_app. by left.
      * right. exists x. split; [|done]. rewrite Ho. apply elem_of_app. by left.
  - intros x Hin Hd. rewrite Ho in Hin. apply elem_of_app in Hin as [Hin|Hin].
    + destruct (Hob _ Hin Hd) as (r&Hr&?). eauto.
    + destruct (Hos _ Hin) as (->&->&->). exists row. by rewrite He, lookup_insert_eq.
  - intros m Hin. rewrite Ha, Hh, !elem_of_app in Hin.
    assert ((m ∈ link_arrived (wire o) ∨ m ∈ handed o) ∨ (m ∈ ms ∨ m ∈ hs)) as [Hold|Hnew] by tauto.
    + eapply on_wire_mono, Hw; [|done]. eauto.
    + apply (on_wire_signed _ env row); [|done|done|by apply Hms]. rewrite He. apply lookup_insert_eq.
Qed.

Hypothesis Htr : tr ≠ "".

Lemma post_sender env now now' d hub o :
  good env → sender_inv d o →
  ∃ d' hub' o', (Server.ingest registry forward tr env "" now now' (Server.mkServer (World d []) hub o)).2 =
      Server.mkServer (World d' []) hub' o' ∧ sender_inv d' o' ∧
    link_arrived o.(wire) `prefix_of` link_arrived o'.(wire).
Proof using Hkey Hname Htr llaws.
  intros Hg HS. pose proof Hg as (Hv&Hwf&_).
  pose proof (codec_total env ltac:(by apply Validate_ok in Hv as (_&_&_&_&_&_&?))) as Hm.
  destruct (json_Marshal env) as [raw|] eqn:Hraw; [|done]. clear Hm.
  destruct (by_key env.(env_IdempotencyKey) d) as [[id r]|] eqn:Hk.
  { rewrite (ingest_dup _ _ _ _ raw _ _ _ _ id r) by done. destruct (json_Unmarshal _); eauto 10. }
  destruct (d.(events) !! env.(env_ID)) as [r|] eqn:Hn.
  { rewrite (ingest_conflict _ _ _ _ raw) by (done || by eexists). eauto 10. }
  rewrite (ingest_new _ _ _ _ _ t raw); [|done..|by rewrite decide_True|by rewrite decide_True; [apply lookup_insert_eq|]].
  rewrite decide_True by done. destruct (forward t env o) as [res o'] eqn:Hf. cbn [snd].
  destruct (forward_signed _ _ _ _ _ Hg (si_link _ _ HS) Hf) as (Hl&ms&hs&Ha&Hh&Hms&Hok).
  pose proof (stored_db_inv env raw now d (si_inv _ _ HS) Hv Hraw Hk Hn) as HI.
  eexists _, _, _. split; [done|]. split; [|by exists ms]. destruct res as [[]|er].
  - eapply (sender_inv_new d o env raw now _ _ []); try done; [by rewrite app_nil_r|by intros ? ?%not_elem_of_nil|].
    left. by apply Hok.
  - eapply (sender_inv_new d o env raw now _ _ [_]); try done.
    + eapply inv_step; [exact HI|]. by eapply (step_outbox _ (env_ID env) tr raw (UnixMilli (now' + Second))).
    + by intros ? ->%list_elem_of_singleton.
    + right. eexists. split; [apply elem_of_app; right; apply list_elem_of_singleton; reflexivity|]. done.
Qed.

(** More of the same on the link. *)
Lemma sender_inv_sent d o o' ms hs env r :
  sender_inv d o → good env → d.(events) !! env.(env_ID) = Some r → json_Marshal env = Ok r.(ev_envelope) →
  link_ok o'.(wire) → link_arrived o'.(wire) = link_arrived o.(wire) ++ ms → o'.(handed) = o.(handed) ++ hs →
  (∀ m, m ∈ ms ∨ m ∈ hs → signed_for env m) → sender_inv d o'.
Proof.
  intros [HI _ Hev Hob Hw] Hg Hr Hm Hl Ha Hh Hms. split; [done|done| |done|].
  - intros id r' Hr'. destruct (Hev _ _ Hr') as (env'&Hg'&Hid&Hm'&Hke&[(m&Hin&Hb)|Hq]); exists env'; split_and!; try done; [left|by right].
    exists m. split; [|done]. rewrite Hh. apply elem_of_app. by left.
  - intros m Hin. rewrite Ha, Hh, !elem_of_app in Hin.
    assert ((m ∈ link_arrived (wire o) ∨ m ∈ handed o) ∨ (m ∈ ms ∨ m ∈ hs)) as [Hold|Hnew] by tauto; [by apply Hw|].
    by eapply on_wire_signed; [..|apply Hms].
Qed.

Lemma seq_unique (l : list outbox_row) x y :
  StronglySorted (λ x y, x.(ob_seq) < y.(ob_seq))%Z l → x ∈ l → y ∈ l → x.(ob_seq) = y.(ob_seq) → x = y.
Proof.
  induction 1 as [|z l Hs IH Hz]; [by intros ?%not_elem_of_nil|]. rewrite Forall_forall in Hz.
  intros [->|Hx]%elem_of_cons [->|Hy]%elem_of_cons Hq; [done|apply Hz in Hy; lia|apply Hz in Hx; lia|auto].
Qed.

Lemma marshal_inj env env' raw :
  json_Marshal env = Ok raw → json_Marshal env' = Ok raw → wf_text env = true → wf_text env' = true →
  normalize env = normalize env'.
Proof.
  intros H1 H2 Hw1 Hw2. pose proof (codec_roundtrip _ _ Hw1 H1). pose proof (codec_roundtrip _ _ Hw2 H2). congruence.
Qed.

(** A record whose event the link took can be marked. *)
Lemma sender_inv_marked d o x at_ m env r :
  sender_inv d o → x ∈ d.(outbox) → d.(events) !! x.(ob_event_id) = Some r → json_Marshal env = Ok r.(ev_envelope) →
  wf_text env = true → m ∈ o.(handed) → bare m = bare (normalize env) →
  sender_inv (with_outbox ((λ y, if decide (undelivered x.(ob_seq) y) then deliver_row at_ y else y) <$> d.(outbox))
    d.(outbox_seq) d) o.
Proof.
  intros [HI Hl Hev Hob Hw] Hx Hr Hm Hwf Hin Hb. split; [|done|..].
  - eapply inv_step; [exact HI|]. by eapply (step_deliver _ x.(ob_seq) at_).
  - intros id r' Hr'. simpl in Hr'. destruct (Hev _ _ Hr') as (env'&Hg'&Hid&Hm'&Hke&Hor). exists env'. split_and!; try done.
    destruct Hor as [?|(y&Ho&Hd&Hoi&Hop&Hot)]; [by left|].
    destruct (decide (undelivered x.(ob_seq) y)) as [[Hq _]|Hu].
    + left. exists m. split; [done|]. assert (y = x) as -> by (eapply seq_unique; [apply (inv_outbox _ HI)|done..]).
      assert (r' = r) as -> by congruence. rewrite Hb. f_equal. by eapply marshal_inj; [..|apply Hg'].
    + right. exists y. split; [|done]. simpl. apply list_elem_of_fmap. exists y. by rewrite decide_False.
  - intros y Ho Hd. simpl in Ho. apply list_elem_of_fmap in Ho as (y'&->&Ho'). destruct (decide _); [done|]. by apply Hob.
  - done.
Qed.

Lemma mark_clean seq at_ d :
  (ControlStore.MarkOutboxDelivered seq at_ (World d [])).2 =
  World (with_outbox ((λ o, if decide (undelivered seq o) then deliver_row (UnixMilli at_) o else o) <$> d.(outbox))
    d.(outbox_seq) d) [].
Proof.
  unfold ControlStore.MarkOutboxDelivered, io_bind, io_ret. rewrite exec_clean. unfold deliver_update.
  rewrite rows_affected_clean. by destruct (decide _).
Qed.

Lemma drain_sender n now d hub o :
  sender_inv d o →
  ∃ d' o', Server.drain registry forward n now (Server.mkServer (World d []) hub o) =
      (tt, Server.mkServer (World d' []) hub o') ∧ sender_inv d' o' ∧
    link_arrived o.(wire) `prefix_of` link_arrived o'.(wire).
Proof using Hkey Hname Htr llaws.
  revert d o. induction n as [|n IH]; intros d o HS; [by eexists _, _|].
  cbn [Server.drain]. unfold io_bind at 1, Server.on_store at 1. cbn [Server.sv_store].
  rewrite NextOutbox_clean by apply HS. cbn [Server.sv_hub Server.sv_ext].
  destruct (filter (pending (UnixMilli now)) (outbox d)) as [|x l] eqn:Ef; [by eexists _, _|].
  assert (x ∈ filter (pending (UnixMilli now)) (outbox d)) as [[Hd _] Hx]%list_elem_of_filter by (rewrite Ef; by left).
  cbn [or_Payload or_Transport or_Seq].
  destruct (si_outbox _ _ HS _ Hx Hd) as (r&Hr&Hp&Ht).
  destruct (si_events _ _ HS _ _ Hr) as (env&Hg&Hid&Hm&_).
  rewrite Hp, (codec_roundtrip _ _ (proj1 (proj2 Hg)) Hm), Ht. unfold Registry.Get, registry. rewrite lookup_singleton_eq.
  unfold io_bind at 1, Server.on_ext. cbn [Server.sv_ext Server.sv_store Server.sv_hub].
  destruct (forward t (normalize env) o) as [res o'] eqn:Hf.
  destruct (forward_signed _ _ _ _ _ (good_normalize _ Hg) (si_link _ _ HS) Hf) as (Hl&ms&hs&Ha&Hh&Hms&Hok).
  assert (sender_inv d o') as HS'.
  { eapply (sender_inv_sent d _ _ ms hs (normalize env) r); try done; [by apply good_normalize|..].
    - destruct (normalize_fields env) as (->&_). by rewrite Hid.
    - by rewrite codec_normalize. }
  assert (link_arrived o.(wire) `prefix_of` link_arrived o'.(wire)) as Hpre by (by exists ms).
  destruct res as [[]|er]; [|by eexists _, _].
  unfold io_bind, Server.on_store. cbn [Server.sv_store Server.sv_hub Server.sv_ext].
  pose proof (mark_clean x.(ob_seq) now d) as Hmark.
  destruct (ControlStore.MarkOutboxDelivered _ _ _) as [? w1]. cbn [snd] in Hmark. subst w1.
  destruct (IH (with_outbox ((λ o, if decide (undelivered x.(ob_seq) o) then deliver_row (UnixMilli now) o else o) <$> d.(outbox))
    d.(outbox_seq) d) o') as (d2&o2&H2&HS2&Hpre2); [|by exists d2, o2; split_and!; [..|by etrans]].
  destruct hs as [|m hs]; [by specialize (Hok eq_refl)|].
  eapply (sender_inv_marked d _ x _ m env r); try done; [apply Hg|by rewrite Hh; set_solver|].
  rewrite (signed_bare (normalize env)) by (apply Hms; right; by left). by rewrite normalize_idemp.
Qed.

Lemma tick_sender now d hub o :
  sender_inv d o →
  ∃ d' o', (Server.tick registry forward now (Server.mkServer (World d []) hub o)).2 =
      Server.mkServer (World d' []) hub o' ∧ sender_inv d' o' ∧
    link_arrived o.(wire) `prefix_of` link_arrived o'.(wire).
Proof using Hkey Hname Htr llaws.
  intros HS. unfold Server.tick, io_bind at 1, Server.on_store. cbn [Server.sv_store Server.sv_hub Server.sv_ext].
  pose proof (kept_requeue now (World d [])) as Hk. pose proof (RequeueExpired_moves now (World d [])) as Hst.
  assert (∃ n d1, ControlStore.RequeueExpired now (World d []) = (n, World d1 [])) as (n&d1&E).
  { unfold ControlStore.RequeueExpired, io_bind. rewrite exec_clean. unfold requeue_update. rewrite rows_affected_clean. eauto. }
  rewrite E in *. cbn [snd db] in Hk, Hst.
  destruct (drain_sender 64 now d1 hub o) as (d'&o'&->&HS'); [|by eauto 10].
  eapply sender_inv_kept; [|exact Hk|exact HS]. eapply inv_steps; [apply HS|exact Hst].
Qed.

(** ** The receiver *)

Record receiver_inv (d : control_db) (w : W) : Prop := {
  ri_inv : Inv d;
  ri_events : ∀ id r, d.(events) !! id = Some r →
    ∃ m, m ∈ link_arrived w ∧ m.(env_ID) = id ∧ r.(ev_idempotency_key) = m.(env_IdempotencyKey) ∧
      json_Marshal (bare m) = Ok r.(ev_envelope);
}.

(** The events before, and the given one. *)
Definition adds (env : Envelope) : relation control_db := λ d d', ∀ id r, d'.(events) !! id = Some r →
  (∃ r0, d.(events) !! id = Some r0 ∧ content r0 = content r) ∨
  (id = env.(env_ID) ∧ r.(ev_idempotency_key) = env.(env_IdempotencyKey) ∧ json_Marshal env = Ok r.(ev_envelope)).
#[local] Instance adds_preorder env : PreOrder (adds env).
Proof.
  split; [intros d id r Hr; left; eauto|]. intros d1 d2 d3 H1 H2 id r Hr.
  destruct (H2 _ _ Hr) as [(r0&Hr0&E)|?]; [|by right]. destruct (H1 _ _ Hr0) as [(r1&Hr1&E1)|(Hi&Hk&Hm)]; [left|right].
  - exists r1. split; [done|congruence].
  - injection E as <- <-. done.
Qed.

Lemma adds_publish env now : moves (adds env) (ControlStore.Publish env now).
Proof.
  unfold ControlStore.Publish. destruct (Validate env); [|io_moves]. destruct (json_Marshal env) as [raw|] eqn:Hm; [|io_moves].
  io_moves.
  - apply moves_exec; [apply _|]. intros d n d' [(_&->&_)|(_&_&_&->)]%insert_event_inv id r Hr; [left; eauto|].
    simpl in Hr. apply lookup_insert_Some in Hr as [[<- <-]|[_ Hr]]; [by right|left; eauto].
  - apply moves_exec; [apply _|]. intros d n d' [= _ <-] id r Hr. left. eauto.
Qed.

Lemma receiver_inv_adds d d' w m :
  Inv d' → adds (bare m) d d' → m ∈ link_arrived w → receiver_inv d w → receiver_inv d' w.
Proof.
  intros HI Ha Hm [_ Hev]. split; [done|]. intros id r Hr. destruct (Ha _ _ Hr) as [(r0&Hr0&E)|(->&Hk&Hraw)].
  - injection E as <- <-. by apply Hev.
  - by exists m.
Qed.

Lemma deliver_receiver m now now2 q s w :
  m ∈ link_arrived w → receiver_inv s.(Server.sv_store).(db) w →
  receiver_inv (accept_message now now2 m (q, s)).2.2.(Server.sv_store).(db) w.
Proof.
  intros Hm HR. unfold accept_message.
  destruct (handle_cases (λ (_ : ()) env, Server.bound_handler now2 env) cB tt now m q s)
    as [(sec&peer&_&_&Hh)|[_ [er ->]]]; [|done].
  destruct (try_attempt _ _ q) as [v q']. destruct Hh as [_ ->]. destruct v as [[]|]; [|done].
  fold (bare m). pose proof (adds_publish (bare m) now2 s.(Server.sv_store)) as Ha.
  pose proof (Publish_moves (bare m) now2 s.(Server.sv_store)) as Hst.
  unfold Server.bound_handler, io_bind, Server.on_store, Server.on_hub, io_ret.
  destruct (ControlStore.Publish _ _ _) as [[x|er] w1]; simpl in *;
    (eapply receiver_inv_adds; [eapply inv_steps; [apply HR|exact Hst]|exact Ha|exact Hm|exact HR]).
Qed.

(** ** The whole *)

Record sys_inv (s : system) : Prop := {
  sy_clean : s.(sA).(Server.sv_store).(faults) = [];
  sy_sender : sender_inv (dbA s) s.(sA).(Server.sv_ext);
  sy_receiver : receiver_inv (dbB s) s.(sA).(Server.sv_ext).(wire);
}.

Lemma receiver_inv_link d w w' :
  link_arrived w `prefix_of` link_arrived w' → receiver_inv d w → receiver_inv d w'.
Proof.
  intros [l Hl] [HI Hev]. split; [done|]. intros id r Hr. destruct (Hev _ _ Hr) as (m&Hin&?).
  exists m. split; [|done]. rewrite Hl. apply elem_of_app. by left.
Qed.

Lemma receiver_inv_kept d d' w : Inv d' → kept d d' → receiver_inv d w → receiver_inv d' w.
Proof.
  intros HI [_ He] [_ Hev]. split; [done|]. intros id r' Hr'. specialize (He id). rewrite Hr' in He. simpl in He.
  symmetry in He. apply fmap_Some in He as (r&Hr&E). injection E as -> ->. by apply Hev.
Qed.

Lemma sys_init_inv s : sys_init s → sys_inv s.
Proof.
  intros (HA&Hl&Ha&Hh&HB). split; rewrite ?HA, ?HB; simpl; [done|..].
  - split; [apply inv_empty|done|done|by intros o ?%not_elem_of_nil|]. rewrite Ha, Hh. by intros m [?%not_elem_of_nil|?%not_elem_of_nil].
  - split; [apply inv_empty|done].
Qed.

Lemma sys_step_inv s s' : sys_step s s' → sys_inv s → sys_inv s'.
Proof using Hkey Hname Htr llaws.
  intros Hs [Hc HS HR].
  destruct Hs as [env now now' s Hv Hwf Hf Hf'|now s|c fs s Hw|m now now2 s Hm|c fs s Hw|fs s];
    destruct s as [[[dA fA] hA oA] [q [[dB fB] hB eB]]]; cbn in *; subst fA.
  - destruct (post_sender env now now' dA hA oA) as (d'&h'&o'&->&HS'&Hp); [done|done|].
    split; [done|exact HS'|by eapply receiver_inv_link].
  - destruct (tick_sender now dA hA oA HS) as (d'&o'&->&HS'&Hp). split; [done|exact HS'|by eapply receiver_inv_link].
  - split; cbn; [done| |done]. eapply sender_inv_kept; [|by apply (worker_call_kept c (World dA fs))|done].
    eapply inv_steps; [apply HS|apply (run_call_steps c (World dA fs))].
  - pose proof (deliver_receiver m now now2 q (Server.mkServer (World dB fB) hB eB) _ Hm HR) as HR'.
    by split.
  - split; cbn; [done|done|]. eapply receiver_inv_kept; [|by apply (worker_call_kept c (World dB fs))|done].
    eapply inv_steps; [apply HR|apply (run_call_steps c (World dB fs))].
  - by split.
Qed.

Lemma reachable_inv s0 s : sys_init s0 → rtc sys_step s0 s → sys_inv s.
Proof using Hkey Hname Htr llaws.
  intros Hi Hs. apply sys_init_inv in Hi. induction Hs; eauto using sys_step_inv.
Qed.

Lemma bound_handler_stores {E} env now d h (e : E) :
  Validate env = Ok tt → (∀ id r, by_key env.(env_IdempotencyKey) d = Some (id, r) → id = env.(env_ID)) →
  is_Some ((Server.bound_handler now env (Server.mkServer (World d []) h e)).2.(Server.sv_store).(db).(events) !! env.(env_ID)).
Proof.
  intros Hv Hk. pose proof (codec_total env ltac:(by apply Validate_ok in Hv as (_&_&_&_&_&_&?))) as Hm.
  destruct (json_Marshal env) as [raw|] eqn:Hraw; [|done]. clear Hm.
  unfold Server.bound_handler, io_bind at 1, Server.on_store. cbn [Server.sv_store Server.sv_hub Server.sv_ext].
  destruct (by_key env.(env_IdempotencyKey) d) as [[id r]|] eqn:Hb.
  - rewrite (Publish_dup d env raw now id r) by done. rewrite <- (Hk _ _ eq_refl).
    apply by_key_Some in Hb as [Hr _]. destruct (json_Unmarshal _); by eexists.
  - destruct (d.(events) !! env.(env_ID)) as [r|] eqn:Hn.
    + unfold ControlStore.Publish, io_bind, io_ret. rewrite Hv, Hraw, exec_clean. unfold insert_event. rewrite Hb, Hn. by eexists.
    + rewrite (Publish_new d env raw now) by done. eexists. apply lookup_insert_eq.
Qed.

(** The sender's key of a message. *)
Lemma on_wire_key d o m :
  sender_inv d o → m ∈ link_arrived o.(wire) →
  ∃ r, d.(events) !! m.(env_ID) = Some r ∧ r.(ev_idempotency_key) = m.(env_IdempotencyKey).
Proof.
  intros HS Hin. destruct (si_wire _ _ HS _ (or_introl Hin)) as (env&r&k&now&nonce&sg&Hr&Hm&Hg&_&Hsg&->).
  pose proof (bare_signed _ _ _ _ Hsg) as Hb. destruct (normalize_fields env) as (Hi&_&Hk&_).
  pose proof (f_equal env_ID Hb) as Hid. pose proof (f_equal env_IdempotencyKey Hb) as Hke. simpl in Hid, Hke.
  destruct (si_events _ _ HS _ _ Hr) as (env'&Hg'&_&Hm'&Hkr&_).
  assert (normalize env = normalize env') as Heq by (eapply marshal_inj; [exact Hm|exact Hm'|apply Hg|apply Hg']).
  exists r. simpl. rewrite Hid, Hke, Hkr. split; [exact Hr|].
  destruct (normalize_fields env') as (_&_&<-&_). by rewrite <- Heq.
Qed.

Lemma receiver_keys d dB o m id r :
  sender_inv d o → receiver_inv dB o.(wire) → m ∈ link_arrived o.(wire) →
  by_key m.(env_IdempotencyKey) dB = Some (id, r) → id = m.(env_ID).
Proof.
  intros HS HR Hm [Hr Hk]%by_key_Some. destruct (ri_events _ _ HR _ _ Hr) as (m'&Hm'&<-&Hk'&_).
  destruct (on_wire_key _ _ _ HS Hm) as (r1&Hr1&Hk1). destruct (on_wire_key _ _ _ HS Hm') as (r2&Hr2&Hk2).
  eapply (inv_unique _ (si_inv _ _ HS)); [done|done|congruence].
Qed.

(** * Theorems *)


(** C7: What has arrived can be taken in: a message on the link stands for an event
    of the sender; handed to the receiver within the window of its signature,
    with its nonce not seen before and a store that answers, it leaves the
    receiver with that event. *)
Theorem federation_delivers {laws : PrimitiveLaws prims} s0 s m :
  cB.(SecureTransport.inner_name) = cA.(SecureTransport.inner_name) →
  cB.(SecureTransport.trust) !! p.(keyID) = Some (Public p) → (0 ≤ cB.(SecureTransport.freshness) < two63 - 1)%Z →
  (∀ k, int64_range (reading k).1) →
  sys_init s0 → rtc sys_step s0 s → m ∈ arrived s → s.(sB).2.(Server.sv_store).(faults) = [] →
  is_Some ((dbA s).(events) !! m.(env_ID)) ∧
  ∃ k nonce, (reading k).2 = Ok nonce ∧ ∀ now now2,
    (- cB.(SecureTransport.freshness) ≤ now - (reading k).1 ≤ cB.(SecureTransport.freshness) - Millisecond)%Z →
    s.(sB).1.(replay) !! (p.(keyID) ++ ":" ++ EncodeToString nonce)%string = None →
    is_Some ((accept_message now now2 m s.(sB)).2.2.(Server.sv_store).(db).(events) !! m.(env_ID)).
Proof using Hkey Hname Htr llaws.
  intros Hnames Htrust Hfresh Hread Hi Hs Hm Hclean. destruct (reachable_inv _ _ Hi Hs) as [_ HS HR].
  destruct (si_wire _ _ HS _ (or_introl Hm)) as (env&rA&k&nowS&nonce&sg&HrA&HmA&Hg&Hk&Hsg&->).
  pose proof (bare_signed _ _ _ _ Hsg) as Hb. assert (env_ID (normalize sg) = env_ID env) as He.
  { apply (f_equal env_ID) in Hb. simpl in Hb. by rewrite <- (proj1 (normalize_fields env)). }
  rewrite He. split; [by eexists|]. exists k, nonce. rewrite Hk. split; [done|]. intros now now2 Hclock Hseen.
  destruct s as [A [q [[dB fB] hB eB]]]. cbn [sB fst snd Server.sv_store db faults] in *. subst fB. specialize (Hread k). rewrite Hk in Hread.
  unfold accept_message.
  destruct (handle_signed (λ (_ : ()) env, Server.bound_handler now2 env) cA cB p q env nowS nonce sg tt now
    (Server.mkServer (World dB []) hB eB)) as [q' Hq']; [done..|]. rewrite Hq'. clear Hq'.
  fold (bare env). change (normalize (bare env)) with (bare (normalize env)). rewrite <- Hb.
  assert (Validate (bare (normalize sg)) = Ok tt) as Hv.
  { rewrite Hb. change (Validate (normalize env) = Ok tt). rewrite Validate_normalize. apply Hg. }
  pose proof (bound_handler_stores (bare (normalize sg)) now2 dB hB eB Hv) as Hst. rewrite <- He.
  destruct (Server.bound_handler _ _ _) as [rb sb]. apply Hst.
  intros id r Hby. exact (receiver_keys _ _ _ _ _ _ HS HR Hm Hby).
Qed.
End system.

(** * Closed instances *)

#[local] Existing Instance toy.
#[local] Existing Instance toy_laws.

(** Kafka between the daemons; the first message is lost with an error, the retry
    from the outbox arrives. *)
Definition ex_outcome (n : nat) : result () * bool :=
  match n with O => (Err (ErrNew "broker not available"), false) | _ => (Ok tt, true) end.
Definition ex_link : Link broker_wire := broker_link (kafka_adapter ex_kafka) String.eqb ex_outcome.
#[local] Existing Instance ex_link.
#[local] Instance ex_link_laws : LinkLaws broker_wire.
Proof. apply broker_link_laws. constructor. Qed.

Definition ex_cfg : SecureTransport.config :=
  SecureTransport.Wrap "kafka" (StaticTrustStore.Add (Public ex_alice) StaticTrustStore.NewStaticTrustStore) (2 * Minute).
Definition ex_reading (k : nat) : Z * result bytes := (ex_now, Ok (ex_nonce (ascii_of_nat (65 + k)))).
Definition ex_transport : Transport := mkTransport "kafka" caps_kafka.
Abbreviation ex_system := (system (W := broker_wire) (EB := ())).
Definition ex_start : ex_system :=
  mkSystem (Server.mkServer (World empty_db []) Hub.NewHub (mkOutlet 0 (mkBrokerWire [] 0) []))
    (ex_bob, Server.mkServer (World empty_db []) Hub.NewHub tt).
Definition ex_posted : ex_system :=
  mkSystem (Server.ingest (registry "kafka" ex_transport) (forward ex_alice ex_cfg ex_reading) "kafka" ex_envelope "" ex_now ex_now
    ex_start.(sA)).2 ex_start.(sB).
Definition ex_retried : ex_system :=
  mkSystem (Server.tick (registry "kafka" ex_transport) (forward ex_alice ex_cfg ex_reading) (ex_now + 2 * Second)
    ex_posted.(sA)).2 ex_posted.(sB).

Lemma ex_posted_queued :
  length ex_posted.(sA).(Server.sv_store).(db).(outbox) = 1 ∧ link_arrived ex_posted.(sA).(Server.sv_ext).(wire) = [].
Proof. by vm_compute. Qed.

Lemma ex_init : sys_init ex_start.
Proof. split_and!; [reflexivity|exact I|reflexivity..]. Qed.

Lemma ex_sendable env : sendable ex_alice ex_cfg env.
Proof. intros now nonce m _. exact I. Qed.

Lemma ex_reached : rtc (sys_step ex_alice ex_cfg ex_cfg "kafka" ex_transport ex_reading) ex_start ex_retried.
Proof.
  eapply rtc_l; [apply (sys_post _ _ _ _ _ _ ex_envelope ex_now ex_now)|eapply rtc_once, (sys_tick _ _ _ _ _ _ (ex_now + 2 * Second))].
  - vm_compute; reflexivity.
  - vm_compute; reflexivity.
  - apply ex_sendable.
  - apply ex_sendable.
Qed.


Lemma federation_delivers_witness :
  ∃ m now, m ∈ link_arrived ex_retried.(sA).(Server.sv_ext).(wire) ∧
    is_Some ((accept_message ex_cfg now now m ex_retried.(sB)).2.2.(Server.sv_store).(db).(events) !! m.(env_ID)).
Proof.
  assert (∃ m l, link_arrived ex_retried.(sA).(Server.sv_ext).(wire) = m :: l) as (m&l&Ha).
  { destruct (link_arrived ex_retried.(sA).(Server.sv_ext).(wire)) as [|m l] eqn:Ha; [vm_compute in Ha; discriminate Ha|by eauto]. }
  assert (m ∈ link_arrived ex_retried.(sA).(Server.sv_ext).(wire)) as Hm by (rewrite Ha; apply elem_of_cons; left; reflexivity).
  assert (ex_retried.(sB) = ex_start.(sB)) as HB by reflexivity.
  destruct (federation_delivers ex_alice ex_cfg ex_cfg "kafka" ex_transport ex_reading
    ltac:(vm_compute; reflexivity) ltac:(vm_compute; reflexivity) ltac:(discriminate)
    ex_start ex_retried m eq_refl ltac:(vm_compute; reflexivity) ltac:(vm_compute; split; [discriminate|reflexivity])
    ltac:(intros k; vm_compute; split; [discriminate|reflexivity]) ex_init ex_reached Hm ltac:(rewrite HB; reflexivity))
    as [_ (k&nonce&_&Hd)].
  exists m, ex_now. split; [exact Hm|]. apply Hd; [vm_compute; split; discriminate|]. rewrite HB. reflexivity.
Defined.
