(* ===== verification/Grpc.v ===== *)
(** * The gRPC adapter: grpc.go

    A unary call publishes, a server stream subscribes; both carry JSON.  The RPC
    library is a parameter: [invoke] is a unary call of a client connection,
    messages of a stream are their bytes.  The local handler table is that of
    [Transport.Handlers]; a remote subscriber is a handler that offers the
    envelope to the subscriber's channel. *)

From Stdlib Require Import ZArith NArith Lia Ascii String.
From stdpp Require Import base list gmap sets strings.
From S2P Require Import Prelude GoRegexp JsonScan Utf8 JsonText JsonRoundtrip JsonValues Sha256 Model Json Transport Tcp Quic.

Module GRPCTransport.
Record GRPCConfig := mkGRPCConfig {
  Name : string; PeerAddr : string; ListenAddr : string; ClientTLS : option tlsConfig; ServerTLS : option tlsConfig }.

(** A client connection or a server, with its credentials; [None] is insecure. *)
Record endpoint := Endpoint { credentials : option tlsConfig }.

Record state (H : Type) := mkGRPC {
  cfg : GRPCConfig; conn : option endpoint; server : option endpoint; handlers : Handlers.table H }.
Arguments mkGRPC {H} _ _ _ _.
Arguments cfg {H} _.
Arguments conn {H} _.
Arguments server {H} _.
Arguments handlers {H} _.

(** [NewGRPCTransport]; [newClient] and [listen] are the outcomes of
    [grpc.NewClient] and [net.Listen]. *)
Definition NewGRPCTransport {H} (c : GRPCConfig) (newClient listen : result ()) : result (state H) :=
  if bool_decide (c.(Name) = "") then Err (ErrNew "grpc name required")
  else
    try cn := (if bool_decide (c.(PeerAddr) = "") then Ok None
               else try _ := newClient in Ok (Some (Endpoint c.(ClientTLS)))) in
    try sv := (if bool_decide (c.(ListenAddr) = "") then Ok None
               else try _ := listen in Ok (Some (Endpoint c.(ServerTLS)))) in
    Ok (mkGRPC c cn sv ∅).

(** [grpcAck] and [grpcSubscribeRequest]. *)
Definition marshal_ack (accepted : bool) : bytes := object [("accepted", format_bool accepted)].
Definition ack_fields : fields bool := [("accepted", λ v a, bool_into v a)].
Definition marshal_subscribe (event : string) : bytes := object [("event", quote event)].
Definition subscribe_fields : fields string := [("event", λ v a, string_into v a)].

Definition publishMethod : string := "/ubiq.v1.UbiQ/Publish".
Definition subscribeMethod : string := "/ubiq.v1.UbiQ/Subscribe".

Section client.
Context {W : Type} (invoke : string → bytes → io W (result bytes)).

(** [Publish]: the codec writes the request and reads the acknowledgement, whose
    content is not looked at. *)
Definition Publish {H} (t : state H) (env : Envelope) : io W (result ()) :=
  match t.(conn) with
  | None => io_ret (Err (ErrNew "grpc peer not configured"))
  | Some _ =>
    match Validate env with
    | Err e => io_ret (Err e)
    | Ok _ =>
      match json_Marshal env with
      | Err e => io_ret (Err e)
      | Ok raw =>
          try reply <- invoke publishMethod raw;
          io_ret (try _ := unmarshal_struct false ack_fields false reply in Ok tt)
      end
    end
  end.

(** The goroutine of a remote subscription: it ends with the stream, at a
    message it cannot read, or at the first error of the handler.  The handler is
    told whether its context was cancelled.  [Close] of the subscription cancels
    that context and nothing else: the stream was opened with the caller's. *)
Inductive sub_turn := SubMessage (msg : result bytes) | SubClose.

Fixpoint recv_loop (h : bool → Envelope → io W (result ())) (cancelled : bool) (turns : list sub_turn) : io W () :=
  match turns with
  | SubMessage (Ok data) :: turns' =>
      match json_Unmarshal data with
      | Err _ => io_ret tt
      | Ok env => do r <- h cancelled env; if is_ok r then recv_loop h cancelled turns' else io_ret tt
      end
  | SubClose :: turns' => recv_loop h true turns'
  | SubMessage (Err _) :: _ | [] => io_ret tt
  end.
End client.

(** [Subscribe]: local without a connection, else a stream opened with the
    request [marshal_subscribe event]; [None] is a nil handler, the results are
    those of opening the stream, sending the request and closing the sending
    side. *)
Inductive subscription := Local (event : string) (idx : nat) | Remote (request : bytes).

Definition Subscribe {H} (event : string) (h : option H) (newStream send closeSend : result ())
  : io (state H) (result subscription) := λ t,
  match h with
  | None => (Err (ErrNew "handler required"), t)
  | Some h =>
    match t.(conn) with
    | None =>
        let '(idx, tbl) := Handlers.Subscribe event h t.(handlers) in
        (Ok (Local event idx), mkGRPC t.(cfg) None t.(server) tbl)
    | Some _ => (try _ := newStream in try _ := send in try _ := closeSend in Ok (Remote (marshal_subscribe event)), t)
    end
  end.

Section server.
Context {H W : Type} (call : H → Envelope → io W (result ())).

(** [grpcPublishHandler], without an interceptor: none is installed. *)
Definition grpcPublishHandler (tbl : Handlers.table H) (data : bytes) : io W (result bytes) :=
  match json_Unmarshal data with
  | Err e => io_ret (Err e)
  | Ok env =>
    match Validate env with
    | Err e => io_ret (Err e)
    | Ok _ => try _ <- Handlers.dispatch_grpc call tbl env; io_ret (Ok (marshal_ack true))
    end
  end.
End server.

(** The event a subscription request asks for. *)
Definition requested (data : bytes) : result string :=
  try event := unmarshal_struct false subscribe_fields "" data in
  Ok (if decide (event = "") then "*" else event).

(** The channels of the remote subscribers, by subscriber. *)
Abbreviation channels := (gmap nat (list Envelope)).
Definition channelSize : nat := 64.

(** The handler [grpcSubscribeHandler] adds to the table: offer, or refuse. *)
Definition offer (id : nat) (env : Envelope) : io channels (result ()) := λ chs,
  let q := default [] (chs !! id) in
  if (length q <? channelSize)%nat then (Ok tt, <[id := q ++ [env]]> chs)
  else (Err (ErrNew "grpc subscriber backpressure"), chs).

(** One round of its sending loop: the text of the message sent, if any. *)
Definition send_next (id : nat) : io channels (option (result bytes)) := λ chs,
  match chs !! id with
  | Some (env :: q) => (Some (json_Marshal env), <[id := q]> chs)
  | _ => (None, chs)
  end.

(** What happens around the loop of a stream: a call of [Publish] arrives, other
    subscriptions come and go, the loop gets to send (and [SendMsg] succeeds or
    not).  The list ends when the context of the stream does. *)
Inductive stream_turn :=
| StreamCall (data : bytes) | StreamAdd (event : string) (id : nat) | StreamDrop (event : string) (idx : nat)
| StreamSend (ok : result ()).

(** The loop of [grpcSubscribeHandler]: the texts the subscriber was sent. *)
Fixpoint stream_loop (id : nat) (turns : list stream_turn) : io (Handlers.table nat * channels) (list bytes) :=
  match turns with
  | [] => io_ret []
  | StreamCall data :: turns' => λ '(tbl, chs), stream_loop id turns' (tbl, (grpcPublishHandler offer tbl data chs).2)
  | StreamAdd event k :: turns' => λ '(tbl, chs), stream_loop id turns' ((Handlers.Subscribe event k tbl).2, chs)
  | StreamDrop event idx :: turns' => λ '(tbl, chs), stream_loop id turns' (Handlers.Unsubscribe event idx tbl, chs)
  | StreamSend ok :: turns' => λ '(tbl, chs),
      match send_next id chs with
      | (None, _) => stream_loop id turns' (tbl, chs)
      | (Some (Ok raw), chs') =>
          if is_ok ok then let '(out, w) := stream_loop id turns' (tbl, chs') in (raw :: out, w) else ([], (tbl, chs'))
      | (Some (Err _), chs') => ([], (tbl, chs'))
      end
  end.

(** [grpcSubscribeHandler], whose channel is [id]; [first] is the outcome of
    receiving the request.  The subscription is closed when it returns. *)
Definition grpcSubscribeHandler (id : nat) (first : result bytes) (turns : list stream_turn)
  : io (Handlers.table nat * channels) (result (list bytes)) := λ '(tbl, chs),
  match (try data := first in requested data) with
  | Err e => (Err e, (tbl, chs))
  | Ok event =>
      let '(idx, tbl1) := Handlers.Subscribe event id tbl in
      let '(out, (tbl2, chs2)) := stream_loop id turns (tbl1, <[id := []]> chs) in
      (Ok out, (Handlers.Unsubscribe event idx tbl2, chs2))
  end.

(** [Close]; the server is stopped first, the results are those of closing the
    connection and the listener. *)
Definition Close {H} (t : state H) (closeConn closeListener : result ()) : result () :=
  match t.(conn), t.(server) with
  | Some _, _ => closeConn
  | None, Some _ => closeListener
  | None, None => Ok tt
  end.
End GRPCTransport.

(** ** What a unary call promises

    A call may fail before it reaches the server (no connection, a message over the
    limit), or after: the server runs its handler on the request, and the reply or
    the error of the handler is lost on the way back, or comes after the deadline.
    The client gets a reply only if the handler returned it.  The state after a
    failed call that reached the server is the one after the handler is done. *)
Class UnaryCall {H W} (call : H → Envelope → io W (result ())) (tbl : Handlers.table H)
    (invoke : string → bytes → io W (result bytes)) : Prop := {
  unary_call raw w :
    match invoke GRPCTransport.publishMethod raw w with
    | (Ok reply, w') => GRPCTransport.grpcPublishHandler call tbl raw w = (Ok reply, w')
    | (Err _, w') => w' = w ∨ w' = (GRPCTransport.grpcPublishHandler call tbl raw w).2
    end;
}.

(** The calls of a list of handlers, one after the other until one fails, with the
    result of the last. *)
Inductive called {H W} (call : H → Envelope → io W (result ())) (env : Envelope) : list H → W → result () → W → Prop :=
| called_none w : called call env [] w (Ok tt) w
| called_failed h hs w e w' : call h env w = (Err e, w') → called call env (h :: hs) w (Err e) w'
| called_next h hs w w1 r w' : call h env w = (Ok tt, w1) → called call env hs w1 r w' → called call env (h :: hs) w r w'.

(** * Lemmas *)

Import GRPCTransport.

Lemma ack_read b : unmarshal_struct false ack_fields false (marshal_ack b) = Ok b.
Proof.
  apply unmarshal_object; [by apply Forall_singleton, format_bool_value|by apply Forall_singleton, format_bool_value|
    by repeat constructor|]. simpl. by rewrite bool_into_format.
Qed.

Lemma subscribe_read event :
  utf8_string event = true → unmarshal_struct false subscribe_fields "" (marshal_subscribe event) = Ok event.
Proof.
  intros He. apply unmarshal_object; [solve_values|solve_values|by repeat constructor|]. by read_fields.
Qed.

Lemma called_run {H W} (call : H → Envelope → io W (result ())) env hs w :
  called call env hs w (Handlers.call_until_error call hs env w).1 (Handlers.call_until_error call hs env w).2.
Proof.
  revert w. induction hs as [|h hs IH]; intros w; cbn [Handlers.call_until_error]; [constructor|].
  unfold io_bind, io_ret. destruct (call h env w) as [[[]|e] w1] eqn:Hc; [by eapply called_next|by apply called_failed].
Qed.

Section fanout.
Context (tbl : Handlers.table nat).

Lemma offer_ok id env chs :
  length (default [] (chs !! id)) < channelSize →
  offer id env chs = (Ok tt, <[id := default [] (chs !! id) ++ [env]]> chs).
Proof. intros Hl. unfold offer. by rewrite (proj2 (Nat.ltb_lt _ _)). Qed.

(** The subscribers before the first full one get the envelope; it and those
    after it do not. *)
Lemma offers_run ids env chs :
  NoDup ids →
  ∃ served rest chs', ids = served ++ rest ∧
    Handlers.call_until_error offer ids env chs =
      ((match rest with [] => Ok tt | _ => Err (ErrNew "grpc subscriber backpressure") end), chs') ∧
    Forall (λ id, length (default [] (chs !! id)) < channelSize) served ∧
    (∀ id rest', rest = id :: rest' → channelSize ≤ length (default [] (chs !! id))) ∧
    ∀ id, chs' !! id = if decide (id ∈ served) then Some (default [] (chs !! id) ++ [env]) else chs !! id.
Proof.
  intros Hnd. revert chs. induction Hnd as [|id ids Hin _ IH]; intros chs; cbn [Handlers.call_until_error].
  { exists [], [], chs. split_and!; try done. }
  unfold io_bind. destruct (decide (length (default [] (chs !! id)) < channelSize)) as [Hl|Hl].
  - rewrite (offer_ok _ _ _ Hl). destruct (IH (<[id := default [] (chs !! id) ++ [env]]> chs)) as (served&rest&chs'&->&->&Hs&Hr&Hl').
    assert (∀ i, i ∈ served ++ rest → <[id := default [] (chs !! id) ++ [env]]> chs !! i = chs !! i) as Hne.
    { intros i Hi. apply lookup_insert_ne. by intros ->. }
    exists (id :: served), rest, chs'. split_and!; try done.
    + constructor; [done|]. rewrite Forall_forall in *. intros i Hi. rewrite <- (Hne i) by set_solver. by apply Hs.
    + intros i rest' ->. rewrite <- (Hne i) by set_solver. by eapply Hr.
    + intros i. rewrite Hl'. destruct (decide (i = id)) as [->|Hi].
      * rewrite decide_False by set_solver. rewrite decide_True by set_solver. by rewrite lookup_insert_eq.
      * rewrite lookup_insert_ne by done. destruct (decide (i ∈ served)); [rewrite decide_True by set_solver|rewrite decide_False by set_solver]; done.
  - exists [], (id :: ids), chs. unfold offer. rewrite (proj2 (Nat.ltb_ge _ _)) by lia. split_and!; try done.
    intros i rest' [= <- <-]. lia.
Qed.
End fanout.

(** * Theorems *)

(** C33: What the result of a gRPC publication says: a publication that reports
    success has called every live handler the peer has for the event, in the order
    they subscribed, and then every live handler of the wildcard, each with the
    published envelope (payload compacted), and all of them succeeded.  One that
    reports an error has called none of them (the call did not get through), or has
    called them in that order up to the first that failed (all, if none did and
    the reply was lost). *)
Theorem grpc_publish_sync {H W H'} (call : H → Envelope → io W (result ())) tbl invoke
    `{!UnaryCall call tbl invoke} (t : state H') env w :
  wf_text env = true → Validate env = Ok tt → is_Some t.(conn) →
  ∃ r w1,
    called call (normalize env)
      (omap id (Handlers.at_event env.(env_Event) tbl) ++ omap id (Handlers.at_event "*" tbl)) w r w1 ∧
    match Publish invoke t env w with
    | (Ok _, w') => r = Ok tt ∧ w' = w1
    | (Err _, w') => w' = w ∨ w' = w1
    end.
Proof.
  intros Hwf Hv [c Hc]. pose proof (codec_total env ltac:(by apply Validate_ok in Hv as (_&_&_&_&_&_&?))) as Hm.
  destruct (json_Marshal env) as [raw|] eqn:Hraw; [|done].
  eexists _, _. split; [apply called_run|]. rewrite <- omap_app. fold (Handlers.targets env.(env_Event) tbl).
  destruct (normalize_fields env) as (_&Hev&_). rewrite <- Hev. fold (Handlers.dispatch_grpc call tbl (normalize env)).
  unfold Publish. rewrite Hc, Hv, Hraw. pose proof (unary_call raw w) as Hu.
  unfold grpcPublishHandler in Hu. rewrite (codec_roundtrip _ _ Hwf Hraw), Validate_normalize, Hv in Hu.
  unfold io_bind, io_ret in *. destruct (invoke publishMethod raw w) as [[reply|e] w'];
    destruct (Handlers.dispatch_grpc call tbl (normalize env) w) as [[[]|e1] w1]; simplify_eq/=; rewrite ?ack_read; done.
Qed.

(** A remote subscriber whose channel is full stops the publication: those served
    before it have the envelope, it and every later subscriber do not, and the
    publisher gets an error although some were served. *)
Theorem grpc_backpressure_stops (tbl : Handlers.table nat) env chs :
  NoDup (Handlers.targets env.(env_Event) tbl) →
  ∃ served rest chs', Handlers.targets env.(env_Event) tbl = served ++ rest ∧
    Handlers.dispatch_grpc offer tbl env chs =
      ((match rest with [] => Ok tt | _ => Err (ErrNew "grpc subscriber backpressure") end), chs') ∧
    (rest = [] ↔ Forall (λ id, length (default [] (chs !! id)) < channelSize) (Handlers.targets env.(env_Event) tbl)) ∧
    ∀ id, chs' !! id = if decide (id ∈ served) then Some (default [] (chs !! id) ++ [env]) else chs !! id.
Proof.
  intros Hnd. destruct (offers_run _ env chs Hnd) as (served&rest&chs'&Ht&Hr&Hs&Hfull&Hl).
  exists served, rest, chs'. split_and!; try done. rewrite Ht. split; [intros ->; by rewrite app_nil_r|].
  intros [_ Hrest]%Forall_app. destruct rest as [|id rest]; [done|].
  apply Forall_cons in Hrest as [Hid _]. specialize (Hfull id rest eq_refl). lia.
Qed.

(** What a subscription request asks for is what the server subscribes: the event
    itself, or every event when it is empty. *)
Theorem grpc_request_read event :
  utf8_string event = true → requested (marshal_subscribe event) = Ok (if decide (event = "") then "*" else event).
Proof. intros He. unfold requested. by rewrite subscribe_read. Qed.

(** * Closed instances *)

Definition ex_grpc : state nat :=
  mkGRPC (mkGRPCConfig "grpc" "peer:9000" "" None None) (Some (Endpoint None)) None ∅.
Definition ex_table : Handlers.table nat := {["*" := [Some 1; Some 2]]}.
Definition ex_invoke (method : string) (raw : bytes) : io channels (result bytes) :=
  grpcPublishHandler offer ex_table raw.

#[local] Instance ex_unary : UnaryCall offer ex_table ex_invoke.
Proof.
  split. intros raw w. unfold ex_invoke. destruct (grpcPublishHandler _ _ _ _) as [[]]; [done|by right].
Qed.

(** A connection whose replies are lost. *)
Definition ex_deaf (method : string) (raw : bytes) : io channels (result bytes) := λ w,
  (Err (ErrNew "deadline exceeded"), (grpcPublishHandler offer ex_table raw w).2).

#[local] Instance ex_deaf_unary : UnaryCall offer ex_table ex_deaf.
Proof. split. intros raw w. by right. Qed.

Lemma grpc_publish_sync_witness :
  ∃ w', Publish ex_invoke ex_grpc ex_envelope ∅ = (Ok tt, w') ∧ called offer (normalize ex_envelope) [1; 2] ∅ (Ok tt) w' ∧
    w' !! 2 = Some [normalize ex_envelope].
Proof.
  destruct (grpc_publish_sync offer ex_table ex_invoke ex_grpc ex_envelope ∅
    ltac:(vm_compute; reflexivity) ltac:(vm_compute; reflexivity) ltac:(by eexists)) as (r&w1&Hcalled&Hp).
  destruct (Publish ex_invoke ex_grpc ex_envelope ∅) as [[[]|e] w'] eqn:E; [|vm_compute in E; discriminate E].
  destruct Hp as [-> ->]. exists w1. split; [reflexivity|]. split; [exact Hcalled|].
  apply (f_equal (λ p, p.2 !! 2)) in E. cbn [snd] in E. rewrite <- E. vm_compute. reflexivity.
Defined.

Definition ex_full : channels := {[1 := replicate 64 ex_envelope]}.

Lemma grpc_backpressure_stops_witness :
  ∃ served rest, Handlers.targets ex_envelope.(env_Event) ex_table = served ++ rest ∧ rest ≠ [].
Proof.
  destruct (grpc_backpressure_stops ex_table ex_envelope ex_full) as (served&rest&chs'&Ht&_&Hr&_).
  - vm_compute. repeat constructor; set_solver.
  - exists served, rest. split; [exact Ht|]. intros Hnil. apply Hr in Hnil. apply Forall_inv in Hnil.
    vm_compute in Hnil. lia.
Defined.
