(* ===== verification/GrpcStream.v ===== *)
(** * Remote subscriptions over gRPC

    What the subscriber of a stream is sent, what its handler is called with, and
    what is left when the stream or the subscription ends. *)

From Stdlib Require Import ZArith NArith Lia Ascii String.
From stdpp Require Import base list gmap sets strings.
From S2P Require Import Prelude GoRegexp JsonScan Utf8 JsonText JsonRoundtrip JsonValues Sha256 Model Json Transport Tcp Quic Grpc.
Import GRPCTransport.

(** The valid publications among the calls that are for [event]. *)
Definition heard_call (event : string) (x : stream_turn) : option Envelope :=
  match x with
  | StreamCall data =>
      match json_Unmarshal data with
      | Ok env => if decide (Validate env = Ok tt ∧ (event = "*" ∨ event = env.(env_Event))) then Some env else None
      | Err _ => None
      end
  | _ => None
  end.
Definition heard (event : string) (turns : list stream_turn) : list Envelope := omap (heard_call event) turns.

(** The channel [id] belongs to one subscription. *)
Definition owned (id : nat) (event : string) (idx : nat) (tbl : Handlers.table nat) : Prop :=
  idx < length (Handlers.at_event event tbl) ∧
  ∀ ev i, Handlers.at_event ev tbl !! i = Some (Some id) → ev = event ∧ i = idx.

(** Nobody else gets the channel. *)
Definition not_mine (id : nat) (x : stream_turn) : Prop := match x with StreamAdd _ k => k ≠ id | _ => True end.

(** * Lemmas *)

Lemma validate_not_star env : Validate env = Ok tt → env.(env_Event) ≠ "*".
Proof.
  intros (_&_&_&_&Hs&_)%Validate_ok He. unfold State in Hs. rewrite He in Hs. vm_compute in Hs. discriminate Hs.
Qed.

(** *** The table *)

Lemma subscribe_at ev event k (tbl : Handlers.table nat) :
  Handlers.at_event ev (Handlers.Subscribe event k tbl).2 =
  Handlers.at_event ev tbl ++ (if decide (ev = event) then [Some k] else []).
Proof.
  unfold Handlers.Subscribe. simpl. unfold Handlers.at_event at 1. case_decide as He.
  - subst. by rewrite lookup_insert_eq.
  - rewrite lookup_insert_ne by done. by rewrite app_nil_r.
Qed.

Lemma unsubscribe_at ev event idx (tbl : Handlers.table nat) :
  Handlers.at_event ev (Handlers.Unsubscribe event idx tbl) =
  if decide (ev = event) then <[idx := None]> (Handlers.at_event ev tbl) else Handlers.at_event ev tbl.
Proof.
  unfold Handlers.Unsubscribe. destruct (Nat.ltb_spec idx (length (Handlers.at_event event tbl))) as [Hl|Hl].
  - unfold Handlers.at_event at 1. case_decide as He; [subst; by rewrite lookup_insert_eq|by rewrite lookup_insert_ne].
  - case_decide as He; [|done]. subst. by rewrite list_insert_ge.
Qed.

Lemma owned_add id event idx ev k tbl :
  k ≠ id → owned id event idx tbl → owned id event idx (Handlers.Subscribe ev k tbl).2.
Proof.
  intros Hk [Hl Ho]. split; [rewrite subscribe_at, length_app; lia|]. intros e i. rewrite subscribe_at. intros Hi.
  apply lookup_app_Some in Hi as [Hi|[_ Hi]]; [by apply Ho|]. case_decide; [|done].
  apply list_lookup_singleton_Some in Hi as [_ [= ?]]. congruence.
Qed.

Lemma owned_drop id event idx ev j tbl : owned id event idx tbl → owned id event idx (Handlers.Unsubscribe ev j tbl).
Proof.
  intros [Hl Ho]. split; [rewrite unsubscribe_at; case_decide; by rewrite ?length_insert|]. intros e i. rewrite unsubscribe_at.
  case_decide; [|apply Ho]. intros Hi. apply list_lookup_insert_Some in Hi as [(_&?&_)|[_ Hi]]; [done|by apply Ho].
Qed.

Lemma owned_subscribe id event tbl :
  (∀ ev i, Handlers.at_event ev tbl !! i ≠ Some (Some id)) →
  owned id event (Handlers.Subscribe event id tbl).1 (Handlers.Subscribe event id tbl).2.
Proof.
  intros Hf. split; [rewrite subscribe_at; simpl; rewrite !length_app; case_decide; simpl; [lia|done]|].
  intros ev i. rewrite subscribe_at. intros Hi. apply lookup_app_Some in Hi as [Hi|[Hl Hi]]; [by destruct (Hf ev i)|].
  case_decide; [|done]. subst. split; [done|]. apply list_lookup_singleton_Some in Hi as [Hi _]. simpl. rewrite length_app. simpl. lia.
Qed.

Definition uses (id : nat) (hs : list nat) : nat := length (filter (λ h, h = id) hs).

Lemma uses_app id l k : uses id (l ++ k) = uses id l + uses id k.
Proof. unfold uses. by rewrite filter_app, length_app. Qed.

Lemma uses_absent id l : (∀ i : nat, l !! i ≠ Some (Some id)) → uses id (omap Datatypes.id l) = 0.
Proof.
  unfold uses. induction l as [|[k|] l IH]; intros Hl; [done| |].
  - change (omap Datatypes.id (Some k :: l)) with (k :: omap Datatypes.id l).
    rewrite filter_cons_False; [apply IH; intros i; apply (Hl (S i))|]. intros ->. by apply (Hl 0).
  - apply IH. intros i. apply (Hl (S i)).
Qed.

Lemma uses_once id l j : (∀ i, l !! i = Some (Some id) → i = j) → uses id (omap Datatypes.id l) ≤ 1.
Proof.
  revert j. induction l as [|o l IH]; intros j Hl; [unfold uses; simpl; lia|].
  destruct (decide (o = Some id)) as [->|Ho].
  - pose proof (uses_absent id l) as Ha. unfold uses in *.
    change (omap Datatypes.id (Some id :: l)) with (id :: omap Datatypes.id l). rewrite filter_cons_True by done. simpl.
    rewrite Ha; [lia|]. intros i Hi. pose proof (Hl 0 eq_refl). pose proof (Hl (S i) Hi). lia.
  - assert (uses id (omap Datatypes.id l) ≤ 1) as Hu.
    { apply (IH (j - 1)). intros i Hi. pose proof (Hl (S i) Hi). lia. }
    unfold uses in *. destruct o as [k|]; [|done].
    change (omap Datatypes.id (Some k :: l)) with (k :: omap Datatypes.id l). rewrite filter_cons_False; [done|]. by intros ->.
Qed.

Lemma owned_targets id event idx tbl ev :
  owned id event idx tbl → ev ≠ "*" →
  uses id (Handlers.targets ev tbl) ≤ (if decide (event = "*" ∨ event = ev) then 1 else 0).
Proof.
  intros [_ Ho] Hev. unfold Handlers.targets. rewrite omap_app, uses_app.
  assert (∀ e, event ≠ e → uses id (omap Datatypes.id (Handlers.at_event e tbl)) = 0) as H0.
  { intros e He. apply uses_absent. intros i [? _]%Ho. by apply He. }
  assert (∀ e, uses id (omap Datatypes.id (Handlers.at_event e tbl)) ≤ 1) as H1.
  { intros e. apply (uses_once id _ idx). intros i [_ ?]%Ho. done. }
  destruct (decide (event = ev)) as [He|He].
  - rewrite (H0 "*") by congruence. rewrite decide_True by auto. specialize (H1 ev). lia.
  - rewrite (H0 ev) by done. case_decide as Hs; [apply H1|]. rewrite (H0 "*"); [done|tauto].
Qed.

(** *** The channel *)

Lemma offers_queue id hs env chs :
  ∃ k, k ≤ uses id hs ∧
    default [] ((Handlers.call_until_error offer hs env chs).2 !! id) = default [] (chs !! id) ++ replicate k env.
Proof.
  revert chs. induction hs as [|h hs IH]; intros chs; [exists 0; by rewrite app_nil_r|].
  cbn [Handlers.call_until_error]. unfold io_bind, uses in *. unfold offer at 1.
  destruct (_ <? _)%nat; [|exists 0; rewrite app_nil_r; split; [lia|done]].
  destruct (IH (<[h := default [] (chs !! h) ++ [env]]> chs)) as (k&Hk&->).
  destruct (decide (h = id)) as [->|Hne].
  - exists (S k). rewrite filter_cons_True, lookup_insert_eq by done. simpl. split; [lia|]. by rewrite <- app_assoc.
  - exists k. by rewrite filter_cons_False, lookup_insert_ne.
Qed.

(** A call adds to the channel what it is for, once, or nothing. *)
Lemma call_queue id event idx tbl data chs :
  owned id event idx tbl →
  ∃ acc, acc `sublist_of` option_list (heard_call event (StreamCall data)) ∧
    default [] ((grpcPublishHandler offer tbl data chs).2 !! id) = default [] (chs !! id) ++ acc.
Proof.
  intros Ho. unfold grpcPublishHandler, heard_call, io_bind, io_ret.
  destruct (json_Unmarshal data) as [env|]; [|exists []; by rewrite app_nil_r].
  destruct (Validate env) as [[]|] eqn:Hv; [|exists []; rewrite app_nil_r; split; [apply sublist_nil_l|done]].
  destruct (offers_queue id (Handlers.targets (env_Event env) tbl) env chs) as (k&Hk&Hq).
  unfold Handlers.dispatch_grpc. exists (replicate k env). split.
  - pose proof (owned_targets id event idx tbl _ Ho (validate_not_star _ Hv)) as Hu.
    case_decide as Hc; [rewrite decide_True by done|].
    + destruct k as [|[|k]]; [apply sublist_nil_l|done|lia].
    + replace k with 0 by lia. apply sublist_nil_l.
  - destruct (Handlers.call_until_error _ _ _ _) as [[]]; exact Hq.
Qed.

(** The loop sends, in order, what was in the channel and what came into it. *)
Lemma stream_loop_order id event idx turns tbl chs out tbl' chs' :
  owned id event idx tbl → Forall (not_mine id) turns → stream_loop id turns (tbl, chs) = (out, (tbl', chs')) →
  owned id event idx tbl' ∧
  ∃ acc, acc `sublist_of` (default [] (chs !! id) ++ heard event turns) ∧ Forall2 (λ env raw, json_Marshal env = Ok raw) acc out.
Proof.
  intros Ho Hx. revert tbl chs out Ho. induction Hx as [|x turns Hx _ IH]; intros tbl chs out Ho; cbn [stream_loop].
  { intros [= <- <- <-]. split; [done|]. exists []. split; [apply sublist_nil_l|constructor]. }
  destruct x as [data|ev k|ev j|ok].
  - destruct (call_queue id event idx tbl data chs Ho) as (acc0&Hacc0&Hq). intros Hl.
    destruct (IH _ _ _ Ho Hl) as (Ho'&acc&Hacc&Hout). split; [done|]. exists acc. split; [|done]. rewrite Hq, <- app_assoc in Hacc.
    etrans; [exact Hacc|]. apply sublist_app; [done|]. unfold heard. cbn [omap list_omap].
    destruct (heard_call event (StreamCall data)) as [env|]; simpl in *.
    + by apply (sublist_app _ [env]).
    + by apply sublist_nil_r in Hacc0 as ->.
  - intros Hl. destruct (IH _ _ _ (owned_add _ _ _ _ _ _ Hx Ho) Hl) as (Ho'&acc&?&?). split; [done|]. by exists acc.
  - intros Hl. destruct (IH _ _ _ (owned_drop _ _ _ _ _ _ Ho) Hl) as (Ho'&acc&?&?). split; [done|]. by exists acc.
  - change (heard event (StreamSend ok :: turns)) with (heard event turns). unfold send_next.
    destruct (chs !! id) as [[|env q]|] eqn:Hq; [by intros ?%IH; rewrite ?Hq in *| |by intros ?%IH; rewrite ?Hq in *].
    assert (∀ tbl2, owned id event idx tbl2 → owned id event idx tbl2 ∧ ∃ acc, acc `sublist_of` (default [] (Some (env :: q)) ++ heard event turns) ∧
      Forall2 (λ env raw, json_Marshal env = Ok raw) acc []) as Hend.
    { intros tbl2 H2. split; [done|]. exists []. split; [apply sublist_nil_l|constructor]. }
    destruct (json_Marshal env) as [raw|] eqn:Hm; [|intros [= <- <- <-]; by apply Hend].
    destruct (is_ok ok); [|intros [= <- <- <-]; by apply Hend].
    destruct (stream_loop id turns _) as [out1 [tbl1 chs1]] eqn:Hl. intros [= <- <- <-].
    destruct (IH _ _ _ Ho Hl) as (Ho'&acc&Hacc&Hout). split; [done|]. rewrite lookup_insert_eq in Hacc.
    exists (env :: acc). split; [by apply sublist_skip|by constructor].
Qed.

(** A handler that records its calls, and whether its context was cancelled. *)
Definition record (cancelled : bool) (env : Envelope) : io (list (bool * Envelope)) (result ()) :=
  λ log, (Ok tt, log ++ [(cancelled, env)]).

Lemma recv_app c envs raws rest log :
  Forall2 (λ env raw, json_Marshal env = Ok raw) envs raws → Forall (λ env, wf_text env = true) envs →
  recv_loop record c ((SubMessage ∘ Ok <$> raws) ++ rest) log = recv_loop record c rest (log ++ ((λ e, (c, normalize e)) <$> envs)).
Proof.
  intros Hm. revert log. induction Hm as [|env raw envs raws Hm _ IH]; intros log Hwf; [simpl; by rewrite app_nil_r|].
  rewrite !fmap_cons. cbn [app recv_loop compose]. apply Forall_cons in Hwf as [Hwf Hwfs]. rewrite (codec_roundtrip _ _ Hwf Hm). unfold io_bind, record at 1. cbn [is_ok].
  rewrite IH by done. by rewrite <- app_assoc.
Qed.

(** * Theorems *)

(** What the subscriber of a stream is sent is, in order and each at most once, a
    part of the valid publications for the event it asked for; and once the
    handler of the stream has returned, no publication is offered to its channel
    any more. *)
Theorem grpc_stream_order id first turns tbl chs out tbl' chs' :
  (∀ ev i, Handlers.at_event ev tbl !! i ≠ Some (Some id)) → Forall (not_mine id) turns →
  grpcSubscribeHandler id first turns (tbl, chs) = (Ok out, (tbl', chs')) →
  ∃ event, (try data := first in requested data) = Ok event ∧
    (∃ acc, acc `sublist_of` heard event turns ∧ Forall2 (λ env raw, json_Marshal env = Ok raw) acc out) ∧
    ∀ ev, id ∉ Handlers.targets ev tbl'.
Proof.
  intros Hf Hx. unfold grpcSubscribeHandler. destruct (match first with Ok data => _ | Err e => _ end) as [event|] eqn:He; [|done].
  pose proof (owned_subscribe id event tbl Hf) as Ho. destruct (Handlers.Subscribe event id tbl) as [idx tbl1].
  destruct (stream_loop id turns _) as [out1 [tbl2 chs2]] eqn:Hl. intros [= -> <- <-]. exists event. split; [done|].
  apply (stream_loop_order id event idx) in Hl as [[Hlen Ho2] (acc&Hacc&Hout)]; [|done|done].
  rewrite lookup_insert_eq in Hacc. split; [by exists acc|]. intros ev. unfold Handlers.targets. rewrite list_elem_of_omap.
  intros (o&Hin&[= ->]). rewrite elem_of_app in Hin.
  assert (∀ e i, Handlers.at_event e (Handlers.Unsubscribe event idx tbl2) !! i ≠ Some (Some id)) as Hnone.
  { intros e i. rewrite unsubscribe_at. intros Hi. case_decide as Hev; [|by destruct (Ho2 _ _ Hi)].
    apply list_lookup_insert_Some in Hi as [(_&?&_)|[Hne Hi]]; [done|]. destruct (Ho2 _ _ Hi). lia. }
  destruct Hin as [[i Hi]%list_elem_of_lookup|[i Hi]%list_elem_of_lookup]; by eapply Hnone.
Qed.

(** Closing a remote subscription does not end it: the handler is still called
    with every message that arrives, now with a cancelled context. *)
Theorem grpc_close_ignored before raws1 after raws2 log :
  Forall2 (λ env raw, json_Marshal env = Ok raw) before raws1 → Forall2 (λ env raw, json_Marshal env = Ok raw) after raws2 →
  Forall (λ env, wf_text env = true) (before ++ after) →
  (recv_loop record false ((SubMessage ∘ Ok <$> raws1) ++ SubClose :: (SubMessage ∘ Ok <$> raws2)) log).2 =
  log ++ ((λ e, (false, normalize e)) <$> before) ++ ((λ e, (true, normalize e)) <$> after).
Proof.
  intros H1 H2 [W1 W2]%Forall_app. rewrite (recv_app _ _ _ _ _ H1 W1). cbn [recv_loop].
  pose proof (recv_app true after raws2 [] (log ++ ((λ e, (false, normalize e)) <$> before)) H2 W2) as H. rewrite app_nil_r in H.
  rewrite H. cbn. by rewrite <- app_assoc.
Qed.

(** * Closed instances *)

Definition ex_raw : bytes := value_or [] (json_Marshal ex_envelope).
Definition ex_stream : result (list bytes) * (Handlers.table nat * channels) :=
  grpcSubscribeHandler 7 (Ok (marshal_subscribe "")) [StreamCall ex_raw; StreamAdd "*" 8; StreamSend (Ok tt)] (∅, ∅).

Lemma grpc_stream_order_witness :
  ex_stream.1 = Ok [ex_raw] ∧ (7 ∉ Handlers.targets ex_envelope.(env_Event) ex_stream.2.1) ∧
  (8 ∈ Handlers.targets ex_envelope.(env_Event) ex_stream.2.1).
Proof.
  split; [vm_compute; reflexivity|]. split; [|vm_compute; constructor].
  destruct (grpc_stream_order 7 (Ok (marshal_subscribe "")) [StreamCall ex_raw; StreamAdd "*" 8; StreamSend (Ok tt)] ∅ ∅ [ex_raw]
    ex_stream.2.1 ex_stream.2.2) as (event&_&_&H).
  - intros ev i. unfold Handlers.at_event. rewrite lookup_empty. done.
  - repeat constructor. discriminate.
  - vm_compute. reflexivity.
  - apply H.
Defined.

Lemma grpc_close_ignored_witness :
  (recv_loop record false [SubClose; SubMessage (Ok ex_raw)] []).2 = [(true, normalize ex_envelope)].
Proof.
  apply (grpc_close_ignored [] [] [ex_envelope] [ex_raw] []).
  - constructor.
  - constructor; [vm_compute; reflexivity|constructor].
  - constructor; [vm_compute; reflexivity|constructor].
Defined.
