(* ===== verification/Http.v ===== *)
(** * The HTTP surface of the server: server.go

    Routing ([Server.Handler] over [http.ServeMux]), the handlers wired to their
    requests, the event stream ([handleSSE]) and the WebSocket session
    ([handleWS]), and the binding of transports. *)

From Stdlib Require Import ZArith NArith Lia Ascii String.
From stdpp Require Import base list gmap sets strings.
From S2P Require Import Prelude GoRegexp JsonScan Utf8 JsonText JsonRoundtrip JsonValues Sha256 Model Json Db Store Transport Server.

(** ** Requests

    A request after the parsing of [net/http]: the path as its decoded segments,
    and whether it is the path [ServeMux] would clean it to (other paths, but for
    [CONNECT] requests, are answered by a redirect); query and header as decoded pairs, header keys in
    canonical form. *)
Record Request := mkHttpRequest {
  req_Method : string; req_Host : string; req_Segments : list string; req_Clean : bool;
  req_Query : list (string * string); req_Header : list (string * string); req_Body : bytes }.

(** [r.URL.Path]. *)
Definition Path (r : Request) : string := ("/" ++ String.concat "/" r.(req_Segments))%string.

(** [url.Values.Get] and [http.Header.Get]: the first value, or the empty string. *)
Fixpoint Get (key : string) (kvs : list (string * string)) : string :=
  match kvs with
  | (k, v) :: kvs' => if decide (k = key) then v else Get key kvs'
  | [] => ""
  end.

(** ** Routing *)

Inductive segment := Lit (s : string) | Wild (name : string).
Inductive endpoint := ePublish | eSSE | eWS | eClaim | eReceived | eSettle | eHealth.

(** The patterns [Handler] registers. *)
Definition patterns : list (string * list segment * endpoint) :=
  [("POST", [Lit "v1"; Lit "events"; Wild "event"], ePublish);
   ("GET", [Lit "v1"; Lit "events"; Lit "sse"], eSSE);
   ("GET", [Lit "v1"; Lit "events"; Lit "ws"], eWS);
   ("GET", [Lit "v1"; Lit "work"; Lit "claim"], eClaim);
   ("POST", [Lit "v1"; Lit "control"; Lit "received"], eReceived);
   ("POST", [Lit "v1"; Lit "control"; Lit "settle"], eSettle);
   ("GET", [Lit "healthz"], eHealth)].

(** A wildcard takes one segment, but not the empty one after a trailing slash
    nor an escaped slash alone. *)
Fixpoint match_path (ps : list segment) (segs : list string) : option (list (string * string)) :=
  match ps, segs with
  | [], [] => Some []
  | Lit l :: ps', s :: segs' => if decide (l = s) then match_path ps' segs' else None
  | Wild n :: ps', s :: segs' =>
      if decide (s = "" ∨ s = "/") then None else (λ vs, (n, s) :: vs) <$> match_path ps' segs'
  | _, _ => None
  end.

(** [GET] patterns also answer [HEAD]. *)
Definition match_method (pattern method : string) : bool :=
  bool_decide (pattern = method) || (bool_decide (pattern = "GET") && bool_decide (method = "HEAD")).

Inductive routed := Endpoint (e : endpoint) (values : list (string * string)) | MethodNotAllowed | NotFound.

Fixpoint route_in (table : list (string * list segment * endpoint)) (method : string) (segs : list string) : routed :=
  match table with
  | [] => NotFound
  | (m, ps, e) :: table' =>
      match match_path ps segs with
      | Some values =>
          if match_method m method then Endpoint e values
          else match route_in table' method segs with NotFound => MethodNotAllowed | r => r end
      | None => route_in table' method segs
      end
  end.
Definition route (method : string) (segs : list string) : routed := route_in patterns method segs.

(** ** Handling *)

Definition StatusNotFound : Z := 404.
Definition StatusMethodNotAllowed : Z := 405.
Definition StatusInternalServerError : Z := 500.

(** The fields of [Server] that do not change, as [NewServer] and the daemon set
    them. *)
Record settings := mkSettings { DefaultTransport : string; LeaseDuration : Z }.
Definition NewServer : settings * Hub.state := (mkSettings "" (5 * Second), Hub.NewHub).

Section http.
Context {E : Type} (registry : Registry.state) (publish : Transport → Envelope → io E (result ())).
(** [fmt.Sscan] of an int64. *)
Context (Sscan : string → option Z).

Definition scanned (ms : string) : option Z := if decide (ms = "") then None else Sscan ms.

(** ** Event streams *)

(** What happens around a streaming handler: another goroutine publishes to the
    hub, or the handler gets to receive. *)
Inductive turn := Published (env : Envelope) | Receive.

Definition sse_wanted (filter : string) (env : Envelope) : bool :=
  bool_decide (filter = "") || bool_decide (filter = "*") || bool_decide (filter = env.(env_Event)).

(** [fmt.Fprintf(w, "event: %s\ndata: %s\n\n", ...)]. *)
Definition sse_frame (env : Envelope) : bytes :=
  to_bytes "event: " ++ to_bytes env.(env_Event) ++ ["010"%char] ++
  to_bytes "data: " ++ value_or [] (json_Marshal env) ++ ["010"; "010"]%char.

Fixpoint sse_loop (filter : string) (id : Z) (turns : list turn) : io Hub.state bytes :=
  match turns with
  | [] => io_ret []
  | Published env :: turns' => λ h, sse_loop filter id turns' (Hub.Publish env h)
  | Receive :: turns' =>
      do r <- Hub.receive id;
      do out <- sse_loop filter id turns';
      io_ret (match r with
              | Some env => (if sse_wanted filter env then sse_frame env else []) ++ out
              | None => out
              end)
  end.

(** The part of the server an event stream works on. *)
Definition with_hub {A} (m : io Hub.state A) : io (Server.state E) A := λ s,
  let '(a, h) := m s.(Server.sv_hub) in (a, Server.mkServer s.(Server.sv_store) h s.(Server.sv_ext)).

(** [handleSSE], until the client goes away: what the client was sent. *)
Definition handleSSE (flusher : bool) (filter : string) (turns : list turn) : io Hub.state (result bytes) :=
  if negb flusher then io_ret (Err (ErrNew "streaming unsupported"))
  else λ h,
    let '(id, h1) := Hub.Subscribe 64 h in
    let '(out, h2) := sse_loop filter id turns h1 in
    (Ok out, Hub.Unsubscribe id h2).

(** ** WebSockets *)

(** The connection reads a message (or fails to), the writer goroutine gets to
    receive (and its [WriteJSON] succeeds or not), another goroutine publishes. *)
Inductive ws_turn := WsRead (msg : result bytes) (now now' : Z) | WsReceive (ok : bool) | WsPublished (env : Envelope).
(** What the client was sent. *)
Inductive ws_message := WsEnvelope (raw : bytes) | WsError (e : error).

(** [writing]: whether the writer goroutine still runs.  It ends at the first
    failed write and cancels the context of the session: what is read after that
    the store refuses, and the connection, whose writing has failed, carries no
    error either.  The session ends at the first message that cannot be read. *)
Fixpoint ws_loop (cfg : settings) (transport : string) (id : Z) (writing : bool) (turns : list ws_turn)
  : io (Server.state E) (list ws_message) :=
  match turns with
  | [] => io_ret []
  | WsRead msg now now' :: turns' =>
      match (try data := msg in Decode false (envelope_fields false) zero_envelope data) with
      | Err _ => io_ret []
      | Ok env =>
          if writing then
            do r <- Server.ingest registry publish cfg.(DefaultTransport) env transport now now';
            do out <- ws_loop cfg transport id true turns';
            io_ret (match r with Err e => WsError e :: out | Ok _ => out end)
          else ws_loop cfg transport id false turns'
      end
  | WsReceive ok :: turns' =>
      if writing then λ s,
        let '(r, h) := Hub.receive id s.(Server.sv_hub) in
        let s' := Server.mkServer s.(Server.sv_store) h s.(Server.sv_ext) in
        match r with
        | None => ws_loop cfg transport id true turns' s'
        | Some env =>
            if ok then
              let '(out, s2) := ws_loop cfg transport id true turns' s' in
              (match json_Marshal env with Ok raw => WsEnvelope raw :: out | Err _ => out end, s2)
            else ws_loop cfg transport id false turns' s'
        end
      else ws_loop cfg transport id false turns'
  | WsPublished env :: turns' =>
      do _ <- Server.on_hub (Hub.Publish env); ws_loop cfg transport id writing turns'
  end.

(** [handleWS]; [upgrade] is the outcome of [Upgrade], which answers by itself
    when it fails. *)
Definition handleWS (cfg : settings) (upgrade : result ()) (transport : string) (turns : list ws_turn)
  : io (Server.state E) (list ws_message) :=
  match upgrade with
  | Err _ => io_ret []
  | Ok _ => λ s,
      let '(id, h1) := Hub.Subscribe 64 s.(Server.sv_hub) in
      let '(out, s2) := ws_loop cfg transport id true turns (Server.mkServer s.(Server.sv_store) h1 s.(Server.sv_ext)) in
      (out, Server.mkServer s2.(Server.sv_store) (Hub.Unsubscribe id s2.(Server.sv_hub)) s2.(Server.sv_ext))
  end.

(** ** Requests served

    What the goroutines of a stream meet while it is open: whether the response
    can be flushed, the outcome of [Upgrade], and the turns of the two loops. *)
Record stream := mkStream { st_flusher : bool; st_upgrade : result (); st_sse : list turn; st_ws : list ws_turn }.

(** A request is answered, sent to the clean path (with the status the version of
    [net/http] uses for it), or was a stream: what its client was sent until it
    ended. *)
Inductive outcome :=
| Answer (r : response) | Redirected
| StreamSSE (sent : bytes) | StreamWS (transport : string) (sent : list ws_message).

(** [Handler], from the request to the return of its handler. *)
Definition Handler (cfg : settings) (r : Request) (st : stream) (now now' : Z) : io (Server.state E) outcome :=
  if negb r.(req_Clean) && negb (bool_decide (r.(req_Method) = "CONNECT"))
  then io_ret Redirected
  else match route r.(req_Method) r.(req_Segments) with
  | NotFound => io_ret (Answer (Response StatusNotFound NoBody))
  | MethodNotAllowed => io_ret (Answer (Response StatusMethodNotAllowed NoBody))
  | Endpoint e values =>
    match e with
    | ePublish =>
        do a <- Server.handlePublish registry publish cfg.(DefaultTransport) (Server.decode_publish r.(req_Body))
                  (Get "event" values) (Get "transport" r.(req_Query)) now now';
        io_ret (Answer a)
    | eSSE =>
        do sent <- with_hub (handleSSE st.(st_flusher) (Get "event" r.(req_Query)) st.(st_sse));
        io_ret (match sent with Err e => Answer (writeError StatusInternalServerError e) | Ok out => StreamSSE out end)
    | eWS =>
        let transport := Get "transport" r.(req_Query) in
        do sent <- handleWS cfg st.(st_upgrade) transport st.(st_ws);
        io_ret (StreamWS transport sent)
    | eClaim =>
        do a <- Server.handleClaim cfg.(LeaseDuration) (Get "worker" r.(req_Query))
                  (scanned (Get "lease_ms" r.(req_Query))) now;
        io_ret (Answer a)
    | eReceived => do a <- Server.handleReceived r.(req_Body) now; io_ret (Answer a)
    | eSettle => do a <- Server.handleSettle r.(req_Body) now; io_ret (Answer a)
    | eHealth => io_ret (Answer (Response StatusNoContent NoBody))
    end
  end.

(** [BindTransport]: the handler is subscribed on the transport of that name;
    [subscribe] is the transport's [Subscribe]. *)
Definition BindTransport {S} (subscribe : Transport → string → (Z → Envelope → io (Server.state E) (result ())) → result S)
  (name event : string) : result S :=
  try t := Registry.Get registry name in subscribe t event Server.bound_handler.
End http.
