(* ===== verification/HttpTheorems.v ===== *)
(** * The HTTP surface: who can change the state, and what a stream delivers *)

From Stdlib Require Import ZArith NArith Lia Ascii String.
From stdpp Require Import base list gmap sets strings.
From S2P Require Import Prelude GoRegexp JsonScan Utf8 JsonText JsonRoundtrip JsonValues Sha256 Model Json Db Store Transport Server Http.

(** ** Reference definitions *)

(** The envelopes published during a session. *)
Definition published (turns : list turn) : list Envelope :=
  omap (λ t, match t with Published env => Some env | Receive => None end) turns.

(** The number of envelopes waiting after the turns, if the channel never had to
    drop one. *)
Fixpoint backlog (n : nat) (turns : list turn) : option nat :=
  match turns with
  | [] => Some n
  | Published _ :: turns' => if (n <? 64)%nat then backlog (S n) turns' else None
  | Receive :: turns' => backlog (pred n) turns'
  end.

(** An event-stream client: the lines of the text in groups of an event line, a
    data line and an empty line. *)
Fixpoint sse_events (lines : list bytes) : list (bytes * bytes) :=
  match lines with
  | l1 :: l2 :: [] :: lines' => (drop 7 l1, drop 6 l2) :: sse_events lines'
  | _ => []
  end.
Definition sse_client (text : bytes) : list (bytes * bytes) := sse_events (split_bytes "010" text).

(** ** Lemmas *)

Lemma split_line sep l rest : sep ∉ l → split_bytes sep (l ++ sep :: rest) = l :: split_bytes sep rest.
Proof.
  induction l as [|c l IH]; intros Hl; simpl; [by rewrite decide_True|].
  apply not_elem_of_cons in Hl as [Hc Hl]. by rewrite decide_False, IH.
Qed.

Lemma name_bytes_no_newline p : name_bytes p = true → "010"%char ∉ p.
Proof.
  destruct p as [|c p]; simpl; [by intros|]. rewrite andb_true_iff, forallb_Forall.
  intros [Hc Hp] [<-|Hin]%elem_of_cons; [done|]. rewrite Forall_forall in Hp. by apply Hp in Hin.
Qed.

Lemma event_no_newline env : Validate env = Ok tt → "010"%char ∉ to_bytes env.(env_Event).
Proof.
  intros (_&_&_&_&Hs&_)%Validate_ok. unfold State in Hs. destruct (MatchString _ _) eqn:Hm; [|done].
  apply canonical_pattern_parts in Hm. unfold canonical_name in Hm. apply andb_true_iff in Hm as [_ Hm].
  apply forallb_Forall in Hm. destruct (join_split_bytes "." (to_bytes (env_Event env))) as (p&ps&Hp&Ht).
  rewrite Hp in Hm. rewrite Ht. apply Forall_cons in Hm as [Hm Hms].
  intros [Hin|Hin]%elem_of_app; [by eapply name_bytes_no_newline|].
  apply list_elem_of_In, in_concat in Hin as (q&Hq&Hin). apply list_elem_of_In, list_elem_of_fmap in Hq as (r&->&Hr).
  apply list_elem_of_In, elem_of_cons in Hin as [Hin|Hin]; [done|].
  rewrite Forall_forall in Hms. by eapply name_bytes_no_newline; [apply Hms|].
Qed.

Lemma sse_frame_client env rest :
  Validate env = Ok tt → wf_text env = true →
  sse_client (sse_frame env ++ rest) = (to_bytes env.(env_Event), value_or [] (json_Marshal env)) :: sse_client rest.
Proof.
  intros Hv Hwf. pose proof (codec_total env ltac:(by apply Validate_ok in Hv as (_&_&_&_&_&_&?))) as Hm.
  destruct (json_Marshal env) as [raw|] eqn:Hraw; [|done].
  pose proof (value_alone_no_newline _ (proj1 (marshal_object _ _ Hwf Hraw))) as Hn.
  pose proof (event_no_newline _ Hv) as He. unfold sse_client, sse_frame. rewrite Hraw. simpl value_or.
  assert ((to_bytes "event: " ++ to_bytes (env_Event env) ++ ["010"%char] ++ to_bytes "data: " ++ raw ++ ["010"; "010"]%char) ++ rest =
    (to_bytes "event: " ++ to_bytes (env_Event env)) ++ "010"%char :: ((to_bytes "data: " ++ raw) ++ "010"%char :: [] ++ "010"%char :: rest)) as ->.
  { by rewrite <- !app_assoc. }
  rewrite split_line, split_line, (split_line _ []); [done|apply not_elem_of_nil|..].
  - apply not_elem_of_app. split; [by vm_compute; set_solver|done].
  - apply not_elem_of_app. split; [by vm_compute; set_solver|done].
Qed.

Lemma sse_frames_client envs :
  Forall (λ env, Validate env = Ok tt ∧ wf_text env = true) envs →
  sse_client (concat (sse_frame <$> envs)) = (λ env, (to_bytes env.(env_Event), value_or [] (json_Marshal env))) <$> envs.
Proof.
  induction 1 as [|env envs [Hv Hwf] _ IH]; [done|]. rewrite !fmap_cons. cbn [concat].
  by rewrite sse_frame_client, IH.
Qed.

(** ** A session of the hub *)

(** What the subscriber [id] has received and not yet received, against what was
    published. *)
Lemma receive_hub id h r h' :
  Hub.receive id h = (r, h') →
  h'.(Hub.next) = h.(Hub.next) ∧ (∀ j, j ≠ id → h'.(Hub.subs) !! j = h.(Hub.subs) !! j) ∧
  match r with
  | Some e => ∃ b q, h.(Hub.subs) !! id = Some (Hub.Chan b (e :: q)) ∧ h'.(Hub.subs) !! id = Some (Hub.Chan b q)
  | None => h' = h ∧ ∀ b e q, h.(Hub.subs) !! id ≠ Some (Hub.Chan b (e :: q))
  end.
Proof.
  unfold Hub.receive. destruct (h.(Hub.subs) !! id) as [[b [|e q]]|] eqn:E; intros [= <- <-]; simpl; try by split_and!.
  split_and!; [done|intros j Hj; by rewrite lookup_insert_ne|]. exists b, q. by rewrite lookup_insert_eq.
Qed.

Lemma publish_hub env h j : (Hub.Publish env h).(Hub.subs) !! j = Hub.offer env <$> h.(Hub.subs) !! j.
Proof. apply lookup_fmap. Qed.

Definition publish_all (envs : list Envelope) (h : Hub.state) : Hub.state := foldl (λ h env, Hub.Publish env h) h envs.

Lemma publish_all_at envs h h1 j :
  h1.(Hub.subs) !! j = h.(Hub.subs) !! j → (publish_all envs h1).(Hub.subs) !! j = (publish_all envs h).(Hub.subs) !! j.
Proof.
  revert h h1. induction envs as [|e envs IH]; intros h h1 Hj; [done|]. apply IH. by rewrite !publish_hub, Hj.
Qed.

Lemma publish_all_None envs h j : h.(Hub.subs) !! j = None → (publish_all envs h).(Hub.subs) !! j = None.
Proof. revert h. induction envs as [|e envs IH]; intros h Hj; [done|]. apply IH. by rewrite publish_hub, Hj. Qed.

Lemma sse_loop_run filter id turns h q :
  h.(Hub.subs) !! id = Some (Hub.Chan 64 q) →
  ∃ got h' q', sse_loop filter id turns h = (concat (sse_frame <$> List.filter (sse_wanted filter) got), h') ∧
    h'.(Hub.subs) !! id = Some (Hub.Chan 64 q') ∧ h'.(Hub.next) = h.(Hub.next) ∧
    (∀ j, j ≠ id → h'.(Hub.subs) !! j = (publish_all (published turns) h).(Hub.subs) !! j) ∧
    got ++ q' `sublist_of` q ++ published turns ∧
    (∀ n, backlog (length q) turns = Some n → got ++ q' = q ++ published turns ∧ length q' = n).
Proof.
  revert h q. induction turns as [|[env|] turns IH]; intros h q Hq; cbn [sse_loop].
  { exists [], h, q. simpl. rewrite app_nil_r. split_and!; try done. by intros n [= <-]. }
  - assert ((Hub.Publish env h).(Hub.subs) !! id = Some (Hub.offer env (Hub.Chan 64 q))) as Hp
      by (by rewrite publish_hub, Hq).
    unfold Hub.offer in Hp. simpl in Hp. cbn [backlog]. destruct (Nat.ltb_spec (length q) 64) as [Hl|Hl];
      (destruct (IH (Hub.Publish env h) _ Hp) as (got&h'&q'&->&Hq'&Hn&Hj&Hs&Hb); exists got, h', q'; split_and!; try done).
    + by rewrite <- app_assoc in Hs.
    + intros n Hn'. rewrite length_app, Nat.add_1_r in Hb. destruct (Hb n Hn') as [Hg Hlen].
      by rewrite <- app_assoc in Hg.
    + etrans; [exact Hs|]. apply sublist_app; [done|]. by apply sublist_cons.
  - unfold io_bind. destruct (Hub.receive id h) as [r h1] eqn:Hr. apply receive_hub in Hr as (Hn1&Hj1&Hr).
    destruct r as [e|].
    + destruct Hr as (b&q0&Hq0&Hq1). rewrite Hq in Hq0. injection Hq0 as <- ->.
      destruct (IH _ _ Hq1) as (got&h'&q'&->&Hq'&Hn&Hj&Hs&Hb). exists (e :: got), h', q'. split_and!; try done.
      * unfold io_ret. f_equal. cbn [List.filter]. by destruct (sse_wanted filter e).
      * by rewrite Hn.
      * intros j Hjj. rewrite Hj by done. by apply publish_all_at, Hj1.
      * by apply sublist_skip.
      * cbn [backlog length pred]. intros n Hbn. destruct (Hb n Hbn) as [Hg Hlen]. split; [|done].
        cbn [app]. f_equal. exact Hg.
    + destruct Hr as [-> Hempty]. destruct (IH _ _ Hq) as (got&h'&q'&->&Hq'&Hn&Hj&Hs&Hb). exists got, h', q'.
      split_and!; try done. destruct q as [|x q]; [exact Hb|]. by destruct (Hempty _ _ _ Hq).
Qed.

(** * Theorems *)

(** C28: An event stream delivers what was published, in order, and nothing else:
    a client that parses the stream sees exactly the envelopes the handler
    received that pass its filter, each with its event name and JSON text (no
    published value can forge a line of the stream); the handler received a
    subsequence of what was published, all of it but what still waits when no
    more than 64 were ever waiting; and afterwards every other subscriber is as
    if the stream had never been opened. *)
Theorem sse_delivery filter turns h :
  h.(Hub.subs) !! h.(Hub.next) = None →
  Forall (λ env, Validate env = Ok tt ∧ wf_text env = true) (published turns) →
  ∃ out h' got waiting, handleSSE true filter turns h = (Ok out, h') ∧
    sse_client out = (λ env, (to_bytes env.(env_Event), value_or [] (json_Marshal env))) <$> List.filter (sse_wanted filter) got ∧
    got ++ waiting `sublist_of` published turns ∧
    (∀ n, backlog 0 turns = Some n → got ++ waiting = published turns ∧ length waiting = n) ∧
    h'.(Hub.subs) = (publish_all (published turns) h).(Hub.subs).
Proof.
  intros Hfresh Hv. unfold handleSSE, Hub.Subscribe. cbn [negb].
  set (h1 := Hub.mkHub _ _).
  destruct (sse_loop_run filter h.(Hub.next) turns h1 []) as (got&h'&q'&->&Hq'&Hn&Hj&Hs&Hb).
  { apply lookup_insert_eq. }
  eexists _, _, got, q'. split; [done|]. split_and!; [|exact Hs|exact Hb|].
  - apply sse_frames_client. apply Forall_forall. intros env Hin. apply list_elem_of_In, filter_In in Hin as [Hin _].
    rewrite Forall_forall in Hv. apply Hv. apply list_elem_of_In in Hin.
    eapply elem_of_submseteq; [|by apply sublist_submseteq, Hs]. apply elem_of_app. by left.
  - apply map_eq. intros j. cbn [Hub.Unsubscribe Hub.subs]. destruct (decide (j = h.(Hub.next))) as [->|Hne].
    + rewrite lookup_delete_eq. symmetry. by apply publish_all_None.
    + rewrite lookup_delete_ne by done. rewrite Hj by done. apply publish_all_at. by apply lookup_insert_ne.
Qed.

(** The requests that reach an endpoint. *)
Definition reaches (e : endpoint) (method : string) (segs : list string) : Prop :=
  match e with
  | ePublish => method = "POST" ∧ ∃ ev, segs = ["v1"; "events"; ev] ∧ ev ≠ "" ∧ ev ≠ "/"
  | eSSE => (method = "GET" ∨ method = "HEAD") ∧ segs = ["v1"; "events"; "sse"]
  | eWS => (method = "GET" ∨ method = "HEAD") ∧ segs = ["v1"; "events"; "ws"]
  | eClaim => (method = "GET" ∨ method = "HEAD") ∧ segs = ["v1"; "work"; "claim"]
  | eReceived => method = "POST" ∧ segs = ["v1"; "control"; "received"]
  | eSettle => method = "POST" ∧ segs = ["v1"; "control"; "settle"]
  | eHealth => (method = "GET" ∨ method = "HEAD") ∧ segs = ["healthz"]
  end.

Lemma match_method_get method : match_method "GET" method = true ↔ method = "GET" ∨ method = "HEAD".
Proof. unfold match_method. rewrite orb_true_iff, andb_true_iff, !bool_decide_eq_true. naive_solver. Qed.
Lemma match_method_post method : match_method "POST" method = true ↔ method = "POST".
Proof. unfold match_method. rewrite orb_true_iff, andb_true_iff, !bool_decide_eq_true. naive_solver. Qed.

Lemma match_wild n s : match_path [Wild n] [s] = if decide (s = "" ∨ s = "/") then None else Some [(n, s)].
Proof. simpl. by destruct (decide _). Qed.

Lemma route_in_reaches table method segs e values :
  route_in table method segs = Endpoint e values →
  ∃ m ps, (m, ps, e) ∈ table ∧ match_path ps segs = Some values ∧ match_method m method = true.
Proof.
  induction table as [|[[m ps] e'] table IH]; simpl; [done|]. destruct (match_path ps segs) as [vs|] eqn:Hp.
  - destruct (match_method m method) eqn:Hm.
    + intros [= <- <-]. exists m, ps. split; [apply elem_of_cons; by left|done].
    + destruct (route_in table method segs) as [e2 vs2| |]; try done. intros [= -> ->].
      destruct (IH eq_refl) as (m'&ps'&Hin&?). exists m', ps'. split; [apply elem_of_cons; by right|done].
  - intros Hr. destruct (IH Hr) as (m'&ps'&Hin&?). exists m', ps'. split; [apply elem_of_cons; by right|done].
Qed.

Lemma match_lits ls segs values : match_path (Lit <$> ls) segs = Some values → segs = ls.
Proof.
  revert segs values. induction ls as [|l ls IH]; intros [|s segs] values; simpl; try done.
  destruct (decide (l = s)) as [->|]; [|done]. intros Hm. f_equal. by eapply IH.
Qed.

Lemma route_reaches method segs e values : route method segs = Endpoint e values → reaches e method segs.
Proof.
  intros (m&ps&Hin&Hp&Hm)%route_in_reaches. unfold patterns in Hin. rewrite !elem_of_cons in Hin.
  destruct Hin as [Hin|Hin].
  { injection Hin as -> -> ->. apply match_method_post in Hm. split; [done|].
    destruct segs as [|a [|b [|c [|]]]]; simpl in Hp; repeat case_decide; try done; subst. exists c. naive_solver. }
  destruct_or! Hin; try (by apply elem_of_nil in Hin); injection Hin as -> -> ->; simpl;
    (split; [by first [apply match_method_get | apply match_method_post]|]); by eapply (match_lits [_; _; _]) || by eapply (match_lits [_]).
Qed.

Lemma reaches_not_connect e segs : ¬ reaches e "CONNECT" segs.
Proof. destruct e; simpl; intros [Hm _]; by destruct_or? Hm. Qed.

Section effects.
Context {E : Type} (registry : Registry.state) (publish : Transport → Envelope → io E (result ())) (Sscan : string → option Z).

(** Everything but the hub, and everything but the store. *)
Definition same_state (s t : Server.state E) : Prop :=
  s.(Server.sv_store) = t.(Server.sv_store) ∧ s.(Server.sv_ext) = t.(Server.sv_ext).
Definition store_only (s t : Server.state E) : Prop :=
  s.(Server.sv_hub) = t.(Server.sv_hub) ∧ s.(Server.sv_ext) = t.(Server.sv_ext).

(** The requests that can change something, and what: publishing an event and a
    WebSocket session can change everything, an event stream the hub, claiming work
    and the two control frames the store. *)
Definition may_change (r : Request) (s s' : Server.state E) : Prop :=
  let got := r.(req_Method) = "GET" ∨ r.(req_Method) = "HEAD" in
  (r.(req_Method) = "POST" ∧ ∃ ev, r.(req_Segments) = ["v1"; "events"; ev]) ∨
  (got ∧ r.(req_Segments) = ["v1"; "events"; "ws"]) ∨
  (got ∧ r.(req_Segments) = ["v1"; "events"; "sse"] ∧ same_state s' s) ∨
  (got ∧ r.(req_Segments) = ["v1"; "work"; "claim"] ∧ store_only s' s) ∨
  (r.(req_Method) = "POST" ∧
   (r.(req_Segments) = ["v1"; "control"; "received"] ∨ r.(req_Segments) = ["v1"; "control"; "settle"]) ∧ store_only s' s).

Lemma store_only_on_store {A} (m : io (world control_db) A) s a s' : Server.on_store m s = (a, s') → store_only s' s.
Proof. unfold Server.on_store. destruct (m _). by intros [= <- <-]. Qed.

(** Every other request, whatever its method, path, query, header or body, leaves
    the store, the hub and the transports untouched. *)
Lemma http_effects cfg r st now now' s o s' :
  Handler registry publish Sscan cfg r st now now' s = (o, s') → s' ≠ s → r.(req_Clean) = true ∧ may_change r s s'.
Proof.
  unfold Handler, io_ret. destruct (negb (req_Clean r) && _) eqn:Hc; [by intros [= <- <-]|].
  destruct (route _ _) as [e values| |] eqn:Hr; [|by intros [= <- <-]..].
  apply route_reaches in Hr. intros Hh Hne. split.
  { destruct (req_Clean r); [done|]. cbn [negb andb] in Hc. bool_prop. rewrite Hc in Hr.
    by apply reaches_not_connect in Hr. }
  unfold may_change. destruct e; simpl in Hr; try (injection Hh as <- <-; by destruct Hne).
  - left. destruct Hr as [Hm (ev&Hs&_)]. eauto.
  - right; right; left. split_and!; [apply Hr..|]. unfold io_bind, with_hub in Hh.
    destruct (handleSSE _ _ _ _) as [sent h]. by injection Hh as <- <-.
  - right; left. done.
  - right; right; right; left. split_and!; [apply Hr..|]. unfold Server.handleClaim, io_bind in Hh.
    destruct (Server.on_store _ s) as [c s1] eqn:Hs. apply store_only_on_store in Hs. by injection Hh as <- <-.
  - right; right; right; right. split_and!; [apply Hr|left; apply Hr|]. unfold Server.handleReceived, io_bind in Hh.
    destruct (Decode _ _ _ _) as [f|]; [|injection Hh as <- <-; done].
    destruct (Server.on_store _ s) as [c s1] eqn:Hs. apply store_only_on_store in Hs. by injection Hh as <- <-.
  - right; right; right; right. split_and!; [apply Hr|right; apply Hr|]. unfold Server.handleSettle, io_bind in Hh.
    destruct (Decode _ _ _ _) as [f|]; [|injection Hh as <- <-; done].
    destruct (Server.on_store _ s) as [c s1] eqn:Hs. apply store_only_on_store in Hs. by injection Hh as <- <-.
Qed.

(** A [HEAD] request claims like a [GET] request: the event is leased although
    its text is not sent. *)
Theorem head_claims cfg host query header body st now now' s :
  Handler registry publish Sscan cfg (mkHttpRequest "HEAD" host ["v1"; "work"; "claim"] true query header body) st now now' s =
  Handler registry publish Sscan cfg (mkHttpRequest "GET" host ["v1"; "work"; "claim"] true query header body) st now now' s.
Proof. reflexivity. Qed.

(** ** WebSocket sessions *)

(** The messages a session reads before the first it cannot read. *)
Fixpoint ws_inputs (turns : list ws_turn) : list (Envelope * Z * Z) :=
  match turns with
  | [] => []
  | WsRead msg now now' :: turns' =>
      match (try data := msg in Decode false (envelope_fields false) zero_envelope data) with
      | Err _ => []
      | Ok env => (env, now, now') :: ws_inputs turns'
      end
  | _ :: turns' => ws_inputs turns'
  end.

Definition ingest_all (cfg : settings) (transport : string) (msgs : list (Envelope * Z * Z)) (s : Server.state E) : Server.state E :=
  foldl (λ s '(env, now, now'), (Server.ingest registry publish cfg.(DefaultTransport) env transport now now' s).2) s msgs.

Lemma ingest_same dt env tr now now' s t :
  same_state s t →
  same_state (Server.ingest registry publish dt env tr now now' s).2 (Server.ingest registry publish dt env tr now now' t).2.
Proof.
  destruct s as [st hs e], t as [st' hs' e']. intros [Hs He]. simpl in *. subst st' e'.
  unfold Server.ingest, Server.on_store, Server.on_hub, Server.on_ext, io_bind, io_ret. simpl.
  destruct (ControlStore.Publish env now st) as [[[stored created]|] w]; [|done].
  destruct (_ && created); [|done]. destruct (Registry.Get registry _) as [t|]; [|done]. simpl.
  destruct (publish t stored e) as [[] e1]; simpl; [done|]. by destruct (ControlStore.EnqueueOutbox _ _ _ _ w).
Qed.

Lemma ingest_all_same cfg tr msgs s t : same_state s t → same_state (ingest_all cfg tr msgs s) (ingest_all cfg tr msgs t).
Proof.
  revert s t. induction msgs as [|[[env n] n'] msgs IH]; intros s t Hst; [done|]. by apply IH, ingest_same.
Qed.

(** After a failed write nothing is ingested any more. *)
Lemma ws_loop_cancelled cfg tr id turns s : same_state (ws_loop registry publish cfg tr id false turns s).2 s.
Proof.
  revert s. induction turns as [|[msg now now'|ok|env] turns IH]; intros s; cbn [ws_loop]; [done| |apply IH|].
  - destruct (match msg with Ok data => _ | Err e => Err e end); [apply IH|done].
  - unfold io_bind, Server.on_hub. apply (IH (Server.mkServer _ _ _)).
Qed.

Definition failed_write (t : ws_turn) : Prop := t = WsReceive false.

Lemma ws_loop_ingests cfg tr id turns s :
  ∃ msgs, msgs `prefix_of` ws_inputs turns ∧
    same_state (ws_loop registry publish cfg tr id true turns s).2 (ingest_all cfg tr msgs s) ∧
    (Forall (λ t, ¬ failed_write t) turns → msgs = ws_inputs turns).
Proof.
  revert s. induction turns as [|t turns IH]; intros s; [by exists []|].
  assert (∀ s1, same_state s1 s → ∃ msgs, msgs `prefix_of` ws_inputs turns ∧
    same_state (ws_loop registry publish cfg tr id true turns s1).2 (ingest_all cfg tr msgs s) ∧
    (Forall (λ t, ¬ failed_write t) turns → msgs = ws_inputs turns)) as Hnext.
  { intros s1 Hs. destruct (IH s1) as (msgs&Hp&[H1 H2]&Hall). exists msgs. split_and!; [done| |done].
    destruct (ingest_all_same cfg tr msgs s1 s Hs). split; congruence. }
  destruct t as [msg now now'|ok|env]; cbn [ws_loop ws_inputs].
  - destruct (match msg with Ok data => _ | Err e => Err e end) as [env|]; [|by exists []]. unfold io_bind.
    destruct (Server.ingest _ _ _ _ _ _ _ s) as [r s1] eqn:Hi. destruct (IH s1) as (msgs&Hp&Hst&Hall).
    exists ((env, now, now') :: msgs). split_and!; [by apply prefix_cons| |intros [_ Hf]%Forall_cons; by rewrite Hall].
    cbn [ingest_all foldl]. rewrite Hi. by destruct (ws_loop registry publish cfg tr id true turns s1).
  - destruct (Hub.receive id _) as [r h]. set (s1 := Server.mkServer _ _ _).
    destruct (Hnext s1 ltac:(done)) as (msgs&Hp&Hst&Hall). destruct r as [env|].
    2: { exists msgs. split_and!; [done|done|]. intros [_ Hf]%Forall_cons. by apply Hall. }
    destruct ok.
    + exists msgs. split_and!; [done| |intros [_ Hf]%Forall_cons; by apply Hall].
      by destruct (ws_loop registry publish cfg tr id true turns s1).
    + exists []. split_and!; [apply prefix_nil|apply (ws_loop_cancelled cfg tr id turns s1)|]. intros [Hf _]%Forall_cons. by destruct Hf.
  - unfold io_bind, Server.on_hub. set (s1 := Server.mkServer _ _ _).
    destruct (Hnext s1 ltac:(done)) as (msgs&Hp&Hst&Hall). exists msgs.
    split_and!; [done|done|]. intros [_ Hf]%Forall_cons. by apply Hall.
Qed.

(** C35: A WebSocket session ingests what it reads, in order, until a write to its
    client fails: whatever is published meanwhile, the store, its outbox and the
    transports end as if messages had been ingested one after the other, which
    are the first of those the session read, and all of them if no write
    failed. *)
Theorem ws_session_ingests cfg tr turns s :
  let s' := (handleWS registry publish cfg (Ok tt) tr turns s).2 in
  ∃ msgs, msgs `prefix_of` ws_inputs turns ∧ same_state s' (ingest_all cfg tr msgs s) ∧
    (Forall (λ t, ¬ failed_write t) turns → msgs = ws_inputs turns).
Proof.
  unfold handleWS, Hub.Subscribe. cbn [fst snd]. set (s1 := Server.mkServer _ _ _).
  destruct (ws_loop_ingests cfg tr (Hub.next (Server.sv_hub s)) turns s1) as (msgs&Hp&[H1 H2]&Hall). exists msgs.
  destruct (ingest_all_same cfg tr msgs s1 s) as [H3 H4]; [done|].
  destruct (ws_loop registry publish cfg tr _ true turns s1) as [out s2]. split_and!; [done| |done].
  split; simpl in *; congruence.
Qed.
End effects.

(** * Closed instances *)

Definition ex_turns : list turn := [Published ex_envelope; Published ex_envelope; Receive; Receive].

Lemma sse_delivery_witness :
  ∃ out h', handleSSE true "*" ex_turns Hub.NewHub = (Ok out, h') ∧ length (sse_client out) = 2.
Proof.
  destruct (sse_delivery "*" ex_turns Hub.NewHub) as (out&h'&got&waiting&Hs&Hc&_&Hb&_).
  - reflexivity.
  - repeat constructor; vm_compute; reflexivity.
  - exists out, h'. split; [exact Hs|]. destruct (Hb 0 eq_refl) as [Hg Hw]. apply nil_length_inv in Hw as ->.
    rewrite app_nil_r in Hg. rewrite Hc, Hg, length_fmap. reflexivity.
Defined.

Definition ex_server : Server.state nat := Server.mkServer (World empty_db []) Hub.NewHub 0.
Definition ex_post : Request :=
  mkHttpRequest "POST" "ubiq:8443" ["v1"; "events"; env_Event ex_envelope] true [] [] (value_or [] (json_Marshal ex_envelope)).
Definition no_stream : stream := mkStream true (Ok tt) [] [].
