(* ===== verification/WorkCycle.v ===== *)
(** * One event through the HTTP interface

    The requests of a publisher and of a worker, as texts, against the routed
    server: publish, claim, report received, settle. *)

From Stdlib Require Import ZArith NArith Lia Ascii String.
From stdpp Require Import base list gmap sets strings.
From S2P Require Import Prelude GoRegexp JsonScan Utf8 JsonText JsonRoundtrip JsonValues Sha256 Model Json Db Store StoreSteps Lifecycle.
From S2P Require Import StoreTheorems Transport Server ServerTheorems Http HttpTheorems.
Import Sql.

(** ** The client's texts *)

(** A [ControlFrame] as [json.Marshal] writes it; [ev] is the text of its
    evidence, left out when empty. *)
Definition frame_members (f : ControlFrame) (ev : bytes) : list (string * bytes) :=
  [("kind", quote f.(fr_Kind)); ("event_id", quote f.(fr_EventID)); ("worker_id", quote f.(fr_WorkerID));
   ("fencing_token", format_int f.(fr_FencingToken)); ("at_ms", format_int f.(fr_AtMS))] ++
  match ev with [] => [] | _ => [("evidence", ev)] end.
Definition marshal_frame (f : ControlFrame) : result bytes :=
  match f.(fr_Evidence) with
  | [] => Ok (object (frame_members f []))
  | _ => match compact f.(fr_Evidence) with
         | Some ev => Ok (object (frame_members f ev))
         | None => Err syntax_error
         end
  end.

Definition wf_frame (f : ControlFrame) : Prop :=
  utf8_string f.(fr_Kind) = true ∧ utf8_string f.(fr_EventID) = true ∧ utf8_string f.(fr_WorkerID) = true ∧
  uint64_range f.(fr_FencingToken) ∧ int64_range f.(fr_AtMS) ∧
  (f.(fr_Evidence) = [] ∨ (compact f.(fr_Evidence) = Some f.(fr_Evidence) ∧ member_ok f.(fr_Evidence) = true)).

Definition post_event (env : Envelope) (body : bytes) : Request :=
  mkHttpRequest "POST" "" ["v1"; "events"; env.(env_Event)] true [] [] body.
Definition get_claim (worker : string) : Request :=
  mkHttpRequest "GET" "" ["v1"; "work"; "claim"] true [("worker", worker)] [] [].
Definition post_control (what : string) (body : bytes) : Request :=
  mkHttpRequest "POST" "" ["v1"; "control"; what] true [] [] body.

(** ** Lemmas *)

#[local] Arguments uint64_into : simpl never.
#[local] Arguments string_into : simpl never.
#[local] Arguments int64_into : simpl never.
#[local] Arguments object : simpl never.
#[local] Arguments quote : simpl never.
#[local] Arguments format_int : simpl never.

Lemma frame_read f raw :
  wf_frame f → marshal_frame f = Ok raw → Decode false frame_fields zero_frame raw = Ok f.
Proof.
  intros (Hk&He&Hw&Ht&Ha&Hev) Hm. destruct f as [k e w t a ev]; simpl in *.
  assert (∃ ev', raw = object (frame_members (mkFrame k e w t a ev) ev') ∧ ev' = ev ∧
    (ev = [] ∨ (value_alone ev ∧ value_in [] ev))) as (ev'&->&->&Hval).
  { unfold marshal_frame in Hm. simpl in Hm. destruct Hev as [->|[Hc Hok]]; [exists []; injection Hm as <-; auto|].
    exists ev. destruct ev as [|c ev]; [injection Hm as <-; auto|]. rewrite Hc in Hm. injection Hm as <-.
    split_and!; [done|done|]. right. split; [by eapply compact_alone|by eapply compact_member]. }
  assert (Forall value_alone (frame_members (mkFrame k e w t a ev) ev).*2 ∧
    Forall (value_in []) (frame_members (mkFrame k e w t a ev) ev).*2) as [Hall Hin].
  { unfold frame_members. rewrite fmap_app, !Forall_app. split; split; simpl; solve_values;
      (destruct ev; simpl; [constructor|]; destruct Hval as [|[]]; [done|by apply Forall_singleton]). }
  unfold Decode. pose proof (object_value_alone _ Hin) as Ho.
  pose proof (value_alone_no_space _ [] Ho) as Hs. pose proof (extent_alone _ [] Ho (or_introl eq_refl)) as Hx.
  rewrite app_nil_r in Hs, Hx. rewrite Hs, Hx. cbn [fst].
  apply unmarshal_object; [done|done| |].
  - unfold frame_members. apply Forall_app. split; [by repeat constructor|]. destruct ev; by repeat constructor.
  - unfold frame_members. destruct ev; simpl; read_fields; rewrite uint64_into_format by done; by read_fields.
Qed.

Lemma default_at_id now f : f.(fr_AtMS) ≠ 0%Z → default_at now f = f.
Proof. intros Ha. unfold default_at. by apply Z.eqb_neq in Ha as ->. Qed.

Lemma holds_lease_running states worker token now r u :
  r.(ev_owner) = Some worker → r.(ev_fencing_token) = token → r.(ev_state) ∈ states →
  r.(ev_lease_until_ms) = Some u → (now < u)%Z → holds_lease states worker token now r = true.
Proof. intros Ho Ht Hs Hu Hn. unfold holds_lease. rewrite !bool_decide_eq_true_2, Hu by done. by apply Z.ltb_lt. Qed.

Lemma set_kind_id k f : f.(fr_Kind) = k → set_kind k f = f.
Proof. destruct f; simpl. by intros ->. Qed.

(** The claimable event no other comes before is the next to be claimed. *)
Lemma candidate_first d id r :
  d.(events) !! id = Some r → claimable r →
  (∀ id' r', d.(events) !! id' = Some r' → claimable r' → claim_le (id', r') (id, r) → id' = id) → candidate d = Some (id, r).
Proof.
  intros Hr Hc Hall. destruct (candidate d) as [[k v]|] eqn:E.
  - apply candidate_min in E as (Hv&Hcv&Hmin). pose proof (Hall _ _ Hv Hcv (Hmin _ _ Hr Hc)) as ->. congruence.
  - exfalso. unfold candidate in E. apply list_min_None in E.
    assert ((id, r) ∈ pairs_with claimable (events d)) as Hin by (by apply elem_of_pairs_with).
    rewrite E in Hin. by apply not_elem_of_nil in Hin.
Qed.

Lemma MarkReceived_clean f now d r :
  f.(fr_Kind) = ControlReceived → Frame_Validate f = Ok tt → (f.(fr_FencingToken) < two63)%Z →
  d.(events) !! f.(fr_EventID) = Some r →
  holds_lease [DeliveryLeased] f.(fr_WorkerID) f.(fr_FencingToken) (UnixMilli now) r = true →
  ∃ d', ControlStore.MarkReceived f now (World d []) = (Ok tt, World d' []) ∧
    d'.(events) = <[f.(fr_EventID) := received_row (UnixMilli now) r]> d.(events).
Proof.
  intros Hk Hv Ht Hr Hh. unfold ControlStore.MarkReceived, io_bind, io_ret.
  rewrite decide_False by (intros Hne; by apply Hne). rewrite Hv, exec_clean. unfold update_held, bind_uint64.
  apply Z.ltb_lt in Ht. rewrite Ht, Hr, Hh, rows_affected_clean. cbn [value_or]. rewrite decide_False by (intros Hne; by apply Hne).
  rewrite exec_clean. unfold insert_history. by eexists.
Qed.

Lemma Claim_full worker lease now d id r env :
  worker ≠ "" → (0 < lease)%Z → candidate d = Some (id, r) → json_Unmarshal r.(ev_envelope) = Ok env → env.(env_ID) = id →
  ∃ c d', ControlStore.Claim worker lease now (World d []) = (Ok c, World d' []) ∧ c.(cl_Envelope) = env ∧
    c.(cl_Lease).(lease_EventID) = id ∧ c.(cl_Lease).(lease_WorkerID) = worker ∧
    c.(cl_Lease).(lease_FencingToken) = (r.(ev_fencing_token) + 1)%Z ∧
    d'.(events) = <[id := lease_row worker (int64 (UnixMilli now + Milliseconds lease)) (UnixMilli now) r]> d.(events).
Proof.
  intros Hw Hl Hc Hu Hid. unfold ControlStore.Claim, io_bind, io_ret. rewrite (bool_decide_eq_false_2 _ Hw).
  apply Z.leb_gt in Hl. rewrite Hl. cbn [orb]. rewrite exec_clean. unfold claim_update. rewrite Hc. cbn [lease_row ev_envelope].
  rewrite Hu, exec_clean. unfold insert_history. eexists _, _. split; [done|]. simpl. by rewrite Hid.
Qed.

(** ** The handlers on a store that answers every statement *)

Lemma envelope_posted env raw :
  wf_text env = true → json_Marshal env = Ok raw → (length raw ≤ Server.maxBody)%nat →
  Server.decode_publish raw = Ok (normalize env).
Proof.
  intros Hwf Hm Hl. unfold Server.decode_publish. rewrite take_ge by done. unfold Decode.
  pose proof (proj1 (marshal_object _ _ Hwf Hm)) as Ho.
  pose proof (value_alone_no_space _ [] Ho) as Hs. pose proof (extent_alone _ [] Ho (or_introl eq_refl)) as Hx.
  rewrite app_nil_r in Hs, Hx. rewrite Hs, Hx. by apply envelope_read.
Qed.

Lemma route_event ev : ev ≠ "" → ev ≠ "/" → route "POST" ["v1"; "events"; ev] = Endpoint ePublish [("event", ev)].
Proof. intros H1 H2. unfold route. simpl. by rewrite decide_False by naive_solver. Qed.

Lemma event_segment env : Validate env = Ok tt → env.(env_Event) ≠ "" ∧ env.(env_Event) ≠ "/".
Proof. intros (_&_&_&_&Hs&_)%Validate_ok. unfold State in Hs. split; intros He; rewrite He in Hs; by vm_compute in Hs. Qed.

Section handlers.
Context {E : Type} (registry : Registry.state) (publish : Transport → Envelope → io E (result ())) (Sscan : string → option Z).
Context (st : stream).
Abbreviation H cfg r := (Handler registry publish Sscan cfg r st).

(** Forwarding is off, or the default transport takes the event. *)
Definition forwarded (dt : string) (env : Envelope) (e e1 : E) : Prop :=
  (dt = "" ∧ e1 = e) ∨ (dt ≠ "" ∧ ∃ t, registry !! dt = Some t ∧ publish t env e = (Ok tt, e1)).

Lemma post_event_accepted cfg env raw now now' d h e e1 :
  forwarded cfg.(DefaultTransport) (normalize env) e e1 → Validate env = Ok tt → wf_text env = true → json_Marshal env = Ok raw →
  (length raw ≤ Server.maxBody)%nat → by_key env.(env_IdempotencyKey) d = None → d.(events) !! env.(env_ID) = None →
  H cfg (post_event env raw) now now' (Server.mkServer (World d []) h e) =
  (Answer (Response StatusAccepted (EnvelopeBody (normalize env))),
   Server.mkServer (World (stored_db (normalize env) raw now d) []) (Hub.Publish (normalize env) h) e1).
Proof.
  intros Hdt Hv Hwf Hm Hl Hk Hn. destruct (event_segment _ Hv) as [He1 He2].
  destruct (normalize_fields env) as (Hid&Hev&Hkey&_).
  unfold Handler. cbn [post_event req_Clean req_Method req_Segments req_Body req_Query negb andb].
  rewrite (route_event _ He1 He2), (envelope_posted env raw) by done.
  unfold Server.handlePublish. change (Get "event" [("event", env_Event env)]) with (env_Event env).
  change (Get "transport" []) with "". rewrite decide_False by (by intros Hne; apply Hne).
  destruct Hdt as [[Hdt ->]|(Hne&t&Ht&Hp)].
  - unfold Server.ingest, Server.on_store, Server.on_hub, io_bind, io_ret. cbn [Server.sv_store Server.sv_hub Server.sv_ext].
    rewrite (Publish_new d (normalize env) raw now);
      [|by rewrite Validate_normalize|by rewrite codec_normalize|by rewrite Hkey|by rewrite Hid].
    rewrite decide_True, Hdt by done. done.
  - unfold io_bind, io_ret. rewrite (ingest_new registry publish _ (normalize env) "" t raw now now' d h e);
      [|by rewrite Validate_normalize|by rewrite codec_normalize|by rewrite Hkey|by rewrite Hid|by rewrite decide_True|by rewrite decide_True].
    by rewrite Hp.
Qed.

Lemma get_claim_granted cfg worker now now' d h e id r env :
  worker ≠ "" → (0 < cfg.(LeaseDuration))%Z → candidate d = Some (id, r) →
  json_Unmarshal r.(ev_envelope) = Ok env → env.(env_ID) = id →
  ∃ c d', H cfg (get_claim worker) now now' (Server.mkServer (World d []) h e) =
      (Answer (Response StatusOK (ClaimBody c)), Server.mkServer (World d' []) h e) ∧ (Inv d → Inv d') ∧
    c.(cl_Envelope) = env ∧ c.(cl_Lease).(lease_EventID) = id ∧ c.(cl_Lease).(lease_WorkerID) = worker ∧
    c.(cl_Lease).(lease_FencingToken) = (r.(ev_fencing_token) + 1)%Z ∧
    d'.(events) = <[id := lease_row worker (int64 (UnixMilli now + Milliseconds cfg.(LeaseDuration))) (UnixMilli now) r]> d.(events).
Proof.
  intros Hw Hl Hc Hu Hid. destruct (Claim_full worker cfg.(LeaseDuration) now d id r env) as (c&d'&Hcl&Hrest); [done..|].
  exists c, d'. split; [|split; [|done]]; cycle 1.
  { pose proof (Claim_moves worker cfg.(LeaseDuration) now (World d [])) as Hs. rewrite Hcl in Hs. eauto using inv_steps. }
  unfold Handler, Server.handleClaim, Server.on_store, io_bind, io_ret. simpl.
  by rewrite Hcl.
Qed.

Lemma post_received_noted cfg f b now now' d h e r :
  wf_frame f → marshal_frame f = Ok b → f.(fr_Kind) = ControlReceived → f.(fr_AtMS) ≠ 0%Z → Frame_Validate f = Ok tt →
  (f.(fr_FencingToken) < two63)%Z → d.(events) !! f.(fr_EventID) = Some r →
  holds_lease [DeliveryLeased] f.(fr_WorkerID) f.(fr_FencingToken) (UnixMilli now) r = true →
  ∃ d', H cfg (post_control "received" b) now now' (Server.mkServer (World d []) h e) =
      (Answer (Response StatusNoContent NoBody), Server.mkServer (World d' []) h e) ∧ (Inv d → Inv d') ∧
    d'.(events) = <[f.(fr_EventID) := received_row (UnixMilli now) r]> d.(events).
Proof.
  intros Hwf Hb Hk Ha Hv Ht Hr Hh. destruct (MarkReceived_clean f now d r) as (d'&Hm&Hd'); [done..|].
  exists d'. split; [|split; [|done]]; cycle 1.
  { pose proof (MarkReceived_moves f now (World d [])) as Hs. rewrite Hm in Hs. eauto using inv_steps. }
  unfold Handler, Server.handleReceived, Server.on_store, io_bind, io_ret. simpl.
  rewrite (frame_read f b Hwf Hb), (set_kind_id _ _ Hk), (default_at_id _ _ Ha).
  cbn [Server.sv_store]. by rewrite Hm.
Qed.

Lemma post_settled cfg f b now now' d h e r :
  Inv d → wf_frame f → marshal_frame f = Ok b → settle_kind f.(fr_Kind) → f.(fr_AtMS) ≠ 0%Z → Frame_Validate f = Ok tt →
  (f.(fr_FencingToken) < two63)%Z → d.(events) !! f.(fr_EventID) = Some r →
  holds_lease [DeliveryLeased; DeliveryReceived] f.(fr_WorkerID) f.(fr_FencingToken) (UnixMilli now) r = true →
  ∃ d', H cfg (post_control "settle" b) now now' (Server.mkServer (World d []) h e) =
      (Answer (Response StatusNoContent NoBody), Server.mkServer (World d' []) h e) ∧
    settle_effect f (UnixMilli now) d = Ok d'.
Proof.
  intros HI Hwf Hb Hk Ha Hv Ht Hr Hh. destruct (settle_effect_ok d f (UnixMilli now) r) as [d' Hd']; [done..|].
  exists d'. split; [|done]. unfold Handler, Server.handleSettle, Server.on_store, io_bind, io_ret. simpl.
  rewrite (frame_read f b Hwf Hb), (default_at_id _ _ Ha).
  cbn [Server.sv_store]. by rewrite Settle_clean, Hd'.
Qed.
End handlers.

(** ** The cycle *)

(** The frame a worker sends about a claimed event. *)
Definition report (kind : string) (c : ClaimedEvent) (at_ : Z) (evidence : bytes) : ControlFrame :=
  mkFrame kind c.(cl_Lease).(lease_EventID) c.(cl_Lease).(lease_WorkerID) c.(cl_Lease).(lease_FencingToken) at_ evidence.

Definition evidence_ok (ev : bytes) : Prop := ev = [] ∨ (compact ev = Some ev ∧ member_ok ev = true).

Lemma evidence_none : evidence_ok [].
Proof. by left. Qed.
#[local] Hint Resolve evidence_none : core.

Lemma marshal_frame_ok f : wf_frame f → ∃ b, marshal_frame f = Ok b.
Proof.
  intros (_&_&_&_&_&Hev). unfold marshal_frame. destruct (fr_Evidence f); [by eexists|].
  destruct Hev as [|[-> _]]; [done|by eexists].
Qed.

Section cycle.
Context {E : Type} (registry : Registry.state) (publish : Transport → Envelope → io E (result ())) (Sscan : string → option Z).
Context (cfg : settings) (worker : string) (env : Envelope) (raw : bytes) (d : control_db) (h : Hub.state) (e e1 : E).
Context (st : stream) (t0 t1 t2 t3 u0 u1 u2 u3 : Z).

(** The row of the posted event. *)
Definition posted_row : event_row :=
  EventRow env.(env_IdempotencyKey) env.(env_Event) raw DeliveryPublished None None 0 0 env.(env_CreatedAtMS) (UnixMilli t0).

(** A publisher's new event, on a store where no claimable event comes before it. *)
Hypothesis HI : Inv d.
Hypothesis Hfirst : ∀ id r, d.(events) !! id = Some r → claimable r → ¬ claim_le (id, r) (env.(env_ID), posted_row).
Hypothesis Hkey : by_key env.(env_IdempotencyKey) d = None.
Hypothesis Hnew : d.(events) !! env.(env_ID) = None.
Hypothesis Hvalid : Validate env = Ok tt.
Hypothesis Hwf : wf_text env = true.
Hypothesis Hraw : json_Marshal env = Ok raw.
Hypothesis Hlen : (length raw ≤ Server.maxBody)%nat.
(** The server forwards nothing or its default transport takes the event; the
    worker has a name and reports while its lease runs. *)
Hypothesis Hforward : forwarded registry publish cfg.(DefaultTransport) (normalize env) e e1.
Hypothesis Hlease : (0 < cfg.(LeaseDuration))%Z.
Hypothesis Hworker : worker ≠ "" ∧ utf8_string worker = true.
Hypothesis Hdeadline : let until := int64 (UnixMilli t1 + Milliseconds cfg.(LeaseDuration)) in
  (UnixMilli t2 < until)%Z ∧ (UnixMilli t3 < until)%Z.

Abbreviation H r := (Handler registry publish Sscan cfg r st).
Abbreviation server d h e := (Server.mkServer (World d []) h e).

Lemma candidate_stored :
  candidate (stored_db (normalize env) raw t0 d) = Some (env.(env_ID), posted_row).
Proof using Hfirst.
  apply candidate_first.
  - apply lookup_insert_eq.
  - by left.
  - intros id' r' Hl Hcl Hle. simpl in Hl. destruct (decide (id' = env_ID env)) as [|Hne]; [done|].
    rewrite lookup_insert_ne in Hl by done. by destruct (Hfirst _ _ Hl).
Qed.

Lemma report_wf kind c at_ ev :
  utf8_string kind = true → int64_range at_ → evidence_ok ev →
  c.(cl_Lease).(lease_EventID) = env.(env_ID) → c.(cl_Lease).(lease_WorkerID) = worker →
  c.(cl_Lease).(lease_FencingToken) = 1%Z → wf_frame (report kind c at_ ev).
Proof using Hwf Hworker.
  intros Hk Ha Hev Hi Hw Ht. unfold wf_frame, report. simpl. rewrite Hi, Hw, Ht.
  unfold wf_text in Hwf. bool_prop. destruct Hworker. by split_and!.
Qed.

Lemma report_valid kind c at_ ev :
  settle_kind kind ∨ kind = ControlReceived → c.(cl_Lease).(lease_EventID) = env.(env_ID) →
  c.(cl_Lease).(lease_WorkerID) = worker → c.(cl_Lease).(lease_FencingToken) = 1%Z →
  Frame_Validate (report kind c at_ ev) = Ok tt.
Proof using Hvalid Hworker.
  intros Hk Hi Hw Ht. apply Validate_ok in Hvalid as (Hid&_). destruct Hworker as [Hne _].
  unfold Frame_Validate. simpl. rewrite Hi, Hw, Ht. rewrite !bool_decide_eq_false_2 by done.
  by destruct Hk as [[->| ->]| ->].
Qed.

Lemma settle_kind_text kind : settle_kind kind → utf8_string kind = true.
Proof. by intros [->| ->]. Qed.

(** C15: The interface carries an event from its publisher to its settlement: posted
    as JSON text it is accepted and stored; the worker's claim answers that very
    event with a lease of its name and the first fencing token; the worker's two
    frames, sent as JSON texts with the lease's own values while the lease runs,
    are acknowledged; afterwards the event is settled by that worker under that
    token with the evidence it sent, and no other event has changed.  The
    conditions are the section's: the store answers every statement, the event is
    new and valid and its text fits the body limit, no claimable event comes before
    it in the order of claims, no transport is set for forwarding or the default
    one takes the event, and the reports come before the lease ends. *)
Theorem http_work_cycle kind at1 at2 evidence :
  settle_kind kind → int64_range at1 → at1 ≠ 0%Z → int64_range at2 → at2 ≠ 0%Z → evidence_ok evidence →
  ∃ claimed received_text settle_text d1 d2 d3 d4, let h' := Hub.Publish (normalize env) h in
    H (post_event env raw) t0 u0 (server d h e) =
      (Answer (Response StatusAccepted (EnvelopeBody (normalize env))), server d1 h' e1) ∧
    H (get_claim worker) t1 u1 (server d1 h' e1) = (Answer (Response StatusOK (ClaimBody claimed)), server d2 h' e1) ∧
    claimed.(cl_Envelope) = normalize env ∧
    claimed.(cl_Lease).(lease_WorkerID) = worker ∧ claimed.(cl_Lease).(lease_FencingToken) = 1%Z ∧
    marshal_frame (report ControlReceived claimed at1 []) = Ok received_text ∧
    H (post_control "received" received_text) t2 u2 (server d2 h' e1) = (Answer (Response StatusNoContent NoBody), server d3 h' e1) ∧
    marshal_frame (report kind claimed at2 evidence) = Ok settle_text ∧
    H (post_control "settle" settle_text) t3 u3 (server d3 h' e1) = (Answer (Response StatusNoContent NoBody), server d4 h' e1) ∧
    phase_of d4 env.(env_ID) = Some (if decide (kind = ControlSettledError) then SettledError worker 1 else SettledOK worker 1) ∧
    d4.(settlements) !! env.(env_ID) = Some (SettlementRow kind worker 1 at2 evidence) ∧
    (∀ id, id ≠ env.(env_ID) → d4.(events) !! id = d.(events) !! id).
Proof using All.
  intros Hkind Ha1 Hn1 Ha2 Hn2 Hev. pose proof (proj1 (Validate_ok _) Hvalid) as (Hid&_).
  pose proof (stored_db_inv (normalize env) raw t0 d HI) as HI1.
  rewrite Validate_normalize, codec_normalize in HI1. specialize (HI1 Hvalid Hraw Hkey Hnew).
  destruct (get_claim_granted registry publish Sscan st cfg worker t1 u1 _ (Hub.Publish (normalize env) h) e1 _ _ (normalize env)
    (proj1 Hworker) Hlease candidate_stored) as (c&d2&Hc&HI2&Hce&Hci&Hcw&Hct&Hd2); [by apply codec_roundtrip|done|].
  simpl in Hct. set (row := lease_row worker _ _ _) in Hd2.
  destruct (marshal_frame_ok (report ControlReceived c at1 [])) as [b1 Hb1]; [by apply report_wf; auto|].
  destruct (marshal_frame_ok (report kind c at2 evidence)) as [b2 Hb2]; [by apply report_wf; [apply settle_kind_text|..]|].
  destruct (post_received_noted registry publish Sscan st cfg (report ControlReceived c at1 []) b1 t2 u2 d2 (Hub.Publish (normalize env) h) e1 row
    ltac:(by apply report_wf; auto) Hb1 eq_refl Hn1) as (d3&Hr&HI3&Hd3).
  { apply report_valid; auto. }
  { simpl. rewrite Hct. done. }
  { simpl. rewrite Hci, Hd2. apply lookup_insert_eq. }
  { simpl. rewrite Hcw, Hct. eapply holds_lease_running; [done|done|constructor|done|apply Hdeadline]. }
  simpl in Hd3. rewrite Hci, Hd2, insert_insert_eq in Hd3.
  destruct (post_settled registry publish Sscan st cfg (report kind c at2 evidence) b2 t3 u3 d3 (Hub.Publish (normalize env) h) e1
    (received_row (UnixMilli t2) row) (HI3 (HI2 HI1)) ltac:(by apply report_wf; [apply settle_kind_text|..]) Hb2 Hkind Hn2) as (d4&Hs&Hd4).
  { apply report_valid; auto. }
  { simpl. rewrite Hct. done. }
  { simpl. rewrite Hci, Hd3. apply lookup_insert_eq. }
  { simpl. rewrite Hcw, Hct. eapply holds_lease_running; [done|done|right; constructor|done|apply Hdeadline]. }
  destruct (phase_of_settled d3 (report kind c at2 evidence) (received_row (UnixMilli t2) row) (UnixMilli t3) d4
    (HI3 (HI2 HI1)) Hkind Hd4) as [Hp Hse].
  { simpl. rewrite Hci, Hd3. apply lookup_insert_eq. }
  simpl in Hp, Hse. rewrite Hci, Hcw, Hct in Hp, Hse.
  exists c, b1, b2, (stored_db (normalize env) raw t0 d), d2, d3, d4. cbv zeta. split_and!; try done.
  - by apply post_event_accepted.
  - intros id Hne. apply settle_effect_inv in Hd4 as (r&_&_&Hev4&_). rewrite Hev4. simpl. rewrite Hci, Hd3.
    rewrite !lookup_insert_ne by done. by apply lookup_insert_ne.
Qed.
End cycle.

(** * A closed instance: a daemon that forwards to its memory transport and holds
    a younger event. *)

Definition ex_memory : Registry.state := {["memory" := mkTransport "memory" caps_memory]}.
Definition ex_younger : Envelope :=
  mkEnvelope "evt-9" "Financial.createInvoice.request" "corr-9" "cause-9" "idem-9"
    "Financial.createInvoice.request@1" (to_bytes "[9]") "processed" 2000 None.
Definition ex_others : control_db := stored_db ex_younger (ex_raw ex_younger) Second empty_db.

Lemma ex_others_inv : Inv ex_others.
Proof. apply stored_db_inv; [apply inv_empty|vm_compute; reflexivity|vm_compute; reflexivity|reflexivity|reflexivity]. Qed.

Lemma ex_others_younger raw t id r :
  ex_others.(events) !! id = Some r → claimable r → ¬ claim_le (id, r) (env_ID ex_envelope, posted_row ex_envelope raw t).
Proof.
  unfold ex_others, stored_db. cbn [events with_history with_events]. intros [[<- <-]|[_ Hr]]%lookup_insert_Some _; [|discriminate Hr].
  unfold claim_le. simpl. lia.
Qed.

Lemma http_work_cycle_witness :
  ∃ raw d4, json_Marshal ex_envelope = Ok raw ∧
    phase_of d4 (env_ID ex_envelope) = Some (SettledOK "worker-1" 1) ∧
    d4.(settlements) !! env_ID ex_envelope = Some (SettlementRow ControlSettledOK "worker-1" 1 7 (to_bytes "{}")).
Proof.
  destruct (http_work_cycle ex_memory (λ _ _ n, (Ok tt, S n)) (λ _, None) (mkSettings "memory" (5 * Second)) "worker-1"
    ex_envelope (value_or [] (json_Marshal ex_envelope)) ex_others Hub.NewHub 0 1 no_stream Second (2 * Second) (3 * Second) (4 * Second) 0 0 0 0)
    with (kind := ControlSettledOK) (at1 := 7%Z) (at2 := 7%Z) (evidence := to_bytes "{}")
    as (c&b1&b2&d1&d2&d3&d4&_&_&_&_&_&_&_&_&_&Hp&Hs&_).
  - exact ex_others_inv.
  - intros id r. apply ex_others_younger.
  - reflexivity.
  - reflexivity.
  - vm_compute; reflexivity.
  - vm_compute; reflexivity.
  - vm_compute; reflexivity.
  - trans 1000; [apply Nat.leb_le; vm_compute; reflexivity|].
    unfold Server.maxBody. change (N.shiftl 8 20) with 8388608%N. lia.
  - right. split; [discriminate|]. eexists. split; reflexivity.
  - reflexivity.
  - split; [discriminate|reflexivity].
  - split; vm_compute; reflexivity.
  - by left.
  - by vm_compute.
  - discriminate.
  - by vm_compute.
  - discriminate.
  - right. split; vm_compute; reflexivity.
  - exists (value_or [] (json_Marshal ex_envelope)), d4. split; [vm_compute; reflexivity|]. split; [exact Hp|exact Hs].
Defined.
