(* ===== verification/Daemon.v ===== *)
(** * The daemon: cmd/ubiqd/main.go

    The environment, the TLS profiles, the trust file, the transports registered
    from the environment, the DPoP middleware, and the way [main] puts the
    components together.  Files, sockets and flags are read by libraries; their
    outcomes are arguments. *)

From Stdlib Require Import ZArith NArith Lia Ascii String.
From stdpp Require Import base list gmap sets strings.
From S2P Require Import Prelude GoRegexp JsonScan Utf8 JsonText JsonRoundtrip JsonValues Sha256 Model Json Db Store.
From S2P Require Import Crypto CryptoTheorems Transport Secure Tcp Brokers Server Http Dpop Quic.

(** ** Strings *)

(** The white space [unicode.IsSpace] knows, in UTF-8. *)
Definition spaces : list bytes :=
  [["009"]; ["010"]; ["011"]; ["012"]; ["013"]; [" "]; ["194"; "133"]; ["194"; "160"]; ["225"; "154"; "128"];
   ["226"; "128"; "128"]; ["226"; "128"; "129"]; ["226"; "128"; "130"]; ["226"; "128"; "131"]; ["226"; "128"; "132"];
   ["226"; "128"; "133"]; ["226"; "128"; "134"]; ["226"; "128"; "135"]; ["226"; "128"; "136"]; ["226"; "128"; "137"];
   ["226"; "128"; "138"]; ["226"; "128"; "168"]; ["226"; "128"; "169"]; ["226"; "128"; "175"]; ["226"; "129"; "159"];
   ["227"; "128"; "128"]]%char.

(** The first of the given texts that begins [l], taken off. *)
Fixpoint strip_one (texts : list bytes) (l : bytes) : option bytes :=
  match texts with
  | [] => None
  | t :: texts' => if decide (take (length t) l = t) then Some (drop (length t) l) else strip_one texts' l
  end.

(** Every round takes at least one byte off. *)
Fixpoint trim_left (fuel : nat) (texts : list bytes) (l : bytes) : bytes :=
  match fuel with
  | O => l
  | S fuel => match strip_one texts l with Some l' => trim_left fuel texts l' | None => l end
  end.

(** [strings.TrimSpace]. *)
Definition trim_space (l : bytes) : bytes :=
  let l1 := trim_left (length l) spaces l in
  reverse (trim_left (length l1) (reverse <$> spaces) (reverse l1)).
Definition TrimSpace (s : string) : string := of_bytes (trim_space (to_bytes s)).

(** ** The environment *)

Section env.
Context (Getenv : string → string).

Definition csvEnv (k : string) : list string :=
  let v := TrimSpace (Getenv k) in
  if decide (v = "") then []
  else filter (λ p, p ≠ "") (TrimSpace <$> Split "," v).

Definition envDefault (k d : string) : string :=
  if decide (Getenv k = "") then d else Getenv k.

(** [strconv.ParseBool]. *)
Definition ParseBool (s : string) : result bool :=
  if bool_decide (s ∈ ["1"; "t"; "T"; "TRUE"; "true"; "True"]) then Ok true
  else if bool_decide (s ∈ ["0"; "f"; "F"; "FALSE"; "false"; "False"]) then Ok false
  else Err (ErrFmt "strconv.ParseBool: parsing %q: invalid syntax" [s]).

Definition envBool (k : string) (d : bool) : bool :=
  let v := Getenv k in
  if decide (v = "") then d else value_or d (ParseBool v).
End env.

(** ** TLS *)

Definition VersionTLS13 : Z := 772.

(** [tlsProfiles]; [load], [read] and [append] are the outcomes of loading the key
    pair, reading the CA file and finding a certificate in it. *)
Definition tlsProfiles (certFile keyFile caFile : string) (load read : result ()) (append : bool)
  : result (tlsConfig * tlsConfig) :=
  try _ := load in try _ := read in
  if negb append then Err (ErrNew "no CA certificate found")
  else Ok (mkTLS VersionTLS13 [certFile] [caFile] true [] [],
           mkTLS VersionTLS13 [certFile] [] false [caFile] []).

Definition cloneWithProto (c : option tlsConfig) : option tlsConfig :=
  match c with
  | None => None
  | Some x => Some (mkTLS x.(MinVersion) x.(Certificates) x.(ClientCAs) x.(RequireClientCert) x.(RootCAs) ["ubiq/1"])
  end.

(** ** The trust file *)

Definition zero_bundle : PublicBundle := {| pb_KeyID := ""; pb_Ed25519 := []; pb_MLDSA44 := []; pb_X25519 := []; pb_MLKEM768 := [] |}.

Definition bundle_fields : fields PublicBundle :=
  [("key_id", λ v p, try x := string_into v p.(pb_KeyID) in
      Ok {| pb_KeyID := x; pb_Ed25519 := p.(pb_Ed25519); pb_MLDSA44 := p.(pb_MLDSA44); pb_X25519 := p.(pb_X25519); pb_MLKEM768 := p.(pb_MLKEM768) |});
   ("ed25519", λ v p, try x := bytes_into v in
      Ok {| pb_KeyID := p.(pb_KeyID); pb_Ed25519 := x; pb_MLDSA44 := p.(pb_MLDSA44); pb_X25519 := p.(pb_X25519); pb_MLKEM768 := p.(pb_MLKEM768) |});
   ("mldsa44", λ v p, try x := bytes_into v in
      Ok {| pb_KeyID := p.(pb_KeyID); pb_Ed25519 := p.(pb_Ed25519); pb_MLDSA44 := x; pb_X25519 := p.(pb_X25519); pb_MLKEM768 := p.(pb_MLKEM768) |});
   ("x25519", λ v p, try x := bytes_into v in
      Ok {| pb_KeyID := p.(pb_KeyID); pb_Ed25519 := p.(pb_Ed25519); pb_MLDSA44 := p.(pb_MLDSA44); pb_X25519 := x; pb_MLKEM768 := p.(pb_MLKEM768) |});
   ("mlkem768", λ v p, try x := bytes_into v in
      Ok {| pb_KeyID := p.(pb_KeyID); pb_Ed25519 := p.(pb_Ed25519); pb_MLDSA44 := p.(pb_MLDSA44); pb_X25519 := p.(pb_X25519); pb_MLKEM768 := x |})].

Fixpoint bundles_into (vs : list bytes) : result (list PublicBundle) :=
  match vs with
  | [] => Ok []
  | v :: vs' =>
      try p := struct_into false bundle_fields v zero_bundle in
      try ps := bundles_into vs' in Ok (p :: ps)
  end.

(** [json.Unmarshal] into a slice of bundles. *)
Definition unmarshal_bundles (data : bytes) : result (list PublicBundle) :=
  if Valid data then
    let raw := (extent (skip_space data)).1 in
    if is_null raw then Ok []
    else if starts_with "[" raw then bundles_into (elements raw) else Err type_error
  else Err syntax_error.

(** [loadTrust]; [file] is the outcome of [os.ReadFile]. *)
Definition loadTrust (file : result bytes) : io StaticTrustStore.state (result ()) := λ store,
  match (try raw := file in unmarshal_bundles raw) with
  | Err e => (Err e, store)
  | Ok peers => (Ok tt, foldl (λ s p, StaticTrustStore.Add p s) store peers)
  end.

(** ** Transports from the environment *)

(** A transport the daemon was asked for, with the configuration it is built from. *)
Inductive configured :=
| CfgNATS (c : NATSConfig) | CfgKafka (c : KafkaConfig) | CfgRabbit (c : RabbitConfig)
| CfgRedis (c : RedisStreamsConfig) | CfgMQTT (c : MQTTConfig)
| CfgTCP (c : TCPTransport.TCPConfig)
| CfgQUIC (c : QUICTransport.QUICConfig).

Definition cfg_name (c : configured) : string :=
  match c with
  | CfgNATS c => c.(nc_Name) | CfgKafka c => c.(kc_Name) | CfgRabbit c => c.(rc_Name) | CfgRedis c => c.(xc_Name)
  | CfgMQTT c => c.(mc_Name) | CfgTCP c => c.(TCPTransport.Name) | CfgQUIC c => c.(QUICTransport.Name)
  end.

Definition cfg_caps (c : configured) : Capabilities :=
  match c with
  | CfgNATS c => caps_nats c.(nc_JetStream) | CfgKafka _ => caps_kafka | CfgRabbit _ => caps_rabbit | CfgRedis _ => caps_redis
  | CfgMQTT _ => caps_mqtt | CfgTCP _ | CfgQUIC _ => caps_stream
  end.

(** The [add] of [main]: the wrapped transport, which has the name and the
    capabilities of the inner one, is registered; an error ends the process. *)
Fixpoint add_all (ts : list Transport) : io Registry.state (result ()) :=
  match ts with
  | [] => io_ret (Ok tt)
  | t :: ts' => try _ <- Registry.Register (Some t); add_all ts'
  end.

Section register.
Context (Getenv : string → string).
(** The outcomes of what the constructors ask of the outside: connecting,
    listening. *)
Context (open : configured → result ()).

(** One transport: built when asked for, an error ends the registration. *)
Definition when (asked : bool) (c : result configured) (k : list configured → result (list configured)) (acc : list configured)
  : result (list configured) :=
  if asked then try c := c in try _ := open c in k (acc ++ [c]) else k acc.

Definition isSet (k : string) : bool := negb (bool_decide (Getenv k = "")).
Definition nonempty {A} (l : list A) : bool := match l with [] => false | _ => true end.

(** [registerFromEnv]: what is added, in order. *)
Definition registerFromEnv (serverTLS clientTLS : option tlsConfig) (insecure : bool) : result (list configured) :=
  let nats := CfgNATS (mkNATSConfig "nats" (Getenv "UBIQ_NATS_URL") "ubiq" false "" "") in
  let jetstream := CfgNATS (mkNATSConfig "jetstream" (Getenv "UBIQ_JETSTREAM_URL") "ubiq" true "UBIQ_EVENTS" "ubiq") in
  let kafka := mkKafkaConfig "kafka" (csvEnv Getenv "UBIQ_KAFKA_BROKERS") (envDefault Getenv "UBIQ_KAFKA_TOPIC" "ubiq-events") "" in
  let redpanda := mkKafkaConfig "redpanda" (csvEnv Getenv "UBIQ_REDPANDA_BROKERS") (envDefault Getenv "UBIQ_REDPANDA_TOPIC" "ubiq-events") "" in
  let rabbit := CfgRabbit (mkRabbitConfig "rabbitmq" (Getenv "UBIQ_RABBIT_URL") "ubiq" "ubiq") in
  let redis := mkRedisConfig "redis-streams" (Getenv "UBIQ_REDIS_ADDR") "" "ubiq-events" "ubiq" 0 in
  let mqtt := CfgMQTT (mkMQTTConfig "mqtt" (Getenv "UBIQ_MQTT_BROKER") (envDefault Getenv "UBIQ_MQTT_CLIENT_ID" "ubiqd") "ubiq" "" "") in
  let tcp := TCPTransport.mkTCPConfig "tcp" (Getenv "UBIQ_TCP_PEER") (Getenv "UBIQ_TCP_LISTEN")
    (if insecure then None else clientTLS) (if insecure then None else serverTLS) 0 in
  let quic := QUICTransport.mkQUICConfig "quic" (Getenv "UBIQ_QUIC_PEER") (Getenv "UBIQ_QUIC_LISTEN")
    (cloneWithProto clientTLS) (cloneWithProto serverTLS) in
  when (isSet "UBIQ_NATS_URL") (Ok nats) (
  when (isSet "UBIQ_JETSTREAM_URL") (Ok jetstream) (
  when (nonempty kafka.(kc_Brokers)) (try k := NewKafkaTransport kafka in Ok (CfgKafka k)) (
  when (nonempty redpanda.(kc_Brokers)) (try k := NewKafkaTransport redpanda in Ok (CfgKafka k)) (
  when (isSet "UBIQ_RABBIT_URL") (Ok rabbit) (
  when (isSet "UBIQ_REDIS_ADDR") (Ok (CfgRedis (NewRedisStreamsTransport redis))) (
  when (isSet "UBIQ_MQTT_BROKER") (Ok mqtt) (
  when (isSet "UBIQ_TCP_PEER" || isSet "UBIQ_TCP_LISTEN")
    (try t := (TCPTransport.NewTCPTransport tcp (Ok tt) : result (TCPTransport.state ())) in Ok (CfgTCP tcp)) (
  when (isSet "UBIQ_QUIC_PEER" || isSet "UBIQ_QUIC_LISTEN")
    (if insecure then Err (ErrNew "QUIC adapter requires TLS; insecure-dev cannot enable QUIC")
     else try q := (QUICTransport.NewQUICTransport quic (Ok tt) : result (QUICTransport.state ())) in
          Ok (CfgQUIC quic))
  Ok)))))))) [].
End register.

(** ** The DPoP middleware *)

Definition StatusUnauthorized : Z := 401.

(** A request is refused with a text, or handled. *)
Inductive served := Refused (status : Z) (text : string) | Served (o : outcome).

(** [strings.ToLower] of an ASCII byte: no other rune folds to a byte of the
    prefix it is used for. *)
Definition lower (c : ascii) : ascii := if in_range "A" "Z" c then ascii_of_N (N_of_ascii c + 32) else c.

(** The access token of a request. *)
Definition bearer (auth : string) : string :=
  let l := to_bytes auth in
  if decide (lower <$> take 7 l = to_bytes "bearer ") then of_bytes (trim_space (drop 7 l)) else "".

Section middleware.
Context {jose : Jose} {S : Type} (next : Request → io S outcome).

Definition dpopMiddleware (r : Request) (now : Z) : io (DPoPVerifier.state * S) served := λ '(v, s),
  if bool_decide (r.(req_Method) = "GET") && bool_decide (Path r = "/healthz")
  then let '(o, s') := next r s in (Served o, (v, s'))
  else
    let proof := Get "Dpop" r.(req_Header) in
    if decide (proof = "") then (Refused StatusUnauthorized "DPoP proof required", (v, s))
    else
      let target := ("https://" ++ r.(req_Host) ++ Path r)%string in
      let access := bearer (Get "Authorization" r.(req_Header)) in
      match DPoPVerifier.Verify proof r.(req_Method) target access now v with
      | (Err e, v') => (Refused StatusUnauthorized "invalid DPoP", (v', s))
      | (Ok _, v') => let '(o, s') := next r s in (Served o, (v', s'))
      end.
End middleware.

(** ** [main] *)

Record flags := mkFlags {
  f_transport : string; f_cert : string; f_key : string; f_ca : string; f_insecure : bool; f_dpop : bool }.

(** What [main] decided before it starts to listen. *)
Record plan := mkPlan {
  p_serverTLS : option tlsConfig; p_clientTLS : option tlsConfig; p_transports : list configured;
  p_registry : Registry.state;
  p_bound : list string; p_dpop : bool; p_settings : settings }.

(** [tls] is the outcome of [tlsProfiles]' files; an error ends the process. *)
Definition main_plan (Getenv : string → string) (open : configured → result ()) (f : flags)
  (load read : result ()) (append : bool) : result plan :=
  try profiles :=
    (if f.(f_insecure) then Ok (None, None)
     else if bool_decide (f.(f_cert) = "") || bool_decide (f.(f_key) = "") || bool_decide (f.(f_ca) = "")
     then Err (ErrNew "TLS certificate, key and client CA are required unless -insecure-dev is set")
     else try (sv, cl) := tlsProfiles f.(f_cert) f.(f_key) f.(f_ca) load read append in Ok (Some sv, Some cl)) in
  let '(serverTLS, clientTLS) := profiles in
  try ts := registerFromEnv Getenv open serverTLS clientTLS f.(f_insecure) in
  match add_all (mkTransport "memory" caps_memory :: ((λ c, mkTransport (cfg_name c) (cfg_caps c)) <$> ts)) Registry.NewRegistry with
  | (Err e, _) => Err e
  | (Ok _, registry) =>
      Ok (mkPlan serverTLS clientTLS ts registry (filter (λ n, n ≠ f.(f_transport)) (Registry.Names registry))
            (f.(f_dpop) && negb f.(f_insecure)) (mkSettings f.(f_transport) (5 * Second)))
  end.

(** The handler [main] serves. *)
Definition serve {jose : Jose} {S} (next : Request → io S outcome) (p : plan) (r : Request) (now : Z)
  : io (DPoPVerifier.state * S) served :=
  if p.(p_dpop) then dpopMiddleware next r now
  else λ '(v, s), let '(o, s') := next r s in (Served o, (v, s')).
