(* ===== verification/DaemonTheorems.v ===== *)
(** * The daemon: who may change the state, and how transports are protected *)

From Stdlib Require Import ZArith NArith Lia Ascii String.
From stdpp Require Import base list gmap sets strings sorting.
From S2P Require Import Prelude GoRegexp JsonScan Utf8 JsonText JsonRoundtrip JsonValues Sha256 Model Json Db Store.
From S2P Require Import Crypto CryptoTheorems CryptoExample Transport Secure Tcp Brokers Server Http HttpTheorems Dpop DpopTheorems Quic Daemon.
Import DPoPVerifier.

(** ** Paths *)

Lemma concat_slash a b segs : "/"%char ∈ to_bytes (String.concat "/" (a :: b :: segs)).
Proof.
  change (String.concat "/" (a :: b :: segs)) with (a ++ "/" ++ String.concat "/" (b :: segs))%string.
  rewrite !to_bytes_app. apply elem_of_app. right. apply elem_of_app. left. by constructor.
Qed.

Lemma path_healthz r : Path r = "/healthz" → r.(req_Segments) = ["healthz"].
Proof.
  unfold Path. intros Hp.
  assert (String.concat "/" (req_Segments r) = "healthz") as Hc by (by injection Hp).
  destruct (req_Segments r) as [|a [|b segs]]; [done|by simpl in Hc; subst|].
  pose proof (concat_slash a b segs) as Hin. rewrite Hc in Hin. vm_compute in Hin.
  repeat (apply elem_of_cons in Hin as [Hin|Hin]; [discriminate Hin|]). by apply elem_of_nil in Hin.
Qed.

(** ** The composed server *)

Section composed.
Context {jose : Jose} {E : Type} (registry : Registry.state) (publish : Transport → Envelope → io E (result ()))
  (Sscan : string → option Z).

(** [api.Handler()], with the stream the request may open and the clock readings of
    its handler. *)
Definition api (cfg : settings) (st : stream) (now now' : Z) (r : Request) : io (Server.state E) outcome :=
  Handler registry publish Sscan cfg r st now now'.

Definition proof_of (r : Request) : string := Get "Dpop" r.(req_Header).
Definition target_of (r : Request) : string := ("https://" ++ r.(req_Host) ++ Path r)%string.
Definition access_of (r : Request) : string := bearer (Get "Authorization" r.(req_Header)).

(** The unprotected path leads nowhere. *)
Lemma healthz_harmless cfg st now now' r s : Path r = "/healthz" → (api cfg st now now' r s).2 = s.
Proof.
  intros Hp%path_healthz. unfold api, Handler. destruct (_ && _); [done|].
  destruct (route _ _) as [e values| |] eqn:Hr; [|done|done]. apply route_reaches in Hr. rewrite Hp in Hr.
  destruct e; simpl in Hr; first [done | by destruct Hr as [_ (?&?&_)] | by destruct Hr].
Qed.

Lemma dpopMiddleware_cases (next : Request → io (Server.state E) outcome) r now v s :
  (∃ text v', dpopMiddleware next r now (v, s) = (Refused StatusUnauthorized text, (v', s)) ∧
     (v' = v ∨ v' = (Verify (proof_of r) r.(req_Method) (target_of r) (access_of r) now v).2) ∧
     (∀ u, Verify (proof_of r) r.(req_Method) (target_of r) (access_of r) now v = (Ok tt, u) → proof_of r = "")) ∨
  (dpopMiddleware next r now (v, s) = (Served (next r s).1, (v, (next r s).2)) ∧ r.(req_Method) = "GET" ∧ Path r = "/healthz") ∨
  (∃ v', dpopMiddleware next r now (v, s) = (Served (next r s).1, (v', (next r s).2)) ∧ proof_of r ≠ "" ∧
     Verify (proof_of r) r.(req_Method) (target_of r) (access_of r) now v = (Ok tt, v')).
Proof.
  unfold dpopMiddleware. destruct (_ && _) eqn:Hh.
  { right; left. bool_prop. by destruct (next r s). }
  fold (proof_of r). destruct (decide (proof_of r = "")) as [Hp|Hp].
  { left. eexists _, _. split_and!; [done|by left|done]. }
  fold (target_of r) (access_of r). destruct (Verify _ _ _ _ _ v) as [[[]|e] v'] eqn:Hv.
  - right; right. exists v'. by destruct (next r s).
  - left. eexists _, _. split_and!; [done|by right|done].
Qed.
End composed.

(** ** Sequences of requests *)

Section sequences.
Context {jose : Jose} {S : Type}.

(** A request served at some time by some handler. *)
Record visit := mkVisit { vs_request : Request; vs_now : Z; vs_next : Request → io S outcome }.
Definition visit_one (p : plan) (x : visit) : io (DPoPVerifier.state * S) served :=
  serve x.(vs_next) p x.(vs_request) x.(vs_now).
Definition visit_all (p : plan) (xs : list visit) (w : DPoPVerifier.state * S) : DPoPVerifier.state * S :=
  foldl (λ w x, (visit_one p x w).2) w xs.

(** The verifier moves only by [Verify]. *)
Lemma visit_verifier p x w :
  p.(p_dpop) = true →
  (visit_one p x w).2.1 = w.1 ∨
  ∃ r, r.(rq_now) = x.(vs_now) ∧ (visit_one p x w).2.1 = (verify r w.1).2.
Proof.
  destruct w as [v s], x as [r now next]. intros Hp. unfold visit_one, serve. rewrite Hp. simpl.
  unfold dpopMiddleware. destruct (_ && _); [left; by destruct (next r s)|].
  destruct (decide _); [by left|]. right.
  exists (mkRequest (Get "Dpop" (req_Header r)) (req_Method r) ("https://" ++ req_Host r ++ Path r)
    (bearer (Get "Authorization" (req_Header r))) now). split; [done|]. unfold verify. simpl.
  destruct (Verify _ _ _ _ _ v) as [[] v']; simpl; [|done]. by destruct (next r s).
Qed.

Lemma visits_spent p id now2 xs w :
  p.(p_dpop) = true → (0 < window w.1.(MaxSkew) < two62)%Z →
  Forall (λ x, int64_range x.(vs_now) ∧ (x.(vs_now) - window w.1.(MaxSkew) ≤ now2)%Z) xs →
  dpop_spent id now2 w.1 →
  dpop_spent id now2 (visit_all p xs w).1 ∧ (visit_all p xs w).1.(MaxSkew) = w.1.(MaxSkew).
Proof.
  intros Hp. revert w. induction xs as [|x xs IH]; intros w Hw Hxs Hs; [done|].
  apply Forall_cons in Hxs as [[Hn Hc] Hxs].
  assert (dpop_spent id now2 (visit_one p x w).2.1 ∧ (visit_one p x w).2.1.(MaxSkew) = w.1.(MaxSkew)) as [Hs1 Hm1].
  { destruct (visit_verifier p x w Hp) as [->|(r&Hr&->)]; [done|]. split; [|apply Verify_MaxSkew].
    apply verify_spent; by rewrite ?Hr. }
  destruct (IH (visit_one p x w).2) as [? Hm2]; [by rewrite Hm1|by rewrite Hm1|done|]. split; [done|].
  change (visit_all p (x :: xs) w) with (visit_all p xs (visit_one p x w).2). by rewrite Hm2.
Qed.
End sequences.

(** ** Registration *)

Section registration.
Context (Getenv : string → string) (open : configured → result ()) (P : configured → Prop).

(** What a registration step adds: transports with names from a list, in its
    order, all of which satisfy [P]. *)
Definition adds (k : list configured → result (list configured)) (names : list string) : Prop :=
  ∀ acc ts, k acc = Ok ts → ∃ more, ts = acc ++ more ∧ cfg_name <$> more `sublist_of` names ∧ Forall P more.

Lemma adds_nil : adds Ok [].
Proof. intros acc ts [= <-]. exists []. by rewrite app_nil_r. Qed.

Lemma adds_when asked c k name names :
  (∀ c', c = Ok c' → cfg_name c' = name ∧ P c') → adds k names → adds (when open asked c k) (name :: names).
Proof.
  intros Hc Hk acc ts. unfold when. destruct asked.
  - destruct c as [c|]; [|done]. destruct (Hc c eq_refl) as [Hn HP]. destruct (open c); [|done].
    intros (more&->&Hm&HPm)%Hk. exists (c :: more). rewrite <- app_assoc. split_and!; [done| |by constructor].
    rewrite fmap_cons, Hn. by apply sublist_skip.
  - intros (more&->&Hm&HPm)%Hk. exists more. split_and!; [done|by apply sublist_cons|done].
Qed.
End registration.

Definition transport_names : list string :=
  ["nats"; "jetstream"; "kafka"; "redpanda"; "rabbitmq"; "redis-streams"; "mqtt"; "tcp"; "quic"].

(** How a configured transport is protected. *)
Definition protected (serverTLS clientTLS : option tlsConfig) (insecure : bool) (c : configured) : Prop :=
  match c with
  | CfgTCP t =>
      t.(TCPTransport.ClientTLS) = (if insecure then None else clientTLS) ∧
      t.(TCPTransport.ServerTLS) = (if insecure then None else serverTLS)
  | CfgQUIC q => insecure = false ∧
      q.(QUICTransport.ClientTLS) = cloneWithProto clientTLS ∧ q.(QUICTransport.ServerTLS) = cloneWithProto serverTLS
  | _ => True
  end.

Lemma kafka_named c c' : (try k := NewKafkaTransport c in Ok (CfgKafka k)) = Ok c' → cfg_name c' = c.(kc_Name) ∧ ∃ k, c' = CfgKafka k.
Proof. unfold NewKafkaTransport. destruct (kc_Brokers c); [done|]. intros [= <-]. split; [done|by eexists]. Qed.

Lemma registerFromEnv_adds Getenv open serverTLS clientTLS insecure ts :
  registerFromEnv Getenv open serverTLS clientTLS insecure = Ok ts →
  cfg_name <$> ts `sublist_of` transport_names ∧ Forall (protected serverTLS clientTLS insecure) ts.
Proof.
  intros H. unfold registerFromEnv in H.
  assert (∀ k names, adds (protected serverTLS clientTLS insecure) k names → k [] = Ok ts →
    cfg_name <$> ts `sublist_of` names ∧ Forall (protected serverTLS clientTLS insecure) ts) as Hadds.
  { intros k names Hk (more&->&Hm&HP)%Hk. done. }
  eapply Hadds; [|exact H]. clear H Hadds. unfold transport_names.
  apply adds_when; [by intros c' [= <-]|]. apply adds_when; [by intros c' [= <-]|].
  apply adds_when; [intros c' (Hn&k&->)%kafka_named; done|].
  apply adds_when; [intros c' (Hn&k&->)%kafka_named; done|].
  apply adds_when; [by intros c' [= <-]|]. apply adds_when; [by intros c' [= <-]|].
  apply adds_when; [by intros c' [= <-]|].
  apply adds_when; [intros c' Ht; destruct (TCPTransport.NewTCPTransport _ _); [by injection Ht as <-|done]|].
  apply adds_when; [|apply adds_nil]. intros c' Hq. destruct insecure; [done|].
  destruct (QUICTransport.NewQUICTransport _ _); [|done]. by injection Hq as <-.
Qed.

Lemma add_all_ok ts reg :
  NoDup (tr_Name <$> ts) → Forall (λ t, t.(tr_Name) ≠ "" ∧ reg !! t.(tr_Name) = None) ts →
  add_all ts reg = (Ok tt, foldl (λ r t, <[t.(tr_Name) := t]> r) reg ts).
Proof.
  revert reg. induction ts as [|t ts IH]; intros reg Hnd Hts; [done|].
  rewrite fmap_cons in Hnd. apply NoDup_cons in Hnd as [Hnot Hnd]. apply Forall_cons in Hts as [[Hne Hnone] Hts].
  cbn [add_all foldl]. unfold io_bind, Registry.Register. rewrite (bool_decide_eq_false_2 _ Hne), Hnone.
  apply IH; [done|]. rewrite Forall_forall in *. intros u Hu. destruct (Hts u Hu) as [? Hun]. split; [done|].
  rewrite lookup_insert_ne; [done|]. intros Heq. apply Hnot. rewrite Heq. by apply list_elem_of_fmap_2.
Qed.

Lemma foldl_insert_dom (ts : list Transport) (reg : Registry.state) n :
  is_Some (foldl (λ r t, <[t.(tr_Name) := t]> r) reg ts !! n) ↔ n ∈ tr_Name <$> ts ∨ is_Some (reg !! n).
Proof.
  revert reg. induction ts as [|t ts IH]; intros reg; cbn [foldl]; [by split; [right|intros [?%elem_of_nil|]]|].
  rewrite IH, fmap_cons, elem_of_cons. destruct (decide (n = t.(tr_Name))) as [->|Hne].
  - rewrite lookup_insert_eq. naive_solver.
  - rewrite lookup_insert_ne by done. naive_solver.
Qed.

(** * Theorems *)

Section theorems.
Context {jose : Jose} {E : Type} (registry : Registry.state) (publish : Transport → Envelope → io E (result ()))
  (Sscan : string → option Z).
Abbreviation api := (api registry publish Sscan).

(** C8: Behind the middleware nothing changes without a proof: whatever request is
    served, up to the end of the stream it may open, if the store, the hub or a
    transport changed meanwhile, then it carried a DPoP proof, signed by the public
    key it embeds, for exactly its method, host and path, issued within the window,
    bound to the access token of the request if it has one, and accepted by the
    verifier just now; and it was the publication of an event, a WebSocket session,
    an event stream (and only the hub changed), a claim or a control frame (and
    only the store changed).  The unprotected health check is no way around it. *)
Theorem daemon_changes_authenticated p cfg st n n' r now v s o v' s' :
  p.(p_dpop) = true → (v.(MaxSkew) < two63 - 1)%Z →
  serve (api cfg st n n') p r now (v, s) = (o, (v', s')) → s' ≠ s →
  Verify (proof_of r) r.(req_Method) (target_of r) (access_of r) now v = (Ok tt, v') ∧
  (∃ key claims, open_proof (proof_of r) = Ok (key, claims) ∧
     EqualFold claims.(dc_HTM) r.(req_Method) = true ∧ claims.(dc_HTU) = ("https://" ++ r.(req_Host) ++ Path r)%string ∧
     (- window v.(MaxSkew) ≤ now - of_Unix claims.(dc_IAT) ≤ window v.(MaxSkew))%Z ∧
     (access_of r ≠ "" → claims.(dc_ATH) = access_hash (access_of r))) ∧
  may_change r s s'.
Proof.
  intros Hp Hw Hserve Hne. unfold serve in Hserve. rewrite Hp in Hserve.
  destruct (dpopMiddleware_cases (api cfg st n n') r now v s) as [(t&u&H&_)|[(H&_&Hpath)|(u&H&_&Hv)]];
    rewrite Hserve in H; injection H as -> -> ->; [done| |].
  { by destruct Hne; apply healthz_harmless. }
  split; [done|]. split.
  - unfold Verify in Hv. destruct (open_proof (proof_of r)) as [[key claims]|] eqn:Ho; [|done]. exists key, claims.
    destruct (check_claims _ _ _ _ _ _) as [[]|] eqn:Hc; [|done].
    apply check_claims_ok in Hc as (_&_&_&_&?&?&?&?); [|by apply window_range]. done.
  - eapply http_effects; [apply surjective_pairing|exact Hne].
Qed.

(** C17: One proof, one request: after a request was served on the strength of its
    proof, and whatever other requests came since (to any handler), a request with
    the same proof, whatever else it says, is refused and changes nothing, even
    if the clock has been set back by up to the window. *)
Theorem daemon_proof_once {S} p (x1 x2 : visit (S:=S)) xs v s o v1 s1 :
  p.(p_dpop) = true → (0 < window v.(MaxSkew) < two62)%Z →
  visit_one p x1 (v, s) = (Served o, (v1, s1)) → Path x1.(vs_request) ≠ "/healthz" →
  Forall (λ x, int64_range x.(vs_now) ∧ (x.(vs_now) - window v.(MaxSkew) ≤ x2.(vs_now))%Z) xs →
  int64_range x2.(vs_now) → proof_of x2.(vs_request) = proof_of x1.(vs_request) → Path x2.(vs_request) ≠ "/healthz" →
  ∃ text v3, let '(v2, s2) := visit_all p xs (v1, s1) in
    visit_one p x2 (v2, s2) = (Refused StatusUnauthorized text, (v3, s2)).
Proof.
  intros Hp Hw H1 Hh1 Hxs Hn Hproof Hh2. destruct x1 as [r1 now1 next1], x2 as [r2 now2 next2]. simpl in *.
  unfold visit_one, serve in H1. rewrite Hp in H1. simpl in H1. unfold dpopMiddleware in H1.
  rewrite (bool_decide_eq_false_2 _ Hh1), andb_false_r in H1. fold (proof_of r1) in H1.
  destruct (decide (proof_of r1 = "")) as [|Hne]; [done|].
  destruct (Verify _ _ _ _ _ v) as [[[]|] u] eqn:Hv; [|done]. destruct (next1 r1 s) as [o1 s1'].
  injection H1 as -> -> ->.
  assert (∃ id, proof_id (proof_of r1) = Some id ∧ dpop_spent id now2 v1 ∧ MaxSkew v1 = MaxSkew v) as (id&Hid&Hs&Hm).
  { unfold proof_id. pose proof Hv as Hv'. unfold Verify in Hv. destruct (open_proof _) as [[key c]|]; [|done].
    destruct (check_claims _ _ _ _ _ _); [|done]. destruct (jwk_Marshal key) as [raw|]; [|done].
    eexists; split_and!; [done| |].
    - left. unfold remember in Hv. destruct (sweep _ _ !! _); [done|]. injection Hv as <-. apply lookup_insert_eq.
    - change v1 with ((Ok tt : result (), v1).2). rewrite <- Hv. apply remember_MaxSkew. }
  destruct (visits_spent p id now2 xs (v1, s1) Hp) as [Hs2 Hm2]; [simpl; by rewrite Hm|simpl; by rewrite Hm|done|].
  destruct (visit_all p xs (v1, s1)) as [v2 s2]. simpl in *.
  unfold visit_one, serve. rewrite Hp. unfold dpopMiddleware. simpl.
  rewrite (bool_decide_eq_false_2 _ Hh2), andb_false_r. fold (proof_of r2). rewrite Hproof, decide_False by done.
  assert (0 < window (MaxSkew v2) < two62)%Z as Hw2 by (rewrite Hm2, ?Hm; exact Hw).
  pose proof (dpop_spent_refused id (mkRequest (proof_of r1) (req_Method r2) ("https://" ++ req_Host r2 ++ Path r2)
    (bearer (Get "Authorization" (req_Header r2))) now2) v2 Hw2 Hn Hid Hs2) as Hr.
  unfold verify in Hr. simpl in Hr. destruct (Verify _ _ _ _ _ v2) as [[]  v3]; [done|]. by eexists _, v3.
Qed.
End theorems.

(** What a plan made with the flags [f] guarantees. *)
Definition plan_ok (f : flags) (p : plan) : Prop :=
  (f.(f_insecure) = false → ∃ sv cl,
     p.(p_serverTLS) = Some sv ∧ p.(p_clientTLS) = Some cl ∧ sv.(MinVersion) = VersionTLS13 ∧ cl.(MinVersion) = VersionTLS13 ∧
     sv.(RequireClientCert) = true ∧ sv.(ClientCAs) = [f.(f_ca)] ∧ cl.(RootCAs) = [f.(f_ca)] ∧ p.(p_dpop) = f.(f_dpop)) ∧
  Forall (protected p.(p_serverTLS) p.(p_clientTLS) f.(f_insecure)) p.(p_transports) ∧
  NoDup ("memory" :: (cfg_name <$> p.(p_transports))) ∧
  (∀ n, is_Some (p.(p_registry) !! n) ↔ n ∈ "memory" :: (cfg_name <$> p.(p_transports))) ∧
  (∀ n, n ∈ p.(p_bound) ↔ is_Some (p.(p_registry) !! n) ∧ n ≠ f.(f_transport)).

(** A secure start is secure throughout, and an insecure one says so: without
    [-insecure-dev] the daemon starts only with TLS 1.3 profiles whose server
    side demands client certificates, every TCP and QUIC transport it registers
    uses them, and the DPoP middleware is on whenever it was asked for; with
    [-insecure-dev] no QUIC transport is registered.  Registration cannot clash:
    every configured transport and the memory transport are registered under
    distinct names, and all but the default one are bound to the store. *)
Lemma plan_protected Getenv open f load read append p :
  main_plan Getenv open f load read append = Ok p → plan_ok f p.
Proof.
  unfold main_plan. set (profiles := if f_insecure f then _ else _).
  assert (∀ sv cl, profiles = Ok (sv, cl) → f_insecure f = false → ∃ s c, sv = Some s ∧ cl = Some c ∧
    s.(MinVersion) = VersionTLS13 ∧ c.(MinVersion) = VersionTLS13 ∧ s.(RequireClientCert) = true ∧
    s.(ClientCAs) = [f.(f_ca)] ∧ c.(RootCAs) = [f.(f_ca)]) as Hprof.
  { intros sv cl H Hi. unfold profiles in H. rewrite Hi in H. destruct (_ || _ || _); [done|].
    unfold tlsProfiles in H. destruct load, read; [|done..]. destruct append; [|done].
    injection H as <- <-. by eexists _, _. }
  destruct profiles as [[sv cl]|]; [|done]. specialize (Hprof sv cl eq_refl).
  destruct (registerFromEnv _ _ _ _ _) as [ts|] eqn:Hts; [|done]. apply registerFromEnv_adds in Hts as [Hsub HP].
  set (l := mkTransport "memory" caps_memory :: _).
  assert (tr_Name <$> l = "memory" :: (cfg_name <$> ts)) as Hl.
  { unfold l. rewrite fmap_cons, <- list_fmap_compose. done. }
  clearbody l.
  assert (NoDup ("memory" :: (cfg_name <$> ts))) as Hnd.
  { eapply sublist_NoDup; [|apply sublist_skip, Hsub]. apply (bool_decide_unpack _). vm_compute. exact I. }
  assert (Forall (λ n, n ≠ "") ("memory" :: (cfg_name <$> ts))) as Hne.
  { constructor; [done|]. apply Forall_forall. intros n Hn.
    assert (n ∈ transport_names) as Hin by (eapply elem_of_submseteq; [exact Hn|by apply sublist_submseteq]).
    clear -Hin. unfold transport_names in Hin. rewrite !elem_of_cons in Hin.
    repeat (destruct Hin as [->|Hin]; [done|]). by apply elem_of_nil in Hin. }
  rewrite add_all_ok; [|by rewrite Hl|].
  2: { apply Forall_forall. intros t Ht. split; [|done]. rewrite <- Hl, Forall_forall in Hne.
       by apply Hne, list_elem_of_fmap_2. }
  intros [= <-]. unfold plan_ok. cbn [p_serverTLS p_clientTLS p_transports p_registry p_bound p_dpop].
  split_and!; [|done|done| |].
  - intros Hi. destruct (Hprof Hi) as (s&c&?&?&?&?&?&?&?). exists s, c. split_and!; try done.
    rewrite Hi. apply andb_true_r.
  - intros n. rewrite foldl_insert_dom, Hl. unfold Registry.NewRegistry. rewrite lookup_empty.
    split; [intros [?|[]%is_Some_None]; done|by left].
  - intros n. rewrite list_elem_of_filter. unfold Registry.Names. rewrite merge_sort_Permutation.
    rewrite list_elem_of_fmap. split.
    + intros [Hn ([k t]&->&Ht%elem_of_map_to_list)]. simpl in *. split; [by eexists|done].
    + intros [[t Ht] Hn]. split; [done|]. exists (n, t). split; [done|]. by apply elem_of_map_to_list.
Qed.

(** Loading a trust file replaces the daemon's own entry when a peer has the same
    key id, as two daemons with the default id do: the daemon then refuses what
    it publishes itself. *)
Theorem trust_file_overrides_own {prims : Primitives} (own : CryptoProvider) (peer : PublicBundle) file :
  unmarshal_bundles file = Ok [peer] → peer.(pb_KeyID) = own.(keyID) →
  let store := (loadTrust (Ok file) (StaticTrustStore.Add (Public own) StaticTrustStore.NewStaticTrustStore)).2 in
  StaticTrustStore.Resolve store own.(keyID) = Some peer.
Proof.
  intros Hf Hid. unfold loadTrust. rewrite Hf. simpl. unfold StaticTrustStore.Resolve, StaticTrustStore.Add.
  rewrite Hid. apply lookup_insert_eq.
Qed.

(** ** Lists in the environment *)

Lemma strip_one_spec texts l l' :
  Forall (λ t, t ≠ []) texts → strip_one texts l = Some l' → ∃ t, t ≠ [] ∧ l = t ++ l'.
Proof.
  induction 1 as [|t texts Ht _ IH]; simpl; [done|]. destruct (decide (take (length t) l = t)) as [Heq|]; [|done].
  intros [= <-]. exists t. split; [done|]. trans (take (length t) l ++ drop (length t) l); [by rewrite take_drop|by rewrite Heq].
Qed.

Lemma strip_one_app texts l k : strip_one texts (l ++ k) = None → strip_one texts l = None.
Proof.
  induction texts as [|t texts IH]; simpl; [done|]. destruct (decide (take (length t) l = t)) as [Heq|Hne].
  - rewrite decide_True; [done|]. rewrite take_app, Heq. replace (length t - length l) with 0; [by rewrite take_0, app_nil_r|].
    apply (f_equal length) in Heq. rewrite length_take in Heq. lia.
  - destruct (decide _); [done|apply IH].
Qed.

Lemma trim_left_spec fuel texts l :
  Forall (λ t, t ≠ []) texts → length l ≤ fuel →
  strip_one texts (trim_left fuel texts l) = None ∧ ∃ k, l = k ++ trim_left fuel texts l.
Proof.
  intros Ht. revert l. induction fuel as [|fuel IH]; intros l Hl; cbn [trim_left].
  - destruct l; [|simpl in Hl; lia]. split; [|by exists []]. clear -Ht. induction Ht as [|t texts Ht _ IH]; [done|].
    simpl. rewrite decide_False; [done|]. rewrite take_nil. by intros <-.
  - destruct (strip_one texts l) as [l'|] eqn:E; [|by split; [|exists []]].
    destruct (strip_one_spec _ _ _ Ht E) as (t&Hne&->). destruct (IH l') as [H1 [k Hk]].
    { destruct t; [done|]. rewrite length_app in Hl. simpl in Hl. lia. }
    split; [done|]. exists (t ++ k). by rewrite <- app_assoc, <- Hk.
Qed.

Lemma trim_left_id fuel texts l : strip_one texts l = None → trim_left fuel texts l = l.
Proof. intros H. destruct fuel; simpl; [done|by rewrite H]. Qed.

Lemma spaces_nonempty : Forall (λ t, t ≠ []) spaces ∧ Forall (λ t, t ≠ []) (reverse <$> spaces).
Proof. split; apply (bool_decide_unpack _); vm_compute; exact I. Qed.

(** Trimmed at both ends, and a piece of the text. *)
Lemma trim_space_spec l :
  strip_one spaces (trim_space l) = None ∧ strip_one (reverse <$> spaces) (reverse (trim_space l)) = None ∧
  ∃ k1 k2, l = k1 ++ trim_space l ++ k2.
Proof.
  unfold trim_space. set (l1 := trim_left (length l) spaces l). set (r := trim_left (length l1) _ (reverse l1)).
  destruct (trim_left_spec (length l) spaces l (proj1 spaces_nonempty) (le_n _)) as [H1 [k1 Hk1]]. fold l1 in H1, Hk1.
  destruct (trim_left_spec (length l1) (reverse <$> spaces) (reverse l1) (proj2 spaces_nonempty)) as [H2 [k2 Hk2]].
  { by rewrite length_reverse. }
  fold r in H2, Hk2. apply (f_equal reverse) in Hk2. rewrite reverse_involutive, reverse_app in Hk2.
  rewrite reverse_involutive. split_and!; [|done|].
  - apply (strip_one_app _ _ (reverse k2)). by rewrite <- Hk2.
  - exists k1, (reverse k2). by rewrite <- Hk2.
Qed.

Lemma trim_space_idemp l : trim_space (trim_space l) = trim_space l.
Proof.
  destruct (trim_space_spec l) as (H1&H2&_). unfold trim_space at 1.
  rewrite (trim_left_id _ _ _ H1), (trim_left_id _ _ _ H2). apply reverse_involutive.
Qed.

Lemma split_bytes_no_sep sep l p : p ∈ split_bytes sep l → sep ∉ p.
Proof.
  revert p. induction l as [|c l IH]; intros p; simpl; [intros ->%list_elem_of_singleton; apply not_elem_of_nil|].
  destruct (decide (c = sep)) as [->|Hc]; [intros [->|?]%elem_of_cons; [apply not_elem_of_nil|by apply IH]|].
  destruct (split_bytes sep l) as [|q qs].
  - intros ->%list_elem_of_singleton. apply not_elem_of_cons. split; [by intros ->|apply not_elem_of_nil].
  - intros [->|Hin]%elem_of_cons; [|apply IH, elem_of_cons; by right].
    apply not_elem_of_cons. split; [by intros ->|]. apply IH, elem_of_cons. by left.
Qed.

(** Every entry of a comma-separated variable is nonempty, has no comma and no
    white space at its ends. *)
Theorem csv_entries Getenv k p :
  p ∈ csvEnv Getenv k → p ≠ "" ∧ TrimSpace p = p ∧ ","%char ∉ to_bytes p.
Proof.
  unfold csvEnv. destruct (decide _); [by intros ?%elem_of_nil|].
  intros [Hne (q&->&Hq)%list_elem_of_fmap]%list_elem_of_filter. split; [done|].
  unfold TrimSpace, to_bytes, of_bytes. rewrite !list_ascii_of_string_of_list_ascii, trim_space_idemp. split; [done|].
  unfold Split in Hq. apply list_elem_of_fmap in Hq as (b&->&Hb). rewrite list_ascii_of_string_of_list_ascii.
  apply split_bytes_no_sep in Hb. destruct (trim_space_spec b) as (_&_&k1&k2&Hk). intros Hin. apply Hb. rewrite Hk.
  apply elem_of_app. right. apply elem_of_app. by left.
Qed.

(** * Closed instances *)

Definition ex_env_vars (k : string) : string :=
  if decide (k = "UBIQ_KAFKA_BROKERS") then " k1:9092 , ,k2:9092 "
  else if decide (k = "UBIQ_QUIC_PEER") then "peer:4433"
  else if decide (k = "UBIQ_TCP_LISTEN") then ":7000" else "".
Definition ex_flags : flags := mkFlags "memory" "cert.pem" "key.pem" "ca.pem" false true.
Definition ex_plan : plan :=
  value_or (mkPlan None None [] ∅ [] false (mkSettings "" 0))
    (main_plan ex_env_vars (λ _, Ok tt) ex_flags (Ok tt) (Ok tt) true).

Lemma csv_entries_witness : csvEnv ex_env_vars "UBIQ_KAFKA_BROKERS" = ["k1:9092"; "k2:9092"] ∧ TrimSpace "k1:9092" = "k1:9092".
Proof.
  split; [vm_compute; reflexivity|]. apply (csv_entries ex_env_vars "UBIQ_KAFKA_BROKERS" "k1:9092"). vm_compute. constructor.
Defined.

(** The settle request of a client of the daemon. *)
Definition ex_http (body : bytes) : Request :=
  mkHttpRequest "POST" "ubiq:8443" ["v1"; "events"; env_Event ex_envelope] true []
    [("Dpop", client_proof "k"%char "j1" "POST" (target_of ex_post) "token" ex_dpop_now); ("Authorization", "Bearer token")] body.
Definition ex_visit (now : Z) : visit :=
  mkVisit (ex_http (req_Body ex_post)) now (api ∅ (λ _ _ n, (Ok tt, S n)) (λ _, None) (mkSettings "" (5 * Second)) no_stream Second Second).
Definition ex_served : DPoPVerifier.state * Server.state nat := (visit_one ex_plan (ex_visit ex_dpop_now) (NewDPoPVerifier, ex_server)).2.

Lemma daemon_changes_authenticated_witness :
  access_of (ex_http (req_Body ex_post)) = "token" ∧
  Verify (proof_of (ex_http (req_Body ex_post))) "POST" (target_of (ex_http (req_Body ex_post))) "token" ex_dpop_now NewDPoPVerifier =
    (Ok tt, ex_served.1).
Proof.
  split; [vm_compute; reflexivity|].
  refine (proj1 (daemon_changes_authenticated ∅ (λ _ _ n, (Ok tt, S n)) (λ _, None) ex_plan (mkSettings "" (5 * Second)) no_stream Second Second
    (ex_http (req_Body ex_post)) ex_dpop_now NewDPoPVerifier ex_server
    (visit_one ex_plan (ex_visit ex_dpop_now) (NewDPoPVerifier, ex_server)).1 ex_served.1 ex_served.2 _ _ _ _)).
  - vm_compute. reflexivity.
  - vm_compute. reflexivity.
  - unfold ex_served, visit_one, ex_visit. cbn [vs_next vs_request vs_now].
    destruct (serve _ _ _ _ _) as [o [v' s']]. reflexivity.
  - intros H. apply (f_equal (λ s : Server.state nat, size (events (db (Server.sv_store s))))) in H.
    vm_compute in H. discriminate H.
Defined.

Lemma daemon_proof_once_witness :
  ∃ text v3, visit_one ex_plan (ex_visit (ex_dpop_now + Minute)%Z) ex_served = (Refused StatusUnauthorized text, (v3, ex_served.2)).
Proof.
  assert (∃ o, visit_one ex_plan (ex_visit ex_dpop_now) (NewDPoPVerifier, ex_server) = (Served o, ex_served)) as [o Ho].
  { unfold ex_served. assert (match (visit_one ex_plan (ex_visit ex_dpop_now) (NewDPoPVerifier, ex_server)).1 with
      Served _ => true | _ => false end = true) as H by (vm_compute; reflexivity).
    destruct (visit_one ex_plan (ex_visit ex_dpop_now) (NewDPoPVerifier, ex_server)) as [[] w]; [discriminate H|]. by eexists. }
  destruct ex_served as [v1 s1].
  refine (daemon_proof_once ex_plan (ex_visit ex_dpop_now) (ex_visit (ex_dpop_now + Minute)%Z) [] NewDPoPVerifier ex_server o v1 s1
    _ _ Ho _ _ _ _ _).
  - vm_compute. reflexivity.
  - split; vm_compute; reflexivity.
  - vm_compute. discriminate.
  - constructor.
  - split; vm_compute; congruence.
  - reflexivity.
  - vm_compute. discriminate.
Defined.
