(* ===== verification/DaemonRun.v ===== *)
(** * Starting and stopping the daemon: [main] of cmd/ubiqd/main.go

    The whole of [main] around the decisions of [main_plan]: the store is opened
    and migrated, the keys are made, the trust store is filled, the transports are
    built, wrapped and registered, all but the default one are bound to the
    server; and what is closed, in which order, when it ends. *)

From Stdlib Require Import ZArith NArith Lia Ascii String.
From stdpp Require Import base list gmap sets strings.
From S2P Require Import Prelude GoRegexp JsonScan Utf8 JsonText JsonRoundtrip JsonValues Sha256 Model Json Db Store StoreSteps.
From S2P Require Import Crypto CryptoExample CryptoTheorems Transport Secure Tcp Brokers Server Http Dpop Quic Daemon DaemonTheorems Shard Startup.

Section run.
Context {prims : Primitives}.

(** What [main] asks of the outside, in order: the database, the keys, the trust
    file, the TLS files, the transports, the subscriptions. *)
Record outcomes := mkOutcomes {
  oc_open : result (); oc_migrate : option (nat * error);
  oc_ed : result EdPrivate; oc_ml : result MlPrivate; oc_x : result XPrivate; oc_kem : result KemPrivate;
  oc_trust : result bytes;
  oc_load : result (); oc_read : result (); oc_append : bool;
  oc_transport : configured → result ();
  oc_subscribe : string → result ();
}.

(** A running daemon. *)
Record daemon := mkDaemon {
  dm_store : ControlStore_handle; dm_provider : CryptoProvider; dm_trust : StaticTrustStore.state;
  dm_plan : plan; dm_secure : string → SecureTransport.config; dm_subscribed : list string }.

(** [main] up to the point where it serves; an error ends the process.  A
    subscription that fails is only logged. *)
Definition main (Getenv : string → string) (trustFile : string) (fl : flags) (o : outcomes) : io db_file (result daemon) :=
  try store <- OpenControlStore o.(oc_open) o.(oc_migrate);
  io_ret (
    try provider := NewCryptoProvider (envDefault Getenv "UBIQ_KEY_ID" "ubiqd-local") o.(oc_ed) o.(oc_ml) o.(oc_x) o.(oc_kem) in
    let trust := StaticTrustStore.Add (Public provider) StaticTrustStore.NewStaticTrustStore in
    try trust :=
      (if decide (trustFile = "") then Ok trust
       else match loadTrust o.(oc_trust) trust with (Err e, _) => Err e | (Ok _, trust') => Ok trust' end) in
    try p := main_plan Getenv o.(oc_transport) fl o.(oc_load) o.(oc_read) o.(oc_append) in
    Ok (mkDaemon store provider trust p (λ name, SecureTransport.Wrap name trust (2 * Minute))
          (filter (λ n, is_ok (o.(oc_subscribe) n) = true) p.(p_bound)))).

(** How [main] ends: a signal, or the server's [ListenAndServe] returns.  Deferred
    calls run last first; [log.Fatal] runs none. *)
Inductive ending := Interrupted | ServeEnded (closed : bool).
Inductive action := ShutdownHTTP | CancelShutdown | CloseRegistry | CloseStore | StopSignals | ExitOne.
Definition deferred : list action := [StopSignals; CloseStore; CloseRegistry].
Definition main_end (e : ending) : list action :=
  match e with
  | Interrupted => ShutdownHTTP :: reverse (deferred ++ [CancelShutdown])
  | ServeEnded closed => if closed then reverse deferred else [ExitOne]
  end.

(** * Lemmas *)

Lemma trust_mono (ps : list PublicBundle) (s : StaticTrustStore.state) id :
  is_Some (s !! id) → is_Some (foldl (λ s p, StaticTrustStore.Add p s) s ps !! id).
Proof.
  revert s. induction ps as [|p ps IH]; intros s Hs; [done|]. apply IH. unfold StaticTrustStore.Add.
  destruct (decide (pb_KeyID p = id)) as [->|Hne]; [by rewrite lookup_insert_eq|by rewrite lookup_insert_ne].
Qed.

Lemma trust_knows_own (pr : CryptoProvider) trustFile file tru :
  (if decide (trustFile = "") then Ok (StaticTrustStore.Add (Public pr) StaticTrustStore.NewStaticTrustStore)
   else match loadTrust file (StaticTrustStore.Add (Public pr) StaticTrustStore.NewStaticTrustStore) with
        | (Err e, _) => Err e | (Ok _, t) => Ok t end) = Ok tru →
  is_Some (tru !! pr.(keyID)).
Proof.
  assert (is_Some (StaticTrustStore.Add (Public pr) StaticTrustStore.NewStaticTrustStore !! pr.(keyID))) as H0
    by (unfold StaticTrustStore.Add; simpl; by rewrite lookup_insert_eq).
  destruct (decide _); [by intros [= <-]|]. unfold loadTrust.
  destruct (match file with Ok raw => _ | Err e => _ end) as [ps|]; [|done]. intros [= <-]. by apply trust_mono.
Qed.

(** Whom the trust store knows: this daemon, and the peers of the trust file. *)
Lemma trust_origin (pr : CryptoProvider) trustFile file tru id peer :
  (if decide (trustFile = "") then Ok (StaticTrustStore.Add (Public pr) StaticTrustStore.NewStaticTrustStore)
   else match loadTrust file (StaticTrustStore.Add (Public pr) StaticTrustStore.NewStaticTrustStore) with
        | (Err e, _) => Err e | (Ok _, t) => Ok t end) = Ok tru →
  tru !! id = Some peer →
  peer.(pb_KeyID) = id ∧
  (peer = Public pr ∨ ∃ raw peers, trustFile ≠ "" ∧ file = Ok raw ∧ unmarshal_bundles raw = Ok peers ∧ peer ∈ peers).
Proof.
  assert (∀ ps (s : StaticTrustStore.state), foldl (λ s p, StaticTrustStore.Add p s) s ps !! id = Some peer →
    s !! id = Some peer ∨ (peer ∈ ps ∧ pb_KeyID peer = id)) as Hfold.
  { induction ps as [|q ps IH]; intros s; simpl; [by left|]. intros [Hs|[Hp Hid]]%IH.
    - unfold StaticTrustStore.Add in Hs. apply lookup_insert_Some in Hs as [[Hid ->]|[_ Hs]]; [|by left].
      right. split; [apply elem_of_cons; by left|done].
    - right. split; [apply elem_of_cons; by right|done]. }
  assert (StaticTrustStore.Add (Public pr) StaticTrustStore.NewStaticTrustStore !! id = Some peer →
    pb_KeyID peer = id ∧ peer = Public pr) as Hown.
  { unfold StaticTrustStore.Add, StaticTrustStore.NewStaticTrustStore. intros H.
    apply lookup_insert_Some in H as [[<- <-]|[_ H]]; [done|by rewrite lookup_empty in H]. }
  destruct (decide _) as [|Hne]; [intros [= <-] [? ->]%Hown; auto|]. unfold loadTrust.
  destruct file as [raw|]; [|done]. destruct (unmarshal_bundles raw) as [ps|] eqn:Hu; [|done].
  intros [= <-] [[? ->]%Hown|[Hin Hid]]%Hfold; [auto|]. split; [done|]. right. by exists raw, ps.
Qed.

(** What a successful start amounts to. *)
Lemma main_inv Getenv trustFile fl o f d f' :
  main Getenv trustFile fl o f = (Ok d, f') →
  control_tables d.(dm_store).(h_file) = Some (tables_of f) ∧ d.(dm_provider).(keyID) ≠ "" ∧
  (if decide (trustFile = "") then Ok (StaticTrustStore.Add (Public d.(dm_provider)) StaticTrustStore.NewStaticTrustStore)
   else match loadTrust o.(oc_trust) (StaticTrustStore.Add (Public d.(dm_provider)) StaticTrustStore.NewStaticTrustStore) with
        | (Err e, _) => Err e | (Ok _, t) => Ok t end) = Ok d.(dm_trust) ∧
  main_plan Getenv o.(oc_transport) fl o.(oc_load) o.(oc_read) o.(oc_append) = Ok d.(dm_plan) ∧
  d.(dm_secure) = (λ name, SecureTransport.Wrap name d.(dm_trust) (2 * Minute)) ∧
  d.(dm_subscribed) = filter (λ n, is_ok (o.(oc_subscribe) n) = true) d.(dm_plan).(p_bound).
Proof.
  unfold main, io_bind, io_ret. destruct (OpenControlStore _ _ f) as [[h|] f1] eqn:Ho; [|done].
  destruct (NewCryptoProvider _ _ _ _ _) as [pr|] eqn:Hpr; [|done].
  assert (keyID pr ≠ "") as Hid.
  { unfold NewCryptoProvider in Hpr. destruct (bool_decide _) eqn:Hb; [done|]. bool_prop.
    destruct (oc_ed o), (oc_ml o), (oc_x o), (oc_kem o); try done. by injection Hpr as <-. }
  destruct (if decide _ then _ else _) as [tru|] eqn:Ht; [|done].
  destruct (main_plan _ _ _ _ _ _) as [p|] eqn:Hp; [|done]. intros [= <- <-]. split_and!; try done. by eapply open_control.
Qed.

(** * Theorems *)

(** C18: Starting never harms what is stored, and what starts is complete: whatever
    fails on the way, the tables of the database file stand for what they stood
    for before; a daemon that serves has all tables with that content, the TLS,
    DPoP and transport protections of a secure plan, verifies with a trust store that
    has an entry under the daemon's own key id and whose every entry is, under the
    id it carries, the daemon's own bundle or one the trust file names (without a
    trust file: the own bundle only), and listens on no transport but registered
    ones other than the default.  A trust file may replace the daemon's own entry
    by a peer's of the same id. *)
Theorem daemon_start Getenv trustFile fl o f r f' :
  main Getenv trustFile fl o f = (r, f') →
  tables_of f' = tables_of f ∧
  ∀ d, r = Ok d →
    control_tables d.(dm_store).(h_file) = Some (tables_of f) ∧
    d.(dm_provider).(keyID) ≠ "" ∧ is_Some (d.(dm_trust) !! d.(dm_provider).(keyID)) ∧
    (∀ id peer, d.(dm_trust) !! id = Some peer →
      peer.(pb_KeyID) = id ∧
      (peer = Public d.(dm_provider) ∨
       ∃ raw peers, trustFile ≠ "" ∧ o.(oc_trust) = Ok raw ∧ unmarshal_bundles raw = Ok peers ∧ peer ∈ peers)) ∧
    (∀ n, (d.(dm_secure) n).(SecureTransport.trust) = d.(dm_trust) ∧ SecureTransport.target (d.(dm_secure) n) = ("ubiq://transport/" ++ n)%string) ∧
    plan_ok fl d.(dm_plan) ∧
    (∀ n, n ∈ d.(dm_subscribed) → n ≠ fl.(f_transport) ∧ is_Some (d.(dm_plan).(p_registry) !! n)).
Proof.
  intros Hm. split.
  { revert Hm. unfold main, io_bind, io_ret. destruct (OpenControlStore _ _ f) as [[h|] f1] eqn:Ho; intros [= <- <-]; by eapply open_tables. }
  intros d ->. apply main_inv in Hm as (Hc&Hid&Ht&Hp%plan_protected&Hsec&Hsub). rewrite Hsec, Hsub.
  split_and!; try done.
  - by eapply trust_knows_own.
  - intros id peer. by eapply trust_origin.
  - intros n [_ Hn]%list_elem_of_filter. destruct Hp as (_&_&_&_&Hb). apply Hb in Hn. by destruct Hn.
Qed.
End run.

(** * Closed instances *)

#[local] Existing Instance toy.

Definition ex_outcomes : outcomes :=
  mkOutcomes (Ok tt) None (Ok ex_alice.(edPrivate)) (Ok ex_alice.(mlPrivate)) (Ok ex_alice.(xPrivate)) (Ok ex_alice.(kemPrivate))
    (Ok []) (Ok tt) (Ok tt) true (λ _, Ok tt) (λ _, Ok tt).

Lemma daemon_start_witness :
  ∃ d f', main ex_env_vars "" ex_flags ex_outcomes empty_file = (Ok d, f') ∧ plan_ok ex_flags d.(dm_plan) ∧
    control_tables d.(dm_store).(h_file) = Some empty_db.
Proof.
  destruct (main ex_env_vars "" ex_flags ex_outcomes empty_file) as [[d|e] f'] eqn:Hm; [|vm_compute in Hm; discriminate Hm].
  destruct (daemon_start ex_env_vars "" ex_flags ex_outcomes empty_file (Ok d) f' Hm) as [_ Hd].
  destruct (Hd d eq_refl) as (Hc&_&_&_&_&Hp&_). exists d, f'. split; [reflexivity|]. split; [exact Hp|exact Hc].
Defined.
