(* ===== verification/Provenance.v ===== *)
(** * Where the content of a daemon's store comes from

    The running daemon as one machine: HTTP requests behind the DPoP middleware,
    messages of WebSocket sessions, deliveries of the bound transports behind the
    verifying handler, maintenance, and failures of the driver, in any order.
    Every event, lease and settlement in its store is traced back to an input
    that was authenticated: nobody is trusted for where they connect from.

    The machine allows more than the daemon: a WebSocket session may go on after a
    message that cannot be read, and what a bound transport delivers is arbitrary
    (what the daemon itself publishes there included).  Steps are the handlers of
    one request, message, delivery or tick; a handler's own calls of the store are
    taken together.  A request for a WebSocket opens a session, whose messages are
    inputs of their own; what streams send to their clients is left out. *)

From Stdlib Require Import ZArith NArith Lia Ascii String.
From stdpp Require Import base list gmap sets strings.
From S2P Require Import Prelude GoRegexp JsonScan Utf8 JsonText JsonRoundtrip JsonValues Sha256 Model Json Db Store StoreSteps.
From S2P Require Import Crypto CryptoExample CryptoTheorems Transport Secure Tcp Brokers Server Http HttpTheorems Dpop DpopTheorems.
From S2P Require Import Quic Daemon DaemonTheorems Startup DaemonRun.
Import DPoPVerifier Sql.

(** ** The machine *)

(** What reaches the daemon.  A request with the clock of the middleware and the
    clocks of the handler; a message of the [k]-th WebSocket request; a delivery
    of the transport [name] with the clocks of the verification and of the store;
    a tick of maintenance; the failures the driver will have next. *)
Inductive input :=
| InRequest (r : Request) (now t t' : Z)
| InWs (k : nat) (data : bytes) (t t' : Z)
| InMessage (name : string) (m : Envelope) (now t : Z)
| InTick (now : Z)
| InFaults (fs : list fault).

Section machine.
Context {prims : Primitives} {jose : Jose} {E : Type}.
Context (registry : Registry.state) (publish : Transport → Envelope → io E (result ())) (Sscan : string → option Z).
Context (p : plan) (secure : string → SecureTransport.config).

(** A stream at its beginning: what it meets comes as further inputs. *)
Definition opening : stream := mkStream true (Ok tt) [] [].

Record node := mkNode {
  nd_verifier : DPoPVerifier.state; nd_provider : CryptoProvider; nd_server : Server.state E; nd_sessions : list Request }.

(** The requests that asked for a WebSocket are kept: their messages come under
    their query. *)
Definition node_step (n : node) (x : input) : node :=
  match x with
  | InRequest r now t t' =>
      let '(o, (v, s)) := serve (api registry publish Sscan p.(p_settings) opening t t') p r now (n.(nd_verifier), n.(nd_server)) in
      mkNode v n.(nd_provider) s
        (match o with Served (StreamWS _ _) => n.(nd_sessions) ++ [r] | _ => n.(nd_sessions) end)
  | InWs k data t t' =>
      match n.(nd_sessions) !! k with
      | None => n
      | Some r =>
          mkNode n.(nd_verifier) n.(nd_provider)
            (ws_loop registry publish p.(p_settings) (Get "transport" r.(req_Query)) 0 true [WsRead (Ok data) t t'] n.(nd_server)).2
            n.(nd_sessions)
      end
  | InMessage name m now t =>
      if decide (name ∈ p.(p_bound)) then
        let '(_, (q, s)) := SecureTransport.handle (λ (_ : ()) env, Server.bound_handler t env) (secure name) tt now m
          (n.(nd_provider), n.(nd_server)) in
        mkNode n.(nd_verifier) q s n.(nd_sessions)
      else n
  | InTick now =>
      mkNode n.(nd_verifier) n.(nd_provider) (Server.tick registry publish now n.(nd_server)).2 n.(nd_sessions)
  | InFaults fs =>
      mkNode n.(nd_verifier) n.(nd_provider)
        (Server.mkServer (World n.(nd_server).(Server.sv_store).(db) fs) n.(nd_server).(Server.sv_hub) n.(nd_server).(Server.sv_ext))
        n.(nd_sessions)
  end.
Definition node_run (xs : list input) (n : node) : node := foldl node_step n xs.
Definition tables (n : node) : control_db := n.(nd_server).(Server.sv_store).(db).

(** The node [main] starts: the opened tables, a fresh verifier, an empty hub. *)
Definition started (d : daemon) (e : E) : node :=
  mkNode NewDPoPVerifier d.(dm_provider)
    (Server.mkServer (World (default empty_db (control_tables d.(dm_store).(h_file))) []) Hub.NewHub e) [].

(** ** Authenticated inputs *)

(** The request carries a proof, signed by the key it embeds, for exactly its
    method, host and path, issued within the window around [now], bound to its
    access token if it has one. *)
Definition authentic_request (skew : Z) (r : Request) (now : Z) : Prop :=
  ∃ key claims, open_proof (proof_of r) = Ok (key, claims) ∧
    EqualFold claims.(dc_HTM) r.(req_Method) = true ∧ claims.(dc_HTU) = target_of r ∧
    (- window skew ≤ now - of_Unix claims.(dc_IAT) ≤ window skew)%Z ∧
    (access_of r ≠ "" → claims.(dc_ATH) = access_hash (access_of r)).

(** The message carries a proof of a holder the trust store knows, for the
    transport it came by, of the digest of the message without its security block,
    made within the window around [now], with both signatures valid. *)
Definition authentic_message (c : SecureTransport.config) (m : Envelope) (now : Z) : Prop :=
  ∃ sec peer, m.(env_Security) = Some sec ∧ c.(SecureTransport.trust) !! sec.(ms_KeyID) = Some peer ∧
    let pr := sec.(ms_Proof) in
    pr.(pop_Holder) = peer.(pb_KeyID) ∧ pr.(pop_Method) = "PUBLISH" ∧ pr.(pop_Target) = SecureTransport.target c ∧
    (- c.(SecureTransport.freshness) ≤ now - of_UnixMilli pr.(pop_CreatedAtMS) ≤ c.(SecureTransport.freshness))%Z ∧
    DigestHex (set_Security None m) = Ok pr.(pop_EnvelopeHash) ∧
    VerifyHybrid peer (unsigned_text pr) pr.(pop_Signature) = Ok tt.

(** How an event gets in: posted, sent over the WebSocket of one of the [sessions],
    delivered by a transport. *)
Inductive admitted (skew : Z) (xs : list input) (sessions : list Request) (env : Envelope) : Prop :=
| admitted_post r now t t' :
    InRequest r now t t' ∈ xs → authentic_request skew r now →
    r.(req_Method) = "POST" → r.(req_Segments) = ["v1"; "events"; env.(env_Event)] →
    Server.decode_publish r.(req_Body) = Ok env → admitted skew xs sessions env
| admitted_ws r now t t' k data u u' :
    InRequest r now t t' ∈ xs → authentic_request skew r now → r.(req_Segments) = ["v1"; "events"; "ws"] →
    sessions !! k = Some r → InWs k data u u' ∈ xs → Decode false (envelope_fields false) zero_envelope data = Ok env → admitted skew xs sessions env
| admitted_message name m now t :
    InMessage name m now t ∈ xs → name ∈ p.(p_bound) → authentic_message (secure name) m now →
    env = set_Security None m → admitted skew xs sessions env.

(** Work is claimed by a request for that worker; it is settled by a request
    whose body is the frame (its time filled in if it has none). *)
Definition claimed_by (skew : Z) (xs : list input) (worker : string) : Prop :=
  ∃ r now t t', InRequest r now t t' ∈ xs ∧ authentic_request skew r now ∧
    r.(req_Segments) = ["v1"; "work"; "claim"] ∧ Get "worker" r.(req_Query) = worker.
Definition settled_by (skew : Z) (xs : list input) (f : ControlFrame) : Prop :=
  ∃ r now t t' f0, InRequest r now t t' ∈ xs ∧ authentic_request skew r now ∧
    r.(req_Method) = "POST" ∧ r.(req_Segments) = ["v1"; "control"; "settle"] ∧
    Decode false frame_fields zero_frame r.(req_Body) = Ok f0 ∧ f = default_at t f0.
End machine.

(** * Lemmas *)

(** ** Causes of what is stored *)

Record causes := mkCauses { by_event : Envelope → Prop; by_worker : string → Prop; by_frame : ControlFrame → Prop }.

Definition row_of (f : ControlFrame) : settlement_row :=
  SettlementRow f.(fr_Kind) f.(fr_WorkerID) f.(fr_FencingToken) f.(fr_AtMS) f.(fr_Evidence).

(** Every row has its cause. *)
Record explained (C : causes) (d : control_db) : Prop := {
  ex_events : ∀ id r, d.(events) !! id = Some r →
    ∃ env, C.(by_event) env ∧ env.(env_ID) = id ∧ json_Marshal env = Ok r.(ev_envelope);
  ex_owners : ∀ id r w, d.(events) !! id = Some r → r.(ev_owner) = Some w → C.(by_worker) w;
  ex_settlements : ∀ id st, d.(settlements) !! id = Some st → ∃ f, C.(by_frame) f ∧ f.(fr_EventID) = id ∧ st = row_of f;
}.

Definition keeps (C : causes) : relation control_db := λ d d', explained C d → explained C d'.
#[local] Instance keeps_preorder C : PreOrder (keeps C).
Proof. split; [intros d Hd; exact Hd|]. intros d1 d2 d3 H1 H2 Hd. by apply H2, H1. Qed.

Lemma explained_same C d d' : d'.(events) = d.(events) → d'.(settlements) = d.(settlements) → keeps C d d'.
Proof. intros He Hs [H1 H2 H3]. split; rewrite ?He, ?Hs; done. Qed.

(** Replacing a row by one with the same content. *)
Lemma explained_row C d id r r' :
  d.(events) !! id = Some r → r'.(ev_envelope) = r.(ev_envelope) →
  (∀ w, r'.(ev_owner) = Some w → r.(ev_owner) = Some w ∨ C.(by_worker) w) →
  keeps C d (with_events (<[id := r']> d.(events)) d).
Proof.
  intros Hr He Ho [H1 H2 H3]. split; [..|done]; simpl; intros k x.
  - intros [[<- <-]|[_ Hx]]%lookup_insert_Some; [rewrite He|]; by apply H1.
  - intros w [[<- <-]|[_ Hx]]%lookup_insert_Some Hw; [|by eapply H2]. destruct (Ho _ Hw) as [Hw'|]; [by eapply H2|done].
Qed.

Lemma history_keeps C h : moves (keeps C) (exec (insert_history h)).
Proof. apply moves_exec; [apply _|]. intros d a d' [= _ <-]. by apply explained_same. Qed.

Lemma publish_keeps C env now : C.(by_event) env → moves (keeps C) (ControlStore.Publish env now).
Proof.
  intros Hc. unfold ControlStore.Publish. destruct (Validate env); [|io_moves]. destruct (json_Marshal env) as [raw|] eqn:Hm; [|io_moves].
  io_moves; [|apply history_keeps]. apply moves_exec; [apply _|].
  intros d n d' [(_&->&_)|(_&_&_&->)]%insert_event_inv; [done|]. intros [H1 H2 H3]. split; [..|done]; simpl; intros k x.
  - intros [[<- <-]|[_ Hx]]%lookup_insert_Some; [by exists env|by apply H1].
  - intros w [[<- <-]|[_ Hx]]%lookup_insert_Some Hw; [done|by eapply H2].
Qed.

Lemma claim_keeps C worker lease now : C.(by_worker) worker → moves (keeps C) (ControlStore.Claim worker lease now).
Proof.
  intros Hc. unfold ControlStore.Claim. destruct (_ || _); [io_moves|]. apply moves_bind; [apply _| |intros ?; io_moves; apply history_keeps].
  apply moves_exec; [apply _|]. intros d a d' (id&r&_&Hr&_&->&->)%claim_update_inv.
  eapply explained_row; [done|done|]. intros w [= <-]. by right.
Qed.

Lemma received_keeps C f now : moves (keeps C) (ControlStore.MarkReceived f now).
Proof.
  unfold ControlStore.MarkReceived. case_decide; [io_moves|]. destruct (Frame_Validate f); [|io_moves].
  io_moves; [|apply history_keeps]. apply moves_exec; [apply _|].
  intros d n d' [(_&->&_)|(_&r&Hr&_&->)]%update_held_inv; [done|]. eapply explained_row; [done|done|]. by left.
Qed.

Lemma settle_keeps C f now : C.(by_frame) f → moves (keeps C) (ControlStore.Settle f now).
Proof.
  intros Hc. unfold ControlStore.Settle. case_decide; [io_moves|]. destruct (Frame_Validate f); [|io_moves].
  apply moves_transaction; [apply _|]. intros w [] w' (r&Hr&_&He&Hs&_)%settle_body_ok%settle_effect_inv [H1 H2 H3].
  destruct (explained_row C w.(db) _ r (release_row (ControlStore.settle_target f) (UnixMilli now) r) Hr eq_refl) as [G1 G2 _];
    [done|done|]. simpl in G1, G2. split; rewrite ?He; [done|done|]. intros id st. rewrite Hs.
  destruct (settlements w.(db) !! fr_EventID f); [apply H3|].
  intros [[<- <-]|[_ Hx]]%lookup_insert_Some; [by exists f|by apply H3].
Qed.

Lemma requeue_keeps C now : moves (keeps C) (ControlStore.RequeueExpired now).
Proof.
  unfold ControlStore.RequeueExpired. io_moves. apply moves_exec; [apply _|]. intros d n d' [= _ <-] [H1 H2 H3].
  assert (∀ r, ev_envelope (expire_row (UnixMilli now) r) = ev_envelope r ∧
    ∀ w, ev_owner (expire_row (UnixMilli now) r) = Some w → ev_owner r = Some w) as Hx.
  { intros r. unfold expire_row. by destruct (lease_over _ r). }
  split; [..|done]; simpl; intros id r; rewrite lookup_fmap.
  - intros (r0&Hr&->)%fmap_Some. rewrite (proj1 (Hx r0)). by apply H1.
  - intros w (r0&Hr&->)%fmap_Some Hw. eapply H2; [exact Hr|]. by apply Hx.
Qed.

Lemma enqueue_keeps C id tr raw at_ : moves (keeps C) (ControlStore.EnqueueOutbox id tr raw at_).
Proof. unfold ControlStore.EnqueueOutbox. io_moves. apply moves_exec; [apply _|]. intros d n d' [= _ <-]. by apply explained_same. Qed.
Lemma next_keeps C now : moves (keeps C) (ControlStore.NextOutbox now).
Proof. unfold ControlStore.NextOutbox. io_moves. Qed.
Lemma mark_keeps C seq at_ : moves (keeps C) (ControlStore.MarkOutboxDelivered seq at_).
Proof. unfold ControlStore.MarkOutboxDelivered. io_moves. apply moves_exec; [apply _|]. intros d n d' [= _ <-]. by apply explained_same. Qed.

(** ** The server keeps rows explained *)

Section server.
Context {E : Type} (registry : Registry.state) (publish : Transport → Envelope → io E (result ())) (Sscan : string → option Z).
Context (C : causes).

Definition sound {A} (m : io (Server.state E) A) : Prop := ∀ s,
  keeps C s.(Server.sv_store).(db) (m s).2.(Server.sv_store).(db).

Lemma sound_ret {A} (a : A) : sound (io_ret a).
Proof. intros s Hs. exact Hs. Qed.
Lemma sound_bind {A B} (m : io (Server.state E) A) (k : A → io (Server.state E) B) :
  sound m → (∀ a, sound (k a)) → sound (io_bind m k).
Proof. intros Hm Hk s Hs. unfold io_bind. specialize (Hm s Hs). destruct (m s) as [a s1]. by apply Hk. Qed.
Lemma sound_store {A} (m : io (world control_db) A) : moves (keeps C) m → sound (Server.on_store m).
Proof. intros Hm s. unfold Server.on_store. specialize (Hm s.(Server.sv_store)). by destruct (m _). Qed.
Lemma sound_hub f : sound (Server.on_hub f).
Proof. intros s Hs. exact Hs. Qed.
Lemma sound_ext {A} (m : io E A) : sound (Server.on_ext m).
Proof. intros s Hs. unfold Server.on_ext. by destruct (m _). Qed.

Ltac sounds :=
  repeat match goal with
  | |- sound (io_ret _) => apply sound_ret
  | |- sound (io_bind _ _) => apply sound_bind; [|intros ?]
  | |- sound (Server.on_hub _) => apply sound_hub
  | |- sound (Server.on_ext _) => apply sound_ext
  | |- sound (Server.on_store _) => apply sound_store; auto using publish_keeps, claim_keeps, received_keeps, settle_keeps,
                                      requeue_keeps, enqueue_keeps, next_keeps, mark_keeps
  | |- sound (let _ := _ in _) => cbv zeta
  | |- sound (match ?x with _ => _ end) => destruct x eqn:?
  end.

Lemma ingest_sound dt env tr t t' : C.(by_event) env → sound (Server.ingest registry publish dt env tr t t').
Proof. intros Hc. unfold Server.ingest. sounds. Qed.

Lemma bound_sound t env : C.(by_event) env → sound (Server.bound_handler t env).
Proof. intros Hc. unfold Server.bound_handler. sounds. Qed.

Lemma drain_sound n now : sound (Server.drain registry publish n now).
Proof. induction n as [|n IH]; cbn [Server.drain]; sounds; apply IH. Qed.

Lemma tick_sound now : sound (Server.tick registry publish now).
Proof. unfold Server.tick. sounds. apply drain_sound. Qed.

Lemma ws_read_sound cfg tr data t t' :
  (∀ env, Decode false (envelope_fields false) zero_envelope data = Ok env → C.(by_event) env) →
  sound (ws_loop registry publish cfg tr 0 true [WsRead (Ok data) t t']).
Proof. intros Hc. cbn [ws_loop]. destruct (Decode _ _ _ data) as [env|]; sounds. apply ingest_sound. by apply Hc. Qed.

Lemma publish_handler_sound dt dec path tr t t' :
  (∀ env, dec = Ok env → env.(env_Event) = path → C.(by_event) env) →
  sound (Server.handlePublish registry publish dt dec path tr t t').
Proof.
  intros Hc. unfold Server.handlePublish. destruct dec as [env|]; [|sounds]. case_decide as He; [sounds|].
  sounds. apply ingest_sound, Hc; [done|]. by destruct (decide (env_Event env = path)).
Qed.

(** The wildcard of the publishing pattern is the last segment. *)
Lemma route_publish method segs values :
  route method segs = Endpoint ePublish values → segs = ["v1"; "events"; Get "event" values].
Proof.
  intros (m&ps&Hin&Hp&_)%route_in_reaches. unfold patterns in Hin. rewrite !elem_of_cons in Hin.
  destruct_or! Hin; try discriminate Hin; [|by apply elem_of_nil in Hin]. injection Hin as -> ->.
  destruct segs as [|a [|b [|c [|]]]]; simpl in Hp; repeat case_decide; try done; naive_solver.
Qed.

(** What a request can cause, by the endpoint it reaches. *)
Lemma handler_sound cfg r t t' :
  (∀ env, r.(req_Method) = "POST" → r.(req_Segments) = ["v1"; "events"; env.(env_Event)] →
     Server.decode_publish r.(req_Body) = Ok env → C.(by_event) env) →
  (r.(req_Segments) = ["v1"; "work"; "claim"] → C.(by_worker) (Get "worker" r.(req_Query))) →
  (∀ f, r.(req_Method) = "POST" → r.(req_Segments) = ["v1"; "control"; "settle"] →
     Decode false frame_fields zero_frame r.(req_Body) = Ok f → C.(by_frame) (default_at t f)) →
  sound (Handler registry publish Sscan cfg r opening t t').
Proof.
  intros Hp Hw Hf. unfold Handler. destruct (_ && _); [sounds|].
  destruct (route _ _) as [e values| |] eqn:Hr; [|sounds..]. pose proof (route_reaches _ _ _ _ Hr) as He.
  destruct e; simpl in He; [..|sounds].
  - sounds. apply publish_handler_sound. intros env Hd Hev.
    apply (Hp env (proj1 He)); [|done]. rewrite Hev. by eapply route_publish.
  - sounds. intros s Hs. exact Hs.
  - sounds. intros s Hs. exact Hs.
  - sounds. apply sound_bind; [|intros ?; sounds]. apply sound_store, claim_keeps, Hw, He.
  - unfold Server.handleReceived. sounds.
  - unfold Server.handleSettle. sounds. apply settle_keeps, Hf; [apply He..|done].
Qed.
End server.

(** ** Every step of the machine *)

Section traced.
Context {prims : Primitives} {jose : Jose} {E : Type}.
Context (registry : Registry.state) (publish : Transport → Envelope → io E (result ())) (Sscan : string → option Z).
Context (p : plan) (secure : string → SecureTransport.config).
Context (Hdpop : p.(p_dpop) = true) (Hfresh : ∀ name, (0 ≤ (secure name).(SecureTransport.freshness) < two63 - 1)%Z).

Abbreviation step := (node_step registry publish Sscan p secure).
Abbreviation run := (node_run registry publish Sscan p secure).

(** What gets past the middleware is the health check, which does nothing, or an
    authentic request. *)
Lemma serve_authentic t t' r now v (s : Server.state E) o v' s' :
  (v.(MaxSkew) < two63 - 1)%Z →
  serve (api registry publish Sscan p.(p_settings) opening t t') p r now (v, s) = (o, (v', s')) →
  v'.(MaxSkew) = v.(MaxSkew) ∧
  ((s' = s ∧ ∀ tr out, o ≠ Served (StreamWS tr out)) ∨
   (∃ x, o = Served x ∧ authentic_request v.(MaxSkew) r now ∧ Handler registry publish Sscan p.(p_settings) r opening t t' s = (x, s'))).
Proof.
  intros Hw Hserve. unfold serve in Hserve. rewrite Hdpop in Hserve.
  destruct (dpopMiddleware_cases (api registry publish Sscan p.(p_settings) opening t t') r now v s)
    as [(text&u&H&Hu&_)|[(H&Hm&Hpath)|(u&H&_&Hv)]]; rewrite Hserve in H; injection H as -> -> ->.
  - split; [destruct Hu as [->| ->]; [done|apply Verify_MaxSkew]|left; done].
  - split; [done|]. left. split; [by apply healthz_harmless|]. apply path_healthz in Hpath.
    intros tr out. unfold api, Handler. destruct (_ && _); [done|]. rewrite Hpath, Hm. done.
  - split; [by rewrite <- (Verify_MaxSkew (proof_of r) r.(req_Method) (target_of r) (access_of r) now v), Hv|].
    right. exists (api registry publish Sscan p.(p_settings) opening t t' r s).1. split_and!; [done| |apply surjective_pairing].
    unfold Verify in Hv. destruct (open_proof (proof_of r)) as [[key claims]|] eqn:Ho; [|done]. exists key, claims.
    destruct (check_claims _ _ _ _ _ _) as [[]|] eqn:Hc; [|done].
    apply check_claims_ok in Hc as (_&_&_&_&?&?&?&?); [|by apply window_range]. done.
Qed.

(** Only a request for the WebSocket path opens one. *)
Lemma stream_ws_path cfg r t t' (s : Server.state E) tr out s' :
  Handler registry publish Sscan cfg r opening t t' s = (StreamWS tr out, s') → r.(req_Segments) = ["v1"; "events"; "ws"].
Proof.
  unfold Handler, io_bind, io_ret. destruct (_ && _); [done|].
  destruct (route _ _) as [e values| |] eqn:Hr; [|done..]. apply route_reaches in Hr.
  destruct e; simpl in Hr; try done; try (by destruct Hr);
    match goal with |- context [let '(_, _) := ?m in _] => by destruct m end.
Qed.

(** What the verifying handler passes on is authentic. *)
Lemma handle_authentic name t m now q (s : Server.state E) :
  let '(_, (_, s')) := SecureTransport.handle (λ (_ : ()) env, Server.bound_handler t env) (secure name) tt now m (q, s) in
  s' = s ∨ (authentic_message (secure name) m now ∧ s' = (Server.bound_handler t (set_Security None m) s).2).
Proof.
  destruct (handle_cases (λ (_ : ()) env, Server.bound_handler t env) (secure name) tt now m q s)
    as [(sec&peer&Hsec&Ht&Hc)|[_ [e ->]]]; [|by left].
  unfold try_attempt, attempt_of, VerifyPoP in Hc. cbn [at_peer at_proof at_method at_target at_env at_now] in Hc.
  destruct (checkPoP _ _ _ _ _ _ _) as [[]|] eqn:Hck; [|destruct Hc as [_ ->]; by left].
  destruct (sweep _ _ !! _); destruct Hc as [_ ->]; [by left|].
  destruct (Server.bound_handler t _ s) as [r s'] eqn:Happ. right. split; [|done]. exists sec, peer.
  apply checkPoP_ok in Hck; [|apply Hfresh]. by split_and!.
Qed.

(** The whole of the inputs, of which the machine has seen some. *)
Context (skew : Z) (xs : list input) (sessions : list Request) (Hskew : (skew < two63 - 1)%Z).

Definition causes_of : causes :=
  mkCauses (admitted p secure skew xs sessions) (claimed_by skew xs) (settled_by skew xs).

Record traced (n : node (E:=E)) : Prop := {
  tr_skew : n.(nd_verifier).(MaxSkew) = skew;
  tr_tables : explained causes_of (tables n);
  tr_sessions : ∀ r, r ∈ n.(nd_sessions) → ∃ now t t',
    InRequest r now t t' ∈ xs ∧ authentic_request skew r now ∧ r.(req_Segments) = ["v1"; "events"; "ws"];
}.

Lemma request_traced r now t t' n : InRequest r now t t' ∈ xs → traced n → traced (step n (InRequest r now t t')).
Proof.
  intros Hin [Hs Ht Hw]. simpl. destruct (serve _ _ _ _ _) as [o [v' s']] eqn:Hserve.
  apply serve_authentic in Hserve as [Hv Hcases]; [|by rewrite Hs]. rewrite Hs in Hv, Hcases.
  destruct Hcases as [[-> Ho]|(x&->&Ha&Hh)].
  - split; [done|done|]. destruct o as [|[]]; try done. by destruct (Ho transport sent).
  - split; [done| |]; simpl.
    + change s' with ((x, s').2). rewrite <- Hh. refine (handler_sound _ _ _ causes_of _ _ _ _ _ _ _ _ Ht); simpl.
      * intros env Hm Hseg Hd. by eapply admitted_post.
      * intros Hseg. by exists r, now, t, t'.
      * intros f Hm Hseg Hd. by exists r, now, t, t', f.
    + destruct x; try done. intros r0 [?|Hr]%elem_of_app; [by apply Hw|]. apply list_elem_of_singleton in Hr as ->.
      exists now, t, t'. split_and!; [done..|]. by eapply stream_ws_path.
Qed.

Lemma ws_traced k data t t' n :
  InWs k data t t' ∈ xs → n.(nd_sessions) `prefix_of` sessions → traced n → traced (step n (InWs k data t t')).
Proof.
  intros Hin Hpre [Hs Ht Hw]. simpl. destruct (nd_sessions n !! k) as [r|] eqn:Hk; [|done]. split; [done| |done].
  destruct (Hw r) as (now&u&u'&Hr&Ha&Hseg); [by eapply list_elem_of_lookup_2|].
  refine (ws_read_sound _ _ causes_of _ _ _ _ _ _ _ Ht). intros env Hd.
  eapply admitted_ws; [done..| |done|done]. by eapply prefix_lookup_Some.
Qed.

Lemma message_traced name m now t n : InMessage name m now t ∈ xs → traced n → traced (step n (InMessage name m now t)).
Proof.
  intros Hin [Hs Ht Hw]. unfold node_step. case_decide as Hb; [|done].
  pose proof (handle_authentic name t m now n.(nd_provider) n.(nd_server)) as Hh.
  destruct (SecureTransport.handle _ _ _ _ _ _) as [res [q s']]. split; [done| |done].
  destruct Hh as [->|[Ha ->]]; [done|]. refine (bound_sound causes_of _ _ _ _ Ht). by eapply admitted_message.
Qed.

(** Sessions are only added. *)
Lemma step_sessions x n : n.(nd_sessions) `prefix_of` (step n x).(nd_sessions).
Proof.
  destruct x as [r now t t'|k data t t'|name m now t|now|fs]; unfold node_step; try done.
  - destruct (serve _ _ _ _ _) as [o [v s]]. simpl. destruct o as [|[]]; try done. by apply prefix_app_r.
  - by destruct (nd_sessions n !! k).
  - case_decide; [|done]. by destruct (SecureTransport.handle _ _ _ _ _ _) as [? []].
Qed.

Lemma run_sessions ys n : n.(nd_sessions) `prefix_of` (run ys n).(nd_sessions).
Proof. revert n. induction ys as [|y ys IH]; intros n; [done|]. simpl. etrans; [apply step_sessions|apply IH]. Qed.

Lemma step_traced x n : x ∈ xs → n.(nd_sessions) `prefix_of` sessions → traced n → traced (step n x).
Proof.
  destruct x as [r now t t'|k data t t'|name m now t|now|fs]; intros Hin Hpre Hn;
    [by apply request_traced|by apply ws_traced|by apply message_traced|..]; destruct Hn as [Hs Ht Hw]; split; try done.
  by apply (tick_sound registry publish causes_of).
Qed.

Lemma run_traced ys n : ys ⊆ xs → (run ys n).(nd_sessions) `prefix_of` sessions → traced n → traced (run ys n).
Proof.
  revert n. induction ys as [|y ys IH]; intros n Hsub Hpre Hn; [done|]. simpl. apply IH; [|done|].
  - intros z Hz. apply Hsub, elem_of_cons. by right.
  - apply step_traced; [apply Hsub, elem_of_cons; by left| |done]. etrans; [apply (run_sessions (y :: ys))|done].
Qed.
End traced.

(** Whatever has happened, everything stored is explained by what came in. *)
Lemma run_explained {prims : Primitives} {jose : Jose} {E} registry (publish : Transport → Envelope → io E (result ())) Sscan
  p secure n0 xs :
  p.(p_dpop) = true → (∀ name, 0 ≤ (secure name).(SecureTransport.freshness) < two63 - 1)%Z →
  (n0.(nd_verifier).(MaxSkew) < two63 - 1)%Z → tables n0 = empty_db → n0.(nd_sessions) = [] →
  let n := node_run registry publish Sscan p secure xs n0 in
  explained (causes_of p secure n0.(nd_verifier).(MaxSkew) xs n.(nd_sessions)) (tables n).
Proof.
  intros Hp Hf Hs Hd Hw. apply (run_traced registry publish Sscan p secure Hp Hf _ xs _ Hs xs n0); [done|done|].
  split; [done| |by rewrite Hw; intros r ?%elem_of_nil]. rewrite Hd. split; simpl; intros id *; by rewrite lookup_empty.
Qed.

(** * Theorems *)

(** C1: Everything in the store is accounted for.  Take a daemon started without
    [-insecure-dev], with DPoP required, on an empty database, and let come what
    may, in any order: requests, WebSocket messages, deliveries of the bound
    transports, maintenance, failing queries.  Then every event in its store is
    the text of an envelope that was posted to the path of its event by a request
    with a valid DPoP proof (by the key the proof embeds), or sent over the
    WebSocket that such a request opened, or delivered by a bound transport with a
    signature over exactly that envelope, made for that transport within two
    minutes of its arrival, by this daemon or a peer of its trust file; every
    lease is held by a worker that a request with a valid proof named; and every
    settlement is the frame of such a request. *)
Theorem provenance {prims : Primitives} {jose : Jose} {E} (publish : Transport → Envelope → io E (result ())) Sscan
  Getenv trustFile fl o f dm f' e xs :
  main Getenv trustFile fl o f = (Ok dm, f') → fl.(f_insecure) = false → fl.(f_dpop) = true → tables_of f = empty_db →
  let n := node_run dm.(dm_plan).(p_registry) publish Sscan dm.(dm_plan) dm.(dm_secure) xs (started dm e) in
  let d := tables n in
  (∀ id r, d.(events) !! id = Some r →
     ∃ env, admitted dm.(dm_plan) dm.(dm_secure) (5 * Minute) xs n.(nd_sessions) env ∧ env.(env_ID) = id ∧ json_Marshal env = Ok r.(ev_envelope)) ∧
  (∀ id r w, d.(events) !! id = Some r → r.(ev_owner) = Some w → claimed_by (5 * Minute) xs w) ∧
  (∀ id st, d.(settlements) !! id = Some st → ∃ frame, settled_by (5 * Minute) xs frame ∧ frame.(fr_EventID) = id ∧ st = row_of frame) ∧
  (∀ name, (dm.(dm_secure) name).(SecureTransport.freshness) = (2 * Minute)%Z ∧
     ∀ id peer, (dm.(dm_secure) name).(SecureTransport.trust) !! id = Some peer →
       peer.(pb_KeyID) = id ∧ (peer = Public dm.(dm_provider) ∨
         ∃ raw peers, trustFile ≠ "" ∧ o.(oc_trust) = Ok raw ∧ unmarshal_bundles raw = Ok peers ∧ peer ∈ peers)).
Proof.
  intros (Hc&_&Ht&Hp&Hs&_)%main_inv Hi Hd Hf n d. apply plan_protected in Hp as [(?&?&_&_&_&_&_&_&_&Hp) _]; [done|].
  destruct (run_explained dm.(dm_plan).(p_registry) publish Sscan dm.(dm_plan) dm.(dm_secure) (started dm e) xs) as [H1 H2 H3];
    [by rewrite Hp|by rewrite Hs|done|unfold tables, started; simpl; by rewrite Hc|done|].
  split_and!; [exact H1|exact H2|exact H3|]. rewrite Hs. intros name. split; [done|]. intros id peer. by eapply trust_origin.
Qed.

(** * Closed instances: a signed delivery, a post, a claim and a settlement with
    their proofs, and the same without. *)

#[local] Existing Instance toy.
#[local] Existing Instance toy_laws.

(** Alice's own daemon. *)
Definition ex_daemon : daemon :=
  value_or (mkDaemon (mkHandle empty_file new_connection) ex_bob ∅ ex_plan (λ n, SecureTransport.mkConfig n ∅ 0) [])
    (main ex_env_vars "" ex_flags ex_outcomes empty_file).1.
Abbreviation ex_secure := (dm_secure ex_daemon).

Definition proven (jti method : string) (segs : list string) (query : list (string * string)) (body : bytes) : Request :=
  let bare := mkHttpRequest method "ubiq:8443" segs true query [] body in
  mkHttpRequest method "ubiq:8443" segs true query
    [("Dpop", client_proof "k"%char jti method (target_of bare) "token" ex_dpop_now); ("Authorization", "Bearer token")] body.
Definition posted : Envelope :=
  mkEnvelope "evt-2" "Financial.createInvoice.request" "corr-2" "" "idem-2" "Financial.createInvoice.request@1" (to_bytes "{}")
    "processed" 1000 None.
Definition ex_settle_text : bytes :=
  object [("kind", quote ControlSettledOK); ("event_id", quote "evt-1"); ("worker_id", quote "w"); ("fencing_token", format_int 1);
          ("at_ms", format_int 5)].
Definition ex_inputs : list input :=
  [InMessage "tcp" ex_envelope ex_dpop_now ex_dpop_now;
   InMessage "tcp" (value_or ex_envelope (SecureTransport.sign (ex_secure "tcp") ex_daemon.(dm_provider) ex_envelope ex_dpop_now (Ok (ex_nonce "n"))))
     ex_dpop_now ex_dpop_now;
   InRequest (mkHttpRequest "POST" "ubiq:8443" ["v1"; "events"; env_Event posted] true [] [] (value_or [] (json_Marshal posted)))
     ex_dpop_now ex_dpop_now ex_dpop_now;
   InRequest (proven "j1" "GET" ["v1"; "work"; "claim"] [("worker", "w")] []) ex_dpop_now (ex_dpop_now + Second)%Z ex_dpop_now;
   InRequest (proven "j2" "POST" ["v1"; "events"; env_Event posted] [] (value_or [] (json_Marshal posted)))
     ex_dpop_now ex_dpop_now ex_dpop_now;
   InRequest (proven "j3" "POST" ["v1"; "control"; "settle"] [] ex_settle_text) ex_dpop_now (ex_dpop_now + 2 * Second)%Z ex_dpop_now;
   InRequest (proven "j4" "GET" ["v1"; "work"; "claim"] [("worker", "w2")] []) ex_dpop_now (ex_dpop_now + Second)%Z ex_dpop_now].
Definition ex_publish (t : Transport) (env : Envelope) : io nat (result ()) := λ n, (Ok tt, S n).
Abbreviation ex_run :=
  (node_run (p_registry (dm_plan ex_daemon)) ex_publish (λ _, None) (dm_plan ex_daemon) ex_secure ex_inputs (started ex_daemon 0)).

Lemma provenance_witness :
  (∃ env, admitted (dm_plan ex_daemon) ex_secure (5 * Minute) ex_inputs (nd_sessions ex_run) env ∧ env.(env_ID) = "evt-1") ∧
  (∃ env, admitted (dm_plan ex_daemon) ex_secure (5 * Minute) ex_inputs (nd_sessions ex_run) env ∧ env.(env_ID) = "evt-2") ∧
  claimed_by (5 * Minute) ex_inputs "w2" ∧
  (∃ f, settled_by (5 * Minute) ex_inputs f ∧ f.(fr_EventID) = "evt-1").
Proof.
  destruct (provenance ex_publish (λ _, None) ex_env_vars "" ex_flags ex_outcomes empty_file ex_daemon
    (main ex_env_vars "" ex_flags ex_outcomes empty_file).2 0 ex_inputs) as (He&Ho&Hs&_);
    [unfold ex_daemon; destruct (main _ _ _ _ _) as [[dm|e] f'] eqn:Hm; [reflexivity|vm_compute in Hm; discriminate Hm]|reflexivity..|].
  destruct ((tables ex_run).(events) !! "evt-1") as [r1|] eqn:H1; [|vm_compute in H1; discriminate H1].
  destruct ((tables ex_run).(events) !! "evt-2") as [r2|] eqn:H2; [|vm_compute in H2; discriminate H2].
  destruct ((tables ex_run).(settlements) !! "evt-1") as [st|] eqn:H3; [|vm_compute in H3; discriminate H3].
  split_and!.
  - destruct (He _ _ H1) as (env&Ha&Hid&_). exists env. split; [exact Ha|exact Hid].
  - destruct (He _ _ H2) as (env&Ha&Hid&_). exists env. split; [exact Ha|exact Hid].
  - apply (Ho _ _ "w2" H2). assert (ev_owner <$> (tables ex_run).(events) !! "evt-2" = Some (Some "w2")) as H by (vm_compute; reflexivity).
    rewrite H2 in H. injection H as H. exact H.
  - destruct (Hs _ _ H3) as (f&Ha&Hid&_). exists f. split; [exact Ha|exact Hid].
Defined.
