(* ===== verification/Adapter.v ===== *)
(** * The universal adapter interface: generated/go/universal_adapter.go

    The adapter contract generated for Go, and the check that an adapter's naming
    of events can be undone.  The names the runtime's own broker adapters use are
    held against it. *)

From Stdlib Require Import ZArith Lia Ascii String.
From stdpp Require Import base list gmap sets strings.
From S2P Require Import Prelude GoRegexp JsonScan JsonText JsonRoundtrip Sha256 Model Json Transport Brokers.

Module UniversalAdapter.
Inductive Health := HealthHealthy | HealthDegraded | HealthUnhealthy.
Definition Health_string (h : Health) : string :=
  match h with HealthHealthy => "healthy" | HealthDegraded => "degraded" | HealthUnhealthy => "unhealthy" end.

Record Envelope := mkEnvelope {
  CanonicalEvent : string; MessageID : string; InteractionID : string; CorrelationID : string; Payload : bytes }.
Record Delivery := mkDelivery { DeliveryID : string; dl_CanonicalEvent : string; dl_TransportName : string }.
Record Capabilities := mkCaps {
  Reliable : bool; Ordered : bool; Durable : bool; Replay : bool; RequestReply : bool; PubSub : bool }.

(** The interface, over the state [W] of the outside. *)
Record UniversalAdapter (W : Type) := mkUniversalAdapter {
  Open : bytes → io W (result ());
  Close : io W (result ());
  Publish : Envelope → io W (result ());
  Subscribe : string → (Envelope → Delivery → io W (result ())) → io W (result ());
  Ack : Delivery → io W (result ());
  Nack : Delivery → string → io W (result ());
  GetHealth : io W Health;
  GetCapabilities : Capabilities;
  MapCanonicalToTransport : string → result string;
  MapTransportToCanonical : string → result string;
}.
Arguments MapCanonicalToTransport {W} _ _.
Arguments MapTransportToCanonical {W} _ _.

(** Factories by name. *)
Definition AdapterFactory (W : Type) : Type := () → UniversalAdapter W.
Definition AdapterRegistry (W : Type) : Type := gmap string (AdapterFactory W).

(** [ErrMappingNotReversible]. *)
Definition ErrMappingNotReversible (canonical transport restored : string) : error :=
  ErrFmt "universal adapter event mapping is not reversible" [canonical; transport; restored].

Definition AssertCanonicalRoundTrip {W} (adapter : UniversalAdapter W) (canonical : string) : result () :=
  try mapped := MapCanonicalToTransport adapter canonical in
  try restored := MapTransportToCanonical adapter mapped in
  if decide (restored ≠ canonical) then Err (ErrMappingNotReversible canonical mapped restored) else Ok tt.
End UniversalAdapter.
Import UniversalAdapter.

(** ** The names of the runtime's adapters *)

(** What undoes [canonicalSubject]. *)
Definition subject_event (prefix subject : string) : result string :=
  let p := to_bytes (if decide (prefix = "") then "" else TrimSuffix "." prefix ++ ".")%string in
  if decide (take (length p) (to_bytes subject) = p) then Ok (of_bytes (drop (length p) (to_bytes subject)))
  else Err (ErrNew "foreign subject").

(** An adapter with a given naming; the rest of it does not matter here. *)
Definition naming {W} (there back : string → result string) (inert : UniversalAdapter W) : UniversalAdapter W :=
  mkUniversalAdapter W (Open _ inert) (Close _ inert) (Publish _ inert) (Subscribe _ inert) (Ack _ inert) (Nack _ inert)
    (GetHealth _ inert) (GetCapabilities _ inert) there back.

(** * Lemmas *)

Lemma round_trip_ok {W} (a : UniversalAdapter W) c :
  AssertCanonicalRoundTrip a c = Ok tt ↔
  ∃ t, MapCanonicalToTransport a c = Ok t ∧ MapTransportToCanonical a t = Ok c.
Proof.
  unfold AssertCanonicalRoundTrip. split.
  - destruct (MapCanonicalToTransport a c) as [t|]; [|done]. destruct (MapTransportToCanonical a t) as [r|] eqn:Hr; [|done].
    destruct (decide (r ≠ c)) as [|Heq%dec_stable]; [done|]. subst r. by exists t.
  - intros (t&->&->). by rewrite decide_False by (intros H; by apply H).
Qed.

(** * Theorems *)

(** The round-trip check is what reversibility means: it passes for an event
    exactly when the adapter gives the event a name and gives that name back as
    the event; and events that pass have names of their own, so that no adapter
    that passes for two different events sends both to the same place. *)
Theorem round_trip_reversible {W} (a : UniversalAdapter W) c1 c2 :
  (AssertCanonicalRoundTrip a c1 = Ok tt ↔
     ∃ t, MapCanonicalToTransport a c1 = Ok t ∧ MapTransportToCanonical a t = Ok c1) ∧
  (AssertCanonicalRoundTrip a c1 = Ok tt → AssertCanonicalRoundTrip a c2 = Ok tt →
     MapCanonicalToTransport a c1 = MapCanonicalToTransport a c2 → c1 = c2) ∧
  (∀ t r, MapCanonicalToTransport a c1 = Ok t → MapTransportToCanonical a t = Ok r → r ≠ c1 →
     AssertCanonicalRoundTrip a c1 = Err (ErrMappingNotReversible c1 t r)).
Proof.
  split_and!; [apply round_trip_ok| |].
  - intros (t1&H1&B1)%round_trip_ok (t2&H2&B2)%round_trip_ok Heq. rewrite H1, H2 in Heq. injection Heq as <-. congruence.
  - intros t r Ht Hr Hne. unfold AssertCanonicalRoundTrip. by rewrite Ht, Hr, decide_True.
Qed.

(** The subjects of the NATS adapter satisfy the contract for every event and
    prefix. *)
Theorem subjects_reversible {W} (inert : UniversalAdapter W) prefix event :
  AssertCanonicalRoundTrip (naming (λ e, Ok (canonicalSubject prefix e)) (subject_event prefix) inert) event = Ok tt.
Proof.
  apply round_trip_ok. eexists; split; [done|]. simpl. unfold subject_event, canonicalSubject.
  destruct (decide (prefix = "")) as [->|Hp].
  - rewrite decide_True by done. change (drop (length (to_bytes "")) (to_bytes event)) with (to_bytes event).
    by rewrite string_of_list_ascii_of_string.
  - set (p := (TrimSuffix "." prefix ++ ".")%string).
    assert (to_bytes (TrimSuffix "." prefix ++ "." ++ event)%string = to_bytes p ++ to_bytes event) as ->
      by (unfold p; by rewrite !to_bytes_app, <- app_assoc).
    rewrite take_app_length, decide_True, drop_app_length by done. by rewrite string_of_list_ascii_of_string.
Qed.

(** The sanitized names of durable consumers and queues do not: whatever is
    chosen to undo them, some valid event fails the check. *)
Theorem sanitized_names_irreversible {W} (inert : UniversalAdapter W) back :
  ∃ event, canonical_name event = true ∧
    AssertCanonicalRoundTrip (naming (λ e, Ok (sanitizeName e)) back inert) event ≠ Ok tt.
Proof.
  destruct (decide (AssertCanonicalRoundTrip (naming (λ e, Ok (sanitizeName e)) back inert) "Billing.invoice.paid.ok" = Ok tt)) as [H|H];
    [|by exists "Billing.invoice.paid.ok"].
  exists "Billing.invoice_paid.ok". split; [done|]. intros H'.
  apply round_trip_ok in H as (t&[= <-]&Hb), H' as (t&[= <-]&Hb'). simpl in Hb, Hb'.
  change (sanitizeName "Billing.invoice_paid.ok") with (sanitizeName "Billing.invoice.paid.ok") in Hb'. congruence.
Qed.
